(** * tiktok-monitor: state store, webhook delivery and poll scheduler

    A shallow embedding of the core of the monitor:
    - [StateManager]    (state/state-manager.ts)
    - [WebhookClient]   (webhook/webhook-client.ts)
    - [PollingScheduler] (scheduler/polling-scheduler.ts)

    Conventions of the embedding.
    - A JavaScript [number] that the program uses as a count, a status code,
      a duration or a time value is an integer [Z]; fractional numbers, NaN
      and the infinities are outside the model.
    - A [Date] is its time value in milliseconds ([Z]); the Invalid Date is
      outside the model.
    - A [Map] is an association list in insertion order with unique keys.
    - An [async] method is a state transformer over a [World] that holds the
      in-memory state of the manager, the backing file and the trace of the
      observable effects; a rejected promise is the [Throw] completion.
    - The outside world (clock, network, file-system faults, the platform's
      date codec) is an [Env] of oracles; an oracle is asked at the logical
      time of the call, which is the number of effects observed so far. *)

From Stdlib Require Import ZArith NArith List String Ascii Bool Lia.
From Stdlib Require Import Permutation Sorted.
From Stdlib Require Import DecimalString DecimalZ.
Import ListNotations.

Local Open Scope Z_scope.
Local Open Scope list_scope.

Set Implicit Arguments.
Set Warnings "-register-all".

(* ================================================================= *)
(** ** Platform data: arrays, maps, objects *)

(** [Array.prototype.sort(cmp)]: the sort is stable, so for a consistent
    comparator its result is the stable sorted arrangement, which a
    stable insertion sort computes.  [cmp a b <= 0] keeps [a] before [b]. *)
Section ArraySort.
Variable A : Type.
Variable cmp : A -> A -> Z.

Fixpoint Array_insert (x : A) (l : list A) : list A :=
  match l with
  | [] => [x]
  | y :: l' => if cmp x y <=? 0 then x :: l else y :: Array_insert x l'
  end.

Fixpoint Array_sort (l : list A) : list A :=
  match l with
  | [] => []
  | x :: l' => Array_insert x (Array_sort l')
  end.
End ArraySort.

(** [Array.prototype.slice(0, end)] for an integer [end]: a negative [end]
    counts from the end of the array. *)
Definition Array_slice0 (A : Type) (end_ : Z) (l : list A) : list A :=
  let len := Z.of_nat (List.length l) in
  let final := if end_ <? 0 then Z.max (len + end_) 0 else Z.min end_ len in
  firstn (Z.to_nat final) l.

(** [Array.prototype.indexOf] on an array of strings; -1 when absent. *)
Fixpoint Array_indexOf (x : string) (l : list string) : Z :=
  match l with
  | [] => -1
  | y :: l' =>
      if String.eqb x y then 0
      else let i := Array_indexOf x l' in if i <? 0 then -1 else i + 1
  end.

(** The JavaScript [Map] keyed by strings. *)
Module JsMap.
Section Defs.
Variable V : Type.

Definition t := list (string * V).

Definition empty : t := [].

Fixpoint get (k : string) (m : t) : option V :=
  match m with
  | [] => None
  | (k', v) :: m' => if String.eqb k k' then Some v else get k m'
  end.

Definition has (k : string) (m : t) : bool :=
  match get k m with Some _ => true | None => false end.

(** [set] on a present key replaces the value and keeps the position;
    a new key goes last. *)
Fixpoint set (k : string) (v : V) (m : t) : t :=
  match m with
  | [] => [(k, v)]
  | (k', v') :: m' =>
      if String.eqb k k' then (k, v) :: m' else (k', v') :: set k v m'
  end.

Definition keys (m : t) : list string := map fst m.
Definition values (m : t) : list V := map snd m.
Definition entries (m : t) : list (string * V) := m.

(** [new Map(entries)] *)
Definition of_entries (l : list (string * V)) : t :=
  fold_left (fun m kv => set (fst kv) (snd kv) m) l empty.

(** What every [Map] satisfies: no key occurs twice. *)
Definition wf (m : t) : Prop := NoDup (keys m).
End Defs.
Arguments empty {V}.
End JsMap.

(** [entries.map(([key, value]) => [key, f(value)])] *)
Definition onValue (V W : Type) (f : V -> W) (kv : string * V) : string * W :=
  (fst kv, f (snd kv)).

(** Own property order of an ordinary object: the keys that are array
    indices (canonical decimal strings below 2^32 - 1) come first, in
    ascending numeric order, then the other keys in creation order. *)
Definition isDigit (c : ascii) : bool :=
  let n := nat_of_ascii c in (48 <=? n)%nat && (n <=? 57)%nat.

Fixpoint digitsValue (s : string) (acc : N) : option N :=
  match s with
  | EmptyString => Some acc
  | String c s' =>
      if isDigit c
      then digitsValue s' (10 * acc + N.of_nat (nat_of_ascii c - 48))%N
      else None
  end.

Definition arrayIndex (s : string) : option N :=
  match s with
  | EmptyString => None
  | String c s' =>
      if Ascii.eqb c "0"%char && negb (String.eqb s' EmptyString) then None
      else match digitsValue s 0%N with
           | Some n => if (n <? 4294967295)%N then Some n else None
           | None => None
           end
  end.

Definition isArrayIndex (s : string) : bool :=
  match arrayIndex s with Some _ => true | None => false end.

Definition indexOrder (V : Type) (a b : string * V) : Z :=
  match arrayIndex (fst a), arrayIndex (fst b) with
  | Some i, Some j => Z.of_N i - Z.of_N j
  | _, _ => 0
  end.

Definition ownPropertyOrder (V : Type) (l : list (string * V))
  : list (string * V) :=
  Array_sort (@indexOrder V) (filter (fun kv => isArrayIndex (fst kv)) l)
  ++ filter (fun kv => negb (isArrayIndex (fst kv))) l.

(** [Object.fromEntries(entries)] followed by [Object.entries]: the entries
    of the object that [entries] builds, in own property order. *)
Definition Object_fromEntries (V : Type) (l : list (string * V))
  : list (string * V) :=
  ownPropertyOrder (JsMap.of_entries l).

(* ================================================================= *)
(** ** JSON values *)

(** What [JSON.parse] returns.  The entries of a [JObj] are the own
    properties of the parsed object, in own property order. *)
Inductive json : Type :=
| JNull
| JBool (b : bool)
| JNum (n : Z)
| JStr (s : string)
| JArr (items : list json)
| JObj (props : list (string * json)).

(** Property read [j.name] on a parsed value other than [null]:
    [None] is [undefined]. *)
Definition json_prop (name : string) (j : json) : option json :=
  match j with
  | JObj props => JsMap.get name props
  | _ => None
  end.

(** Truthiness, for [x || {}]. *)
Definition truthy (j : json) : bool :=
  match j with
  | JNull => false
  | JBool b => b
  | JNum n => negb (n =? 0)
  | JStr s => negb (String.eqb s EmptyString)
  | JArr _ => true
  | JObj _ => true
  end.

Fixpoint stringChars (i : nat) (s : string) : list (string * json) :=
  match s with
  | EmptyString => []
  | String c s' =>
      (NilZero.string_of_uint (Nat.to_uint i), JStr (String c EmptyString))
      :: stringChars (S i) s'
  end.

Fixpoint arrayItems (i : nat) (l : list json) : list (string * json) :=
  match l with
  | [] => []
  | x :: l' => (NilZero.string_of_uint (Nat.to_uint i), x) :: arrayItems (S i) l'
  end.

(** [Object.entries(x)] for a truthy parsed value [x]. *)
Definition Object_entries (j : json) : list (string * json) :=
  match j with
  | JObj props => props
  | JArr items => arrayItems 0 items
  | JStr s => stringChars 0 s
  | _ => []
  end.

(** [Object.entries(x || {})] where [x] is a property that may be absent. *)
Definition entriesOrEmpty (x : option json) : list (string * json) :=
  match x with
  | Some j => if truthy j then Object_entries j else []
  | None => []
  end.

(* ================================================================= *)
(** ** Data model *)

(** An error value: [message], and [code] for a file-system error. *)
Record JsError : Type := mkError {
  errName : string;
  errMessage : string;
  errCode : option string
}.

Definition TypeError (msg : string) : JsError :=
  mkError "TypeError" msg None.
Definition SyntaxError (msg : string) : JsError :=
  mkError "SyntaxError" msg None.
Definition RangeError (msg : string) : JsError :=
  mkError "RangeError" msg None.

(** The error, if any, that the conversion of a parsed object or array
    to a string throws.  An array is converted by [join], which converts
    each item in turn ([null] gives the empty text), an array in it by
    [join] again; [depth] is the number of such nested calls that the
    call stack still has room for, and the call that exceeds it throws a
    RangeError.  An object converts to a fixed text, unless an own
    property [toString] shadows the inherited method: a parsed property
    is never callable and the inherited [valueOf] returns the object
    itself, so that the conversion throws a TypeError. *)
Fixpoint conversionError (depth : nat) (j : json) {struct j} : option JsError :=
  match j with
  | JObj props =>
      if existsb (fun kv => String.eqb (fst kv) "toString") props
      then Some (TypeError "Cannot convert object to primitive value")
      else None
  | JArr items =>
      match depth with
      | O => Some (RangeError "Maximum call stack size exceeded")
      | S depth' =>
          (fix first (l : list json) : option JsError :=
             match l with
             | [] => None
             | x :: l' =>
                 match conversionError depth' x with
                 | Some e => Some e
                 | None => first l'
                 end
             end) items
      end
  | _ => None
  end.
Definition ENOENT : JsError :=
  mkError "Error" "ENOENT: no such file or directory" (Some "ENOENT"%string).

(** How a call completes: with a value, or by throwing. *)
Inductive Completion (A : Type) : Type :=
| Normal (a : A)
| Throw (e : JsError).
Arguments Normal {A} a.
Arguments Throw {A} e.

(** state-manager.ts: ["pending" | "sent" | "failed"] *)
Inductive WebhookStatus : Type := Pending | Sent | Failed.

Definition WebhookStatus_eqb (a b : WebhookStatus) : bool :=
  match a, b with
  | Pending, Pending | Sent, Sent | Failed, Failed => true
  | _, _ => false
  end.

Definition statusName (s : WebhookStatus) : string :=
  match s with
  | Pending => "pending"
  | Sent => "sent"
  | Failed => "failed"
  end.

Definition statusOfName (s : string) : option WebhookStatus :=
  if String.eqb s "pending" then Some Pending
  else if String.eqb s "sent" then Some Sent
  else if String.eqb s "failed" then Some Failed
  else None.

(** state-manager.ts: [interface ProcessedVideo] *)
Record ProcessedVideo : Type := mkProcessedVideo {
  videoId : string;
  author : string;
  processedAt : Z;
  webhookStatus : WebhookStatus;
  retryCount : Z
}.

(** state-manager.ts: [interface State] *)
Record State : Type := mkState {
  processedVideos : JsMap.t ProcessedVideo;
  lastCheckTimes : JsMap.t Z
}.

Definition emptyState : State := mkState JsMap.empty JsMap.empty.

Definition DEFAULT_HISTORY_LIMIT : Z := 100.

(** tiktok-scraper.ts: [interface VideoMetadata] *)
Record VideoStats : Type := mkStats {
  plays : Z; likes : Z; comments : Z; shares : Z
}.

Record VideoMetadata : Type := mkVideo {
  id : string;
  url : string;
  downloadUrl : string;
  description : string;
  vAuthor : string;
  publishedAt : Z;
  thumbnailUrl : option string;
  duration : option Z;
  stats : option VideoStats
}.

(** webhook-client.ts: [interface WebhookPayload] *)
Record WebhookPayload : Type := mkPayload {
  pVideoId : string;
  pVideoUrl : string;
  pDownloadUrl : string;
  pDescription : string;
  pAuthor : string;
  pPublishedAt : string;
  pThumbnailUrl : option string;
  pDuration : option Z;
  pStats : option VideoStats
}.

(** webhook-client.ts: [interface WebhookResult] *)
Record WebhookResult : Type := mkResult {
  success : bool;
  statusCode : option Z;
  error : option string;
  attempts : Z
}.

(** What [axios.post] does: it resolves with the response status, or it
    rejects with an [AxiosError] ([response?.status], [message]). *)
Inductive AxiosOutcome : Type :=
| Resolved (status : Z)
| Rejected (status : option Z) (message : string).

(** config-manager.ts: [interface Config] *)
Record Config : Type := mkConfig {
  webhookUrl : string;
  pollingInterval : Z;
  authors : list string;
  maxRetries : Z
}.

(** The messages the scheduler hands to its logger, one constructor per
    template of the source:
    - [LogNoAuthors]: No authors configured for monitoring
    - [LogCheckingAuthors n]: Checking n author(s) for new videos...
    - [LogErrorChecking a msg]: Error checking author a: msg
    - [LogCycleCompleted]: Poll cycle completed
    - [LogCheckingAuthor a]: Checking author: a
    - [LogNoNewVideos a]: No new videos from a
    - [LogFound n a]: Found n new video(s) from a
    - [LogProcessing v a]: Processing video: v from a
    - [LogWebhookSent v n]: Successfully sent webhook for video v (n attempt(s))
    - [LogWebhookFailed v n err]: Failed to send webhook for video v after
      n attempt(s): err
    - [LogNoFailedWebhooks]: No failed webhooks to retry
    - [LogRetrying n]: Retrying n failed webhook(s)...
    - [LogExceeded v]: Video v exceeded max retries, skipping
    - [LogNoMetadata v]: Could not fetch metadata for video v, skipping retry
    - [LogRetryOk v]: Retry successful for video v
    - [LogRetryFailed v]: Retry failed for video v *)
Inductive LogMsg : Type :=
| LogNoAuthors
| LogCheckingAuthors (n : nat)
| LogErrorChecking (a : string) (msg : string)
| LogCycleCompleted
| LogCheckingAuthor (a : string)
| LogNoNewVideos (a : string)
| LogFound (n : nat) (a : string)
| LogProcessing (v : string) (a : string)
| LogWebhookSent (v : string) (n : Z)
| LogWebhookFailed (v : string) (n : Z) (err : option string)
| LogNoFailedWebhooks
| LogRetrying (n : nat)
| LogExceeded (v : string)
| LogNoMetadata (v : string)
| LogRetryOk (v : string)
| LogRetryFailed (v : string).

(** The text of the backing file, as [JSON.parse] sees it. *)
Inductive FileText : Type :=
| NotJSON (raw : string)     (* JSON.parse throws a SyntaxError *)
| JSONText (j : json).       (* JSON.parse returns j *)

(** The backing file, as [fs.readFile] sees it: the read fails (with
    [ENOENT] when there is no file), or it yields the text. *)
Inductive Disk : Type :=
| ReadFails (e : JsError)
| FileWith (t : FileText).

Definition noFile : Disk := ReadFails ENOENT.

(** The observable effects. *)
Inductive Event : Type :=
| EvLog (m : LogMsg)
| EvGetLatestVideos (a : string) (limit : Z)
| EvGetVideoById (v : string)
| EvPost (p : WebhookPayload)
| EvSleep (ms : Z)                  (* the backoff sleep of the client *)
| EvDelay (ms : Z)                  (* the delay between two authors *)
| EvWriteFile (j : json)            (* fs.writeFile succeeded *)
| EvWriteFailed (e : JsError).      (* mkdir or fs.writeFile failed *)

(** The outside world.  The index is the logical time of the call. *)
Record Env : Type := mkEnv {
  toISOString : Z -> string;                       (* Date.prototype.toISOString *)
  Date_parse : string -> option Z;                 (* new Date(string); None is the Invalid Date *)
  Date_now : nat -> Z;                             (* new Date() *)
  jitter : nat -> Z;                               (* 1000 + Math.random() * 2000 *)
  axios_post : nat -> WebhookPayload -> AxiosOutcome;
  scraper_getLatestVideos : nat -> string -> Z -> Completion (list VideoMetadata);
  scraper_getVideoById : nat -> string -> Completion (option VideoMetadata);
  fs_writeFile : nat -> option JsError;            (* the fault of mkdir/writeFile, if any *)
  stack_depth : nat                                (* nested calls the call stack has room for *)
}.

Record World : Type := mkWorld {
  mem : State;            (* StateManager.state *)
  disk : Disk;            (* the file at statePath *)
  trace : list Event      (* oldest first *)
}.

Definition now (w : World) : nat := List.length (trace w).

(* ================================================================= *)
(** ** Async methods as state transformers *)

Definition M (A : Type) : Type := World -> Completion A * World.

Definition ret (A : Type) (a : A) : M A := fun w => (Normal a, w).

Definition throw (A : Type) (e : JsError) : M A := fun w => (Throw e, w).
Arguments throw {A} e.

Definition bind (A B : Type) (m : M A) (k : A -> M B) : M B :=
  fun w =>
    match m w with
    | (Normal a, w') => k a w'
    | (Throw e, w') => (Throw e, w')
    end.

(** [try { m } catch (error) { h error }] *)
Definition tryCatch (A : Type) (m : M A) (h : JsError -> M A) : M A :=
  fun w =>
    match m w with
    | (Normal a, w') => (Normal a, w')
    | (Throw e, w') => h e w'
    end.

Notation "x <- m ;; k" := (bind m (fun x => k))
  (at level 61, m at next level, right associativity).
Notation "m ;; k" := (bind m (fun _ => k))
  (at level 61, right associativity).

Definition emit (e : Event) : M unit :=
  fun w => (Normal tt, mkWorld (mem w) (disk w) (trace w ++ [e])).

Definition getMem : M State := fun w => (Normal (mem w), w).

Definition setMem (s : State) : M unit :=
  fun w => (Normal tt, mkWorld s (disk w) (trace w)).

(** [for (const x of xs) { body x }] *)
Fixpoint forOf (A : Type) (xs : list A) (body : A -> M unit) : M unit :=
  match xs with
  | [] => ret tt
  | x :: xs' => body x ;; forOf xs' body
  end.

Definition logger (m : LogMsg) : M unit := emit (EvLog m).

(* ================================================================= *)
(** ** StateManager (state/state-manager.ts) *)

Section StateManager.
Variable E : Env.

(** [isProcessed(videoId)] *)
Definition isProcessed (videoId : string) (s : State) : bool :=
  JsMap.has videoId (processedVideos s).

(** [getHistory(limit)] *)
Definition getHistory (limit : Z) (s : State) : list ProcessedVideo :=
  let videos := JsMap.values (processedVideos s) in
  let sorted :=
    Array_sort (fun a b => processedAt b - processedAt a) videos in
  let effectiveLimit := Z.min limit DEFAULT_HISTORY_LIMIT in
  Array_slice0 effectiveLimit sorted.

(** [getPendingRetries()] *)
Definition getPendingRetries (s : State) : list ProcessedVideo :=
  filter (fun video => WebhookStatus_eqb (webhookStatus video) Failed)
         (JsMap.values (processedVideos s)).

(** The elements of that array are the objects stored in the map, not
    copies; an object is named here by the key it is stored under. *)
Definition pendingRetryRefs (s : State) : list string :=
  map fst
      (filter (fun kv => WebhookStatus_eqb (webhookStatus (snd kv)) Failed)
              (JsMap.entries (processedVideos s))).

(** [getProcessedVideoIds()] *)
Definition getProcessedVideoIds (s : State) : list string :=
  JsMap.keys (processedVideos s).

(** [getLastCheckTime(author)]; [None] is [null]. *)
Definition getLastCheckTime (a : string) (s : State) : option Z :=
  JsMap.get a (lastCheckTimes s).

(** The object literal built per record in [save]:
    [{...value, processedAt: value.processedAt.toISOString()}].
    The order of the five properties of a record is not modelled. *)
Definition videoToJSON (v : ProcessedVideo) : json :=
  JObj [ ("videoId"%string, JStr (videoId v));
         ("author"%string, JStr (author v));
         ("processedAt"%string, JStr (toISOString E (processedAt v)));
         ("webhookStatus"%string, JStr (statusName (webhookStatus v)));
         ("retryCount"%string, JNum (retryCount v)) ].

(** [stateJSON] in [save]. *)
Definition stateToJSON (s : State) : json :=
  JObj [ ("processedVideos"%string,
          JObj (Object_fromEntries
                  (map (onValue videoToJSON)
                       (JsMap.entries (processedVideos s)))));
         ("lastCheckTimes"%string,
          JObj (Object_fromEntries
                  (map (onValue (fun t => JStr (toISOString E t)))
                       (JsMap.entries (lastCheckTimes s))))) ].

(** [save()]: the directory is made and the file is written in one
    file-system step, which the environment may fail.  The faults of the
    model are those met before the file is opened for writing
    ([fs.mkdir] fails, or [fs.writeFile] cannot open the file): they
    leave the file as it was.  A write that is cut short after the file
    was opened, and the shortened file it leaves, is outside the model.
    The written text parses back to the value that was stringified. *)
Definition save : M unit :=
  fun w =>
    match fs_writeFile E (now w) with
    | None =>
        let j := stateToJSON (mem w) in
        (Normal tt,
         mkWorld (mem w) (FileWith (JSONText j)) (trace w ++ [EvWriteFile j]))
    | Some e =>
        (Throw e, mkWorld (mem w) (disk w) (trace w ++ [EvWriteFailed e]))
    end.

(** [markProcessed(video)] *)
Definition markProcessed (video : ProcessedVideo) : M unit :=
  s <- getMem ;;
  setMem (mkState (JsMap.set (videoId video) video (processedVideos s))
                  (lastCheckTimes s)) ;;
  save.

(** [new Date()] *)
Definition newDate : M Z := fun w => (Normal (Date_now E (now w)), w).

(** [updateLastCheckTime(author)] *)
Definition updateLastCheckTime (a : string) : M unit :=
  t <- newDate ;;
  s <- getMem ;;
  setMem (mkState (processedVideos s) (JsMap.set a t (lastCheckTimes s))) ;;
  save.

(** [updateWebhookStatus(videoId, status, retryCount?)]: the stored
    object is updated in place, so it keeps its position in the map. *)
Definition updateWebhookStatus
    (vid : string) (status : WebhookStatus) (count : option Z) : M unit :=
  s <- getMem ;;
  match JsMap.get vid (processedVideos s) with
  | Some video =>
      let video' :=
        mkProcessedVideo (videoId video) (author video) (processedAt video)
          status
          (match count with Some n => n | None => retryCount video end) in
      setMem (mkState (JsMap.set vid video' (processedVideos s))
                      (lastCheckTimes s)) ;;
      save
  | None => ret tt
  end.

(** *** load *)

(** What [load] leaves in [this.state]: a value of type [State]; or a
    value that the declared type does not describe (the cast of the
    parsed text to [StateJSON] is unchecked); or nothing, when it throws. *)
Inductive Loaded (A : Type) : Type :=
| Typed (a : A)
| IllTyped
| Throws (e : JsError).
Arguments Typed {A} a.
Arguments IllTyped {A}.
Arguments Throws {A} e.

Fixpoint decodeAll (A B : Type) (f : A -> Loaded B) (l : list A)
  : Loaded (list B) :=
  match l with
  | [] => Typed []
  | x :: l' =>
      match f x with
      | Throws e => Throws e
      | r =>
          match decodeAll f l' with
          | Throws e => Throws e
          | IllTyped => IllTyped
          | Typed bs =>
              match r with Typed b => Typed (b :: bs) | _ => IllTyped end
          end
      end
  end.

(** [String(x)] of a parsed value that converts without throwing. *)
Fixpoint jsToString (j : json) : string :=
  match j with
  | JNull => "null"
  | JBool true => "true"
  | JBool false => "false"
  | JNum n => NilZero.string_of_int (Z.to_int n)
  | JStr s => s
  | JArr items =>
      (fix join (l : list json) : string :=
         match l with
         | [] => EmptyString
         | x :: l' =>
             let sx := match x with JNull => EmptyString | _ => jsToString x end in
             match l' with
             | [] => sx
             | _ => (sx ++ "," ++ join l')%string
             end
         end) items
  | JObj _ => "[object Object]"
  end.

(** [new Date(x)] for a parsed value or [undefined]; [IllTyped] is the
    Invalid Date.  An object or an array is first converted to a
    string, which may throw. *)
Definition Date_of (x : option json) : Loaded Z :=
  let ofParse (s : string) : Loaded Z :=
    match Date_parse E s with Some t => Typed t | None => IllTyped end in
  match x with
  | None => IllTyped
  | Some JNull => Typed 0
  | Some (JBool b) => Typed (if b then 1 else 0)
  | Some (JNum n) =>
      if Z.abs n <=? 8640000000000000 then Typed n else IllTyped
  | Some (JStr s) => ofParse s
  | Some j =>
      match conversionError (stack_depth E) j with
      | Some e => Throws e
      | None => ofParse (jsToString j)
      end
  end.

(** One entry of [parsed.processedVideos]:
    [[key, {...value, processedAt: new Date(value.processedAt)}]]. *)
Definition decodeVideoEntry (kv : string * json)
  : Loaded (string * ProcessedVideo) :=
  let (key, value) := kv in
  match value with
  | JNull =>
      Throws (TypeError "Cannot read properties of null (reading 'processedAt')")
  | _ =>
      match Date_of (json_prop "processedAt" value) with
      | Throws e => Throws e
      | IllTyped => IllTyped
      | Typed t =>
          match value with
          | JObj props =>
              match JsMap.get "videoId" props, JsMap.get "author" props,
                    JsMap.get "webhookStatus" props,
                    JsMap.get "retryCount" props with
              | Some (JStr v), Some (JStr a), Some (JStr st), Some (JNum n) =>
                  match statusOfName st with
                  | Some status =>
                      if Nat.eqb (List.length props) 5
                      then Typed (key, mkProcessedVideo v a t status n)
                      else IllTyped
                  | None => IllTyped
                  end
              | _, _, _, _ => IllTyped
              end
          | _ => IllTyped
          end
      end
  end.

(** One entry of [parsed.lastCheckTimes]: [[key, new Date(value)]]. *)
Definition decodeCheckEntry (kv : string * json) : Loaded (string * Z) :=
  match Date_of (Some (snd kv)) with
  | Throws e => Throws e
  | IllTyped => IllTyped
  | Typed t => Typed (fst kv, t)
  end.

(** The body of the [try] block of [load], after the read. *)
Definition parseState (t : FileText) : Loaded State :=
  match t with
  | NotJSON _ => Throws (SyntaxError "Unexpected token in JSON")
  | JSONText JNull =>
      Throws (TypeError "Cannot read properties of null (reading 'processedVideos')")
  | JSONText parsed =>
      match decodeAll decodeVideoEntry
              (entriesOrEmpty (json_prop "processedVideos" parsed)) with
      | Throws e => Throws e
      | videos =>
          match decodeAll decodeCheckEntry
                  (entriesOrEmpty (json_prop "lastCheckTimes" parsed)) with
          | Throws e => Throws e
          | times =>
              match videos, times with
              | Typed vs, Typed ts =>
                  Typed (mkState (JsMap.of_entries vs) (JsMap.of_entries ts))
              | _, _ => IllTyped
              end
          end
      end
  end.

(** [load()], as a function of the backing file. *)
Definition load (d : Disk) : Loaded State :=
  let attempt :=
    match d with
    | ReadFails e => Throws e
    | FileWith t => parseState t
    end in
  match attempt with
  | Throws e =>
      match errCode e with
      | Some c => if String.eqb c "ENOENT" then Typed emptyState else Throws e
      | None => Throws e
      end
  | r => r
  end.

(** [clear()] *)
Definition clear : M unit := setMem emptyState.

(** The operations of normal use on a store ([clear] is for tests). *)
Inductive StoreOp : Type :=
| OpMarkProcessed (video : ProcessedVideo)
| OpUpdateLastCheckTime (a : string)
| OpUpdateWebhookStatus (vid : string) (status : WebhookStatus) (count : option Z)
| OpSave
| OpLoad.

(** One operation takes the store from [w] to [w']; an operation that
    throws still leaves a world behind.  [load] assigns [this.state]
    only when it does not throw. *)
Inductive store_step : World -> StoreOp -> World -> Prop :=
| step_mark w video :
    store_step w (OpMarkProcessed video) (snd (markProcessed video w))
| step_check w a :
    store_step w (OpUpdateLastCheckTime a) (snd (updateLastCheckTime a w))
| step_status w vid status count :
    store_step w (OpUpdateWebhookStatus vid status count)
               (snd (updateWebhookStatus vid status count w))
| step_save w :
    store_step w OpSave (snd (save w))
| step_load_ok w s :
    load (disk w) = Typed s ->
    store_step w OpLoad (mkWorld s (disk w) (trace w))
| step_load_throws w e :
    load (disk w) = Throws e ->
    store_step w OpLoad w.

Inductive store_steps : World -> list StoreOp -> World -> Prop :=
| steps_nil w : store_steps w [] w
| steps_cons w op w1 ops w2 :
    store_step w op w1 -> store_steps w1 ops w2 ->
    store_steps w (op :: ops) w2.
End StateManager.

Arguments Typed {A} a.
Arguments IllTyped {A}.
Arguments Throws {A} e.

(* ================================================================= *)
(** ** WebhookClient (webhook/webhook-client.ts) *)

Section WebhookClient.
Variable E : Env.

(** [createPayload(video)] *)
Definition createPayload (video : VideoMetadata) : WebhookPayload :=
  mkPayload (id video) (url video) (downloadUrl video) (description video)
            (vAuthor video) (toISOString E (publishedAt video))
            (thumbnailUrl video) (duration video) (stats video).

(** [axios.post(this.webhookUrl, payload, ...)] *)
Definition axiosPost (payload : WebhookPayload) : M AxiosOutcome :=
  fun w =>
    (Normal (axios_post E (now w) payload),
     mkWorld (mem w) (disk w) (trace w ++ [EvPost payload])).

(** [this.sleepFn(ms)] *)
Definition sleepFn (ms : Z) : M unit := emit (EvSleep ms).

(** [send(payload)] *)
Definition send (payload : WebhookPayload) : M WebhookResult :=
  r <- axiosPost payload ;;
  match r with
  | Resolved status => ret (mkResult true (Some status) None 1)
  | Rejected status message => ret (mkResult false status (Some message) 1)
  end.

(** The [for] loop of [sendWithRetry], from the state
    [(attempt, attempts, lastResult)].  The loop runs while
    [attempt < totalAttempts]; [fuel] bounds the number of rounds and is
    never the reason to stop when it is [totalAttempts - attempt]. *)
Fixpoint sendLoop (payload : WebhookPayload) (totalAttempts : Z)
    (fuel : nat) (attempt attempts : Z) (lastResult : option WebhookResult)
  : M (option WebhookResult) :=
  match fuel with
  | O => ret lastResult
  | S fuel' =>
      if attempt <? totalAttempts then
        let attempts := attempts + 1 in
        r <- axiosPost payload ;;
        match r with
        | Resolved status =>
            ret (Some (mkResult true (Some status) None attempts))
        | Rejected status message =>
            let lastResult :=
              Some (mkResult false status (Some message) attempts) in
            (if attempt <? totalAttempts - 1
             then sleepFn (2 ^ attempt * 1000)
             else ret tt) ;;
            sendLoop payload totalAttempts fuel' (attempt + 1) attempts
                     lastResult
        end
      else ret lastResult
  end.

(** [sendWithRetry(payload, maxRetries)]; [None] is the [null] that
    [lastResult!] is when no attempt was made. *)
Definition sendWithRetry (payload : WebhookPayload) (maxRetries : Z)
  : M (option WebhookResult) :=
  let totalAttempts := maxRetries + 1 in
  sendLoop payload totalAttempts (Z.to_nat totalAttempts) 0 0 None.
End WebhookClient.

(* ================================================================= *)
(** ** PollingScheduler (scheduler/polling-scheduler.ts) *)

Section PollingScheduler.
Variable E : Env.

(** [this.scraper.getLatestVideos(author, limit)] *)
Definition getLatestVideos (a : string) (limit : Z) : M (list VideoMetadata) :=
  fun w =>
    (scraper_getLatestVideos E (now w) a limit,
     mkWorld (mem w) (disk w) (trace w ++ [EvGetLatestVideos a limit])).

(** [this.scraper.getVideoById(videoId)] *)
Definition getVideoById (v : string) : M (option VideoMetadata) :=
  fun w =>
    (scraper_getVideoById E (now w) v,
     mkWorld (mem w) (disk w) (trace w ++ [EvGetVideoById v])).

(** [this.delay(1000 + Math.random() * 2000)] *)
Definition delay : M unit :=
  fun w => emit (EvDelay (jitter E (now w))) w.

(** Reading a property of [result] when [result] is [null] throws. *)
Definition nonNull (r : option WebhookResult) : M WebhookResult :=
  match r with
  | Some res => ret res
  | None => throw (TypeError "Cannot read properties of null (reading 'success')")
  end.

(** [processVideo(video, config)] *)
Definition processVideo (video : VideoMetadata) (config : Config) : M unit :=
  logger (LogProcessing (id video) (vAuthor video)) ;;
  t <- newDate E ;;
  let processedVideo := mkProcessedVideo (id video) (vAuthor video) t Pending 0 in
  markProcessed E processedVideo ;;
  let payload := createPayload E video in
  r <- sendWithRetry E payload (maxRetries config) ;;
  result <- nonNull r ;;
  if success result then
    updateWebhookStatus E (id video) Sent (Some (attempts result)) ;;
    logger (LogWebhookSent (id video) (attempts result))
  else
    updateWebhookStatus E (id video) Failed (Some (attempts result)) ;;
    logger (LogWebhookFailed (id video) (attempts result) (error result)).

(** [checkAuthor(author, config)] *)
Definition checkAuthor (a : string) (config : Config) : M unit :=
  logger (LogCheckingAuthor a) ;;
  videos <- getLatestVideos a 10 ;;
  s <- getMem ;;
  let newVideos := filter (fun video => negb (isProcessed (id video) s)) videos in
  if Nat.eqb (List.length newVideos) 0 then
    logger (LogNoNewVideos a) ;;
    updateLastCheckTime E a
  else
    logger (LogFound (List.length newVideos) a) ;;
    let sorted :=
      Array_sort (fun x y => publishedAt x - publishedAt y) newVideos in
    forOf sorted (fun video => processVideo video config) ;;
    updateLastCheckTime E a.

(** The body of the loop of [runOnce]. *)
Definition runOnceBody (appConfig : Config) (a : string) : M unit :=
  tryCatch (checkAuthor a appConfig)
           (fun error => logger (LogErrorChecking a (errMessage error))) ;;
  if Array_indexOf a (authors appConfig)
     <? Z.of_nat (List.length (authors appConfig)) - 1
  then delay
  else ret tt.

(** [runOnce()], given what [configManager.getConfig()] returns. *)
Definition runOnce (appConfig : Config) : M unit :=
  let authors := authors appConfig in
  if Nat.eqb (List.length authors) 0 then
    logger LogNoAuthors
  else
    logger (LogCheckingAuthors (List.length authors)) ;;
    forOf authors (runOnceBody appConfig) ;;
    logger LogCycleCompleted.

(** The object behind a reference held in the array that
    [getPendingRetries] returned. *)
Definition deref (ref : string) : M (option ProcessedVideo) :=
  s <- getMem ;; ret (JsMap.get ref (processedVideos s)).

(** One round of the loop of [retryFailedWebhooks].  [video] is the
    stored object; within the round nothing writes to it before
    [updateWebhookStatus], and nothing ever writes its [videoId], so
    the object is read once. *)
Definition retryOne (config : Config) (ref : string) : M unit :=
  o <- deref ref ;;
  match o with
  | None => ret tt
  | Some video =>
      if retryCount video >=? maxRetries config then
        logger (LogExceeded (videoId video))
      else
        m <- getVideoById (videoId video) ;;
        match m with
        | None => logger (LogNoMetadata (videoId video))
        | Some videoMetadata =>
            let payload := createPayload E videoMetadata in
            r <- sendWithRetry E payload (maxRetries config - retryCount video) ;;
            result <- nonNull r ;;
            let newRetryCount := retryCount video + attempts result in
            if success result then
              updateWebhookStatus E (videoId video) Sent (Some newRetryCount) ;;
              logger (LogRetryOk (videoId video))
            else
              updateWebhookStatus E (videoId video) Failed (Some newRetryCount) ;;
              logger (LogRetryFailed (videoId video))
        end
  end.

(** [retryFailedWebhooks()] *)
Definition retryFailedWebhooks (config : Config) : M unit :=
  s <- getMem ;;
  let pendingRetries := pendingRetryRefs s in
  if Nat.eqb (List.length pendingRetries) 0 then
    logger LogNoFailedWebhooks
  else
    logger (LogRetrying (List.length pendingRetries)) ;;
    forOf pendingRetries (retryOne config).
End PollingScheduler.

(* ================================================================= *)
(** ** The history route (api/routes/history.ts) *)

(** [Array.prototype.slice(start, end)] for integers; a negative index
    counts from the end of the array. *)
Definition Array_slice (A : Type) (start end_ : Z) (l : list A) : list A :=
  let len := Z.of_nat (List.length l) in
  let k := if start <? 0 then Z.max (len + start) 0 else Z.min start len in
  let final := if end_ <? 0 then Z.max (len + end_) 0 else Z.min end_ len in
  firstn (Z.to_nat (final - k)) (skipn (Z.to_nat k) l).

(** [Math.ceil(a / b)] for integers [a >= 0] and [b > 0]. *)
Definition Math_ceil_div (a b : Z) : Z := (a + b - 1) / b.

Module HistoryRoute.

Definition DEFAULT_PAGE_SIZE : Z := 20.
Definition MAX_PAGE_SIZE : Z := 100.

(** [interface VideoHistoryItem] *)
Record VideoHistoryItem : Type := mkItem {
  itemVideoId : string;
  itemAuthor : string;
  itemProcessedAt : string;
  itemWebhookStatus : WebhookStatus;
  itemRetryCount : Z
}.

(** [interface PaginatedResponse<VideoHistoryItem>] *)
Record PaginatedResponse : Type := mkPage {
  items : list VideoHistoryItem;
  total : Z;
  page : Z;
  pageSize : Z;
  totalPages : Z
}.

(** [req.query]: a parameter is a string or absent (a parameter that is
    given more than once is outside the model). *)
Record Query : Type := mkQuery {
  qPage : option string;
  qPageSize : option string;
  qAuthor : option string;
  qStatus : option string
}.

(** What the handler sends: 200 with the page, or 400 with an error. *)
Inductive Response : Type :=
| Ok (r : PaginatedResponse)
| BadRequest (code message : string).

(** [parseInt(x) || d]: [NaN] ([None]) and [0] are falsy. *)
Definition orDefault (n : option Z) (d : Z) : Z :=
  match n with
  | Some v => if v =? 0 then d else v
  | None => d
  end.

(** A filter that is given: a string that is not empty. *)
Definition given (x : option string) : option string :=
  match x with
  | Some s => if String.eqb s EmptyString then None else Some s
  | None => None
  end.

Section Handler.
Variable E : Env.
(** The platform's [parseInt] on a query parameter; [None] is [NaN]. *)
Variable parseInt : option string -> option Z.

(** The object literal built per video. *)
Definition toItem (video : ProcessedVideo) : VideoHistoryItem :=
  mkItem (videoId video) (author video) (toISOString E (processedAt video))
         (webhookStatus video) (retryCount video).

(** [filteredHistory]: the history of the store, cut at 100 records and
    then filtered. *)
Definition filteredHistory (authorFilter statusFilter : option string)
    (s : State) : list ProcessedVideo :=
  let allHistory := getHistory MAX_PAGE_SIZE s in
  let byAuthor :=
    match given authorFilter with
    | Some a => filter (fun video => String.eqb (author video) a) allHistory
    | None => allHistory
    end in
  match given statusFilter with
  | Some st =>
      filter (fun video => String.eqb (statusName (webhookStatus video)) st)
             byAuthor
  | None => byAuthor
  end.

(** The handler from [// Calculate pagination] on. *)
Definition paginate (page pageSize : Z) (filtered : list ProcessedVideo)
  : PaginatedResponse :=
  let total := Z.of_nat (List.length filtered) in
  let totalPages := Math_ceil_div total pageSize in
  let startIndex := (page - 1) * pageSize in
  let endIndex := startIndex + pageSize in
  let pageItems := Array_slice startIndex endIndex filtered in
  mkPage (map toItem pageItems) total page pageSize totalPages.

(** [router.get("/", ...)] *)
Definition get (q : Query) (s : State) : Response :=
  let page := Z.max 1 (orDefault (parseInt (qPage q)) 1) in
  let pageSize :=
    Z.min MAX_PAGE_SIZE
          (Z.max 1 (orDefault (parseInt (qPageSize q)) DEFAULT_PAGE_SIZE)) in
  let invalidStatus :=
    match given (qStatus q) with
    | Some st =>
        negb (existsb (String.eqb st) ["pending"; "sent"; "failed"]%string)
    | None => false
    end in
  if invalidStatus then
    BadRequest "VALIDATION_ERROR"
      "Invalid status filter. Must be 'pending', 'sent', or 'failed'"
  else
    Ok (paginate page pageSize (filteredHistory (qAuthor q) (qStatus q) s)).
End Handler.
End HistoryRoute.

(* ================================================================= *)
(** ** The command line (cli/commands.ts) *)

Module Cli.

(** [getStatusIcon(status)]: a check mark, a cross, a circle. *)
Inductive Icon : Type := IconSent | IconFailed | IconPending.

Definition getStatusIcon (status : WebhookStatus) : Icon :=
  match status with
  | Sent => IconSent
  | Failed => IconFailed
  | Pending => IconPending
  end.

(** [s.replace("T", " ")]: the first ["T"] becomes a space. *)
Fixpoint replaceT (s : string) : string :=
  match s with
  | EmptyString => EmptyString
  | String c s' =>
      if Ascii.eqb c "T" then String " " s' else String c (replaceT s')
  end.

(** The lines that [history] prints, one constructor per template:
    - [NoVideos]: No videos processed yet.
    - [Header n]: === Processing History (last n videos) ===
    - [VideoLine icon date author videoId status]:
      icon [date] author: videoId (status) *)
Inductive Line : Type :=
| NoVideos
| Header (n : nat)
| VideoLine (icon : Icon) (date : string) (a : string) (v : string)
            (status : WebhookStatus).

Section Commands.
Variable E : Env.

(** [formatDate(date)] *)
Definition formatDate (date : Z) : string :=
  String.substring 0 19 (replaceT (toISOString E date)).

(** The line printed for a video, in the loop of [history]. *)
Definition lineOf (video : ProcessedVideo) : Line :=
  let statusIcon := getStatusIcon (webhookStatus video) in
  let date := formatDate (processedAt video) in
  VideoLine statusIcon date (author video) (videoId video) (webhookStatus video).

(** [history(limit)]: what is handed to [output.print], in order. *)
Definition history (limit : Z) (s : State) : list Line :=
  let effectiveLimit := Z.min (Z.max 1 limit) 100 in
  let videos := getHistory effectiveLimit s in
  if Nat.eqb (List.length videos) 0 then [NoVideos]
  else Header (List.length videos) :: map lineOf videos.
End Commands.
End Cli.

(* ================================================================= *)
(** ** Strings and regular expressions *)

(** A string is the sequence of its code units; the model holds the code
    units below 256. *)

(** [String.prototype.trim] removes white space and line terminators
    from both ends: below 256 these are U+0009 to U+000D, U+0020 and
    U+00A0. *)
Definition isWhiteSpace (c : ascii) : bool :=
  let n := nat_of_ascii c in
  ((9 <=? n)%nat && (n <=? 13)%nat) || (n =? 32)%nat || (n =? 160)%nat.

Fixpoint trimStart (s : string) : string :=
  match s with
  | EmptyString => EmptyString
  | String c s' => if isWhiteSpace c then trimStart s' else s
  end.

Fixpoint trimEnd (s : string) : string :=
  match s with
  | EmptyString => EmptyString
  | String c s' =>
      match trimEnd s' with
      | EmptyString => if isWhiteSpace c then EmptyString else String c EmptyString
      | rest => String c rest
      end
  end.

Definition trim (s : string) : string := trimEnd (trimStart s).

(** [errors.join(", ")] *)
Definition join (sep : string) (l : list string) : string := String.concat sep l.

(** The template text of a non-negative integer. *)
Definition showNat (n : nat) : string := NilZero.string_of_uint (Nat.to_uint n).

(** The regular expressions of the program: a class of characters, a
    sequence, [r?], [[class]{lo,hi}], [[class]*], the negative lookahead
    [(?!r)] and [$]; every pattern of the program begins with [^] and has
    no flag, so a match starts at the first character, [.] is every
    character but a line terminator and [$] is the end of the input. *)
Module Regex.

Inductive t : Type :=
| Class (p : ascii -> bool)
| Seq (r1 r2 : t)
| Opt (r : t)
| Repeat (p : ascii -> bool) (lo hi : nat)
| Star (p : ascii -> bool)
| NotAhead (r : t)
| AtEnd.

(** Backtracking over the ways [[class]*] can stop; [k] is the rest of
    the match. *)
Fixpoint star (p : ascii -> bool) (k : string -> bool) (s : string) : bool :=
  match s with
  | EmptyString => k s
  | String c s' => (p c && star p k s') || k s
  end.

Fixpoint repeat (p : ascii -> bool) (lo hi : nat) (k : string -> bool)
    (s : string) {struct hi} : bool :=
  match hi with
  | O => match lo with O => k s | S _ => false end
  | S hi' =>
      match lo with
      | S lo' =>
          match s with
          | EmptyString => false
          | String c s' => p c && repeat p lo' hi' k s'
          end
      | O =>
          match s with
          | EmptyString => k s
          | String c s' => (p c && repeat p 0 hi' k s') || k s
          end
      end
  end.

Fixpoint run (r : t) (k : string -> bool) (s : string) : bool :=
  match r with
  | Class p =>
      match s with
      | EmptyString => false
      | String c s' => p c && k s'
      end
  | Seq r1 r2 => run r1 (run r2 k) s
  | Opt r1 => run r1 k s || k s
  | Repeat p lo hi => repeat p lo hi k s
  | Star p => star p k s
  | NotAhead r1 => negb (run r1 (fun _ => true) s) && k s
  | AtEnd => match s with EmptyString => k s | String _ _ => false end
  end.

(** [/^r/.test(s)] *)
Definition test (r : t) (s : string) : bool := run r (fun _ => true) s.

End Regex.

Definition inRange (lo hi c : ascii) : bool :=
  (nat_of_ascii lo <=? nat_of_ascii c)%nat
  && (nat_of_ascii c <=? nat_of_ascii hi)%nat.

(** [[a-zA-Z0-9]] *)
Definition alnum (c : ascii) : bool :=
  inRange "a" "z" c || inRange "A" "Z" c || inRange "0" "9" c.

(** [[a-zA-Z0-9_]] *)
Definition alnumUnderscore (c : ascii) : bool :=
  alnum c || Ascii.eqb c "_".

(** [[a-zA-Z0-9_.]] *)
Definition alnumUnderscorePeriod (c : ascii) : bool :=
  alnum c || Ascii.eqb c "_" || Ascii.eqb c ".".

(** [\.] *)
Definition period (c : ascii) : bool := Ascii.eqb c ".".

(** [.] *)
Definition anyChar (c : ascii) : bool :=
  negb (Ascii.eqb c "010" || Ascii.eqb c "013").

(* ================================================================= *)
(** ** The configuration (config/config-manager.ts) *)

Module ConfigManager.

Local Open Scope string_scope.

(** [/^(?!.*\.\.)(?!.*\.$)[a-zA-Z0-9][a-zA-Z0-9_.]{0,22}[a-zA-Z0-9_]?$/] *)
Definition TIKTOK_USERNAME_REGEX : Regex.t :=
  Regex.Seq
    (Regex.NotAhead
       (Regex.Seq (Regex.Star anyChar)
          (Regex.Seq (Regex.Class period) (Regex.Class period))))
    (Regex.Seq
       (Regex.NotAhead
          (Regex.Seq (Regex.Star anyChar)
             (Regex.Seq (Regex.Class period) Regex.AtEnd)))
       (Regex.Seq (Regex.Class alnum)
          (Regex.Seq (Regex.Repeat alnumUnderscorePeriod 0 22)
             (Regex.Seq (Regex.Opt (Regex.Class alnumUnderscore))
                Regex.AtEnd)))).

Definition MIN_POLLING_INTERVAL : Z := 60.
Definition MAX_POLLING_INTERVAL : Z := 3600.

Record ValidationResult : Type := mkValidation {
  valid : bool;
  errors : list string
}.

Definition rejected (message : string) : ValidationResult :=
  mkValidation false [message].

Definition accepted : ValidationResult := mkValidation true [].

(** The validators are called on values of any type (the items of a
    parsed file), so they take a parsed value. *)
Definition validateUsername (username : json) : ValidationResult :=
  match username with
  | JStr s =>
      if String.eqb s "" then rejected "Username must be a non-empty string"
      else
        let trimmed := trim s in
        if (String.length trimmed =? 0)%nat
        then rejected "Username cannot be empty or whitespace only"
        else if (24 <? String.length trimmed)%nat
        then rejected "Username must be 24 characters or less"
        else if negb (Regex.test TIKTOK_USERNAME_REGEX trimmed)
        then rejected
               ("Username can only contain letters, numbers, underscores, and periods. "
                ++ "Cannot start/end with period or have consecutive periods.")
        else accepted
  | _ => rejected "Username must be a non-empty string"
  end.

Section Validation.

(** [new URL(text).protocol]; [None] when the constructor throws. *)
Variable URL_protocol : string -> option string.

Definition validateUrl (url : json) : ValidationResult :=
  match url with
  | JStr s =>
      if String.eqb s "" then rejected "URL must be a non-empty string"
      else
        let trimmed := trim s in
        if (String.length trimmed =? 0)%nat
        then rejected "URL cannot be empty or whitespace only"
        else
          match URL_protocol trimmed with
          | Some protocol =>
              if negb (existsb (String.eqb protocol) ["http:"; "https:"])
              then rejected "URL must use http or https protocol"
              else accepted
          | None => rejected "Invalid URL format"
          end
  | _ => rejected "URL must be a non-empty string"
  end.

(** The numbers of the model are integers, so the tests for [NaN] and
    [Number.isInteger] pass on every number. *)
Definition validatePollingInterval (interval : json) : ValidationResult :=
  match interval with
  | JNum n =>
      if (n <? MIN_POLLING_INTERVAL)%Z || (MAX_POLLING_INTERVAL <? n)%Z
      then rejected "Polling interval must be between 60 and 3600 seconds"
      else accepted
  | _ => rejected "Polling interval must be a number"
  end.

(** [if (!result.valid) errors.push(...result.errors.map(e => prefix + e))] *)
Definition pushErrors (prefix : string) (result : ValidationResult)
  : list string :=
  if negb (valid result) then map (fun e => prefix ++ e) (errors result)
  else [].

(** [config.authors.forEach((author, index) => ...)] *)
Fixpoint authorErrors (index : nat) (items : list json) : list string :=
  match items with
  | [] => []
  | author :: rest =>
      (pushErrors ("authors[" ++ showNat index ++ "]: ") (validateUsername author)
       ++ authorErrors (S index) rest)%list
  end.

(** [typeof x === "object"] *)
Definition isObject (j : json) : bool :=
  match j with
  | JNull | JArr _ | JObj _ => true
  | _ => false
  end.

Definition validateConfig (config : json) : ValidationResult :=
  if negb (truthy config) || negb (isObject config)
  then mkValidation false ["Config must be an object"]
  else
    let urlErrors :=
      match json_prop "webhookUrl" config with
      | Some v => pushErrors "webhookUrl: " (validateUrl v)
      | None => []
      end in
    let intervalErrors :=
      match json_prop "pollingInterval" config with
      | Some v => pushErrors "pollingInterval: " (validatePollingInterval v)
      | None => []
      end in
    let authorsErrors :=
      match json_prop "authors" config with
      | Some (JArr items) => authorErrors 0 items
      | Some _ => ["authors: Must be an array"]
      | None => []
      end in
    let retriesErrors :=
      match json_prop "maxRetries" config with
      | Some (JNum n) =>
          if (n <? 0)%Z then ["maxRetries: Must be a non-negative integer"] else []
      | Some _ => ["maxRetries: Must be a non-negative integer"]
      | None => []
      end in
    let errors :=
      (urlErrors ++ intervalErrors ++ authorsErrors ++ retriesErrors)%list in
    mkValidation (List.length errors =? 0)%nat errors.

(** The array that [config.authors] refers to.  [DEFAULT_CONFIG] is one
    object of the module, and [{ ...DEFAULT_CONFIG }] copies its
    properties, not the array: a configuration made from the defaults
    refers to the array of [DEFAULT_CONFIG] itself.  Every other array is
    referred to by one configuration. *)
Inductive AuthorsRef : Type :=
| DefaultAuthors
| OwnAuthors (items : list string).

(** The object [this.config]. *)
Record ConfigObject : Type := mkConfigObject {
  cWebhookUrl : string;
  cPollingInterval : Z;
  cAuthors : AuthorsRef;
  cMaxRetries : Z
}.

(** What the methods of a manager read and write: the array
    [DEFAULT_CONFIG.authors], the object [this.config], and the file at
    [configPath]. *)
Record Store : Type := mkStore {
  defaultAuthors : list string;
  config : ConfigObject;
  file : Disk
}.

(** [{ ...DEFAULT_CONFIG }] *)
Definition DEFAULT_CONFIG : ConfigObject :=
  mkConfigObject "" 300 DefaultAuthors 3.

(** The module as it is loaded. *)
Definition initialStore (d : Disk) : Store :=
  mkStore [] DEFAULT_CONFIG d.

(** [new ConfigManager(path)] in a process whose [DEFAULT_CONFIG.authors]
    is that of [s], the file at [path] being [d]. *)
Definition newManager (d : Disk) (s : Store) : Store :=
  mkStore (defaultAuthors s) DEFAULT_CONFIG d.

Definition withConfig (c : ConfigObject) (s : Store) : Store :=
  mkStore (defaultAuthors s) c (file s).

(** The items of the array [c.authors]. *)
Definition authorsIn (s : Store) (c : ConfigObject) : list string :=
  match cAuthors c with
  | DefaultAuthors => defaultAuthors s
  | OwnAuthors items => items
  end.

(** Writes [items] into the array [this.config.authors]. *)
Definition setAuthors (items : list string) (s : Store) : Store :=
  match cAuthors (config s) with
  | DefaultAuthors => mkStore items (config s) (file s)
  | OwnAuthors _ =>
      mkStore (defaultAuthors s)
        (mkConfigObject (cWebhookUrl (config s)) (cPollingInterval (config s))
           (OwnAuthors items) (cMaxRetries (config s)))
        (file s)
  end.

(** What [JSON.parse] reads back from [JSON.stringify(c, null, 2)]. *)
Definition toJSON (s : Store) (c : ConfigObject) : json :=
  JObj [("webhookUrl", JStr (cWebhookUrl c));
        ("pollingInterval", JNum (cPollingInterval c));
        ("authors", JArr (map JStr (authorsIn s c)));
        ("maxRetries", JNum (cMaxRetries c))].

Definition Error (message : string) : JsError := mkError "Error" message None.

Definition stringItem (j : json) : string :=
  match j with JStr s => s | _ => "" end.

(** The object that [load] builds from a parsed file that passed
    [validateConfig]: a property that is there has the type of its
    field, and [x ?? d] is [d] for a property that is not there. *)
Definition fromParsed (parsed : json) : ConfigObject :=
  mkConfigObject
    match json_prop "webhookUrl" parsed with
    | Some (JStr url) => url
    | _ => cWebhookUrl DEFAULT_CONFIG
    end
    match json_prop "pollingInterval" parsed with
    | Some (JNum n) => n
    | _ => cPollingInterval DEFAULT_CONFIG
    end
    match json_prop "authors" parsed with
    | Some (JArr items) => OwnAuthors (map stringItem items)
    | _ => cAuthors DEFAULT_CONFIG
    end
    match json_prop "maxRetries" parsed with
    | Some (JNum n) => n
    | _ => cMaxRetries DEFAULT_CONFIG
    end.

Definition load (s : Store) : Completion ConfigObject * Store :=
  match file s with
  | ReadFails error =>
      if match errCode error with
         | Some code => String.eqb code "ENOENT"
         | None => false
         end
      then (Normal DEFAULT_CONFIG, withConfig DEFAULT_CONFIG s)
      else (Throw error, s)
  | FileWith (NotJSON raw) => (Throw (SyntaxError "Unexpected token in JSON"), s)
  | FileWith (JSONText parsed) =>
      let validation := validateConfig parsed in
      if negb (valid validation)
      then (Throw (Error ("Invalid config: " ++ join ", " (errors validation))), s)
      else (Normal (fromParsed parsed), withConfig (fromParsed parsed) s)
  end.

(** [fault] is the error of [fs.mkdir] or [fs.writeFile] in this call,
    if one of them fails.  As in the state manager, the faults of the
    model are those met before the file is opened for writing: they leave
    the file as it was; a write that is cut short later is outside the
    model. *)
Definition save (fault : option JsError) (given : option ConfigObject)
    (s : Store) : Completion unit * Store :=
  let write (s1 : Store) :=
    match fault with
    | Some error => (Throw error, s1)
    | None =>
        (Normal tt,
         mkStore (defaultAuthors s1) (config s1)
           (FileWith (JSONText (toJSON s1 (config s1)))))
    end in
  match given with
  | Some c =>
      let validation := validateConfig (toJSON s c) in
      if negb (valid validation)
      then (Throw (Error ("Invalid config: " ++ join ", " (errors validation))), s)
      else write (withConfig c s)
  | None => write s
  end.

(** [this.config.authors.includes(x)] *)
Definition includes (x : string) (l : list string) : bool :=
  existsb (String.eqb x) l.

(** [array.splice(index, 1)] for [0 <= index]. *)
Definition splice1 (index : Z) (l : list string) : list string :=
  (firstn (Z.to_nat index) l ++ skipn (S (Z.to_nat index)) l)%list.

Definition addAuthor (fault : option JsError) (username : string) (s : Store)
  : Completion unit * Store :=
  let validation := validateUsername (JStr username) in
  if negb (valid validation)
  then (Throw (Error ("Invalid username: " ++ join ", " (errors validation))), s)
  else
    let normalizedUsername := trim username in
    if includes normalizedUsername (authorsIn s (config s))
    then (Normal tt, s)
    else
      save fault None
        (setAuthors (authorsIn s (config s) ++ [normalizedUsername])%list s).

Definition removeAuthor (fault : option JsError) (username : string) (s : Store)
  : Completion unit * Store :=
  let index := Array_indexOf (trim username) (authorsIn s (config s)) in
  if (index =? -1)%Z then (Normal tt, s)
  else save fault None (setAuthors (splice1 index (authorsIn s (config s))) s).

(** [getConfig] copies the object; the copy refers to the same array. *)
Definition getConfig (s : Store) : Config :=
  mkConfig (cWebhookUrl (config s)) (cPollingInterval (config s))
    (authorsIn s (config s)) (cMaxRetries (config s)).

Definition getAuthors (s : Store) : list string := authorsIn s (config s).

Definition setWebhookUrl (fault : option JsError) (url : string) (s : Store)
  : Completion unit * Store :=
  let validation := validateUrl (JStr url) in
  if negb (valid validation)
  then (Throw (Error ("Invalid URL: " ++ join ", " (errors validation))), s)
  else
    save fault None
      (withConfig
         (mkConfigObject (trim url) (cPollingInterval (config s))
            (cAuthors (config s)) (cMaxRetries (config s))) s).

Definition setPollingInterval (fault : option JsError) (interval : Z) (s : Store)
  : Completion unit * Store :=
  let validation := validatePollingInterval (JNum interval) in
  if negb (valid validation)
  then (Throw (Error ("Invalid interval: " ++ join ", " (errors validation))), s)
  else
    save fault None
      (withConfig
         (mkConfigObject (cWebhookUrl (config s)) interval
            (cAuthors (config s)) (cMaxRetries (config s))) s).

End Validation.

End ConfigManager.

(* ================================================================= *)
(** ** The names the scraper takes (scraper/tiktok-scraper.ts) *)

Module TikTokScraper.

(** [/^[a-zA-Z0-9][a-zA-Z0-9_.]{0,23}$/] *)
Definition usernameRegex : Regex.t :=
  Regex.Seq (Regex.Class alnum)
    (Regex.Seq (Regex.Repeat alnumUnderscorePeriod 0 23) Regex.AtEnd).

Definition isValidUsername (username : string) : bool :=
  if String.eqb username "" then false
  else Regex.test usernameRegex username.

End TikTokScraper.

(* ================================================================= *)
(** ** The authors routes (api/routes/authors.ts) *)

Module AuthorsRoute.

Local Open Scope string_scope.

Inductive ErrorCode : Type :=
| INVALID_USERNAME
| AUTHOR_EXISTS
| AUTHOR_NOT_FOUND
| INTERNAL_ERROR.

(** What a handler sends: [res.status(status).json(successResponse(...))]
    with the user name and the message, or
    [res.status(status).json(errorResponse(code, message))]. *)
Inductive Response : Type :=
| Success (status : Z) (username message : string)
| Failure (status : Z) (code : ErrorCode) (message : string).

Section Handlers.

Variable URL_protocol : string -> option string.

(** [POST /] from the destructuring of the body on; [username] is
    [req.body.username], [None] when the body has no such property. *)
Definition addNamed (fault : option JsError) (username : option json)
    (s : ConfigManager.Store) : Response * ConfigManager.Store :=
  match username with
  | Some (JStr u) =>
      if String.eqb u ""
      then (Failure 400 INVALID_USERNAME "Username is required", s)
      else
        let validation := ConfigManager.validateUsername (JStr u) in
        if negb (ConfigManager.valid validation)
        then (Failure 400 INVALID_USERNAME
                (join ", " (ConfigManager.errors validation)), s)
        else
          let normalizedUsername := trim u in
          let existingAuthors := ConfigManager.getAuthors s in
          if ConfigManager.includes normalizedUsername existingAuthors
          then (Failure 409 AUTHOR_EXISTS
                  ("Author '" ++ normalizedUsername
                   ++ "' is already being monitored"), s)
          else
            match ConfigManager.addAuthor URL_protocol fault normalizedUsername s with
            | (Normal _, s') =>
                (Success 201 normalizedUsername
                   ("Author '" ++ normalizedUsername
                    ++ "' added to monitoring list"), s')
            | (Throw error, s') =>
                (Failure 500 INTERNAL_ERROR (errMessage error), s')
            end
  | _ => (Failure 400 INVALID_USERNAME "Username is required", s)
  end.

(** [POST /]; [body] is [req.body]: the value that [express.json()] has
    parsed, or [None] ([undefined]) for a request without a JSON body.
    [const { username } = req.body] throws on [undefined] and on [null],
    inside the [try], and the [catch] answers 500. *)
Definition post (fault : option JsError) (body : option json)
    (s : ConfigManager.Store) : Response * ConfigManager.Store :=
  match body with
  | None =>
      (Failure 500 INTERNAL_ERROR
         "Cannot destructure property 'username' of 'req.body' as it is undefined.",
       s)
  | Some JNull =>
      (Failure 500 INTERNAL_ERROR
         "Cannot destructure property 'username' of 'req.body' as it is null.",
       s)
  | Some b => addNamed fault (json_prop "username" b) s
  end.

(** [DELETE /:username] *)
Definition delete (fault : option JsError) (username : string)
    (s : ConfigManager.Store) : Response * ConfigManager.Store :=
  let existingAuthors := ConfigManager.getAuthors s in
  if negb (ConfigManager.includes username existingAuthors)
  then (Failure 404 AUTHOR_NOT_FOUND
          ("Author '" ++ username ++ "' is not in the monitoring list"), s)
  else
    match ConfigManager.removeAuthor URL_protocol fault username s with
    | (Normal _, s') =>
        (Success 200 username
           ("Author '" ++ username ++ "' removed from monitoring list"), s')
    | (Throw error, s') => (Failure 500 INTERNAL_ERROR (errMessage error), s')
    end.

End Handlers.

End AuthorsRoute.

(* ================================================================= *)
(** ** The configuration routes (api/routes/config.ts) *)

Module ConfigRoute.

Local Open Scope string_scope.

Inductive ErrorCode : Type :=
| VALIDATION_ERROR
| INVALID_URL
| INVALID_INTERVAL
| INTERNAL_ERROR.

(** 200 with [{ webhookUrl, pollingInterval }], or an error. *)
Inductive Response : Type :=
| Success (webhookUrl : string) (pollingInterval : Z)
| Failure (status : Z) (code : ErrorCode) (message : string).

Definition numberItem (j : json) : Z :=
  match j with JNum n => n | _ => 0 end.

Section Handlers.

Variable URL_protocol : string -> option string.

Definition respond (s : ConfigManager.Store) : Response :=
  let config := ConfigManager.getConfig s in
  Success (webhookUrl config) (pollingInterval config).

(** [GET /] *)
Definition get (s : ConfigManager.Store) : Response := respond s.

(** [PATCH /] from the first [if] on, for an [update] that is an
    object; [faultUrl] and [faultInterval] are the write failures, if
    any, in [setWebhookUrl] and in [setPollingInterval].  A value that
    has passed its validator is a string, respectively a number. *)
Definition applyUpdate (faultUrl faultInterval : option JsError) (update : json)
    (s : ConfigManager.Store) : Response * ConfigManager.Store :=
  let updateUrl := json_prop "webhookUrl" update in
  let updateInterval := json_prop "pollingInterval" update in
  match updateUrl, updateInterval with
  | None, None =>
      (Failure 400 VALIDATION_ERROR
         "At least one of webhookUrl or pollingInterval must be provided", s)
  | _, _ =>
      let urlValidation :=
        match updateUrl with
        | Some v => ConfigManager.validateUrl URL_protocol v
        | None => ConfigManager.accepted
        end in
      if negb (ConfigManager.valid urlValidation)
      then (Failure 400 INVALID_URL
              (join ", " (ConfigManager.errors urlValidation)), s)
      else
        let intervalValidation :=
          match updateInterval with
          | Some v => ConfigManager.validatePollingInterval v
          | None => ConfigManager.accepted
          end in
        if negb (ConfigManager.valid intervalValidation)
        then (Failure 400 INVALID_INTERVAL
                (join ", " (ConfigManager.errors intervalValidation)), s)
        else
          let first :=
            match updateUrl with
            | Some v =>
                ConfigManager.setWebhookUrl URL_protocol faultUrl
                  (ConfigManager.stringItem v) s
            | None => (Normal tt, s)
            end in
          match first with
          | (Throw error, s1) =>
              (Failure 500 INTERNAL_ERROR (errMessage error), s1)
          | (Normal _, s1) =>
              let second :=
                match updateInterval with
                | Some v =>
                    ConfigManager.setPollingInterval URL_protocol faultInterval
                      (numberItem v) s1
                | None => (Normal tt, s1)
                end in
              match second with
              | (Throw error, s2) =>
                  (Failure 500 INTERNAL_ERROR (errMessage error), s2)
              | (Normal _, s2) => (respond s2, s2)
              end
          end
  end.

(** [PATCH /]; [body] is [req.body]: the value that [express.json()] has
    parsed, or [None] ([undefined]) for a request without a JSON body.
    [update.webhookUrl] throws on [undefined] and on [null], inside the
    [try], and the [catch] answers 500. *)
Definition patch (faultUrl faultInterval : option JsError) (body : option json)
    (s : ConfigManager.Store) : Response * ConfigManager.Store :=
  match body with
  | None =>
      (Failure 500 INTERNAL_ERROR
         "Cannot read properties of undefined (reading 'webhookUrl')", s)
  | Some JNull =>
      (Failure 500 INTERNAL_ERROR
         "Cannot read properties of null (reading 'webhookUrl')", s)
  | Some update => applyUpdate faultUrl faultInterval update s
  end.

End Handlers.

End ConfigRoute.

(* ================================================================= *)
(** ** Starting and stopping the scheduler (scheduler/polling-scheduler.ts) *)

Module Control.

(** The messages of [start], [stop] and [setInterval]:
    - [AlreadyRunning]: Polling scheduler is already running
    - [Starting n]: Starting polling scheduler with interval ns
    - [NotRunning]: Polling scheduler is not running
    - [Stopped]: Polling scheduler stopped
    - [Restarting n]: Restarting polling scheduler with interval ns *)
Inductive Message : Type :=
| AlreadyRunning
| Starting (seconds : Z)
| NotRunning
| Stopped
| Restarting (seconds : Z).

(** What these methods do to the outside: a message to the logger, a
    call of [runOnce] (the poll cycle then goes on in the background),
    a timer made with [setInterval] and a timer ended with
    [clearInterval]. *)
Inductive Event : Type :=
| Logged (m : Message)
| PollBegun
| TimerSet (id : nat) (ms : Z)
| TimerCleared (id : nat).

(** The fields [running], [intervalId] and [currentInterval]. *)
Record Scheduler : Type := mkScheduler {
  running : bool;
  intervalId : option nat;
  currentInterval : Z
}.

(** The interval timers of the event loop that are armed, each with its
    delay in milliseconds, and the number of timers made so far, which
    names the next one. *)
Record Timers : Type := mkTimers {
  armed : list (nat * Z);
  made : nat
}.

Record t : Type := mk {
  scheduler : Scheduler;
  timers : Timers;
  events : list Event       (* oldest first *)
}.

(** A new scheduler in a process with no timer. *)
Definition initial : t := mk (mkScheduler false None 300) (mkTimers [] 0) [].

Definition emit (e : Event) (w : t) : t :=
  mk (scheduler w) (timers w) (events w ++ [e]).

Definition logger (m : Message) (w : t) : t := emit (Logged m) w.

Definition setRunning (b : bool) (w : t) : t :=
  mk (mkScheduler b (intervalId (scheduler w)) (currentInterval (scheduler w)))
     (timers w) (events w).

Definition setCurrentInterval (seconds : Z) (w : t) : t :=
  mk (mkScheduler (running (scheduler w)) (intervalId (scheduler w)) seconds)
     (timers w) (events w).

(** [this.intervalId = setInterval(() => ..., this.currentInterval * 1000)] *)
Definition armTimer (w : t) : t :=
  let id := made (timers w) in
  let ms := currentInterval (scheduler w) * 1000 in
  emit (TimerSet id ms)
    (mk (mkScheduler (running (scheduler w)) (Some id)
           (currentInterval (scheduler w)))
        (mkTimers (armed (timers w) ++ [(id, ms)]) (S id))
        (events w)).

(** [if (this.intervalId) { clearInterval(this.intervalId);
    this.intervalId = null; }] *)
Definition clearTimer (w : t) : t :=
  match intervalId (scheduler w) with
  | Some id =>
      emit (TimerCleared id)
        (mk (mkScheduler (running (scheduler w)) None
               (currentInterval (scheduler w)))
            (mkTimers
               (filter (fun timer => negb (Nat.eqb (fst timer) id))
                  (armed (timers w)))
               (made (timers w)))
            (events w))
  | None => w
  end.

(** [start()]; [pollingInterval] is what
    [this.configManager.getConfig().pollingInterval] gives at the call. *)
Definition start (pollingInterval : Z) (w : t) : t :=
  if running (scheduler w) then logger AlreadyRunning w
  else
    let w := setCurrentInterval pollingInterval w in
    let w := setRunning true w in
    let w := logger (Starting (currentInterval (scheduler w))) w in
    let w := emit PollBegun w in
    armTimer w.

Definition stop (w : t) : t :=
  if negb (running (scheduler w)) then logger NotRunning w
  else
    let w := setRunning false w in
    let w := clearTimer w in
    logger Stopped w.

Definition isRunning (w : t) : bool := running (scheduler w).

Definition setInterval (seconds : Z) (w : t) : t :=
  let wasRunning := running (scheduler w) in
  let w := if wasRunning then clearTimer (setRunning false w) else w in
  let w := setCurrentInterval seconds w in
  if wasRunning then
    let w := setRunning true w in
    let w := logger (Restarting (currentInterval (scheduler w))) w in
    armTimer w
  else w.

Definition getInterval (w : t) : Z := currentInterval (scheduler w).

(** api/routes/monitor.ts: [POST /start] and [POST /stop] answer with a
    message. *)
Inductive MonitorMessage : Type :=
| MonitoringStarted         (* Monitoring started *)
| WasAlreadyRunning         (* Monitoring was already running *)
| MonitoringStopped         (* Monitoring stopped *)
| WasAlreadyStopped.        (* Monitoring was already stopped *)

Definition postStart (pollingInterval : Z) (w : t) : MonitorMessage * t :=
  let wasRunning := isRunning w in
  let w := if negb wasRunning then start pollingInterval w else w in
  (if wasRunning then WasAlreadyRunning else MonitoringStarted, w).

Definition postStop (w : t) : MonitorMessage * t :=
  let wasRunning := isRunning w in
  let w := if wasRunning then stop w else w in
  (if wasRunning then MonitoringStopped else WasAlreadyStopped, w).

End Control.

(* ================================================================= *)
(** ** The log buffer (api/services/logger.ts, api/routes/logs.ts) *)

Module Logger.

Inductive LogLevel : Type := Info | Warn | Error.

Definition LogLevel_eqb (a b : LogLevel) : bool :=
  match a, b with
  | Info, Info | Warn, Warn | Error, Error => true
  | _, _ => false
  end.

Definition levelOfName (s : string) : option LogLevel :=
  if String.eqb s "info" then Some Info
  else if String.eqb s "warn" then Some Warn
  else if String.eqb s "error" then Some Error
  else None.

Definition MAX_LOG_ENTRIES : nat := 100.

Section Buffer.

(** [Record<string, unknown>] *)
Variable Meta : Type.

Record LogEntry : Type := mkEntry {
  timestamp : string;
  level : LogLevel;
  message : string;
  meta : option Meta
}.

(** The fields [entries] and [listeners]; a listener is known by its
    identity, and the set keeps the order in which they were added. *)
Record t : Type := mk {
  entries : list LogEntry;
  listeners : list nat
}.

Definition empty : t := mk [] [].

(** [while (this.entries.length > MAX_LOG_ENTRIES) this.entries.shift()] *)
Fixpoint shiftWhileOver (l : list LogEntry) : list LogEntry :=
  if (MAX_LOG_ENTRIES <? List.length l)%nat
  then match l with
       | [] => []
       | _ :: l' => shiftWhileOver l'
       end
  else l.

(** [log(level, message, meta)]; [now] is the text of
    [new Date().toISOString()].  The second component lists the calls
    of the listeners, in order; a listener returns and does not call
    the logger. *)
Definition log (now : string) (lvl : LogLevel) (msg : string)
    (m : option Meta) (s : t) : t * list (nat * LogEntry) :=
  let entry := mkEntry now lvl msg m in
  (mk (shiftWhileOver (entries s ++ [entry])) (listeners s),
   map (fun listener => (listener, entry)) (listeners s)).

Definition info (now msg : string) (m : option Meta) (s : t) := log now Info msg m s.
Definition warn (now msg : string) (m : option Meta) (s : t) := log now Warn msg m s.
Definition error (now msg : string) (m : option Meta) (s : t) := log now Error msg m s.

Definition getEntries (lvl : option LogLevel) (s : t) : list LogEntry :=
  match lvl with
  | Some l => filter (fun entry => LogLevel_eqb (level entry) l) (entries s)
  | None => entries s
  end.

Definition getCount (s : t) : nat := List.length (entries s).

Definition clear (s : t) : t := mk [] (listeners s).

(** [this.listeners.add(listener)] *)
Definition subscribe (listener : nat) (s : t) : t :=
  if existsb (Nat.eqb listener) (listeners s) then s
  else mk (entries s) (listeners s ++ [listener]).

(** The function that [subscribe] returns. *)
Definition unsubscribe (listener : nat) (s : t) : t :=
  mk (entries s) (filter (fun l => negb (Nat.eqb l listener)) (listeners s)).

(** api/routes/logs.ts, [GET /]: 200 with the entries, or 400.
    [levelParam] is [req.query.level], a string or absent. *)
Inductive Response : Type :=
| Ok (entries : list LogEntry)
| BadRequest (message : string).

Definition get (levelParam : option string) (s : t) : Response :=
  match levelParam with
  | Some text =>
      match levelOfName text with
      | Some l => Ok (getEntries (Some l) s)
      | None => BadRequest "Invalid log level. Must be one of: info, warn, error"
      end
  | None => Ok (getEntries None s)
  end.

End Buffer.

End Logger.

(* ================================================================= *)
(** ** Vocabulary of the properties *)

Definition isPost (e : Event) : bool :=
  match e with EvPost _ => true | _ => false end.

(** The number of send attempts in a stretch of the trace. *)
Definition nposts (evs : list Event) : nat := List.length (filter isPost evs).

(** The payloads posted, in order. *)
Fixpoint postsOf (evs : list Event) : list WebhookPayload :=
  match evs with
  | [] => []
  | EvPost p :: evs' => p :: postsOf evs'
  | _ :: evs' => postsOf evs'
  end.

(** The authors whose feed was fetched, in order. *)
Fixpoint fetchedAuthors (evs : list Event) : list string :=
  match evs with
  | [] => []
  | EvGetLatestVideos a _ :: evs' => a :: fetchedAuthors evs'
  | _ :: evs' => fetchedAuthors evs'
  end.

(** The effects of the webhook client: posts of one payload, and sleeps. *)
Definition clientEvent (payload : WebhookPayload) (e : Event) : Prop :=
  e = EvPost payload \/ exists ms, e = EvSleep ms.

Definition isRejected (o : AxiosOutcome) : Prop :=
  match o with Rejected _ _ => True | Resolved _ => False end.

(** The result that [sendWithRetry] builds from a rejection. *)
Definition failureResult (o : AxiosOutcome) (n : Z) : option WebhookResult :=
  match o with
  | Rejected status message => Some (mkResult false status (Some message) n)
  | Resolved _ => None
  end.

(** [w] with [evs] appended to its trace. *)
Definition after (w : World) (evs : list Event) : World :=
  mkWorld (mem w) (disk w) (trace w ++ evs).

(** The world [w] with [d] for what the backing file holds. *)
Definition onDisk (d : Disk) (w : World) : World :=
  mkWorld (mem w) d (trace w).

(** The outcome of the [k]-th attempt of a call of [sendWithRetry] that
    starts in [w]: every failed attempt but the last is followed by one
    sleep, so the [k]-th attempt is the [2k]-th effect of the call. *)
Definition outcomeAt (E : Env) (payload : WebhookPayload) (w : World) (k : nat)
  : AxiosOutcome :=
  axios_post E (now w + 2 * k) payload.

(** What [load] makes of what [save] wrote: the maps of [s], each in own
    property order. *)
Definition reloaded (s : State) : State :=
  mkState (Object_fromEntries (processedVideos s))
          (Object_fromEntries (lastCheckTimes s)).

(** The record of [vid] is in memory and in the backing file. *)
Definition durablyRecorded (E : Env) (vid : string) (w : World) : Prop :=
  isProcessed vid (mem w) = true
  /\ exists s, disk w = FileWith (JSONText (stateToJSON E s))
               /\ isProcessed vid s = true.

(** The shape that [interface ProcessedVideoJSON] declares. *)
Definition isVideoJSON (j : json) : bool :=
  match j with
  | JObj props =>
      match JsMap.get "videoId" props, JsMap.get "author" props,
            JsMap.get "processedAt" props, JsMap.get "webhookStatus" props,
            JsMap.get "retryCount" props with
      | Some (JStr _), Some (JStr _), Some (JStr _), Some (JStr st),
        Some (JNum _) =>
          match statusOfName st with Some _ => true | None => false end
      | _, _, _, _, _ => false
      end
  | _ => false
  end.

Definition isJStr (j : json) : bool :=
  match j with JStr _ => true | _ => false end.

(** A collection of [interface StateJSON]: an object whose values have
    the declared shape; an absent collection is let pass, as the
    [|| {}] of [load] does. *)
Definition isCollection (shape : json -> bool) (x : option json) : bool :=
  match x with
  | None => true
  | Some (JObj props) => forallb (fun kv => shape (snd kv)) props
  | Some _ => false
  end.

(** The shape that [interface StateJSON] declares. *)
Definition isStateJSON (j : json) : bool :=
  match j with
  | JObj _ =>
      isCollection isVideoJSON (json_prop "processedVideos" j)
      && isCollection isJStr (json_prop "lastCheckTimes" j)
  | _ => false
  end.

(** Malformed backing input: there is a file, and its text is not JSON or
    not JSON of the shape of a state. *)
Definition malformed (d : Disk) : Prop :=
  match d with
  | ReadFails _ => False
  | FileWith (NotJSON _) => True
  | FileWith (JSONText j) => isStateJSON j = false
  end.

(** [processVideo] at work: the world once the scheduler has announced
    the video, the record it then upserts, and the record once the
    outcome of the delivery is known. *)
Definition announced (video : VideoMetadata) (w : World) : World :=
  after w [EvLog (LogProcessing (id video) (vAuthor video))].

Definition pendingRecord (E : Env) (video : VideoMetadata) (w : World)
  : ProcessedVideo :=
  mkProcessedVideo (id video) (vAuthor video)
                   (Date_now E (now (announced video w))) Pending 0.

Definition withRecord (r : ProcessedVideo) (s : State) : State :=
  mkState (JsMap.set (videoId r) r (processedVideos s)) (lastCheckTimes s).

Definition settled (r : ProcessedVideo) (res : WebhookResult) : ProcessedVideo :=
  mkProcessedVideo (videoId r) (author r) (processedAt r)
                   (if success res then Sent else Failed) (attempts res).

Definition outcomeLog (v : string) (res : WebhookResult) : LogMsg :=
  if success res then LogWebhookSent v (attempts res)
  else LogWebhookFailed v (attempts res) (error res).

(** The world after a write of the state in memory that succeeded. *)
Definition written (E : Env) (s : State) (w : World) : World :=
  mkWorld s (FileWith (JSONText (stateToJSON E s)))
          (trace w ++ [EvWriteFile (stateToJSON E s)]).

(** The posts of a cycle that delivers the videos [vs], the [i]-th of
    them in [ns_i] attempts. *)
Definition deliveryPosts (E : Env) (vs : list VideoMetadata) (ns : list nat)
  : list WebhookPayload :=
  List.concat (map (fun vn => repeat (createPayload E (fst vn)) (snd vn))
              (combine vs ns)).




(** The payload [p] carries the item [v]: it has the item's id, URL,
    download URL, description, author and published timestamp (as
    ISO-8601 text), and the thumbnail, duration and statistics of the
    item where it has them. *)
Definition carries (E : Env) (p : WebhookPayload) (v : VideoMetadata) : Prop :=
  pVideoId p = id v
  /\ pVideoUrl p = url v
  /\ pDownloadUrl p = downloadUrl v
  /\ pDescription p = description v
  /\ pAuthor p = vAuthor v
  /\ pPublishedAt p = toISOString E (publishedAt v)
  /\ pThumbnailUrl p = thumbnailUrl v
  /\ pDuration p = duration v
  /\ pStats p = stats v.

(** The items of [vs] in their order, the [i]-th of them [ns_i] times in
    a row. *)
Definition eachTimes (A : Type) (vs : list A) (ns : list nat) : list A :=
  List.concat (map (fun vn => repeat (fst vn) (snd vn)) (combine vs ns)).

(** One author of a poll cycle: the author is checked; an error that the
    check throws is caught and logged under the author's name; a pause
    follows unless the author is the last one configured.  [checked] is
    the world this leaves, [checkedAll] the one left when the authors of
    [l] are taken one after the other, each from the world that the one
    before has left. *)
Definition checked (E : Env) (config : Config) (a : string) (w : World)
  : World :=
  let w1 := snd (checkAuthor E a config w) in
  let w2 :=
    match fst (checkAuthor E a config w) with
    | Normal _ => w1
    | Throw e => after w1 [EvLog (LogErrorChecking a (errMessage e))]
    end in
  if Array_indexOf a (authors config)
     <? Z.of_nat (List.length (authors config)) - 1
  then after w2 [EvDelay (jitter E (now w2))]
  else w2.

Definition checkedAll (E : Env) (config : Config) (l : list string) (w : World)
  : World :=
  fold_left (fun w1 a => checked E config a w1) l w.

(** [m] only appends to the trace, and what it appends holds no fetch of
    an author's feed. *)
Definition fetchFree (A : Type) (m : M A) : Prop :=
  forall w, exists evs,
    trace (snd (m w)) = trace w ++ evs /\ fetchedAuthors evs = [].

(** Every record is stored under its own [videoId], as [markProcessed]
    stores it. *)
Definition keysMatch (s : State) : Prop :=
  forall k r, JsMap.get k (processedVideos s) = Some r -> videoId r = k.

(** What one round of the retry sweep does to the failed record [r]:
    the effects [evs] of the round, and the record [r'] it leaves. *)
Definition retryEffect (E : Env) (config : Config) (r : ProcessedVideo)
    (evs : list Event) (r' : ProcessedVideo) : Prop :=
  if retryCount r >=? maxRetries config then
    evs = [EvLog (LogExceeded (videoId r))] /\ r' = r
  else
    (evs = [EvGetVideoById (videoId r); EvLog (LogNoMetadata (videoId r))]
     /\ r' = r)
    \/
    (exists meta res sends j,
        evs = EvGetVideoById (videoId r) :: sends
              ++ [EvWriteFile j;
                  EvLog (if success res then LogRetryOk (videoId r)
                         else LogRetryFailed (videoId r))]
        /\ Forall (clientEvent (createPayload E meta)) sends
        /\ 1 <= Z.of_nat (nposts sends) <= maxRetries config - retryCount r + 1
        /\ attempts res = Z.of_nat (nposts sends)
        /\ r' = mkProcessedVideo (videoId r) (author r) (processedAt r)
                  (if success res then Sent else Failed)
                  (retryCount r + attempts res)).

(** Ordered by a numeric key. *)
Definition keyOrdered (A : Type) (key : A -> Z) (a b : A) : Prop :=
  key a <= key b.

(* ================================================================= *)
(** ** Vocabulary of the further properties *)

(** What [w'] has added to the trace of [w]. *)
Definition since (w w' : World) : list Event :=
  skipn (List.length (trace w)) (trace w').

(** [m] only appends to the trace, and [Q] relates the world it starts
    in, what it appends and the world it leaves, whether it returns or
    throws. *)
Definition runs (A : Type) (Q : World -> list Event -> World -> Prop)
    (m : M A) : Prop :=
  forall w, exists evs,
    trace (snd (m w)) = trace w ++ evs /\ Q w evs (snd (m w)).

(** [Q] holds of a run that does nothing, and of two runs in a row when
    it holds of each. *)
Record stepwise (Q : World -> list Event -> World -> Prop) : Prop :=
  mkStepwise {
    sw_refl : forall w, Q w [] w;
    sw_trans : forall w evs w1 evs' w2,
      Q w evs w1 -> Q w1 evs' w2 -> Q w (evs ++ evs') w2
  }.

(** [Q] holds of a run that has the one effect [e] and no other. *)
Definition admits (Q : World -> list Event -> World -> Prop) (e : Event)
  : Prop :=
  forall w, Q w [e] (after w [e]).

(** Every value that [m] returns satisfies [P]. *)
Definition yields (A : Type) (P : A -> Prop) (m : M A) : Prop :=
  forall w a, fst (m w) = Normal a -> P a.


(** The effects of [n + 1] attempts to post [payload], the first of them
    being attempt number [attempt] of the loop: every attempt but the
    last is followed by its backoff sleep. *)
Fixpoint backoffTrace (payload : WebhookPayload) (attempt : Z) (n : nat)
  : list Event :=
  match n with
  | O => [EvPost payload]
  | S n' =>
      EvPost payload :: EvSleep (2 ^ attempt * 1000)
      :: backoffTrace payload (attempt + 1) n'
  end.

(** The fetches of feeds and the delays between authors in a stretch of
    the trace, in order: [Some a] is a fetch of the feed of [a], [None]
    is a delay. *)
Fixpoint pace (evs : list Event) : list (option string) :=
  match evs with
  | [] => []
  | EvGetLatestVideos a _ :: evs' => Some a :: pace evs'
  | EvDelay _ :: evs' => None :: pace evs'
  | _ :: evs' => pace evs'
  end.

(** The log messages in a stretch of the trace that consists of nothing
    else. *)
Definition logged (msgs : list LogMsg) : list Event := map EvLog msgs.

(** [runs (onMem R) m]: [m] takes a memory to a memory related by [R]. *)
Definition onMem (R : State -> State -> Prop)
    (w : World) (evs : list Event) (w' : World) : Prop :=
  R (mem w) (mem w').

(** [runs (onEvents P) m]: every effect of [m] satisfies [P]. *)
Definition onEvents (P : Event -> Prop)
    (w : World) (evs : list Event) (w' : World) : Prop :=
  Forall P evs.

(** No id is forgotten on the way from [s] to [s']. *)
Definition retains (s s' : State) : Prop :=
  forall k, isProcessed k s = true -> isProcessed k s' = true.

Definition keepsProcessed : World -> list Event -> World -> Prop :=
  onMem retains.

(** The effects of the delivery of one video: posts of its payload,
    sleeps, log messages and writes of the state. *)
Definition videoEvent (payload : WebhookPayload) (e : Event) : Prop :=
  match e with
  | EvPost p => p = payload
  | EvSleep _ | EvLog _ | EvWriteFile _ | EvWriteFailed _ => True
  | EvGetLatestVideos _ _ | EvGetVideoById _ | EvDelay _ => False
  end.

(** What is posted on the way from [w] to [w'] is about videos that the
    store did not hold in [w] and holds in [w']; and no id is forgotten. *)
Definition delivers (w : World) (evs : list Event) (w' : World) : Prop :=
  keepsProcessed w evs w'
  /\ forall p, In p (postsOf evs) ->
       isProcessed (pVideoId p) (mem w) = false
       /\ isProcessed (pVideoId p) (mem w') = true.

(** [processVideo], once the video is marked as processed: the delivery
    and the update of the record. *)
Definition deliverVideo (E : Env) (video : VideoMetadata) (config : Config)
  : M unit :=
  r <- sendWithRetry E (createPayload E video) (maxRetries config) ;;
  result <- nonNull r ;;
  if success result then
    updateWebhookStatus E (id video) Sent (Some (attempts result)) ;;
    logger (LogWebhookSent (id video) (attempts result))
  else
    updateWebhookStatus E (id video) Failed (Some (attempts result)) ;;
    logger (LogWebhookFailed (id video) (attempts result) (error result)).

(** What the operations of the store keep: no key occurs twice, and
    every record is stored under its own id. *)
Definition storeInv (s : State) : Prop :=
  JsMap.wf (processedVideos s) /\ JsMap.wf (lastCheckTimes s) /\ keysMatch s.

(** The same of a world: of the state in memory, and of whatever a [load]
    of the backing file would bring back. *)
Definition worldInv (E : Env) (w : World) : Prop :=
  storeInv (mem w) /\ forall s, load E (disk w) = Typed s -> storeInv s.

(** The query [q] with the parameter [page] set to [text]. *)
Definition withPage (q : HistoryRoute.Query) (text : string)
  : HistoryRoute.Query :=
  HistoryRoute.mkQuery (Some text) (HistoryRoute.qPageSize q)
                       (HistoryRoute.qAuthor q) (HistoryRoute.qStatus q).

(** The items of a response; an error carries none. *)
Definition itemsOf (r : HistoryRoute.Response)
  : list HistoryRoute.VideoHistoryItem :=
  match r with
  | HistoryRoute.Ok page => HistoryRoute.items page
  | HistoryRoute.BadRequest _ _ => []
  end.

(** [video] passes the filter [f] on the field that [field] reads: no
    filter is given, or the field is what the filter asks for. *)
Definition passes (f : option string) (field : string) : Prop :=
  match HistoryRoute.given f with
  | Some wanted => field = wanted
  | None => True
  end.

(** The same as a test, on both filters of a query at once. *)
Definition passesb (f : option string) (field : string) : bool :=
  match HistoryRoute.given f with
  | Some wanted => String.eqb field wanted
  | None => true
  end.

Definition passesBoth (af sf : option string) (video : ProcessedVideo) : bool :=
  passesb af (author video) && passesb sf (statusName (webhookStatus video)).

(** A store on which the retry sweep finds nothing to do under the
    budget [maxRetries]: every failed record has used up its retries.
    The main path leaves a failed record with
    [retryCount = maxRetries + 1]. *)
Definition noRetryLeft (maxRetries : Z) (s : State) : Prop :=
  JsMap.wf (processedVideos s)
  /\ forall k r,
       JsMap.get k (processedVideos s) = Some r ->
       webhookStatus r = Failed -> maxRetries + 1 <= retryCount r.

(** The two entry points of the scheduler, and a run of the scheduler
    that calls them one after the other under one configuration; what a
    call returns or throws is dropped, as the callers of the scheduler
    do. *)
Inductive SchedOp : Type := OpRunOnce | OpRetryFailedWebhooks.

Definition schedOp (E : Env) (config : Config) (op : SchedOp) : M unit :=
  match op with
  | OpRunOnce => runOnce E config
  | OpRetryFailedWebhooks => retryFailedWebhooks E config
  end.

Fixpoint runOps (E : Env) (config : Config) (ops : list SchedOp) (w : World)
  : World :=
  match ops with
  | [] => w
  | op :: ops' => runOps E config ops' (snd (schedOp E config op w))
  end.

(** *** The shape of a user name *)

Fixpoint allChars (p : ascii -> bool) (s : string) : bool :=
  match s with
  | EmptyString => true
  | String c s' => p c && allChars p s'
  end.

Definition startsWith (p : ascii -> bool) (s : string) : bool :=
  match s with
  | EmptyString => false
  | String c _ => p c
  end.

Fixpoint endsWith (p : ascii -> bool) (s : string) : bool :=
  match s with
  | EmptyString => false
  | String c EmptyString => p c
  | String _ s' => endsWith p s'
  end.

(** Two periods in a row somewhere in [s]. *)
Fixpoint hasTwoPeriods (s : string) : bool :=
  match s with
  | String c1 ((String c2 _) as s') =>
      (period c1 && period c2) || hasTwoPeriods s'
  | _ => false
  end.

(** 1 to 24 letters, digits, underscores and periods, the first of them
    a letter or a digit. *)
Definition scraperShape (s : string) : bool :=
  startsWith alnum s
  && allChars alnumUnderscorePeriod s
  && (String.length s <=? 24)%nat.

(** The same, with no two periods in a row and no period at the end. *)
Definition usernameShape (s : string) : bool :=
  scraperShape s && negb (hasTwoPeriods s) && negb (endsWith period s).

(** *** Calls on a configuration manager *)

(** [CfgNew d] is [new ConfigManager(path)] in the same process, for a
    path whose file is [d]. *)
Inductive ConfigOp : Type :=
| CfgNew (d : Disk)
| CfgLoad
| CfgSave (fault : option JsError) (given : option ConfigManager.ConfigObject)
| CfgAddAuthor (fault : option JsError) (username : string)
| CfgRemoveAuthor (fault : option JsError) (username : string)
| CfgSetWebhookUrl (fault : option JsError) (url : string)
| CfgSetPollingInterval (fault : option JsError) (interval : Z).

Definition configOp (URL_protocol : string -> option string) (op : ConfigOp)
    (s : ConfigManager.Store) : Completion unit * ConfigManager.Store :=
  match op with
  | CfgNew d => (Normal tt, ConfigManager.newManager d s)
  | CfgLoad =>
      match ConfigManager.load URL_protocol s with
      | (Normal _, s') => (Normal tt, s')
      | (Throw e, s') => (Throw e, s')
      end
  | CfgSave fault given => ConfigManager.save URL_protocol fault given s
  | CfgAddAuthor fault username =>
      ConfigManager.addAuthor URL_protocol fault username s
  | CfgRemoveAuthor fault username =>
      ConfigManager.removeAuthor URL_protocol fault username s
  | CfgSetWebhookUrl fault url =>
      ConfigManager.setWebhookUrl URL_protocol fault url s
  | CfgSetPollingInterval fault interval =>
      ConfigManager.setPollingInterval URL_protocol fault interval s
  end.

(** The calls of [ops], one after the other, a call that throws being
    followed by the next one. *)
Definition configOps (URL_protocol : string -> option string)
    (ops : list ConfigOp) (s : ConfigManager.Store) : ConfigManager.Store :=
  fold_left (fun s1 op => snd (configOp URL_protocol op s1)) ops s.

(** The store [s] with [f] for what its file holds. *)
Definition withFile (f : Disk) (s : ConfigManager.Store) : ConfigManager.Store :=
  ConfigManager.mkStore (ConfigManager.defaultAuthors s)
    (ConfigManager.config s) f.

Definition acceptedName (a : string) : Prop :=
  ConfigManager.valid (ConfigManager.validateUsername (JStr a)) = true.

Definition acceptedUrl (URL_protocol : string -> option string) (url : string)
  : Prop :=
  ConfigManager.valid (ConfigManager.validateUrl URL_protocol (JStr url)) = true.

(** The fields of a configuration are within their bounds. *)
Definition withinBounds (URL_protocol : string -> option string)
    (c : Config) : Prop :=
  (webhookUrl c = EmptyString \/ acceptedUrl URL_protocol (webhookUrl c))
  /\ 60 <= pollingInterval c <= 3600
  /\ 0 <= maxRetries c
  /\ Forall acceptedName (authors c).

(** Only [CfgLoad] and [CfgSave] with a configuration bring in authors
    that the manager has not trimmed and compared itself. *)
Definition editsOnly (op : ConfigOp) : Prop :=
  match op with
  | CfgLoad | CfgSave _ (Some _) => False
  | _ => True
  end.

(** The same of a store, the array of [DEFAULT_CONFIG] included. *)
Definition storeWithinBounds (URL_protocol : string -> option string)
    (s : ConfigManager.Store) : Prop :=
  withinBounds URL_protocol (ConfigManager.getConfig s)
  /\ Forall acceptedName (ConfigManager.defaultAuthors s).

(** A list of authors as the manager itself builds it: no name twice,
    every name of the accepted shape as it stands. *)
Definition inOrder (l : list string) : Prop :=
  NoDup l /\ Forall (fun a => usernameShape a = true) l.

Definition authorsInOrder (s : ConfigManager.Store) : Prop :=
  inOrder (ConfigManager.getAuthors s)
  /\ inOrder (ConfigManager.defaultAuthors s).

(** The calls that work on the configuration in hand. *)
Definition editsInPlace (op : ConfigOp) : Prop :=
  match op with
  | CfgNew _ | CfgLoad | CfgSave _ (Some _) => False
  | _ => True
  end.

(** *** Calls on the scheduler's controls *)

Inductive ControlOp : Type :=
| CtlStart (pollingInterval : Z)
| CtlStop
| CtlSetInterval (seconds : Z)
| CtlPostStart (pollingInterval : Z)      (* POST /api/v1/monitor/start *)
| CtlPostStop.                            (* POST /api/v1/monitor/stop *)

Definition controlOp (op : ControlOp) (w : Control.t) : Control.t :=
  match op with
  | CtlStart pollingInterval => Control.start pollingInterval w
  | CtlStop => Control.stop w
  | CtlSetInterval seconds => Control.setInterval seconds w
  | CtlPostStart pollingInterval => snd (Control.postStart pollingInterval w)
  | CtlPostStop => snd (Control.postStop w)
  end.

Definition controlOps (ops : list ControlOp) (w : Control.t) : Control.t :=
  fold_left (fun w1 op => controlOp op w1) ops w.

(** The number of poll cycles begun, and of timers made, in a list of
    events. *)
Definition pollsBegun (evs : list Control.Event) : nat :=
  List.length
    (filter (fun e => match e with Control.PollBegun => true | _ => false end)
       evs).

Definition startsLogged (evs : list Control.Event) : nat :=
  List.length
    (filter (fun e => match e with
                      | Control.Logged (Control.Starting _) => true
                      | _ => false
                      end) evs).

(** The scheduler holds a timer exactly while it runs. *)
Definition oneTimer (w : Control.t) : Prop :=
  if Control.isRunning w
  then exists id,
         Control.intervalId (Control.scheduler w) = Some id
         /\ Control.armed (Control.timers w)
            = [(id, Control.getInterval w * 1000)]
  else Control.intervalId (Control.scheduler w) = None
       /\ Control.armed (Control.timers w) = [].

(** Every poll cycle that is begun follows the message of a start. *)
Definition pollsFollowStarts (w : Control.t) : Prop :=
  pollsBegun (Control.events w) = startsLogged (Control.events w).

(** *** Calls on the log buffer *)

Inductive LoggerOp (Meta : Type) : Type :=
| LogCall (now : string) (lvl : Logger.LogLevel) (msg : string)
    (m : option Meta)
| LogClear
| LogSubscribe (listener : nat)
| LogUnsubscribe (listener : nat).
Arguments LogCall {Meta} now lvl msg m.
Arguments LogClear {Meta}.
Arguments LogSubscribe {Meta} listener.
Arguments LogUnsubscribe {Meta} listener.

Definition loggerOp (Meta : Type) (op : LoggerOp Meta) (s : Logger.t Meta)
  : Logger.t Meta :=
  match op with
  | LogCall now lvl msg m => fst (Logger.log now lvl msg m s)
  | LogClear => Logger.clear s
  | LogSubscribe listener => Logger.subscribe listener s
  | LogUnsubscribe listener => Logger.unsubscribe listener s
  end.

Definition loggerOps (Meta : Type) (ops : list (LoggerOp Meta))
    (s : Logger.t Meta) : Logger.t Meta :=
  fold_left (fun s1 op => loggerOp op s1) ops s.

(** The entries logged by [ops] since the last [clear], oldest first,
    after those of [before]. *)
Definition loggedSince (Meta : Type) (ops : list (LoggerOp Meta))
    (before : list (Logger.LogEntry Meta)) : list (Logger.LogEntry Meta) :=
  fold_left
    (fun acc op =>
       match op with
       | LogCall now lvl msg m => acc ++ [Logger.mkEntry now lvl msg m]
       | LogClear => []
       | _ => acc
       end) ops before.

(** The last [n] items of a list. *)
Definition lastN (A : Type) (n : nat) (l : list A) : list A :=
  skipn (List.length l - n) l.

(* ================================================================= *)
(** ** Concrete worlds, for the examples *)

(** A stand-in for the platform's date codec: the time value in decimal.
    Any codec that reads back what it prints will do. *)
Definition printTime (t : Z) : string := NilEmpty.string_of_int (Z.to_int t).

Definition readTime (s : string) : option Z :=
  match NilEmpty.int_of_string s with
  | Some d => Some (Z.of_int d)
  | None => None
  end.

(** An environment in which the endpoint answers [post], the scraper
    answers [latest] and [byId], and the file system follows [write]. *)
Definition envOf (post : nat -> AxiosOutcome)
    (latest : string -> Completion (list VideoMetadata))
    (byId : string -> Completion (option VideoMetadata))
    (write : nat -> option JsError) : Env :=
  mkEnv printTime readTime (fun n => 1700000000000 + Z.of_nat n)
        (fun _ => 1500) (fun n _ => post n) (fun _ a _ => latest a)
        (fun _ v => byId v) write 1000.

Definition world0 : World := mkWorld emptyState noFile [].

Definition payload0 : WebhookPayload :=
  mkPayload "v1" "https://www.tiktok.com/@a/video/v1" "" "" "a" "0"
            None None None.

(** An endpoint that fails twice and then answers 200. *)
Definition envFlaky : Env :=
  envOf (fun n => if (n <? 4)%nat then Rejected (Some 500) "Request failed"
                  else Resolved 200)
        (fun _ => Normal []) (fun _ => Normal None) (fun _ => None).

(** An environment without faults: the endpoint answers 200, the
    scraper finds nothing, every write succeeds. *)
Definition envQuiet : Env :=
  envOf (fun _ => Resolved 200) (fun _ => Normal []) (fun _ => Normal None)
        (fun _ => None).

(** Two records with the same [processedAt], stored under the keys
    ["2"] and ["1"], in that order. *)
Definition tiedStore : State :=
  mkState [ ("2"%string, mkProcessedVideo "2" "a" 1700000000000 Sent 1);
            ("1"%string, mkProcessedVideo "1" "a" 1700000000000 Sent 1) ]
          [].

(** A store of [n] records [v0 .. v(n-1)], one second apart. *)
Definition storeOfSize (n : nat) : State :=
  mkState
    (map (fun i =>
            let name := ("v" ++ NilZero.string_of_uint (Nat.to_uint i))%string in
            (name, mkProcessedVideo name "a" (1700000000000 - 1000 * Z.of_nat i)
                                    Sent 1))
         (seq 0 n))
    [].

Definition video1 : ProcessedVideo :=
  mkProcessedVideo "v1" "a" 1700000000000 Pending 0.

Definition worldMarked : World := snd (markProcessed envQuiet video1 world0).

Definition worldSaved : World := snd (save envQuiet worldMarked).

(** A backing file in another format: a JSON array of ids. *)
Definition diskArrayOfIds : Disk :=
  FileWith (JSONText (JArr [JStr "v1"; JStr "v2"])).

(** A backing file whose only record lacks four of its five fields. *)
Definition diskPartialRecord : Disk :=
  FileWith (JSONText
    (JObj [ ("processedVideos"%string,
             JObj [ ("v1"%string, JObj [ ("videoId"%string, JStr "v1") ]) ]);
            ("lastCheckTimes"%string, JObj []) ])).

Definition videoMeta (v a : string) (published : Z) : VideoMetadata :=
  mkVideo v ("https://www.tiktok.com/@" ++ a ++ "/video/" ++ v)%string
          "" "" a published None None None.

Definition video0 : VideoMetadata := videoMeta "v1" "a" 5.

Definition config0 : Config :=
  mkConfig "https://example.com/webhook" 60 ["a"%string] 3.

(** Author [a] has two videos; [old], the more recent one, is already
    recorded, [new] is not. *)
Definition storeWithOld : State :=
  mkState [ ("old"%string, mkProcessedVideo "old" "a" 1700000000000 Sent 1) ] [].

Definition twoVideos : list VideoMetadata :=
  [videoMeta "old" "a" 20; videoMeta "new" "a" 10].

Definition envTwoVideos : Env :=
  envOf (fun _ => Resolved 200) (fun _ => Normal twoVideos)
        (fun _ => Normal None) (fun _ => None).

Definition worldWithOld : World := mkWorld storeWithOld noFile [].

(** Two authors: the fetch of [bad] is rate limited, [good] has one new
    video. *)
Definition rateLimited : JsError :=
  mkError "Error" "Rate limited by TikTok API. Please try again later." None.

Definition envOneAuthorFails : Env :=
  envOf (fun _ => Resolved 200)
        (fun a => if String.eqb a "bad" then Throw rateLimited
                  else Normal [videoMeta "g1" "good" 10])
        (fun _ => Normal None) (fun _ => None).

Definition configTwoAuthors : Config :=
  mkConfig "https://example.com/webhook" 60 ["bad"%string; "good"%string] 3.

(** Two failed records that have retries left; the scraper is rate
    limited when it is asked for [v1] and would find [v2]. *)
Definition storeTwoFailed : State :=
  mkState [ ("v1"%string, mkProcessedVideo "v1" "a" 1700000000000 Failed 1);
            ("v2"%string, mkProcessedVideo "v2" "a" 1700000000001 Failed 1) ]
          [].

Definition envRetryRateLimited : Env :=
  envOf (fun _ => Resolved 200) (fun _ => Normal [])
        (fun v => if String.eqb v "v1" then Throw rateLimited
                  else Normal (Some (videoMeta v "a" 10)))
        (fun _ => None).

(** The feed of every author holds [n1]; from the logical time 10 on it
    holds the more recent [n2] as well. *)
Definition envGrowingFeed : Env :=
  mkEnv printTime readTime (fun n => 1700000000000 + Z.of_nat n)
        (fun _ => 1500) (fun _ _ => Resolved 200)
        (fun n _ _ =>
           if (n <? 10)%nat then Normal [videoMeta "n1" "a" 10]
           else Normal [videoMeta "n2" "a" 20; videoMeta "n1" "a" 10])
        (fun _ _ => Normal None) (fun _ => None) 1000.

(** The endpoint is down: every post is rejected.  The feed holds one
    video, and the scraper finds every video that it is asked for. *)
Definition envDown : Env :=
  envOf (fun _ => Rejected None "connect ECONNREFUSED")
        (fun _ => Normal [video0])
        (fun v => Normal (Some (videoMeta v "a" 10)))
        (fun _ => None).

(** The endpoint answers 200, and the scraper finds every video that it
    is asked for. *)
Definition envRetryOk : Env :=
  envOf (fun _ => Resolved 200) (fun _ => Normal [])
        (fun v => Normal (Some (videoMeta v "a" 10)))
        (fun _ => None).

(** The disk is full when the first write is made. *)
Definition diskFull : JsError :=
  mkError "Error" "ENOSPC: no space left on device" (Some "ENOSPC"%string).

Definition envDiskFull : Env :=
  envOf (fun _ => Resolved 200) (fun _ => Normal [video0])
        (fun _ => Normal None)
        (fun n => if (n =? 1)%nat then Some diskFull else None).

(** Author [a] has two new videos, and the disk is full when the outcome
    of the first delivery is to be written. *)
Definition twoNewVideos : list VideoMetadata :=
  [videoMeta "v2" "a" 7; videoMeta "v1" "a" 5].

Definition envDiskFillsUp : Env :=
  envOf (fun _ => Resolved 200) (fun _ => Normal twoNewVideos)
        (fun _ => Normal None)
        (fun n => if (n =? 6)%nat then Some diskFull else None).

Definition configNoAttempt : Config :=
  mkConfig "https://example.com/webhook" 60 ["a"%string] (-1).

Definition configSameAuthorTwice : Config :=
  mkConfig "https://example.com/webhook" 60 ["good"%string; "good"%string] 3.

(** The text of a backing file in which the record of [v1] is [null]. *)
Definition jsonNullRecord : json :=
  JObj [ ("processedVideos"%string, JObj [ ("v1"%string, JNull) ]);
         ("lastCheckTimes"%string, JObj []) ].

(** An empty array inside [n] arrays, and the text of a backing file whose
    last check time of ["a"] is nested deeper than the stack of the
    example environments has room for. *)
Fixpoint nestedArray (n : nat) : json :=
  match n with
  | O => JArr []
  | S n' => JArr [nestedArray n']
  end.

Definition jsonDeepTime : json :=
  JObj [ ("processedVideos"%string, JObj []);
         ("lastCheckTimes"%string, JObj [ ("a"%string, nestedArray 1001) ]) ].

(** A stand-in for [parseInt] on a query parameter: it reads a decimal
    numeral, and nothing else. *)
Definition parseDecimal (x : option string) : option Z :=
  match x with
  | Some s => readTime s
  | None => None
  end.

Definition decimal (n : nat) : string := printTime (Z.of_nat n).

(** Pages of 30 items, no filter. *)
Definition queryPagesOf30 : HistoryRoute.Query :=
  HistoryRoute.mkQuery None (Some "30"%string) None None.

(** A stand-in for the URL parser: the protocol of a text that begins
    with [http://] or [https://], and no URL otherwise. *)
Definition protocolOf (text : string) : option string :=
  if String.prefix "https://" text then Some "https:"%string
  else if String.prefix "http://" text then Some "http:"%string
  else None.

(** A process that has found no configuration file. *)
Definition storeFromDefaults : ConfigManager.Store :=
  snd (ConfigManager.load protocolOf (ConfigManager.initialStore noFile)).

(** Some edits; the second write fails. *)
Definition editsExample : list ConfigOp :=
  [ CfgAddAuthor None " bob ";
    CfgSetPollingInterval (Some ENOENT) 120;
    CfgAddAuthor None "alice.b";
    CfgAddAuthor None "bob";
    CfgAddAuthor None "carol";
    CfgRemoveAuthor None "carol " ]%string.

Definition setUrlThenAdd : list ConfigOp :=
  [ CfgSetWebhookUrl None " https://hooks.example/tiktok ";
    CfgAddAuthor None "bob" ]%string.

(** A configuration file, written by hand, with a space on either side
    of the author's name. *)
Definition fileWithSpaces : Disk :=
  FileWith
    (JSONText
       (JObj [("webhookUrl"%string, JStr "https://hooks.example/tiktok");
              ("authors"%string, JArr [JStr " bob "])])).

Definition storeWithSpaces : ConfigManager.Store :=
  snd (ConfigManager.load protocolOf (ConfigManager.initialStore fileWithSpaces)).

Definition removeThenAdd : list ConfigOp :=
  [ CfgRemoveAuthor None " bob "; CfgAddAuthor None "amy" ]%string.

(* ================================================================= *)
(** * Properties *)

Unset Implicit Arguments.

(** ** The webhook client *)

Lemma now_after w evs : now (after w evs) = (now w + List.length evs)%nat.
Proof. unfold now, after; simpl. now rewrite length_app. Qed.

Lemma after_after w evs evs' : after (after w evs) evs' = after w (evs ++ evs').
Proof. unfold after; simpl. now rewrite app_assoc. Qed.

Lemma after_nil w : after w [] = w.
Proof. destruct w; unfold after; simpl. now rewrite app_nil_r. Qed.

Lemma nposts_app a b : nposts (a ++ b) = (nposts a + nposts b)%nat.
Proof. unfold nposts. now rewrite filter_app, length_app. Qed.

Section SendLoop.
Variable E : Env.
Variable payload : WebhookPayload.
Variable total : Z.

(** One round of the loop. *)
Lemma sendLoop_round :
  forall (f : nat) (attempt count : Z) (last : option WebhookResult)
         (w : World),
    sendLoop E payload total (S f) attempt count last w =
    if attempt <? total then
      match axios_post E (now w) payload with
      | Resolved status =>
          (Normal (Some (mkResult true (Some status) None (count + 1))),
           after w [EvPost payload])
      | Rejected status message =>
          sendLoop E payload total f (attempt + 1) (count + 1)
            (Some (mkResult false status (Some message) (count + 1)))
            (after w (EvPost payload ::
                      if attempt <? total - 1
                      then [EvSleep (2 ^ attempt * 1000)] else []))
      end
    else (Normal last, w).
Proof.
  intros. cbn [sendLoop].
  destruct (attempt <? total); [|reflexivity].
  unfold bind at 1, axiosPost.
  destruct (axios_post E (now w) payload); [reflexivity|].
  destruct (attempt <? total - 1); unfold bind, sleepFn, emit, ret, after; simpl.
  - now rewrite <- app_assoc.
  - reflexivity.
Qed.

Lemma sendLoop_spec :
  forall (fuel : nat) (attempt count : Z) (last : option WebhookResult)
         (w : World),
    Z.of_nat fuel = total - attempt ->
    exists evs,
      snd (sendLoop E payload total fuel attempt count last w) = after w evs
      /\ Forall (clientEvent payload) evs
      /\ (nposts evs <= fuel)%nat
      /\ (exists r,
            fst (sendLoop E payload total fuel attempt count last w) = Normal r
            /\ (fuel = O -> r = last /\ evs = [])
            /\ (fuel <> O ->
                exists res tl, r = Some res
                  /\ attempts res = count + Z.of_nat (nposts evs)
                  /\ evs = EvPost payload :: tl))
      /\ (forall k status,
            (k < fuel)%nat ->
            (forall j, (j < k)%nat -> isRejected (outcomeAt E payload w j)) ->
            outcomeAt E payload w k = Resolved status ->
            fst (sendLoop E payload total fuel attempt count last w)
            = Normal (Some (mkResult true (Some status) None
                                     (count + Z.of_nat k + 1)))
            /\ nposts evs = S k)
      /\ ((forall j, (j < fuel)%nat -> isRejected (outcomeAt E payload w j)) ->
          forall f, fuel = S f ->
            fst (sendLoop E payload total fuel attempt count last w)
            = Normal (failureResult (outcomeAt E payload w f) (count + Z.of_nat fuel))
            /\ nposts evs = fuel).
Proof.
  induction fuel as [|f IH]; intros attempt count last w Hfuel.
  - exists []. simpl. rewrite after_nil.
    split; [reflexivity|]. split; [constructor|]. split; [unfold nposts; simpl; lia|].
    split; [|split].
    + exists last. split; [reflexivity|]. split; [auto|congruence].
    + intros; lia.
    + intros; discriminate.
  - assert (Hlt : (attempt <? total) = true) by (apply Z.ltb_lt; lia).
    rewrite sendLoop_round, Hlt.
    assert (Hout0 : outcomeAt E payload w 0 = axios_post E (now w) payload).
    { unfold outcomeAt. f_equal. lia. }
    destruct (axios_post E (now w) payload) as [status|status message] eqn:Hpost.
    + (* the attempt succeeds *)
      exists [EvPost payload]. cbn.
      split; [reflexivity|]. split; [repeat constructor|].
      split; [unfold nposts; simpl; lia|].
      split; [|split].
      * eexists; split; [reflexivity|]. split; [discriminate|].
        intros _. eexists _, []. split; [reflexivity|]. split; [|reflexivity].
        unfold nposts; simpl. lia.
      * intros k status0 Hk Hrej Hres. destruct k as [|k].
        -- rewrite Hout0 in Hres. inversion Hres; subst.
           split; [|reflexivity]. do 3 f_equal. lia.
        -- specialize (Hrej O ltac:(lia)). rewrite Hout0 in Hrej. destruct Hrej.
      * intros Hrej. specialize (Hrej O ltac:(lia)).
        rewrite Hout0 in Hrej. destruct Hrej.
    + (* the attempt fails *)
      destruct f as [|f'].
      * (* it was the last one *)
        assert (Hl : (attempt <? total - 1) = false) by (apply Z.ltb_ge; lia).
        rewrite Hl. cbn [sendLoop ret fst snd].
        exists [EvPost payload].
        split; [reflexivity|]. split; [repeat constructor|].
        split; [unfold nposts; simpl; lia|].
        split; [|split].
        -- eexists; split; [reflexivity|]. split; [discriminate|].
           intros _. eexists _, []. split; [reflexivity|]. split; [|reflexivity].
           unfold nposts; simpl. lia.
        -- intros k status0 Hk Hrej Hres.
           assert (k = O) by lia; subst.
           rewrite Hout0 in Hres. discriminate.
        -- intros _ f0 Hf0. inversion Hf0; subst f0. rewrite Hout0. simpl.
           split; [|reflexivity]. do 3 f_equal.
      * (* a sleep, then the next round *)
        assert (Hl : (attempt <? total - 1) = true) by (apply Z.ltb_lt; lia).
        rewrite Hl.
        set (w2 := after w [EvPost payload; EvSleep (2 ^ attempt * 1000)]).
        set (last' := Some (mkResult false status (Some message) (count + 1))).
        destruct (IH (attempt + 1) (count + 1) last' w2 ltac:(lia))
          as (evs & Hsnd & Hall & Hn & (r & Hr & _ & Hr1) & Hfirst & Hfail).
        assert (Hshift : forall k, outcomeAt E payload w2 k = outcomeAt E payload w (S k)).
        { intro k. unfold outcomeAt, w2. rewrite now_after. simpl.
          f_equal. lia. }
        exists ([EvPost payload; EvSleep (2 ^ attempt * 1000)] ++ evs).
        rewrite Hsnd.
        replace (after w2 evs)
          with (after w ([EvPost payload; EvSleep (2 ^ attempt * 1000)] ++ evs))
          by (unfold w2; now rewrite after_after).
        split; [reflexivity|].
        split.
        { apply Forall_app; split; [|assumption].
          constructor; [now left|]. constructor; [right; eauto|constructor]. }
        split.
        { rewrite nposts_app. unfold nposts at 1. simpl. lia. }
        split; [|split].
        -- destruct (Hr1 ltac:(discriminate)) as (res & tl & -> & Hatt & Hevs).
           exists (Some res). split; [assumption|]. split; [discriminate|].
           intros _. exists res, (EvSleep (2 ^ attempt * 1000) :: evs).
           split; [reflexivity|]. split; [|reflexivity].
           rewrite nposts_app. unfold nposts at 1. simpl.
           rewrite Hatt. lia.
        -- intros k status0 Hk Hrej Hres. destruct k as [|k].
           ++ rewrite Hout0 in Hres. discriminate.
           ++ destruct (Hfirst k status0 ltac:(lia)) as [Hres' Hcount].
              ** intros j Hj. rewrite Hshift. apply Hrej. lia.
              ** rewrite Hshift. assumption.
              ** split.
                 --- rewrite Hres'. do 3 f_equal. lia.
                 --- rewrite nposts_app. unfold nposts at 1. simpl. lia.
        -- intros Hrej f0 Hf0. inversion Hf0; subst f0.
           destruct (Hfail ltac:(intros j Hj; rewrite Hshift; apply Hrej; lia)
                           f' eq_refl) as [Hres Hcount].
           split.
           ++ rewrite Hres, Hshift. do 2 f_equal. lia.
           ++ rewrite nposts_app. unfold nposts at 1. simpl. lia.
Qed.
End SendLoop.

(** C1.  For every payload and every non-negative [maxRetries],
    [sendWithRetry] returns a result after at most [maxRetries + 1] send
    attempts and touches nothing but the network and the sleep function;
    [attempts] is the number of attempts made.  When the [k]-th attempt is
    the first one to succeed, the result is a success with
    [attempts = k + 1] and no further attempt is made; when every attempt
    fails, the result is the failure of the last attempt with
    [attempts = maxRetries + 1]. *)
Theorem sendWithRetry_attempts :
  forall (E : Env) (payload : WebhookPayload) (maxRetries : Z) (w : World),
    0 <= maxRetries ->
    exists evs res,
      sendWithRetry E payload maxRetries w = (Normal (Some res), after w evs)
      /\ Forall (clientEvent payload) evs
      /\ 1 <= Z.of_nat (nposts evs) <= maxRetries + 1
      /\ attempts res = Z.of_nat (nposts evs)
      /\ (forall k status,
            Z.of_nat k <= maxRetries ->
            (forall j, (j < k)%nat -> isRejected (outcomeAt E payload w j)) ->
            outcomeAt E payload w k = Resolved status ->
            res = mkResult true (Some status) None (Z.of_nat k + 1)
            /\ nposts evs = S k)
      /\ ((forall j, Z.of_nat j <= maxRetries ->
                     isRejected (outcomeAt E payload w j)) ->
          Some res = failureResult (outcomeAt E payload w (Z.to_nat maxRetries))
                                   (maxRetries + 1)
          /\ Z.of_nat (nposts evs) = maxRetries + 1).
Proof.
  intros E payload maxRetries w Hmax.
  unfold sendWithRetry.
  remember (Z.to_nat (maxRetries + 1)) as fuel eqn:Hfuel.
  assert (Hf : Z.of_nat fuel = maxRetries + 1 - 0) by lia.
  destruct (sendLoop_spec E payload (maxRetries + 1) fuel 0 0 None w Hf)
    as (evs & Hsnd & Hall & Hn & (r & Hr & _ & Hr1) & Hfirst & Hfail).
  destruct (Hr1 ltac:(lia)) as (res & tl & -> & Hatt & Hevs).
  exists evs, res.
  split.
  { rewrite (surjective_pairing (sendLoop _ _ _ _ _ _ _ _)). now rewrite Hr, Hsnd. }
  split; [assumption|].
  split.
  { split; [|lia]. rewrite Hevs. unfold nposts. simpl. lia. }
  split; [lia|].
  split.
  - intros k status Hk Hrej Hres.
    destruct (Hfirst k status ltac:(lia) Hrej Hres) as [Hfst Hcount].
    split; [|assumption].
    rewrite Hr in Hfst. inversion Hfst. f_equal.
  - intros Hrej.
    destruct fuel as [|f]; [lia|].
    destruct (Hfail ltac:(intros j Hj; apply Hrej; lia) f eq_refl)
      as [Hfst Hcount].
    split; [|lia].
    rewrite Hr in Hfst. inversion Hfst as [Hres]. rewrite Hres.
    replace (Z.to_nat maxRetries) with f by lia.
    f_equal. lia.
Qed.

(** The endpoint fails twice and then answers 200; [maxRetries = 2]. *)
Lemma sendWithRetry_attempts_witness :
  0 <= 2 /\
  exists evs res,
    sendWithRetry envFlaky payload0 2 world0 = (Normal (Some res), after world0 evs)
    /\ Forall (clientEvent payload0) evs
    /\ 1 <= Z.of_nat (nposts evs) <= 2 + 1
    /\ attempts res = Z.of_nat (nposts evs)
    /\ (forall k status,
          Z.of_nat k <= 2 ->
          (forall j, (j < k)%nat -> isRejected (outcomeAt envFlaky payload0 world0 j)) ->
          outcomeAt envFlaky payload0 world0 k = Resolved status ->
          res = mkResult true (Some status) None (Z.of_nat k + 1)
          /\ nposts evs = S k)
    /\ ((forall j, Z.of_nat j <= 2 ->
                   isRejected (outcomeAt envFlaky payload0 world0 j)) ->
        Some res = failureResult (outcomeAt envFlaky payload0 world0 (Z.to_nat 2))
                                 (2 + 1)
        /\ Z.of_nat (nposts evs) = 2 + 1).
Proof.
  split; [lia|].
  apply (sendWithRetry_attempts envFlaky payload0 2 world0). lia.
Defined.

(* ================================================================= *)
(** ** Arrays and maps *)

Section SortFacts.
Variable A : Type.
Variable cmp : A -> A -> Z.

Lemma Array_insert_perm x l : Permutation (Array_insert cmp x l) (x :: l).
Proof.
  induction l as [|y l IH]; simpl; [reflexivity|].
  destruct (cmp x y <=? 0); [reflexivity|].
  rewrite IH. apply perm_swap.
Qed.

Lemma Array_sort_perm l : Permutation (Array_sort cmp l) l.
Proof.
  induction l as [|x l IH]; simpl; [reflexivity|].
  rewrite Array_insert_perm. now constructor.
Qed.

Lemma Array_sort_length l : List.length (Array_sort cmp l) = List.length l.
Proof. apply Permutation_length, Array_sort_perm. Qed.

Lemma Array_sort_In x l : In x (Array_sort cmp l) <-> In x l.
Proof.
  split; apply Permutation_in;
    [apply Array_sort_perm | apply Permutation_sym, Array_sort_perm].
Qed.

(** The comparators of the program compare a numeric key. *)
Variable key : A -> Z.
Hypothesis cmp_key : forall a b, cmp a b <= 0 <-> key a <= key b.

Lemma Array_insert_sorted x l :
  StronglySorted (keyOrdered key) l -> StronglySorted (keyOrdered key) (Array_insert cmp x l).
Proof.
  induction l as [|y l IH]; intros Hs; simpl.
  - repeat constructor.
  - inversion Hs as [|? ? Hs' Hall]; subst.
    destruct (cmp x y <=? 0) eqn:Hc.
    + apply Z.leb_le, cmp_key in Hc.
      constructor; [assumption|]. constructor; [assumption|].
      eapply Forall_impl; [|exact Hall]. unfold keyOrdered. intros; lia.
    + apply Z.leb_gt in Hc.
      assert (Hyx : key y <= key x).
      { destruct (Z.le_gt_cases (key x) (key y)) as [Hle|Hgt]; [|lia].
        apply cmp_key in Hle. lia. }
      constructor; [auto|].
      eapply Permutation_Forall; [symmetry; apply Array_insert_perm|].
      constructor; assumption.
Qed.

Lemma Array_sort_sorted l : StronglySorted (keyOrdered key) (Array_sort cmp l).
Proof.
  induction l as [|x l IH]; simpl; [constructor|].
  now apply Array_insert_sorted.
Qed.

(** With pairwise distinct keys there is one sorted arrangement. *)
Lemma sorted_perm_unique l l' :
  NoDup (map key l) ->
  StronglySorted (keyOrdered key) l -> StronglySorted (keyOrdered key) l' ->
  Permutation l l' -> l = l'.
Proof.
  revert l'. induction l as [|a l IH]; intros l' Hnd Hs Hs' Hp.
  - apply Permutation_nil in Hp. now subst.
  - destruct l' as [|b l'].
    { symmetry in Hp. apply Permutation_nil in Hp. discriminate. }
    inversion Hs as [|? ? Hsl Hal]; inversion Hs' as [|? ? Hsl' Hal']; subst.
    assert (Hab : a = b).
    { assert (Ha : In a (b :: l')) by (eapply Permutation_in; [exact Hp| now left]).
      assert (Hb : In b (a :: l))
        by (eapply Permutation_in; [symmetry; exact Hp| now left]).
      destruct Ha as [Ha|Ha]; [now subst|].
      destruct Hb as [Hb|Hb]; [now subst|].
      rewrite Forall_forall in Hal, Hal'.
      pose proof (Hal _ Hb) as H1. pose proof (Hal' _ Ha) as H2.
      unfold keyOrdered in H1, H2.
      assert (Hk : key a = key b) by lia.
      inversion Hnd as [|? ? Hnotin _]; subst.
      exfalso. apply Hnotin. rewrite Hk. now apply in_map. }
    subst b. f_equal.
    apply IH; auto.
    + now inversion Hnd.
    + eapply Permutation_cons_inv; exact Hp.
Qed.

Lemma Array_sort_perm_eq l l' :
  NoDup (map key l) -> Permutation l l' ->
  Array_sort cmp l = Array_sort cmp l'.
Proof.
  intros Hnd Hp.
  apply sorted_perm_unique.
  - eapply Permutation_NoDup; [|exact Hnd].
    apply Permutation_map. symmetry. apply Array_sort_perm.
  - apply Array_sort_sorted.
  - apply Array_sort_sorted.
  - rewrite Array_sort_perm, Hp. symmetry. apply Array_sort_perm.
Qed.
End SortFacts.

Lemma Array_sort_map (A B : Type) (f : A -> B) (cmp : A -> A -> Z)
    (cmp' : B -> B -> Z) (l : list A) :
  (forall a b, cmp' (f a) (f b) = cmp a b) ->
  Array_sort cmp' (map f l) = map f (Array_sort cmp l).
Proof.
  intros Hc. induction l as [|x l IH]; simpl; [reflexivity|].
  rewrite IH. clear IH. generalize (Array_sort cmp l) as m.
  induction m as [|y m IHm]; simpl; [reflexivity|].
  rewrite Hc. destruct (cmp x y <=? 0); simpl; [reflexivity|].
  now rewrite IHm.
Qed.

Lemma Array_slice0_length (A : Type) (n : Z) (l : list A) :
  0 <= n ->
  Z.of_nat (List.length (Array_slice0 n l)) = Z.min n (Z.of_nat (List.length l)).
Proof.
  intros Hn. unfold Array_slice0.
  assert (Hlt : (n <? 0) = false) by (apply Z.ltb_ge; lia).
  rewrite Hlt, length_firstn. lia.
Qed.

Lemma Array_slice0_all (A : Type) (n : Z) (l : list A) :
  Z.of_nat (List.length l) <= n -> Array_slice0 n l = l.
Proof.
  intros Hn. unfold Array_slice0.
  assert (Hlt : (n <? 0) = false) by (apply Z.ltb_ge; lia).
  rewrite Hlt. apply firstn_all2. lia.
Qed.

Lemma Array_slice0_split (A : Type) (n : Z) (l : list A) :
  exists rest, l = Array_slice0 n l ++ rest.
Proof.
  unfold Array_slice0. eexists. symmetry. apply firstn_skipn.
Qed.

Section MapFacts.
Variable V : Type.
Implicit Types (m : JsMap.t V) (k : string) (v : V).

Lemma get_set_same k v m : JsMap.get k (JsMap.set k v m) = Some v.
Proof.
  induction m as [|[k' v'] m IH]; simpl.
  - now rewrite String.eqb_refl.
  - destruct (String.eqb k k') eqn:Hk; simpl.
    + now rewrite String.eqb_refl.
    + now rewrite Hk.
Qed.

Lemma get_set_other k k' v m :
  k <> k' -> JsMap.get k' (JsMap.set k v m) = JsMap.get k' m.
Proof.
  intros Hne. induction m as [|[k0 v0] m IH]; simpl.
  - apply String.eqb_neq in Hne. rewrite String.eqb_sym in Hne. now rewrite Hne.
  - destruct (String.eqb k k0) eqn:Hk; simpl.
    + apply String.eqb_eq in Hk. subst k0.
      destruct (String.eqb k' k) eqn:Hk'; [|reflexivity].
      apply String.eqb_eq in Hk'. congruence.
    + now rewrite IH.
Qed.

Lemma has_set k k' v m :
  JsMap.has k' (JsMap.set k v m) = (String.eqb k k' || JsMap.has k' m)%bool.
Proof.
  unfold JsMap.has. destruct (String.eqb k k') eqn:Hk.
  - apply String.eqb_eq in Hk. subst. now rewrite get_set_same.
  - apply String.eqb_neq in Hk. now rewrite get_set_other.
Qed.

Lemma set_set_same k v m :
  JsMap.set k v (JsMap.set k v m) = JsMap.set k v m.
Proof.
  induction m as [|[k' v'] m IH]; simpl.
  - now rewrite String.eqb_refl.
  - destruct (String.eqb k k') eqn:Hk; simpl.
    + now rewrite String.eqb_refl.
    + now rewrite Hk, IH.
Qed.

Lemma get_In_keys k m :
  JsMap.get k m <> None <-> In k (JsMap.keys m).
Proof.
  induction m as [|[k' v'] m IH]; simpl.
  - split; [congruence|tauto].
  - destruct (String.eqb k k') eqn:Hk.
    + apply String.eqb_eq in Hk. subst. split; [now left|discriminate].
    + apply String.eqb_neq in Hk. rewrite IH. split; [tauto|].
      intros [H|H]; [congruence|assumption].
Qed.

Lemma has_In_keys k m : JsMap.has k m = true <-> In k (JsMap.keys m).
Proof.
  rewrite <- get_In_keys. unfold JsMap.has.
  destruct (JsMap.get k m); split; congruence.
Qed.

Lemma keys_set k v m :
  JsMap.keys (JsMap.set k v m)
  = if JsMap.has k m then JsMap.keys m else JsMap.keys m ++ [k].
Proof.
  unfold JsMap.has. induction m as [|[k' v'] m IH]; simpl; [reflexivity|].
  destruct (String.eqb k k') eqn:Hk; simpl.
  - apply String.eqb_eq in Hk. now subst.
  - rewrite IH. now destruct (JsMap.get k m).
Qed.

Lemma wf_set k v m : JsMap.wf m -> JsMap.wf (JsMap.set k v m).
Proof.
  unfold JsMap.wf. intros Hwf. rewrite keys_set.
  destruct (JsMap.has k m) eqn:Hh; [assumption|].
  apply NoDup_app; [assumption|repeat constructor; auto|].
  - intros x Hx [Hk|[]]. subst x.
    apply has_In_keys in Hx. congruence.
Qed.

Lemma get_In k v m : JsMap.wf m -> In (k, v) m -> JsMap.get k m = Some v.
Proof.
  unfold JsMap.wf. induction m as [|[k' v'] m IH]; simpl; intros Hwf Hin; [tauto|].
  inversion Hwf as [|? ? Hnotin Hwf']; subst.
  destruct Hin as [Heq|Hin].
  - inversion Heq; subst. now rewrite String.eqb_refl.
  - destruct (String.eqb k k') eqn:Hk.
    + apply String.eqb_eq in Hk. subst k'. exfalso. apply Hnotin.
      change k with (fst (k, v)). now apply in_map.
    + now apply IH.
Qed.

Lemma get_Some_In k v m : JsMap.get k m = Some v -> In (k, v) m.
Proof.
  induction m as [|[k' v'] m IH]; simpl; [discriminate|].
  destruct (String.eqb k k') eqn:Hk.
  - apply String.eqb_eq in Hk. intros H; inversion H; subst. now left.
  - intros H. right. now apply IH.
Qed.

(** Lookup does not depend on the order of the entries. *)
Lemma get_perm k m m' :
  JsMap.wf m -> Permutation m m' -> JsMap.get k m = JsMap.get k m'.
Proof.
  intros Hwf Hp.
  assert (Hwf' : JsMap.wf m').
  { unfold JsMap.wf, JsMap.keys in *.
    eapply Permutation_NoDup; [|exact Hwf]. now apply Permutation_map. }
  destruct (JsMap.get k m) as [v|] eqn:Hg.
  - symmetry. apply get_In; [assumption|].
    eapply Permutation_in; [exact Hp|]. now apply get_Some_In.
  - destruct (JsMap.get k m') as [v'|] eqn:Hg'; [|reflexivity].
    apply get_Some_In in Hg'.
    assert (Hin : In (k, v') m) by (eapply Permutation_in; [symmetry; exact Hp|assumption]).
    apply get_In in Hin; [congruence|assumption].
Qed.

Lemma fold_set_wf (l : list (string * V)) m :
  JsMap.wf (m ++ l) ->
  fold_left (fun m kv => JsMap.set (fst kv) (snd kv) m) l m = m ++ l.
Proof.
  revert m. induction l as [|[k v] l IH]; intros m Hwf; simpl.
  - now rewrite app_nil_r.
  - assert (Hset : JsMap.set k v m = m ++ [(k, v)]).
    { assert (Hnot : ~ In k (JsMap.keys m)).
      { unfold JsMap.wf, JsMap.keys in *. rewrite map_app in Hwf.
        simpl in Hwf. apply NoDup_remove_2 in Hwf.
        intros Hin. apply Hwf. apply in_or_app. now left. }
      clear -Hnot. induction m as [|[k' v'] m IHm]; simpl; [reflexivity|].
      destruct (String.eqb k k') eqn:Hk.
      - apply String.eqb_eq in Hk. subst. exfalso. apply Hnot. now left.
      - rewrite IHm; [reflexivity|]. intros Hin. apply Hnot. now right. }
    rewrite Hset, IH; rewrite <- app_assoc; [reflexivity|exact Hwf].
Qed.

(** [new Map(entries)] of entries with distinct keys is the entries. *)
Lemma of_entries_wf (l : list (string * V)) :
  JsMap.wf l -> JsMap.of_entries l = l.
Proof. intros Hwf. unfold JsMap.of_entries. now rewrite fold_set_wf. Qed.
End MapFacts.

(** *** Own property order *)

Lemma filter_split_perm (A : Type) (p : A -> bool) (l : list A) :
  Permutation (filter p l ++ filter (fun x => negb (p x)) l) l.
Proof.
  induction l as [|x l IH]; simpl; [reflexivity|].
  destruct (p x); simpl.
  - now constructor.
  - rewrite <- Permutation_middle. now constructor.
Qed.

Lemma ownPropertyOrder_perm (V : Type) (l : list (string * V)) :
  Permutation (ownPropertyOrder l) l.
Proof.
  unfold ownPropertyOrder. rewrite Array_sort_perm. apply filter_split_perm.
Qed.

Lemma ownPropertyOrder_wf (V : Type) (l : list (string * V)) :
  JsMap.wf l -> JsMap.wf (ownPropertyOrder l).
Proof.
  unfold JsMap.wf, JsMap.keys. intros Hwf.
  eapply Permutation_NoDup; [|exact Hwf].
  apply Permutation_map. symmetry. apply ownPropertyOrder_perm.
Qed.

(** Without array-index keys the creation order is the property order. *)
Lemma ownPropertyOrder_plain (V : Type) (l : list (string * V)) :
  (forall k, In k (JsMap.keys l) -> isArrayIndex k = false) ->
  ownPropertyOrder l = l.
Proof.
  intros Hplain. unfold ownPropertyOrder.
  assert (H1 : filter (fun kv : string * V => isArrayIndex (fst kv)) l = []).
  { clear -Hplain. induction l as [|[k v] l IH]; simpl; [reflexivity|].
    rewrite (Hplain k) by (now left). apply IH.
    intros k' Hk'. apply Hplain. now right. }
  assert (H2 : filter (fun kv : string * V => negb (isArrayIndex (fst kv))) l = l).
  { clear -Hplain. induction l as [|[k v] l IH]; simpl; [reflexivity|].
    rewrite (Hplain k) by (now left). simpl. f_equal. apply IH.
    intros k' Hk'. apply Hplain. now right. }
  now rewrite H1, H2.
Qed.

(** Mapping over the values commutes with the constructions on entries. *)
Section MapValues.
Variables (V W : Type) (f : V -> W).
Lemma set_map_values k v (m : JsMap.t V) :
  JsMap.set k (f v) (map (onValue f) m) = map (onValue f) (JsMap.set k v m).
Proof.
  induction m as [|[k' v'] m IH]; simpl; [reflexivity|].
  destruct (String.eqb k k'); simpl; [reflexivity|]. now rewrite IH.
Qed.

Lemma of_entries_map_values (l : list (string * V)) :
  JsMap.of_entries (map (onValue f) l) = map (onValue f) (JsMap.of_entries l).
Proof.
  unfold JsMap.of_entries.
  change (@JsMap.empty W) with (map (onValue f) (@JsMap.empty V)).
  generalize (@JsMap.empty V) as m.
  induction l as [|[k v] l IH]; intros m; simpl; [reflexivity|].
  rewrite set_map_values. apply IH.
Qed.

Lemma ownPropertyOrder_map_values (l : list (string * V)) :
  ownPropertyOrder (map (onValue f) l) = map (onValue f) (ownPropertyOrder l).
Proof.
  unfold ownPropertyOrder. rewrite map_app. f_equal.
  - rewrite <- (Array_sort_map _ _ (onValue f) (@indexOrder V) (@indexOrder W)) by reflexivity.
    f_equal. clear. induction l as [|[k v] l IH]; simpl; [reflexivity|].
    destruct (isArrayIndex k); simpl; now rewrite IH.
  - clear. induction l as [|[k v] l IH]; simpl; [reflexivity|].
    destruct (isArrayIndex k); simpl; now rewrite IH.
Qed.

Lemma Object_fromEntries_map_values (l : list (string * V)) :
  Object_fromEntries (map (onValue f) l) = map (onValue f) (Object_fromEntries l).
Proof.
  unfold Object_fromEntries.
  now rewrite of_entries_map_values, ownPropertyOrder_map_values.
Qed.
End MapValues.

Lemma of_entries_keys_wf (V : Type) (l : list (string * V)) (m : JsMap.t V) :
  JsMap.wf m ->
  JsMap.wf (fold_left (fun m kv => JsMap.set (fst kv) (snd kv) m) l m).
Proof.
  revert m. induction l as [|[k v] l IH]; intros m Hwf; simpl; [assumption|].
  apply IH. now apply wf_set.
Qed.

Lemma of_entries_wf_result (V : Type) (l : list (string * V)) :
  JsMap.wf (JsMap.of_entries l).
Proof. apply of_entries_keys_wf. constructor. Qed.

Lemma Object_fromEntries_wf (V : Type) (l : list (string * V)) :
  JsMap.wf (Object_fromEntries l).
Proof. apply ownPropertyOrder_wf, of_entries_wf_result. Qed.

Lemma has_fold_set (V : Type) (k : string) (l : list (string * V)) (m : JsMap.t V) :
  JsMap.has k (fold_left (fun m kv => JsMap.set (fst kv) (snd kv) m) l m)
  = (JsMap.has k m || JsMap.has k l)%bool.
Proof.
  revert m. induction l as [|[k' v'] l IH]; intros m; simpl.
  - unfold JsMap.has at 3. simpl. now rewrite orb_false_r.
  - rewrite IH, has_set. unfold JsMap.has at 4. simpl.
    rewrite (String.eqb_sym k k').
    destruct (String.eqb k' k); simpl.
    + now rewrite orb_true_r.
    + reflexivity.
Qed.

Lemma has_perm (V : Type) (k : string) (m m' : JsMap.t V) :
  Permutation m m' -> JsMap.has k m = JsMap.has k m'.
Proof.
  intros Hp.
  assert (Hiff : JsMap.has k m = true <-> JsMap.has k m' = true).
  { rewrite !has_In_keys. unfold JsMap.keys.
    split; apply Permutation_in; [|symmetry]; now apply Permutation_map. }
  destruct (JsMap.has k m), (JsMap.has k m'); intuition congruence.
Qed.

(** An object has the keys of the entries it was built from. *)
Lemma has_Object_fromEntries (V : Type) (k : string) (l : list (string * V)) :
  JsMap.has k (Object_fromEntries l) = JsMap.has k l.
Proof.
  unfold Object_fromEntries.
  rewrite (has_perm _ k _ _ (ownPropertyOrder_perm _ (JsMap.of_entries l))).
  unfold JsMap.of_entries. now rewrite has_fold_set.
Qed.

(* ================================================================= *)
(** ** The state store *)

Lemma statusOfName_statusName (st : WebhookStatus) :
  statusOfName (statusName st) = Some st.
Proof. destruct st; reflexivity. Qed.

Lemma decodeAll_map (A B : Type) (f : A -> Loaded B) (g : B -> A)
    (l : list B) :
  (forall x, f (g x) = Typed x) -> decodeAll f (map g l) = Typed l.
Proof.
  intros Hfg. induction l as [|x l IH]; simpl; [reflexivity|].
  now rewrite Hfg, IH.
Qed.

Section RoundTrip.
Variable E : Env.
Hypothesis codec : forall t, Date_parse E (toISOString E t) = Some t.

Lemma decodeVideoEntry_videoToJSON (kv : string * ProcessedVideo) :
  decodeVideoEntry E (onValue (videoToJSON E) kv) = Typed kv.
Proof.
  destruct kv as [k [v a t st n]]. unfold decodeVideoEntry, videoToJSON.
  cbn. rewrite codec, statusOfName_statusName. reflexivity.
Qed.

Lemma decodeCheckEntry_iso (kv : string * Z) :
  decodeCheckEntry E (onValue (fun t => JStr (toISOString E t)) kv) = Typed kv.
Proof.
  destruct kv as [k t]. unfold decodeCheckEntry. cbn. now rewrite codec.
Qed.

Lemma load_stateToJSON (s : State) :
  load E (FileWith (JSONText (stateToJSON E s))) = Typed (reloaded s).
Proof.
  unfold load, parseState, stateToJSON. cbn [json_prop JsMap.get].
  cbn [String.eqb Ascii.eqb Bool.eqb entriesOrEmpty truthy Object_entries].
  unfold JsMap.entries.
  rewrite (Object_fromEntries_map_values _ _ (videoToJSON E)).
  rewrite (Object_fromEntries_map_values _ _ (fun t => JStr (toISOString E t))).
  rewrite (decodeAll_map _ _ (decodeVideoEntry E) (onValue (videoToJSON E)))
    by apply decodeVideoEntry_videoToJSON.
  rewrite (decodeAll_map _ _ (decodeCheckEntry E)
             (onValue (fun t => JStr (toISOString E t))))
    by apply decodeCheckEntry_iso.
  rewrite !of_entries_wf by apply Object_fromEntries_wf.
  reflexivity.
Qed.
End RoundTrip.

Lemma isProcessed_reloaded (k : string) (s : State) :
  isProcessed k (reloaded s) = isProcessed k s.
Proof. unfold isProcessed, reloaded; simpl. apply has_Object_fromEntries. Qed.

Lemma reloaded_wf (s : State) :
  JsMap.wf (processedVideos s) -> JsMap.wf (lastCheckTimes s) ->
  reloaded s = mkState (ownPropertyOrder (processedVideos s))
                       (ownPropertyOrder (lastCheckTimes s)).
Proof.
  intros H1 H2. unfold reloaded, Object_fromEntries.
  now rewrite !of_entries_wf.
Qed.

Lemma save_ok (E : Env) (w w1 : World) :
  save E w = (Normal tt, w1) ->
  w1 = mkWorld (mem w) (FileWith (JSONText (stateToJSON E (mem w))))
               (trace w ++ [EvWriteFile (stateToJSON E (mem w))]).
Proof.
  unfold save. destruct (fs_writeFile E (now w)); intros H; now inversion H.
Qed.

Lemma save_mem (E : Env) (w : World) : mem (snd (save E w)) = mem w.
Proof. unfold save. now destruct (fs_writeFile E (now w)). Qed.

Lemma save_disk (E : Env) (w : World) :
  disk (snd (save E w)) = disk w
  \/ disk (snd (save E w)) = FileWith (JSONText (stateToJSON E (mem w))).
Proof. unfold save. destruct (fs_writeFile E (now w)); simpl; auto. Qed.

Lemma markProcessed_unfold (E : Env) (video : ProcessedVideo) (w : World) :
  markProcessed E video w
  = save E (mkWorld (mkState (JsMap.set (videoId video) video
                                        (processedVideos (mem w)))
                             (lastCheckTimes (mem w)))
                    (disk w) (trace w)).
Proof. reflexivity. Qed.

Lemma updateLastCheckTime_unfold (E : Env) (a : string) (w : World) :
  updateLastCheckTime E a w
  = save E (mkWorld (mkState (processedVideos (mem w))
                             (JsMap.set a (Date_now E (now w))
                                        (lastCheckTimes (mem w))))
                    (disk w) (trace w)).
Proof. reflexivity. Qed.

Lemma updateWebhookStatus_unfold (E : Env) (vid : string)
    (status : WebhookStatus) (count : option Z) (w : World) :
  updateWebhookStatus E vid status count w
  = match JsMap.get vid (processedVideos (mem w)) with
    | Some video =>
        save E (mkWorld
                  (mkState
                     (JsMap.set vid
                        (mkProcessedVideo (videoId video) (author video)
                           (processedAt video) status
                           (match count with
                            | Some n => n
                            | None => retryCount video
                            end))
                        (processedVideos (mem w)))
                     (lastCheckTimes (mem w)))
                  (disk w) (trace w))
    | None => (Normal tt, w)
    end.
Proof.
  unfold updateWebhookStatus, bind, getMem.
  destruct (JsMap.get vid (processedVideos (mem w))); reflexivity.
Qed.

(** C10.  When [videoId] has no record in the store,
    [updateWebhookStatus] returns normally and leaves the world as it was:
    the in-memory state, the backing file and the trace, so that no write
    is even attempted. *)
Theorem updateWebhookStatus_absent :
  forall (E : Env) (vid : string) (status : WebhookStatus) (count : option Z)
         (w : World),
    isProcessed vid (mem w) = false ->
    updateWebhookStatus E vid status count w = (Normal tt, w).
Proof.
  intros E vid status count w Habsent.
  rewrite updateWebhookStatus_unfold.
  unfold isProcessed, JsMap.has in Habsent.
  destruct (JsMap.get vid (processedVideos (mem w))); [discriminate|reflexivity].
Qed.

Lemma updateWebhookStatus_absent_witness :
  isProcessed "v9" (mem (mkWorld tiedStore noFile [])) = false /\
  updateWebhookStatus envQuiet "v9" Failed (Some 3) (mkWorld tiedStore noFile [])
  = (Normal tt, mkWorld tiedStore noFile []).
Proof.
  split; [reflexivity|].
  apply (updateWebhookStatus_absent envQuiet "v9" Failed (Some 3)
           (mkWorld tiedStore noFile [])).
  reflexivity.
Defined.

Lemma StronglySorted_weaken (A : Type) (R R' : A -> A -> Prop) (l : list A) :
  (forall a b, R a b -> R' a b) -> StronglySorted R l -> StronglySorted R' l.
Proof.
  intros Himp. induction 1 as [|a l Hs IH Hall]; constructor; auto.
  eapply Forall_impl; [|exact Hall]. auto.
Qed.

Lemma StronglySorted_app_inv (A : Type) (R : A -> A -> Prop) (l1 l2 : list A) :
  StronglySorted R (l1 ++ l2) ->
  StronglySorted R l1 /\ forall a b, In a l1 -> In b l2 -> R a b.
Proof.
  induction l1 as [|x l1 IH]; simpl; intros Hs.
  - split; [constructor|tauto].
  - inversion Hs as [|? ? Hs' Hall]; subst.
    destruct (IH Hs') as [Hs1 Hcross].
    rewrite Forall_app in Hall. destruct Hall as [Hall1 Hall2].
    split; [now constructor|].
    intros a b [Ha|Ha] Hb; [subst a|now apply Hcross].
    rewrite Forall_forall in Hall2. now apply Hall2.
Qed.

Lemma history_sorted (l : list ProcessedVideo) :
  StronglySorted (fun a b => processedAt a >= processedAt b)
                 (Array_sort (fun a b => processedAt b - processedAt a) l).
Proof.
  eapply StronglySorted_weaken;
    [|apply (Array_sort_sorted _ (fun a b => processedAt b - processedAt a)
               (fun v => - processedAt v))].
  - intros a b. unfold keyOrdered. lia.
  - intros a b. lia.
Qed.

(** C7.  [limit] is a number of records: it is not negative.
    [getHistory(limit)] returns [min(limit, 100, count)] records, hence
    at most [min(limit, 100)];
    they are sorted by [processedAt], most recent first, and no record
    left out is more recent than a record returned; when at most 100
    records exist and [limit] is at least their number, all of them are
    returned; with 150 records the default call returns exactly 100. *)
Theorem getHistory_limit :
  forall (s : State) (limit : Z),
    0 <= limit ->
    let count := Z.of_nat (List.length (JsMap.values (processedVideos s))) in
    Z.of_nat (List.length (getHistory limit s)) = Z.min (Z.min limit 100) count
    /\ StronglySorted (fun a b => processedAt a >= processedAt b)
                      (getHistory limit s)
    /\ (exists rest,
           Permutation (getHistory limit s ++ rest)
                       (JsMap.values (processedVideos s))
           /\ forall a b, In a (getHistory limit s) -> In b rest ->
                          processedAt a >= processedAt b)
    /\ (count <= 100 -> count <= limit ->
        Permutation (getHistory limit s) (JsMap.values (processedVideos s)))
    /\ (count = 150 ->
        List.length (getHistory DEFAULT_HISTORY_LIMIT s) = 100%nat).
Proof.
  intros s limit Hlimit count.
  unfold getHistory, DEFAULT_HISTORY_LIMIT.
  set (videos := JsMap.values (processedVideos s)) in *.
  set (cmp := fun a b : ProcessedVideo => processedAt b - processedAt a).
  set (sorted := Array_sort cmp videos).
  assert (Hlen : List.length sorted = List.length videos)
    by apply Array_sort_length.
  assert (Hsorted : StronglySorted (fun a b => processedAt a >= processedAt b) sorted)
    by apply history_sorted.
  destruct (Array_slice0_split _ (Z.min limit 100) sorted) as [rest Hsplit].
  assert (Hparts :
    StronglySorted (fun a b => processedAt a >= processedAt b)
                   (Array_slice0 (Z.min limit 100) sorted)
    /\ forall a b, In a (Array_slice0 (Z.min limit 100) sorted) -> In b rest ->
                   processedAt a >= processedAt b).
  { apply StronglySorted_app_inv. now rewrite <- Hsplit. }
  split; [|split; [|split; [|split]]].
  - rewrite Array_slice0_length by lia. rewrite Hlen. reflexivity.
  - apply Hparts.
  - exists rest. split; [|apply Hparts].
    rewrite <- Hsplit. apply Array_sort_perm.
  - intros H100 Hall. rewrite Array_slice0_all.
    + apply Array_sort_perm.
    + rewrite Hlen. fold count. lia.
  - intros H150.
    apply Nat2Z.inj. rewrite Array_slice0_length by lia.
    rewrite Hlen. fold count. lia.
Qed.

Lemma getHistory_limit_witness :
  0 <= 10 /\
  let s := storeOfSize 3 in
  let count := Z.of_nat (List.length (JsMap.values (processedVideos s))) in
  Z.of_nat (List.length (getHistory 10 s)) = Z.min (Z.min 10 100) count
  /\ StronglySorted (fun a b => processedAt a >= processedAt b) (getHistory 10 s)
  /\ (exists rest,
         Permutation (getHistory 10 s ++ rest) (JsMap.values (processedVideos s))
         /\ forall a b, In a (getHistory 10 s) -> In b rest ->
                        processedAt a >= processedAt b)
  /\ (count <= 100 -> count <= 10 ->
      Permutation (getHistory 10 s) (JsMap.values (processedVideos s)))
  /\ (count = 150 ->
      List.length (getHistory DEFAULT_HISTORY_LIMIT s) = 100%nat).
Proof.
  split; [lia|].
  apply (getHistory_limit (storeOfSize 3) 10). lia.
Defined.

(** A negative [limit] is not a number of records, and no caller passes
    one.  [slice(0, limit)] then counts from the end: with 150 records
    [getHistory(-1)] returns 149 of them, more than the 100 that the
    comment in the code gives as the maximum. *)
Lemma getHistory_negative_limit :
  List.length (getHistory (-1) (storeOfSize 150)) = 149%nat.
Proof. vm_compute. reflexivity. Qed.

Lemma getHistory_perm_distinct (s s' : State) (limit : Z) :
  Permutation (JsMap.values (processedVideos s'))
              (JsMap.values (processedVideos s)) ->
  NoDup (map processedAt (JsMap.values (processedVideos s))) ->
  getHistory limit s' = getHistory limit s.
Proof.
  intros Hp Hnd. unfold getHistory. f_equal.
  symmetry.
  apply (Array_sort_perm_eq _ _ (fun v => - processedAt v)).
  - intros a b. lia.
  - rewrite <- (map_map processedAt Z.opp).
    apply Finite.Injective_map_NoDup; [|assumption].
    intros x y. lia.
  - now symmetry.
Qed.

(** C4, as the code has it.  After a [save] that completes, [load]
    returns a store on which [isProcessed] and [getLastCheckTime] answer
    as before and every record has all its fields as before.  The maps
    come back in own property order, so [getHistory] answers as before
    when no two records share a [processedAt], and in any case when no
    video id is an array index. *)
Theorem save_load_roundtrip :
  forall (E : Env) (w w1 : World),
    (forall t, Date_parse E (toISOString E t) = Some t) ->
    JsMap.wf (processedVideos (mem w)) ->
    JsMap.wf (lastCheckTimes (mem w)) ->
    save E w = (Normal tt, w1) ->
    exists s',
      load E (disk w1) = Typed s'
      /\ (forall k, isProcessed k s' = isProcessed k (mem w))
      /\ (forall k, JsMap.get k (processedVideos s')
                    = JsMap.get k (processedVideos (mem w)))
      /\ (forall a, getLastCheckTime a s' = getLastCheckTime a (mem w))
      /\ (NoDup (map processedAt (JsMap.values (processedVideos (mem w)))) ->
          forall limit, getHistory limit s' = getHistory limit (mem w))
      /\ ((forall k, In k (JsMap.keys (processedVideos (mem w))) ->
                     isArrayIndex k = false) ->
          forall limit, getHistory limit s' = getHistory limit (mem w)).
Proof.
  intros E w w1 Hcodec Hwf1 Hwf2 Hsave.
  apply save_ok in Hsave. subst w1. cbn [disk].
  exists (reloaded (mem w)).
  split; [now apply load_stateToJSON|].
  rewrite reloaded_wf by assumption.
  split; [|split; [|split; [|split]]].
  - intros k. unfold isProcessed. cbn [processedVideos].
    apply has_perm, ownPropertyOrder_perm.
  - intros k. cbn [processedVideos]. symmetry.
    apply get_perm; [assumption|]. symmetry. apply ownPropertyOrder_perm.
  - intros a. unfold getLastCheckTime. cbn [lastCheckTimes]. symmetry.
    apply get_perm; [assumption|]. symmetry. apply ownPropertyOrder_perm.
  - intros Hnd limit. apply getHistory_perm_distinct; [|assumption].
    cbn [processedVideos]. unfold JsMap.values.
    apply Permutation_map, ownPropertyOrder_perm.
  - intros Hplain limit. cbn [processedVideos].
    unfold getHistory. cbn [processedVideos].
    now rewrite ownPropertyOrder_plain.
Qed.

Lemma readTime_printTime (t : Z) : readTime (printTime t) = Some t.
Proof.
  unfold readTime, printTime.
  now rewrite NilEmpty.isi, DecimalZ.of_to.
Qed.

Lemma save_load_roundtrip_witness :
  (forall t, Date_parse envQuiet (toISOString envQuiet t) = Some t)
  /\ JsMap.wf (processedVideos (storeOfSize 3))
  /\ JsMap.wf (lastCheckTimes (storeOfSize 3))
  /\ save envQuiet (mkWorld (storeOfSize 3) noFile [])
     = (Normal tt, snd (save envQuiet (mkWorld (storeOfSize 3) noFile [])))
  /\ exists s',
      load envQuiet (disk (snd (save envQuiet (mkWorld (storeOfSize 3) noFile []))))
      = Typed s'
      /\ (forall k, isProcessed k s' = isProcessed k (storeOfSize 3))
      /\ (forall k, JsMap.get k (processedVideos s')
                    = JsMap.get k (processedVideos (storeOfSize 3)))
      /\ (forall a, getLastCheckTime a s' = getLastCheckTime a (storeOfSize 3))
      /\ (NoDup (map processedAt (JsMap.values (processedVideos (storeOfSize 3)))) ->
          forall limit, getHistory limit s' = getHistory limit (storeOfSize 3))
      /\ ((forall k, In k (JsMap.keys (processedVideos (storeOfSize 3))) ->
                     isArrayIndex k = false) ->
          forall limit, getHistory limit s' = getHistory limit (storeOfSize 3)).
Proof.
  assert (Hcodec : forall t, Date_parse envQuiet (toISOString envQuiet t) = Some t)
    by exact readTime_printTime.
  assert (Hwf1 : JsMap.wf (processedVideos (storeOfSize 3))).
  { unfold JsMap.wf. cbn. repeat constructor; cbn; intuition discriminate. }
  assert (Hwf2 : JsMap.wf (lastCheckTimes (storeOfSize 3))) by constructor.
  assert (Hsave : save envQuiet (mkWorld (storeOfSize 3) noFile [])
     = (Normal tt, snd (save envQuiet (mkWorld (storeOfSize 3) noFile []))))
    by reflexivity.
  split; [exact Hcodec|]. split; [exact Hwf1|]. split; [exact Hwf2|].
  split; [exact Hsave|].
  exact (save_load_roundtrip envQuiet (mkWorld (storeOfSize 3) noFile []) _
           Hcodec Hwf1 Hwf2 Hsave).
Defined.

(** C4 as stated fails on [getHistory]: the records stored under ["2"]
    and then ["1"] have the same [processedAt]; before the save the
    history lists ["2"] first, after the reload it lists ["1"] first,
    because the keys of the saved object come back in numeric order. *)
Lemma save_load_history_reordered :
  exists w1 s',
    save envQuiet (mkWorld tiedStore noFile []) = (Normal tt, w1)
    /\ load envQuiet (disk w1) = Typed s'
    /\ map videoId (getHistory 100 tiedStore) = ["2"; "1"]%string
    /\ map videoId (getHistory 100 s') = ["1"; "2"]%string
    /\ getHistory 100 s' <> getHistory 100 tiedStore.
Proof.
  eexists _, _.
  split; [reflexivity|].
  split; [vm_compute; reflexivity|].
  split; [reflexivity|].
  split; [reflexivity|].
  vm_compute. discriminate.
Qed.

(** *** Once recorded, always there *)

Section Recorded.
Variable E : Env.
Hypothesis codec : forall t, Date_parse E (toISOString E t) = Some t.
Variable vid : string.

Lemma save_recorded (w : World) :
  isProcessed vid (mem w) = true ->
  (exists s, disk w = FileWith (JSONText (stateToJSON E s))
             /\ isProcessed vid s = true) ->
  durablyRecorded E vid (snd (save E w)).
Proof.
  intros Hmem Hdisk. split.
  - now rewrite save_mem.
  - destruct (save_disk E w) as [Hd|Hd]; rewrite Hd.
    + exact Hdisk.
    + exists (mem w). now split.
Qed.

Lemma step_recorded (w w' : World) (op : StoreOp) :
  durablyRecorded E vid w -> store_step E w op w' -> durablyRecorded E vid w'.
Proof.
  intros [Hmem Hdisk] Hstep.
  inversion Hstep; subst; clear Hstep.
  - rewrite markProcessed_unfold. apply save_recorded; [|exact Hdisk].
    unfold isProcessed in *. cbn [mem processedVideos].
    rewrite has_set, Hmem. apply orb_true_r.
  - rewrite updateLastCheckTime_unfold. now apply save_recorded.
  - rewrite updateWebhookStatus_unfold.
    destruct (JsMap.get vid0 (processedVideos (mem w))) as [video|].
    + apply save_recorded; [|exact Hdisk].
      unfold isProcessed in *. cbn [mem processedVideos].
      rewrite has_set, Hmem. apply orb_true_r.
    + now split.
  - now apply save_recorded.
  - destruct Hdisk as (s0 & Hd & Hs0).
    rewrite Hd, load_stateToJSON in H by exact codec.
    inversion H; subst s. split.
    + cbn [mem]. now rewrite isProcessed_reloaded.
    + exists s0. now split.
  - now split.
Qed.

Lemma steps_recorded (w w' : World) (ops : list StoreOp) :
  durablyRecorded E vid w -> store_steps E w ops w' -> durablyRecorded E vid w'.
Proof.
  intros Hrec Hsteps. induction Hsteps as [|w op w1 ops w2 Hstep _ IH].
  - exact Hrec.
  - apply IH. eapply step_recorded; eauto.
Qed.
End Recorded.

(** C6.  Once [markProcessed] has returned, the record it was given is
    the one stored under its id and the backing file holds the state;
    [isProcessed] of that id is true after every sequence of store
    operations ([markProcessed], [updateLastCheckTime],
    [updateWebhookStatus], [save], [load]), whether or not they throw;
    and a second [markProcessed] of the same record leaves the state in
    memory and the backing file as the first one left them. *)
Theorem markProcessed_exists_forever :
  forall (E : Env) (video : ProcessedVideo) (w w1 w2 : World)
         (ops : list StoreOp),
    (forall t, Date_parse E (toISOString E t) = Some t) ->
    markProcessed E video w = (Normal tt, w1) ->
    store_steps E w1 ops w2 ->
    isProcessed (videoId video) (mem w2) = true
    /\ JsMap.get (videoId video) (processedVideos (mem w1)) = Some video
    /\ disk w1 = FileWith (JSONText (stateToJSON E (mem w1)))
    /\ mem (snd (markProcessed E video w1)) = mem w1
    /\ disk (snd (markProcessed E video w1)) = disk w1.
Proof.
  intros E video w w1 w2 ops Hcodec Hmark Hsteps.
  rewrite markProcessed_unfold in Hmark. apply save_ok in Hmark.
  cbn [mem disk trace] in Hmark.
  assert (Hget : JsMap.get (videoId video) (processedVideos (mem w1)) = Some video).
  { subst w1. cbn [mem processedVideos]. apply get_set_same. }
  assert (Hdisk : disk w1 = FileWith (JSONText (stateToJSON E (mem w1)))).
  { subst w1. reflexivity. }
  assert (Hhas : isProcessed (videoId video) (mem w1) = true).
  { unfold isProcessed, JsMap.has. now rewrite Hget. }
  assert (Hmem2 : mem (snd (markProcessed E video w1)) = mem w1).
  { rewrite markProcessed_unfold, save_mem. cbn [mem].
    subst w1. cbn [mem processedVideos lastCheckTimes].
    now rewrite set_set_same. }
  split; [|split; [|split; [|split]]]; auto.
  - eapply (steps_recorded E Hcodec (videoId video) w1 w2 ops); [|exact Hsteps].
    split; [exact Hhas|]. exists (mem w1). now split.
  - rewrite markProcessed_unfold in *. rewrite save_mem in Hmem2.
    match goal with |- disk (snd (save E ?w')) = _ =>
      destruct (save_disk E w') as [Hd|Hd]; rewrite Hd
    end.
    + reflexivity.
    + now rewrite Hmem2, Hdisk.
Qed.

Lemma markProcessed_exists_forever_witness :
  (forall t, Date_parse envQuiet (toISOString envQuiet t) = Some t)
  /\ markProcessed envQuiet video1 world0 = (Normal tt, worldMarked)
  /\ store_steps envQuiet worldMarked [OpSave] worldSaved
  /\ isProcessed (videoId video1) (mem worldSaved) = true
  /\ JsMap.get (videoId video1) (processedVideos (mem worldMarked)) = Some video1
  /\ disk worldMarked = FileWith (JSONText (stateToJSON envQuiet (mem worldMarked)))
  /\ mem (snd (markProcessed envQuiet video1 worldMarked)) = mem worldMarked
  /\ disk (snd (markProcessed envQuiet video1 worldMarked)) = disk worldMarked.
Proof.
  assert (Hcodec : forall t, Date_parse envQuiet (toISOString envQuiet t) = Some t)
    by exact readTime_printTime.
  assert (Hmark : markProcessed envQuiet video1 world0 = (Normal tt, worldMarked))
    by reflexivity.
  assert (Hsteps : store_steps envQuiet worldMarked [OpSave] worldSaved).
  { eapply steps_cons; [apply step_save|apply steps_nil]. }
  split; [exact Hcodec|]. split; [exact Hmark|]. split; [exact Hsteps|].
  exact (markProcessed_exists_forever envQuiet video1 world0 worldMarked
           worldSaved [OpSave] Hcodec Hmark Hsteps).
Defined.

(** *** load *)

Lemma decodeAll_throws (A B : Type) (f : A -> Loaded B) (l : list A) (e : JsError) :
  decodeAll f l = Throws e -> exists x, In x l /\ f x = Throws e.
Proof.
  induction l as [|x l IH]; simpl; [discriminate|].
  destruct (f x) as [b| |e'] eqn:Hfx.
  - destruct (decodeAll f l) as [bs| |e']; try discriminate.
    intros H. inversion H; subst.
    destruct (IH eq_refl) as (y & Hy & Hfy). exists y. auto.
  - destruct (decodeAll f l) as [bs| |e']; try discriminate.
    intros H. inversion H; subst.
    destruct (IH eq_refl) as (y & Hy & Hfy). exists y. auto.
  - intros H. inversion H; subst. exists x. auto.
Qed.

Lemma decodeAll_throws_some (A B : Type) (f : A -> Loaded B) (l : list A)
      (x : A) (e : JsError) :
  In x l -> f x = Throws e -> exists e', decodeAll f l = Throws e'.
Proof.
  induction l as [|y l IH]; simpl; [tauto|].
  intros [->|Hin] Hfx.
  - rewrite Hfx. eauto.
  - destruct (IH Hin Hfx) as (e' & He').
    destruct (f y) as [b| |ey]; [rewrite He'..|]; eauto.
Qed.

(** The two errors of a conversion carry no error code. *)
Lemma conversionError_code (j : json) :
  forall (depth : nat) (e : JsError),
    conversionError depth j = Some e -> errCode e = None.
Proof.
  revert j. fix IH 1. intros j depth e.
  destruct j as [|b|n|s0|items|props]; try discriminate.
  - destruct depth as [|depth]; cbn.
    + intros H. now inversion H.
    + induction items as [|x items IHitems]; [discriminate|].
      destruct (conversionError depth x) as [ex|] eqn:Hx.
      * intros H. inversion H; subst ex. exact (IH x depth e Hx).
      * exact IHitems.
  - cbn. destruct (existsb _ props); [|discriminate].
    intros H. now inversion H.
Qed.

Lemma Date_of_throws (E : Env) (x : option json) (e : JsError) :
  Date_of E x = Throws e <->
  exists j, x = Some j /\ conversionError (stack_depth E) j = Some e.
Proof.
  unfold Date_of. split.
  - destruct x as [j|]; [|discriminate].
    destruct j as [|b|n|s0|items|props]; try discriminate.
    + destruct (Z.abs n <=? 8640000000000000); discriminate.
    + destruct (Date_parse E s0); discriminate.
    + destruct (conversionError (stack_depth E) (JArr items)) eqn:Ht.
      * intros H. inversion H; subst. eauto.
      * destruct (Date_parse E _); discriminate.
    + destruct (conversionError (stack_depth E) (JObj props)) eqn:Ht.
      * intros H. inversion H; subst. eauto.
      * destruct (Date_parse E _); discriminate.
  - intros (j & -> & Hj).
    destruct j as [|b|n|s0|items|props]; try discriminate;
      now rewrite Hj.
Qed.

Lemma decodeVideoEntry_throws (E : Env) (kv : string * json) :
  (exists e, decodeVideoEntry E kv = Throws e) <->
  (snd kv = JNull
   \/ exists j, json_prop "processedAt" (snd kv) = Some j
                /\ conversionError (stack_depth E) j <> None).
Proof.
  destruct kv as [k value]. unfold decodeVideoEntry. cbn [snd]. split.
  - intros (e & H). destruct value as [|b|n|s0|items|props];
      [now left|cbn in H; discriminate..|].
    destruct (Date_of E (json_prop "processedAt" (JObj props)))
      as [t| |e'] eqn:Hd.
    + destruct (JsMap.get "videoId" props) as [[]|]; try discriminate.
      destruct (JsMap.get "author" props) as [[]|]; try discriminate.
      destruct (JsMap.get "webhookStatus" props) as [[]|]; try discriminate.
      destruct (JsMap.get "retryCount" props) as [[]|]; try discriminate.
      destruct (statusOfName _); try discriminate.
      destruct (Nat.eqb _ _); discriminate.
    + discriminate.
    + apply Date_of_throws in Hd. destruct Hd as (j & Hj & Ht).
      right. exists j. split; [exact Hj|]. now rewrite Ht.
  - intros [->|(j & Hj & Ht)]; [eauto|].
    destruct (conversionError (stack_depth E) j) as [e|] eqn:He; [|easy].
    assert (Hd : Date_of E (json_prop "processedAt" value) = Throws e)
      by (apply Date_of_throws; eauto).
    rewrite Hd. destruct value; [discriminate|eauto..].
Qed.

Lemma decodeCheckEntry_throws (E : Env) (kv : string * json) :
  (exists e, decodeCheckEntry E kv = Throws e) <->
  conversionError (stack_depth E) (snd kv) <> None.
Proof.
  unfold decodeCheckEntry. split.
  - intros (e & H).
    destruct (Date_of E (Some (snd kv))) as [t| |e'] eqn:Hd; try discriminate.
    apply Date_of_throws in Hd. destruct Hd as (j & Hj & Ht).
    inversion Hj; subst. now rewrite Ht.
  - intros Ht.
    destruct (conversionError (stack_depth E) (snd kv)) as [e|] eqn:He; [|easy].
    assert (Hd : Date_of E (Some (snd kv)) = Throws e)
      by (apply Date_of_throws; eauto).
    rewrite Hd. eauto.
Qed.

Lemma decodeVideoEntry_code (E : Env) (kv : string * json) (e : JsError) :
  decodeVideoEntry E kv = Throws e -> errCode e = None.
Proof.
  destruct kv as [k value]. unfold decodeVideoEntry.
  destruct value as [|b|n|s0|items|props];
    [intros H; now inversion H|cbn; discriminate..|].
  destruct (Date_of E (json_prop "processedAt" (JObj props)))
    as [t| |e'] eqn:Hd.
  - destruct (JsMap.get "videoId" props) as [[]|]; try discriminate.
    destruct (JsMap.get "author" props) as [[]|]; try discriminate.
    destruct (JsMap.get "webhookStatus" props) as [[]|]; try discriminate.
    destruct (JsMap.get "retryCount" props) as [[]|]; try discriminate.
    destruct (statusOfName _); try discriminate.
    destruct (Nat.eqb _ _); discriminate.
  - discriminate.
  - intros H. inversion H; subst e'.
    apply Date_of_throws in Hd. destruct Hd as (j & _ & Ht).
    exact (conversionError_code _ _ _ Ht).
Qed.

Lemma decodeCheckEntry_code (E : Env) (kv : string * json) (e : JsError) :
  decodeCheckEntry E kv = Throws e -> errCode e = None.
Proof.
  unfold decodeCheckEntry.
  destruct (Date_of E (Some (snd kv))) as [t| |e'] eqn:Hd; try discriminate.
  intros H. inversion H; subst e'.
  apply Date_of_throws in Hd. destruct Hd as (j & _ & Ht).
  exact (conversionError_code _ _ _ Ht).
Qed.

(** What [parseState] throws on parsed JSON carries no error code, so
    [load] rethrows it. *)
Lemma parseState_throws (E : Env) (j : json) :
  (exists e, parseState E (JSONText j) = Throws e) <->
  (exists e, load E (FileWith (JSONText j)) = Throws e).
Proof.
  unfold load.
  assert (Hcode : forall e, parseState E (JSONText j) = Throws e ->
                            errCode e = None).
  { intros e Hparse. unfold parseState in Hparse.
    destruct j; [now inversion Hparse|..];
    destruct (decodeAll (decodeVideoEntry E) _) as [vs| |ev] eqn:Hvs;
    try (destruct (decodeAll (decodeCheckEntry E) _) as [ts| |et] eqn:Hts;
         try discriminate;
         inversion Hparse; subst;
         apply decodeAll_throws in Hts; destruct Hts as (kv & _ & Hkv);
         exact (decodeCheckEntry_code _ _ _ Hkv));
    inversion Hparse; subst;
    apply decodeAll_throws in Hvs; destruct Hvs as (kv & _ & Hkv);
    exact (decodeVideoEntry_code _ _ _ Hkv). }
  split.
  - intros (e & Hparse). rewrite Hparse, (Hcode e Hparse). eauto.
  - intros (e & Hload).
    destruct (parseState E (JSONText j)) as [s| |e'] eqn:Hparse;
      try discriminate.
    eauto.
Qed.

(** X12.  On parsed JSON, [load] throws exactly when the text is [null],
    when an entry of [processedVideos] is [null], or when a date is to be
    built from a value whose conversion to a primitive throws: an object
    with a [toString] property of its own, or an array that holds one or is
    nested deeper than the call stack has room for.  The shape of the text
    is not checked otherwise. *)
Theorem load_throws_only (E : Env) (j : json) :
  (exists e, load E (FileWith (JSONText j)) = Throws e)
  <->
  (j = JNull
   \/ (exists kv, In kv (entriesOrEmpty (json_prop "processedVideos" j))
         /\ (snd kv = JNull
             \/ exists x, json_prop "processedAt" (snd kv) = Some x
                          /\ conversionError (stack_depth E) x <> None))
   \/ (exists kv, In kv (entriesOrEmpty (json_prop "lastCheckTimes" j))
         /\ conversionError (stack_depth E) (snd kv) <> None)).
Proof.
  rewrite <- parseState_throws.
  assert (Hcases :
    (exists e, parseState E (JSONText j) = Throws e) <->
    (j = JNull
     \/ (exists kv, In kv (entriesOrEmpty (json_prop "processedVideos" j))
                    /\ exists e, decodeVideoEntry E kv = Throws e)
     \/ (exists kv, In kv (entriesOrEmpty (json_prop "lastCheckTimes" j))
                    /\ exists e, decodeCheckEntry E kv = Throws e))).
  { split.
    - intros (e & Hparse). unfold parseState in Hparse.
      destruct j; [now left|right..];
      destruct (decodeAll (decodeVideoEntry E) _) as [vs| |ev] eqn:Hvs;
      try (destruct (decodeAll (decodeCheckEntry E) _) as [ts| |et] eqn:Hts;
           try discriminate;
           right; apply decodeAll_throws in Hts;
           destruct Hts as (kv & Hin & Hkv); eauto);
      left; apply decodeAll_throws in Hvs;
      destruct Hvs as (kv & Hin & Hkv); eauto.
    - intros [->|[(kv & Hin & e & Hkv)|(kv & Hin & e & Hkv)]].
      + cbn. eauto.
      + destruct (decodeAll_throws_some _ _ _ _ _ _ Hin Hkv) as (e' & He').
        unfold parseState. destruct j; [eauto|rewrite He'; eauto..].
      + destruct (decodeAll_throws_some _ _ _ _ _ _ Hin Hkv) as (e' & He').
        unfold parseState.
        destruct j; [eauto|..];
          (destruct (decodeAll (decodeVideoEntry E) _) as [vs| |ev];
           [rewrite He'; eauto|rewrite He'; eauto|eauto]). }
  rewrite Hcases.
  split.
  - intros [Hnull|[(kv & Hin & Hkv)|(kv & Hin & Hkv)]].
    + now left.
    + right; left. exists kv. split; [exact Hin|].
      now apply decodeVideoEntry_throws.
    + right; right. exists kv. split; [exact Hin|].
      now apply decodeCheckEntry_throws.
  - intros [Hnull|[(kv & Hin & Hkv)|(kv & Hin & Hkv)]].
    + now left.
    + right; left. exists kv. split; [exact Hin|].
      now apply decodeVideoEntry_throws.
    + right; right. exists kv. split; [exact Hin|].
      now apply decodeCheckEntry_throws.
Qed.

(** C3, as the code has it.  [load] on a missing backing file yields the
    empty store.  It throws when the file cannot be read for another
    reason, when the text is not JSON, and when the text is [null].  A
    JSON text in which the two collections are absent or without
    entries is accepted, whatever else it holds: it loads as the empty
    store. *)
Theorem load_outcomes :
  forall (E : Env),
    (forall e, errCode e = Some "ENOENT"%string ->
               load E (ReadFails e) = Typed emptyState)
    /\ (forall e, errCode e <> Some "ENOENT"%string ->
                  load E (ReadFails e) = Throws e)
    /\ (forall raw, exists e, load E (FileWith (NotJSON raw)) = Throws e)
    /\ (exists e, load E (FileWith (JSONText JNull)) = Throws e)
    /\ (forall j,
          j <> JNull ->
          entriesOrEmpty (json_prop "processedVideos" j) = [] ->
          entriesOrEmpty (json_prop "lastCheckTimes" j) = [] ->
          load E (FileWith (JSONText j)) = Typed emptyState).
Proof.
  intros E.
  split; [|split; [|split; [|split]]].
  - intros e He. unfold load. now rewrite He.
  - intros e He. unfold load.
    destruct (errCode e) as [c|] eqn:Hc; [|reflexivity].
    destruct (String.eqb c "ENOENT") eqn:Heq; [|reflexivity].
    apply String.eqb_eq in Heq. congruence.
  - intros raw. eexists. reflexivity.
  - eexists. reflexivity.
  - intros j Hj Hv Ht. unfold load, parseState.
    rewrite Hv, Ht. destruct j; try reflexivity. congruence.
Qed.

Lemma load_outcomes_witness :
  errCode ENOENT = Some "ENOENT"%string
  /\ load envQuiet noFile = Typed emptyState
  /\ JArr [JStr "v1"; JStr "v2"] <> JNull
  /\ entriesOrEmpty (json_prop "processedVideos" (JArr [JStr "v1"; JStr "v2"])) = []
  /\ entriesOrEmpty (json_prop "lastCheckTimes" (JArr [JStr "v1"; JStr "v2"])) = []
  /\ load envQuiet diskArrayOfIds = Typed emptyState.
Proof.
  split; [reflexivity|].
  split; [apply (proj1 (load_outcomes envQuiet) ENOENT); reflexivity|].
  split; [discriminate|]. split; [reflexivity|]. split; [reflexivity|].
  apply (proj2 (proj2 (proj2 (proj2 (load_outcomes envQuiet))))
           (JArr [JStr "v1"; JStr "v2"])).
  - discriminate.
  - reflexivity.
  - reflexivity.
Defined.

(** C3 as stated fails: a backing file that holds a JSON array of ids is
    loaded as the empty store, and one whose record lacks four of its
    five fields is loaded with that record; neither makes [load] throw. *)
Lemma load_accepts_malformed :
  malformed diskArrayOfIds
  /\ load envQuiet diskArrayOfIds = Typed emptyState
  /\ malformed diskPartialRecord
  /\ load envQuiet diskPartialRecord = IllTyped
  /\ ~ (forall d, malformed d -> exists e, load envQuiet d = Throws e).
Proof.
  split; [reflexivity|]. split; [reflexivity|].
  split; [reflexivity|]. split; [reflexivity|].
  intros Hall. destruct (Hall diskArrayOfIds eq_refl) as [e He].
  discriminate He.
Qed.

(* ================================================================= *)
(** ** The scheduler *)

Lemma bind_normal (A B : Type) (m : M A) (k : A -> M B) (w w' : World) (a : A) :
  m w = (Normal a, w') -> bind m k w = k a w'.
Proof. intros H. unfold bind. now rewrite H. Qed.

Lemma bind_throw (A B : Type) (m : M A) (k : A -> M B) (w w' : World)
    (e : JsError) :
  m w = (Throw e, w') -> bind m k w = (Throw e, w').
Proof. intros H. unfold bind. now rewrite H. Qed.

(** What a call of [sendWithRetry] with a budget that is not negative
    does: it returns a result, after at least one and at most
    [maxRetries + 1] posts of the payload, the first effect being a post. *)
Lemma sendWithRetry_run (E : Env) (payload : WebhookPayload) (maxRetries : Z)
    (w : World) :
  0 <= maxRetries ->
  exists evs res tl,
    sendWithRetry E payload maxRetries w = (Normal (Some res), after w evs)
    /\ Forall (clientEvent payload) evs
    /\ evs = EvPost payload :: tl
    /\ Z.of_nat (nposts evs) <= maxRetries + 1
    /\ attempts res = Z.of_nat (nposts evs).
Proof.
  intros Hmax. unfold sendWithRetry.
  remember (Z.to_nat (maxRetries + 1)) as fuel eqn:Hfuel.
  assert (Hf : Z.of_nat fuel = maxRetries + 1 - 0) by lia.
  destruct (sendLoop_spec E payload (maxRetries + 1) fuel 0 0 None w Hf)
    as (evs & Hsnd & Hall & Hn & (r & Hr & _ & Hr1) & _ & _).
  destruct (Hr1 ltac:(lia)) as (res & tl & -> & Hatt & Hevs).
  exists evs, res, tl.
  split.
  { rewrite (surjective_pairing (sendLoop _ _ _ _ _ _ _ _)). now rewrite Hr, Hsnd. }
  repeat split; auto; lia.
Qed.

Lemma save_run (E : Env) (w : World) :
  save E w
  = match fs_writeFile E (now w) with
    | None => (Normal tt, written E (mem w) w)
    | Some e => (Throw e, mkWorld (mem w) (disk w) (trace w ++ [EvWriteFailed e]))
    end.
Proof. reflexivity. Qed.

(** [processVideo], step by step. *)
Lemma processVideo_run (E : Env) (video : VideoMetadata) (config : Config)
    (w : World) :
  0 <= maxRetries config ->
  let w0 := announced video w in
  let r := pendingRecord E video w in
  let s1 := withRecord r (mem w) in
  match fs_writeFile E (now w0) with
  | Some e =>
      processVideo E video config w
      = (Throw e, mkWorld s1 (disk w) (trace w0 ++ [EvWriteFailed e]))
  | None =>
      let w1 := written E s1 w0 in
      exists evs res tl,
        sendWithRetry E (createPayload E video) (maxRetries config) w1
        = (Normal (Some res), after w1 evs)
        /\ Forall (clientEvent (createPayload E video)) evs
        /\ evs = EvPost (createPayload E video) :: tl
        /\ Z.of_nat (nposts evs) <= maxRetries config + 1
        /\ attempts res = Z.of_nat (nposts evs)
        /\ let s2 := withRecord (settled r res) s1 in
           let w2 := mkWorld s2 (disk w1) (trace w1 ++ evs) in
           processVideo E video config w
           = match fs_writeFile E (now w2) with
             | None =>
                 (Normal tt,
                  after (written E s2 w2) [EvLog (outcomeLog (id video) res)])
             | Some e =>
                 (Throw e, mkWorld s2 (disk w1) (trace w2 ++ [EvWriteFailed e]))
             end
  end.
Proof.
  intros Hmax w0 r s1.
  assert (Hmark : markProcessed E r w0
    = match fs_writeFile E (now w0) with
      | None => (Normal tt, written E s1 w0)
      | Some e => (Throw e, mkWorld s1 (disk w) (trace w0 ++ [EvWriteFailed e]))
      end).
  { rewrite markProcessed_unfold, save_run. reflexivity. }
  unfold processVideo.
  rewrite (bind_normal _ _ _ _ w w0 tt) by reflexivity.
  rewrite (bind_normal _ _ _ _ w0 w0 (processedAt r)) by reflexivity.
  change (mkProcessedVideo (id video) (vAuthor video) (processedAt r) Pending 0)
    with r.
  destruct (fs_writeFile E (now w0)) as [e|] eqn:Hw.
  - now rewrite (bind_throw _ _ _ _ _ _ _ Hmark).
  - set (w1 := written E s1 w0).
    rewrite (bind_normal _ _ _ _ _ _ _ Hmark). fold w1.
    destruct (sendWithRetry_run E (createPayload E video) (maxRetries config)
                                w1 Hmax)
      as (evs & res & tl & Hsend & Hall & Hevs & Hn & Hatt).
    exists evs, res, tl.
    split; [exact Hsend|]. split; [exact Hall|]. split; [exact Hevs|].
    split; [exact Hn|]. split; [exact Hatt|].
    set (s2 := withRecord (settled r res) s1).
    set (w2 := mkWorld s2 (disk w1) (trace w1 ++ evs)).
    rewrite (bind_normal _ _ _ _ _ _ _ Hsend).
    rewrite (bind_normal _ _ _ _ _ (after w1 evs) res) by reflexivity.
    assert (Hget : JsMap.get (id video) (processedVideos (mem (after w1 evs)))
                   = Some r).
    { cbn [after mem w1 written s1 withRecord processedVideos].
      apply get_set_same. }
    assert (Hupd : forall status,
      updateWebhookStatus E (id video) status (Some (attempts res)) (after w1 evs)
      = save E (mkWorld
                  (mkState
                     (JsMap.set (id video)
                        (mkProcessedVideo (videoId r) (author r) (processedAt r)
                                          status (attempts res))
                        (processedVideos s1))
                     (lastCheckTimes s1))
                  (disk w1) (trace w1 ++ evs))).
    { intros status. rewrite updateWebhookStatus_unfold, Hget. reflexivity. }
    unfold outcomeLog, s2, w2, settled.
    destruct (success res) eqn:Hsucc.
    + unfold bind at 1. rewrite Hupd, save_run. unfold now. cbn [mem disk trace].
      unfold withRecord. cbn [videoId].
      destruct (fs_writeFile E (List.length (trace w1 ++ evs))); reflexivity.
    + unfold bind at 1. rewrite Hupd, save_run. unfold now. cbn [mem disk trace].
      unfold withRecord. cbn [videoId].
      destruct (fs_writeFile E (List.length (trace w1 ++ evs))); reflexivity.
Qed.

Lemma postsOf_app (a b : list Event) : postsOf (a ++ b) = postsOf a ++ postsOf b.
Proof.
  induction a as [|e a IH]; simpl; [reflexivity|].
  destruct e; simpl; now rewrite ?IH.
Qed.

Lemma postsOf_client (payload : WebhookPayload) (evs : list Event) :
  Forall (clientEvent payload) evs ->
  postsOf evs = repeat payload (nposts evs).
Proof.
  induction 1 as [|e evs He _ IH]; [reflexivity|].
  destruct He as [->|[ms ->]]; unfold nposts in *; simpl; now rewrite IH.
Qed.

Lemma since_app (w w' : World) (evs : list Event) :
  trace w' = trace w ++ evs -> since w w' = evs.
Proof.
  unfold since. intros ->.
  rewrite skipn_app, skipn_all, Nat.sub_diag. reflexivity.
Qed.





(** [checkAuthor], up to the fetch. *)
Lemma checkAuthor_run (E : Env) (a : string) (config : Config) (w : World) :
  checkAuthor E a config w
  = match scraper_getLatestVideos E
            (now (after w [EvLog (LogCheckingAuthor a)])) a 10 with
    | Throw e =>
        (Throw e, after w [EvLog (LogCheckingAuthor a); EvGetLatestVideos a 10])
    | Normal videos =>
        (if Nat.eqb
              (List.length
                 (filter (fun v => negb (isProcessed (id v) (mem w))) videos)) 0
         then
           logger (LogNoNewVideos a) ;;
           updateLastCheckTime E a
         else
           logger (LogFound
                     (List.length
                        (filter (fun v => negb (isProcessed (id v) (mem w)))
                                videos)) a) ;;
           forOf (Array_sort (fun x y => publishedAt x - publishedAt y)
                    (filter (fun v => negb (isProcessed (id v) (mem w))) videos))
                 (fun video => processVideo E video config) ;;
           updateLastCheckTime E a)
          (after w [EvLog (LogCheckingAuthor a); EvGetLatestVideos a 10])
    end.
Proof.
  unfold checkAuthor.
  set (w0 := after w [EvLog (LogCheckingAuthor a)]).
  rewrite (bind_normal _ _ _ _ w w0 tt) by reflexivity.
  unfold bind at 1. unfold getLatestVideos at 1.
  assert (Hw1 : mkWorld (mem w0) (disk w0) (trace w0 ++ [EvGetLatestVideos a 10])
                = after w [EvLog (LogCheckingAuthor a); EvGetLatestVideos a 10]).
  { unfold w0, after. cbn [mem disk trace]. now rewrite <- app_assoc. }
  rewrite Hw1.
  destruct (scraper_getLatestVideos E (now w0) a 10); reflexivity.
Qed.

Lemma deliveryPosts_carries (E : Env) (vs : list VideoMetadata) (ns : list nat) :
  Forall2 (carries E) (deliveryPosts E vs ns) (eachTimes vs ns).
Proof.
  unfold deliveryPosts, eachTimes.
  induction (combine vs ns) as [|[v n] l IH]; cbn [map List.concat fst snd];
    [constructor|].
  apply Forall2_app; [|exact IH].
  induction n as [|n IHn]; cbn [repeat]; constructor; [|exact IHn].
  repeat split.
Qed.

Section DeliveryOfNewVideos.
Variable E : Env.
Variable config : Config.
Hypothesis budget : 0 <= maxRetries config.

(** [processVideo], whatever the file system does.  It posts the payload
    of the video, at most [maxRetries + 1] times, and touches no record
    but the one of the video.  It throws only when a write has failed,
    and it has posted nothing only when it throws. *)
Lemma processVideo_any (video : VideoMetadata) (w : World) :
  exists evs n c w',
    processVideo E video config w = (c, w')
    /\ trace w' = trace w ++ evs
    /\ postsOf evs = repeat (createPayload E video) n
    /\ Z.of_nat n <= maxRetries config + 1
    /\ (c = Normal tt -> (1 <= n)%nat)
    /\ (forall e, c = Throw e -> In (EvWriteFailed e) evs)
    /\ (forall k, k <> id video ->
          JsMap.get k (processedVideos (mem w'))
          = JsMap.get k (processedVideos (mem w)))
    /\ ((forall m, fs_writeFile E m = None) -> c = Normal tt).
Proof.
  pose proof (processVideo_run E video config w budget) as Hrun.
  cbv zeta in Hrun. revert Hrun.
  destruct (fs_writeFile E (now (announced video w))) as [e|] eqn:Hw1.
  - intros Hrun.
    exists [EvLog (LogProcessing (id video) (vAuthor video)); EvWriteFailed e], O.
    eexists _, _. split; [exact Hrun|].
    split.
    { unfold announced, after. cbn [trace]. now rewrite <- app_assoc. }
    split; [reflexivity|]. split; [lia|]. split; [discriminate|].
    split.
    { intros e' H. inversion H; subst. right; now left. }
    split.
    { intros k Hk. unfold withRecord.
      cbn [mem processedVideos videoId pendingRecord].
      now rewrite get_set_other by congruence. }
    intros Hok. rewrite Hok in Hw1. discriminate.
  - intros (evs & res & tl & Hsend & Hall & Hevs & Hn & Hatt & Hrun).
    assert (Hone : (1 <= nposts evs)%nat)
      by (rewrite Hevs; unfold nposts; simpl; lia).
    assert (Hframe : forall k d t, k <> id video ->
      JsMap.get k
        (processedVideos
           (mem (mkWorld
                   (withRecord (settled (pendingRecord E video w) res)
                      (withRecord (pendingRecord E video w) (mem w))) d t)))
      = JsMap.get k (processedVideos (mem w))).
    { intros k d t Hk. unfold withRecord, settled.
      cbn [mem processedVideos videoId pendingRecord].
      rewrite !get_set_other by congruence. reflexivity. }
    revert Hrun.
    match goal with |- context [fs_writeFile E ?n] =>
      destruct (fs_writeFile E n) as [e|] eqn:Hw2
    end; intros Hrun.
    + exists ([EvLog (LogProcessing (id video) (vAuthor video));
               EvWriteFile
                 (stateToJSON E (withRecord (pendingRecord E video w) (mem w)))]
              ++ evs ++ [EvWriteFailed e]),
             (nposts evs).
      eexists _, _. split; [exact Hrun|].
      split.
      { unfold written, announced, after. cbn [mem disk trace].
        now rewrite <- !app_assoc. }
      split.
      { rewrite !postsOf_app. cbn [postsOf]. rewrite app_nil_r. cbn [app].
        now apply postsOf_client. }
      split; [exact Hn|]. split; [intros _; exact Hone|].
      split.
      { intros e' H. inversion H; subst.
        apply in_or_app. right. apply in_or_app. right. now left. }
      split; [intros k Hk; now apply Hframe|].
      intros Hok. rewrite Hok in Hw2. discriminate.
    + exists ([EvLog (LogProcessing (id video) (vAuthor video));
               EvWriteFile
                 (stateToJSON E (withRecord (pendingRecord E video w) (mem w)))]
              ++ evs
              ++ [EvWriteFile
                    (stateToJSON E
                       (withRecord (settled (pendingRecord E video w) res)
                          (withRecord (pendingRecord E video w) (mem w))));
                  EvLog (outcomeLog (id video) res)]),
             (nposts evs).
      eexists _, _. split; [exact Hrun|].
      split.
      { unfold written, announced, after. cbn [mem disk trace].
        now rewrite <- !app_assoc. }
      split.
      { rewrite !postsOf_app. cbn [postsOf]. rewrite app_nil_r. cbn [app].
        now apply postsOf_client. }
      split; [exact Hn|]. split; [intros _; exact Hone|].
      split; [discriminate|].
      split; [|reflexivity].
      intros k Hk. unfold written, after. cbn [mem]. now apply (Hframe k noFile []).
Qed.

(** The loop over the new videos: it delivers an initial part of them,
    and all of them when it returns. *)
Lemma processAll_any (vs : list VideoMetadata) (w : World) :
  exists evs delivered rest ns c w',
    forOf vs (fun video => processVideo E video config) w = (c, w')
    /\ trace w' = trace w ++ evs
    /\ vs = delivered ++ rest
    /\ List.length ns = List.length delivered
    /\ Forall (fun n => 1 <= Z.of_nat n <= maxRetries config + 1) ns
    /\ postsOf evs = deliveryPosts E delivered ns
    /\ (c = Normal tt -> rest = [])
    /\ (forall e, c = Throw e -> In (EvWriteFailed e) evs)
    /\ (forall k, ~ In k (map id vs) ->
          JsMap.get k (processedVideos (mem w'))
          = JsMap.get k (processedVideos (mem w)))
    /\ ((forall m, fs_writeFile E m = None) -> c = Normal tt).
Proof.
  revert w. induction vs as [|v vs IH]; intros w.
  - exists [], [], [], [], (Normal tt), w. cbn. rewrite app_nil_r.
    repeat split; auto. discriminate.
  - destruct (processVideo_any v w)
      as (evs1 & n & c1 & w1 & Hrun & Htr1 & Hposts & Hn & Hone & Hfail & Hframe
          & Hok).
    assert (Hframe1 : forall k, ~ In k (map id (v :: vs)) ->
              JsMap.get k (processedVideos (mem w1))
              = JsMap.get k (processedVideos (mem w))).
    { intros k Hk. apply Hframe. intros ->. apply Hk. now left. }
    destruct c1 as [[]|e].
    + destruct (IH w1)
        as (evs2 & delivered & rest & ns & c & w' & Hrest & Htr & Hsplit & Hlen
            & Hns & Hposts2 & Hall & Hfail2 & Hframe2 & Hok2).
      exists (evs1 ++ evs2), (v :: delivered), rest, (n :: ns), c, w'.
      split; [cbn [forOf]; now rewrite (bind_normal _ _ _ _ _ _ _ Hrun)|].
      split; [rewrite Htr, Htr1; now rewrite app_assoc|].
      split; [cbn; now rewrite Hsplit|].
      split; [cbn; now rewrite Hlen|].
      split; [constructor; [specialize (Hone eq_refl); lia|exact Hns]|].
      split; [rewrite postsOf_app, Hposts, Hposts2; reflexivity|].
      split; [exact Hall|].
      split; [intros e He; apply in_or_app; right; now apply Hfail2|].
      split; [|exact Hok2].
      intros k Hk. rewrite Hframe2 by (intros Hin; apply Hk; now right).
      now apply Hframe1.
    + assert (Hthrow : forOf (v :: vs) (fun video => processVideo E video config) w
                       = (Throw e, w1))
        by (cbn [forOf]; now rewrite (bind_throw _ _ _ _ _ _ _ Hrun)).
      destruct n as [|n].
      * exists evs1, [], (v :: vs), [], (Throw e), w1.
        split; [exact Hthrow|]. split; [exact Htr1|].
        split; [reflexivity|]. split; [reflexivity|].
        split; [constructor|]. split; [exact Hposts|].
        split; [discriminate|]. split; [exact Hfail|].
        split; [exact Hframe1|]. intros H. discriminate (Hok H).
      * exists evs1, [v], vs, [S n], (Throw e), w1.
        split; [exact Hthrow|]. split; [exact Htr1|].
        split; [reflexivity|]. split; [reflexivity|].
        split; [constructor; [lia|constructor]|].
        split; [rewrite Hposts; unfold deliveryPosts; cbn; now rewrite app_nil_r|].
        split; [discriminate|]. split; [exact Hfail|].
        split; [exact Hframe1|]. intros H. discriminate (Hok H).
Qed.
End DeliveryOfNewVideos.

(** [updateLastCheckTime], whatever the file system does. *)
Lemma updateLastCheckTime_any (E : Env) (a : string) (w : World) :
  exists ev c w',
    updateLastCheckTime E a w = (c, w')
    /\ trace w' = trace w ++ [ev]
    /\ postsOf [ev] = []
    /\ (forall e, c = Throw e -> ev = EvWriteFailed e)
    /\ processedVideos (mem w') = processedVideos (mem w)
    /\ ((forall m, fs_writeFile E m = None) -> c = Normal tt).
Proof.
  rewrite updateLastCheckTime_unfold, save_run.
  destruct (fs_writeFile E _) as [e|] eqn:Hw; eexists _, _, _;
    (split; [reflexivity|]); (split; [reflexivity|]);
    (split; [reflexivity|]).
  - split; [intros e' H; now inversion H|]. split; [reflexivity|].
    intros Hok. rewrite Hok in Hw. discriminate.
  - split; [discriminate|]. split; reflexivity.
Qed.

(** A poll step of one author whose fetch returns. *)
Lemma checkAuthor_delivery :
  forall (E : Env) (a : string) (config : Config) (w : World)
         (videos : list VideoMetadata),
    0 <= maxRetries config ->
    scraper_getLatestVideos E (now (after w [EvLog (LogCheckingAuthor a)])) a 10
    = Normal videos ->
    let fresh := filter (fun v => negb (isProcessed (id v) (mem w))) videos in
    let sorted := Array_sort (fun x y => publishedAt x - publishedAt y) fresh in
    Permutation sorted fresh
    /\ StronglySorted (fun x y => publishedAt x <= publishedAt y) sorted
    /\ exists delivered rest ns c w',
         checkAuthor E a config w = (c, w')
         /\ sorted = delivered ++ rest
         /\ List.length ns = List.length delivered
         /\ Forall (fun n => 1 <= Z.of_nat n <= maxRetries config + 1) ns
         /\ Forall2 (carries E) (postsOf (since w w')) (eachTimes delivered ns)
         /\ (forall k, isProcessed k (mem w) = true ->
               JsMap.get k (processedVideos (mem w'))
               = JsMap.get k (processedVideos (mem w)))
         /\ (c = Normal tt -> rest = [])
         /\ (forall e, c = Throw e -> In (EvWriteFailed e) (since w w'))
         /\ ((forall n, fs_writeFile E n = None) -> c = Normal tt).
Proof.
  intros E a config w videos Hmax Hfetch fresh sorted.
  assert (Hperm : Permutation sorted fresh) by apply Array_sort_perm.
  split; [exact Hperm|].
  split.
  { apply (Array_sort_sorted _ _ publishedAt). intros x y. lia. }
  assert (Hold : forall k, isProcessed k (mem w) = true -> ~ In k (map id sorted)).
  { intros k Hk Hin. apply in_map_iff in Hin. destruct Hin as (v & Hv & Hin).
    apply (Permutation_in _ Hperm) in Hin. apply filter_In in Hin.
    destruct Hin as [_ Hnew]. subst k. rewrite Hk in Hnew. discriminate. }
  rewrite checkAuthor_run, Hfetch. fold fresh. fold sorted.
  set (w1 := after w [EvLog (LogCheckingAuthor a); EvGetLatestVideos a 10]).
  destruct (Nat.eqb (List.length fresh) 0) eqn:Hzero.
  - (* nothing new *)
    apply Nat.eqb_eq in Hzero. apply length_zero_iff_nil in Hzero.
    assert (Hnone : sorted = []) by (unfold sorted; now rewrite Hzero).
    set (w2 := after w1 [EvLog (LogNoNewVideos a)]).
    rewrite (bind_normal _ _ _ _ w1 w2 tt) by reflexivity.
    destruct (updateLastCheckTime_any E a w2)
      as (ev & c & w' & Hrun & Htr & Hp & Hfail & Hpv & Hok).
    assert (Hsince : since w w'
                     = [EvLog (LogCheckingAuthor a); EvGetLatestVideos a 10;
                        EvLog (LogNoNewVideos a)] ++ [ev]).
    { apply since_app. rewrite Htr. unfold w2, w1, after. cbn [trace].
      now rewrite <- !app_assoc. }
    exists [], [], [], c, w'.
    split; [exact Hrun|]. split; [exact Hnone|]. split; [reflexivity|].
    split; [constructor|].
    split.
    { rewrite Hsince, postsOf_app, Hp. constructor. }
    split; [intros k _; now rewrite Hpv|].
    split; [reflexivity|].
    split; [|exact Hok].
    intros e He. rewrite Hsince, (Hfail e He).
    apply in_or_app. right. now left.
  - (* new videos *)
    set (w2 := after w1 [EvLog (LogFound (List.length fresh) a)]).
    rewrite (bind_normal _ _ _ _ w1 w2 tt) by reflexivity.
    destruct (processAll_any E config Hmax sorted w2)
      as (evs & delivered & rest & ns & c & w3 & Hloop & Htr3 & Hsplit & Hlen
          & Hns & Hposts & Hall & Hfail & Hframe & Hok).
    destruct c as [[]|e].
    + rewrite (bind_normal _ _ _ _ _ _ _ Hloop).
      destruct (updateLastCheckTime_any E a w3)
        as (ev & c & w' & Hrun & Htr & Hp & Hfail' & Hpv & Hok').
      assert (Hsince : since w w'
                       = [EvLog (LogCheckingAuthor a); EvGetLatestVideos a 10;
                          EvLog (LogFound (List.length fresh) a)]
                         ++ evs ++ [ev]).
      { apply since_app. rewrite Htr, Htr3. unfold w2, w1, after. cbn [trace].
        now rewrite <- !app_assoc. }
      exists delivered, rest, ns, c, w'.
      split; [exact Hrun|]. split; [exact Hsplit|]. split; [exact Hlen|].
      split; [exact Hns|].
      split.
      { rewrite Hsince, !postsOf_app, Hp, app_nil_r. cbn [postsOf app].
        rewrite Hposts. apply deliveryPosts_carries. }
      split; [intros k Hk; rewrite Hpv; apply Hframe; now apply Hold|].
      split; [intros _; now apply Hall|].
      split; [|exact Hok'].
      intros e He. rewrite Hsince, (Hfail' e He).
      apply in_or_app. right. apply in_or_app. right. now left.
    + rewrite (bind_throw _ _ _ _ _ _ _ Hloop).
      assert (Hsince : since w w3
                       = [EvLog (LogCheckingAuthor a); EvGetLatestVideos a 10;
                          EvLog (LogFound (List.length fresh) a)] ++ evs).
      { apply since_app. rewrite Htr3. unfold w2, w1, after. cbn [trace].
        now rewrite <- !app_assoc. }
      exists delivered, rest, ns, (Throw e), w3.
      split; [reflexivity|]. split; [exact Hsplit|]. split; [exact Hlen|].
      split; [exact Hns|].
      split.
      { rewrite Hsince, postsOf_app. cbn [postsOf app].
        rewrite Hposts. apply deliveryPosts_carries. }
      split; [intros k Hk; apply Hframe; now apply Hold|].
      split; [discriminate|].
      split; [|intros H; discriminate (Hok H)].
      intros e' He. inversion He; subst e'. rewrite Hsince.
      apply in_or_app. right. now apply Hfail.
Qed.

(** C2, as the code has it.  Take a poll step of one author whose fetch
    returns [videos].  The new videos are those whose id the store does
    not hold, in ascending order of [publishedAt].  What the step posts
    is the payloads of an initial part of the new videos, in that order,
    each one posted between one and [maxRetries + 1] times; and every
    record the store held before is unchanged.  When the step returns,
    and so whenever no write fails, that initial part is all of the new
    videos.  The step throws only when a write has failed; the new videos
    that follow are then not delivered in this step. *)
Theorem checkAuthor_delivers_new_oldest_first :
  forall (E : Env) (a : string) (config : Config) (w : World)
         (videos : list VideoMetadata),
    0 <= maxRetries config ->
    scraper_getLatestVideos E (now (after w [EvLog (LogCheckingAuthor a)])) a 10
    = Normal videos ->
    let fresh := filter (fun v => negb (isProcessed (id v) (mem w))) videos in
    let sorted := Array_sort (fun x y => publishedAt x - publishedAt y) fresh in
    Permutation sorted fresh
    /\ StronglySorted (fun x y => publishedAt x <= publishedAt y) sorted
    /\ exists delivered rest ns c w',
         checkAuthor E a config w = (c, w')
         /\ sorted = delivered ++ rest
         /\ List.length ns = List.length delivered
         /\ Forall (fun n => 1 <= Z.of_nat n <= maxRetries config + 1) ns
         /\ Forall2 (carries E) (postsOf (since w w')) (eachTimes delivered ns)
         /\ (forall k, isProcessed k (mem w) = true ->
               JsMap.get k (processedVideos (mem w'))
               = JsMap.get k (processedVideos (mem w)))
         /\ (c = Normal tt -> rest = [])
         /\ (forall e, c = Throw e -> In (EvWriteFailed e) (since w w'))
         /\ ((forall n, fs_writeFile E n = None) -> c = Normal tt).
Proof. exact checkAuthor_delivery. Qed.

(** The two-video scenario: the cycle posts the unprocessed video only. *)
Lemma checkAuthor_delivers_new_oldest_first_witness :
  0 <= maxRetries config0
  /\ scraper_getLatestVideos envTwoVideos
       (now (after worldWithOld [EvLog (LogCheckingAuthor "a")])) "a" 10
     = Normal twoVideos
  /\ postsOf (trace (snd (checkAuthor envTwoVideos "a" config0 worldWithOld)))
     = [mkPayload "new" "https://www.tiktok.com/@a/video/new" "" "" "a"
          (printTime 10) None None None]
  /\ fst (checkAuthor envTwoVideos "a" config0 worldWithOld) = Normal tt
  /\ JsMap.get "old"
       (processedVideos
          (mem (snd (checkAuthor envTwoVideos "a" config0 worldWithOld))))
     = Some (mkProcessedVideo "old" "a" 1700000000000 Sent 1)
  /\ let fresh := filter (fun v => negb (isProcessed (id v) (mem worldWithOld)))
                         twoVideos in
     let sorted := Array_sort (fun x y => publishedAt x - publishedAt y) fresh in
     Permutation sorted fresh
     /\ StronglySorted (fun x y => publishedAt x <= publishedAt y) sorted
     /\ exists delivered rest ns c w',
          checkAuthor envTwoVideos "a" config0 worldWithOld = (c, w')
          /\ sorted = delivered ++ rest
          /\ List.length ns = List.length delivered
          /\ Forall (fun n => 1 <= Z.of_nat n <= maxRetries config0 + 1) ns
          /\ Forall2 (carries envTwoVideos) (postsOf (since worldWithOld w'))
                     (eachTimes delivered ns)
          /\ (forall k, isProcessed k (mem worldWithOld) = true ->
                JsMap.get k (processedVideos (mem w'))
                = JsMap.get k (processedVideos (mem worldWithOld)))
          /\ (c = Normal tt -> rest = [])
          /\ (forall e, c = Throw e -> In (EvWriteFailed e) (since worldWithOld w'))
          /\ ((forall n, fs_writeFile envTwoVideos n = None) -> c = Normal tt).
Proof.
  assert (Hmax : 0 <= maxRetries config0) by (cbn; lia).
  assert (Hfetch : scraper_getLatestVideos envTwoVideos
            (now (after worldWithOld [EvLog (LogCheckingAuthor "a")])) "a" 10
          = Normal twoVideos) by reflexivity.
  split; [exact Hmax|]. split; [exact Hfetch|].
  split; [vm_compute; reflexivity|]. split; [vm_compute; reflexivity|].
  split; [vm_compute; reflexivity|].
  exact (checkAuthor_delivers_new_oldest_first envTwoVideos "a" config0
           worldWithOld twoVideos Hmax Hfetch).
Defined.

(** C2 as stated fails when a write fails.  The fetch returns two new
    videos and the disk is full when the outcome of the first delivery
    is to be written: the step throws, it has posted the older video, and
    the other one, fetched and not recorded, is not delivered.  So the
    items delivered are not always exactly the new items. *)
Lemma checkAuthor_failed_write_stops_delivery :
  scraper_getLatestVideos envDiskFillsUp
    (now (after world0 [EvLog (LogCheckingAuthor "a")])) "a" 10
  = Normal twoNewVideos
  /\ isProcessed "v1" (mem world0) = false
  /\ isProcessed "v2" (mem world0) = false
  /\ fst (checkAuthor envDiskFillsUp "a" config0 world0) = Throw diskFull
  /\ map pVideoId
       (postsOf (since world0 (snd (checkAuthor envDiskFillsUp "a" config0 world0))))
     = ["v1"%string]
  /\ ~ (forall (E : Env) (a : string) (config : Config) (w : World)
               (videos : list VideoMetadata),
          0 <= maxRetries config ->
          scraper_getLatestVideos E
            (now (after w [EvLog (LogCheckingAuthor a)])) a 10
          = Normal videos ->
          exists ns,
            List.length ns
            = List.length (filter (fun v => negb (isProcessed (id v) (mem w)))
                                  videos)
            /\ Forall (fun n => (1 <= n)%nat) ns
            /\ Forall2 (carries E)
                 (postsOf (since w (snd (checkAuthor E a config w))))
                 (eachTimes
                    (Array_sort (fun x y => publishedAt x - publishedAt y)
                       (filter (fun v => negb (isProcessed (id v) (mem w)))
                               videos))
                    ns)).
Proof.
  assert (Hposts :
    map pVideoId
      (postsOf (since world0 (snd (checkAuthor envDiskFillsUp "a" config0 world0))))
    = ["v1"%string]) by (vm_compute; reflexivity).
  split; [reflexivity|]. split; [reflexivity|]. split; [reflexivity|].
  split; [vm_compute; reflexivity|]. split; [exact Hposts|].
  intros Hall.
  destruct (Hall envDiskFillsUp "a"%string config0 world0 twoNewVideos
              ltac:(cbn; lia) eq_refl) as (ns & Hlen & Hns & Hcarry).
  apply Forall2_length in Hcarry.
  apply (f_equal (@List.length string)) in Hposts.
  rewrite length_map in Hposts. rewrite Hposts in Hcarry.
  destruct ns as [|n1 [|n2 [|n3 ns]]]; try discriminate Hlen.
  inversion Hns as [|? ? H1 Hns']; subst.
  inversion Hns' as [|? ? H2 _]; subst.
  revert Hcarry. unfold eachTimes.
  change (Array_sort _ _) with [videoMeta "v1" "a" 5; videoMeta "v2" "a" 7].
  cbn [combine map List.concat fst snd].
  rewrite !length_app, !repeat_length. cbn [List.length]. lia.
Qed.

(** *** One author does not stop the others *)

Lemma fetchedAuthors_app (a b : list Event) :
  fetchedAuthors (a ++ b) = fetchedAuthors a ++ fetchedAuthors b.
Proof.
  induction a as [|e a IH]; simpl; [reflexivity|].
  destruct e; simpl; now rewrite ?IH.
Qed.

(** Closes [fetchFree m] when [m] leaves the trace as it is. *)
Ltac appends_nothing :=
  let w := fresh "w" in
  intros w; exists []; cbn; now rewrite app_nil_r.

Create HintDb fetchfree.

Lemma fetchFree_ret (A : Type) (a : A) : fetchFree (ret a).
Proof. appends_nothing. Qed.

Lemma fetchFree_throw (A : Type) (e : JsError) : fetchFree (@throw A e).
Proof. appends_nothing. Qed.

Lemma fetchFree_bind (A B : Type) (m : M A) (k : A -> M B) :
  fetchFree m -> (forall a, fetchFree (k a)) -> fetchFree (bind m k).
Proof.
  intros Hm Hk w. unfold bind.
  destruct (Hm w) as (evs1 & Htr1 & Hf1).
  destruct (m w) as [[a|e] w1] eqn:Hrun; cbn [snd] in *.
  - destruct (Hk a w1) as (evs2 & Htr2 & Hf2).
    exists (evs1 ++ evs2). rewrite Htr2, Htr1, app_assoc.
    split; [reflexivity|]. now rewrite fetchedAuthors_app, Hf1, Hf2.
  - exists evs1. auto.
Qed.

Lemma fetchFree_forOf (A : Type) (xs : list A) (body : A -> M unit) :
  (forall x, fetchFree (body x)) -> fetchFree (forOf xs body).
Proof.
  intros Hbody. induction xs as [|x xs IH]; cbn [forOf].
  - apply fetchFree_ret.
  - apply fetchFree_bind; auto.
Qed.

Lemma fetchFree_logger (m : LogMsg) : fetchFree (logger m).
Proof. intros w. exists [EvLog m]. split; reflexivity. Qed.

Lemma fetchFree_save (E : Env) : fetchFree (save E).
Proof.
  intros w. rewrite save_run.
  destruct (fs_writeFile E (now w)); eexists; split; reflexivity.
Qed.

Lemma fetchFree_markProcessed (E : Env) (video : ProcessedVideo) :
  fetchFree (markProcessed E video).
Proof.
  intros w. rewrite markProcessed_unfold.
  destruct (fetchFree_save E
              (mkWorld (mkState (JsMap.set (videoId video) video
                                           (processedVideos (mem w)))
                                (lastCheckTimes (mem w)))
                       (disk w) (trace w))) as (evs & H1 & H2).
  exists evs. auto.
Qed.

Lemma fetchFree_updateLastCheckTime (E : Env) (a : string) :
  fetchFree (updateLastCheckTime E a).
Proof.
  intros w. rewrite updateLastCheckTime_unfold.
  match goal with |- context [save E ?w'] =>
    destruct (fetchFree_save E w') as (evs & H1 & H2) end.
  exists evs. auto.
Qed.

Lemma fetchFree_updateWebhookStatus (E : Env) (vid : string)
    (status : WebhookStatus) (count : option Z) :
  fetchFree (updateWebhookStatus E vid status count).
Proof.
  intros w. rewrite updateWebhookStatus_unfold.
  destruct (JsMap.get vid (processedVideos (mem w))).
  - match goal with |- context [save E ?w'] =>
      destruct (fetchFree_save E w') as (evs & H1 & H2) end.
    exists evs. auto.
  - exists []. cbn. now rewrite app_nil_r.
Qed.

Lemma clientEvents_fetchFree (payload : WebhookPayload) (evs : list Event) :
  Forall (clientEvent payload) evs -> fetchedAuthors evs = [].
Proof.
  induction 1 as [|e evs He _ IH]; [reflexivity|].
  destruct He as [->|[ms ->]]; simpl; exact IH.
Qed.

Lemma fetchFree_sendWithRetry (E : Env) (payload : WebhookPayload)
    (maxRetries : Z) :
  fetchFree (sendWithRetry E payload maxRetries).
Proof.
  intros w. unfold sendWithRetry.
  destruct (Z_lt_le_dec (maxRetries + 1) 0) as [Hneg|Hpos].
  - replace (Z.to_nat (maxRetries + 1)) with O by lia.
    exists []. cbn. now rewrite app_nil_r.
  - destruct (sendLoop_spec E payload (maxRetries + 1)
                (Z.to_nat (maxRetries + 1)) 0 0 None w ltac:(lia))
      as (evs & Hsnd & Hall & _).
    exists evs. rewrite Hsnd. split; [reflexivity|].
    eapply clientEvents_fetchFree; eauto.
Qed.

#[local] Hint Resolve fetchFree_ret fetchFree_throw fetchFree_logger
  fetchFree_save fetchFree_markProcessed fetchFree_updateLastCheckTime
  fetchFree_updateWebhookStatus fetchFree_sendWithRetry : fetchfree.

Lemma fetchFree_processVideo (E : Env) (video : VideoMetadata) (config : Config) :
  fetchFree (processVideo E video config).
Proof.
  unfold processVideo.
  apply fetchFree_bind; [auto with fetchfree|intros _].
  apply fetchFree_bind; [appends_nothing|intros t].
  apply fetchFree_bind; [auto with fetchfree|intros _].
  apply fetchFree_bind; [auto with fetchfree|intros r].
  apply fetchFree_bind; [destruct r; cbn; auto with fetchfree|intros result].
  destruct (success result);
    (apply fetchFree_bind; [|intros _]; auto with fetchfree).
Qed.

(** [checkAuthor] fetches the feed of its author, once, whatever happens
    before and after. *)
Lemma checkAuthor_fetches (E : Env) (a : string) (config : Config) (w : World) :
  exists evs,
    trace (snd (checkAuthor E a config w)) = trace w ++ evs
    /\ fetchedAuthors evs = [a].
Proof.
  unfold checkAuthor.
  set (w0 := after w [EvLog (LogCheckingAuthor a)]).
  rewrite (bind_normal _ _ _ _ w w0 tt) by reflexivity.
  set (w1 := after w0 [EvGetLatestVideos a 10]).
  unfold bind at 1. unfold getLatestVideos at 1.
  destruct (scraper_getLatestVideos E (now w0) a 10) as [videos|e].
  - change (mkWorld (mem w0) (disk w0) (trace w0 ++ [EvGetLatestVideos a 10]))
      with w1.
    match goal with |- context [snd (bind getMem ?f w1)] =>
      assert (Hk : fetchFree (bind getMem f)) end.
    { apply fetchFree_bind; [appends_nothing|intros s0].
      destruct (Nat.eqb _ 0).
      - apply fetchFree_bind; [apply fetchFree_logger|intros _].
        apply fetchFree_updateLastCheckTime.
      - apply fetchFree_bind; [apply fetchFree_logger|intros _].
        apply fetchFree_bind; [|intros _; apply fetchFree_updateLastCheckTime].
        apply fetchFree_forOf. intros v. apply fetchFree_processVideo. }
    destruct (Hk w1) as (evs & Htr & Hf).
    exists ([EvLog (LogCheckingAuthor a); EvGetLatestVideos a 10] ++ evs).
    rewrite Htr. unfold w1, w0, after. cbn [trace].
    rewrite <- !app_assoc. split; [reflexivity|].
    rewrite fetchedAuthors_app, Hf. reflexivity.
  - exists [EvLog (LogCheckingAuthor a); EvGetLatestVideos a 10].
    cbn [snd trace]. unfold w0, after. cbn [trace].
    rewrite <- !app_assoc. split; reflexivity.
Qed.

(** One round of the loop of [runOnce]: the author is checked to the
    end; an error is logged, not thrown; a delay may follow. *)
Lemma runOnceBody_run (E : Env) (config : Config) (a : string) (w : World) :
  runOnceBody E config a w = (Normal tt, checked E config a w)
  /\ exists tl,
       checked E config a w = after (snd (checkAuthor E a config w)) tl
       /\ fetchedAuthors tl = []
       /\ postsOf tl = []
       /\ (forall e, fst (checkAuthor E a config w) = Throw e ->
             In (EvLog (LogErrorChecking a (errMessage e))) tl).
Proof.
  unfold runOnceBody, checked, bind, tryCatch.
  destruct (checkAuthor E a config w) as [[[]|e] w1]; cbn [fst snd].
  - destruct (_ <? _).
    + split; [reflexivity|]. exists [EvDelay (jitter E (now w1))].
      split; [reflexivity|]. split; [reflexivity|]. split; [reflexivity|].
      discriminate.
    + split; [reflexivity|]. exists []. rewrite after_nil.
      split; [reflexivity|]. split; [reflexivity|]. split; [reflexivity|].
      discriminate.
  - cbn [logger emit].
    destruct (_ <? _).
    + split; [reflexivity|].
      eexists [EvLog (LogErrorChecking a (errMessage e)); EvDelay _].
      split; [unfold after; cbn; now rewrite <- app_assoc|].
      split; [reflexivity|]. split; [reflexivity|].
      intros e' He'. inversion He'; subst. now left.
    + split; [reflexivity|].
      exists [EvLog (LogErrorChecking a (errMessage e))].
      split; [reflexivity|]. split; [reflexivity|]. split; [reflexivity|].
      intros e' He'. inversion He'; subst. now left.
Qed.

(** The loop of [runOnce]: it returns, having taken the authors one after
    the other; it fetches their feeds, once each and in order. *)
Lemma runOnceLoop_run (E : Env) (config : Config) (l : list string) (w : World) :
  forOf l (runOnceBody E config) w = (Normal tt, checkedAll E config l w)
  /\ exists evs,
       trace (checkedAll E config l w) = trace w ++ evs
       /\ fetchedAuthors evs = l.
Proof.
  revert w. induction l as [|x l IH]; intros w.
  - split; [reflexivity|]. exists []. cbn. now rewrite app_nil_r.
  - destruct (runOnceBody_run E config x w)
      as (Hbody & tl1 & Hchecked & Hf1 & _ & _).
    destruct (checkAuthor_fetches E x config w) as (evsx & Htrx & Hfx).
    destruct (IH (checked E config x w)) as (Hloop & evs & Htr & Hf).
    split.
    + cbn [forOf]. rewrite (bind_normal _ _ _ _ _ _ _ Hbody). exact Hloop.
    + exists (evsx ++ tl1 ++ evs).
      cbn [checkedAll fold_left]. fold (checkedAll E config l (checked E config x w)).
      rewrite Htr, Hchecked. unfold after. cbn [trace]. rewrite Htrx.
      rewrite <- !app_assoc. split; [reflexivity|].
      rewrite !fetchedAuthors_app, Hfx, Hf1, Hf. reflexivity.
Qed.

Lemma checkedAll_app (E : Env) (config : Config) (pre post : list string)
    (w : World) :
  checkedAll E config (pre ++ post) w
  = checkedAll E config post (checkedAll E config pre w).
Proof. unfold checkedAll. apply fold_left_app. Qed.

(** C8.  [runOnce] never throws.  With no author configured it logs
    that and does nothing else.  Otherwise it logs the number of
    authors, takes the authors one after the other, and logs the end of
    the cycle.  Every configured author is checked, from the world that
    the checks of the authors before it have left, whatever those checks
    did: when a check throws, the error is logged under the author's name
    and the loop goes on.  The check of every author is run to its end,
    and its posts are posts of the cycle: when the author's fetch
    returns, an initial part of the author's new videos, oldest first, is
    posted, each video between one and [maxRetries + 1] times, and that
    part is all of them unless a write fails. *)
Theorem runOnce_isolates_authors :
  forall (E : Env) (config : Config) (w : World),
    let w0 := after w [EvLog (LogCheckingAuthors (List.length (authors config)))] in
    fst (runOnce E config w) = Normal tt
    /\ (authors config = [] ->
        snd (runOnce E config w) = after w [EvLog LogNoAuthors])
    /\ (authors config <> [] ->
        snd (runOnce E config w)
        = after (checkedAll E config (authors config) w0)
                [EvLog LogCycleCompleted])
    /\ (exists evs,
          trace (snd (runOnce E config w)) = trace w ++ evs
          /\ fetchedAuthors evs = authors config)
    /\ (forall pre a post,
          authors config = pre ++ a :: post ->
          let wa := checkedAll E config pre w0 in
          exists evs tl,
            trace (snd (checkAuthor E a config wa)) = trace wa ++ evs
            /\ trace (snd (runOnce E config w)) = trace wa ++ evs ++ tl
            /\ fetchedAuthors evs = [a]
            /\ fetchedAuthors tl = post
            /\ (forall e, fst (checkAuthor E a config wa) = Throw e ->
                  In (EvLog (LogErrorChecking a (errMessage e))) tl)
            /\ (forall videos,
                  0 <= maxRetries config ->
                  scraper_getLatestVideos E
                    (now (after wa [EvLog (LogCheckingAuthor a)])) a 10
                  = Normal videos ->
                  let fresh :=
                    filter (fun v => negb (isProcessed (id v) (mem wa))) videos in
                  let sorted :=
                    Array_sort (fun x y => publishedAt x - publishedAt y) fresh in
                  exists delivered rest ns,
                    sorted = delivered ++ rest
                    /\ List.length ns = List.length delivered
                    /\ Forall (fun n => 1 <= Z.of_nat n <= maxRetries config + 1)
                              ns
                    /\ Forall2 (carries E) (postsOf evs) (eachTimes delivered ns)
                    /\ (rest = []
                        \/ exists e,
                             fst (checkAuthor E a config wa) = Throw e
                             /\ In (EvWriteFailed e) evs))).
Proof.
  intros E config w. cbv zeta.
  assert (Hper : forall w0 pre a post,
    authors config = pre ++ a :: post ->
    snd (runOnce E config w)
    = after (checkedAll E config (authors config) w0) [EvLog LogCycleCompleted] ->
    let wa := checkedAll E config pre w0 in
    exists evs tl,
      trace (snd (checkAuthor E a config wa)) = trace wa ++ evs
      /\ trace (snd (runOnce E config w)) = trace wa ++ evs ++ tl
      /\ fetchedAuthors evs = [a]
      /\ fetchedAuthors tl = post
      /\ (forall e, fst (checkAuthor E a config wa) = Throw e ->
            In (EvLog (LogErrorChecking a (errMessage e))) tl)
      /\ (forall videos,
            0 <= maxRetries config ->
            scraper_getLatestVideos E
              (now (after wa [EvLog (LogCheckingAuthor a)])) a 10
            = Normal videos ->
            let fresh :=
              filter (fun v => negb (isProcessed (id v) (mem wa))) videos in
            let sorted :=
              Array_sort (fun x y => publishedAt x - publishedAt y) fresh in
            exists delivered rest ns,
              sorted = delivered ++ rest
              /\ List.length ns = List.length delivered
              /\ Forall (fun n => 1 <= Z.of_nat n <= maxRetries config + 1) ns
              /\ Forall2 (carries E) (postsOf evs) (eachTimes delivered ns)
              /\ (rest = []
                  \/ exists e,
                       fst (checkAuthor E a config wa) = Throw e
                       /\ In (EvWriteFailed e) evs))).
  { intros w0 pre a post Hl Hend wa.
    destruct (checkAuthor_fetches E a config wa) as (evs & Htra & Hfa).
    destruct (runOnceBody_run E config a wa)
      as (_ & tl1 & Hchecked & Hf1 & _ & Herr).
    destruct (runOnceLoop_run E config post (checked E config a wa))
      as (_ & evs2 & Htr2 & Hf2).
    exists evs, (tl1 ++ evs2 ++ [EvLog LogCycleCompleted]).
    split; [exact Htra|].
    split.
    { rewrite Hend, Hl, checkedAll_app. cbn [checkedAll fold_left].
      fold (checkedAll E config post (checked E config a (checkedAll E config pre w0))).
      fold wa. unfold after at 1. cbn [trace].
      rewrite Htr2, Hchecked. unfold after. cbn [trace]. rewrite Htra.
      now rewrite <- !app_assoc. }
    split; [exact Hfa|].
    split.
    { rewrite !fetchedAuthors_app, Hf1, Hf2. cbn. now rewrite app_nil_r. }
    split.
    { intros e He. apply in_or_app. left. now apply Herr. }
    intros videos Hmax Hfetch fresh sorted.
    destruct (checkAuthor_delivery E a config wa videos Hmax Hfetch)
      as (_ & _ & delivered & rest & ns & c & wa' & Hrun & Hsplit & Hlen & Hns
          & Hcarry & _ & Hall & Hfail & _).
    assert (Hsince : since wa wa' = evs).
    { apply since_app. rewrite <- Htra, Hrun. reflexivity. }
    rewrite Hsince in *.
    exists delivered, rest, ns.
    split; [exact Hsplit|]. split; [exact Hlen|]. split; [exact Hns|].
    split; [exact Hcarry|].
    rewrite Hrun. cbn [fst].
    destruct c as [[]|e]; [left; now apply Hall|right].
    exists e. split; [reflexivity|]. now apply Hfail. }
  unfold runOnce in *.
  destruct (authors config) as [|a0 l0] eqn:Hauthors.
  - cbn. split; [reflexivity|]. split; [reflexivity|].
    split; [intros H; now elim H|].
    split; [exists [EvLog LogNoAuthors]; split; reflexivity|].
    intros pre a post H. destruct pre; discriminate.
  - cbn [List.length Nat.eqb] in *.
    set (w0 := after w [EvLog (LogCheckingAuthors (S (List.length l0)))]).
    rewrite (bind_normal _ _ _ _ w w0 tt) in * by reflexivity.
    destruct (runOnceLoop_run E config (a0 :: l0) w0)
      as (Hloop & evs & Htr & Hf).
    rewrite (bind_normal _ _ _ _ _ _ _ Hloop) in *.
    cbn [logger emit fst snd] in *.
    assert (Hend : mkWorld (mem (checkedAll E config (a0 :: l0) w0))
                     (disk (checkedAll E config (a0 :: l0) w0))
                     (trace (checkedAll E config (a0 :: l0) w0)
                      ++ [EvLog LogCycleCompleted])
                   = after (checkedAll E config (a0 :: l0) w0)
                           [EvLog LogCycleCompleted]) by reflexivity.
    split; [reflexivity|]. split; [discriminate|].
    split; [intros _; exact Hend|].
    split.
    + exists ([EvLog (LogCheckingAuthors (S (List.length l0)))] ++ evs
              ++ [EvLog LogCycleCompleted]).
      cbn [trace]. rewrite Htr. unfold w0, after. cbn [trace].
      rewrite <- !app_assoc. split; [reflexivity|].
      rewrite !fetchedAuthors_app, Hf. cbn. now rewrite app_nil_r.
    + intros pre a post Hl. exact (Hper w0 pre a post Hl Hend).
Qed.

(** The fetch of the first author throws; the second author's video is
    delivered all the same. *)
Lemma runOnce_isolates_authors_witness :
  authors configTwoAuthors = ["bad"%string] ++ "good"%string :: []
  /\ fst (checkAuthor envOneAuthorFails "bad" configTwoAuthors
            (after world0 [EvLog (LogCheckingAuthors 2)]))
     = Throw rateLimited
  /\ fst (runOnce envOneAuthorFails configTwoAuthors world0) = Normal tt
  /\ In (EvLog (LogErrorChecking "bad" (errMessage rateLimited)))
        (trace (snd (runOnce envOneAuthorFails configTwoAuthors world0)))
  /\ fetchedAuthors (trace (snd (runOnce envOneAuthorFails configTwoAuthors world0)))
     = ["bad"; "good"]%string
  /\ postsOf (trace (snd (runOnce envOneAuthorFails configTwoAuthors world0)))
     = [mkPayload "g1" "https://www.tiktok.com/@good/video/g1" "" "" "good"
          (printTime 10) None None None]
  /\ exists evs tl,
       trace (snd (checkAuthor envOneAuthorFails "good" configTwoAuthors
                     (checkedAll envOneAuthorFails configTwoAuthors ["bad"%string]
                        (after world0 [EvLog (LogCheckingAuthors 2)]))))
       = trace (checkedAll envOneAuthorFails configTwoAuthors ["bad"%string]
                  (after world0 [EvLog (LogCheckingAuthors 2)])) ++ evs
       /\ trace (snd (runOnce envOneAuthorFails configTwoAuthors world0))
          = trace (checkedAll envOneAuthorFails configTwoAuthors ["bad"%string]
                     (after world0 [EvLog (LogCheckingAuthors 2)]))
            ++ evs ++ tl
       /\ map pVideoId (postsOf evs) = ["g1"%string].
Proof.
  split; [reflexivity|]. split; [reflexivity|].
  split; [vm_compute; reflexivity|].
  split; [vm_compute; tauto|].
  split; [vm_compute; reflexivity|]. split; [vm_compute; reflexivity|].
  destruct (runOnce_isolates_authors envOneAuthorFails configTwoAuthors world0)
    as (_ & _ & _ & _ & Hper).
  destruct (Hper ["bad"%string] "good"%string [] eq_refl)
    as (evs & tl & Hcheck & Hcycle & _).
  exists evs, tl. split; [exact Hcheck|]. split; [exact Hcycle|].
  rewrite <- (since_app _ _ _ Hcheck). vm_compute. reflexivity.
Defined.

(** *** The retry sweep *)

(** C9 fails when the scraper throws.  Two failed records have retries
    left; [getVideoById] is rate limited for the first one and throws, as
    the scraper does on a 429.  [retryFailedWebhooks] then throws: the
    first record is not skipped with a log, and the second record, whose
    metadata is there to fetch, is never looked at. *)
Lemma retryFailedWebhooks_aborts_when_fetch_throws :
  getPendingRetries storeTwoFailed
  = [ mkProcessedVideo "v1" "a" 1700000000000 Failed 1;
      mkProcessedVideo "v2" "a" 1700000000001 Failed 1 ]
  /\ scraper_getVideoById envRetryRateLimited 1 "v2"
     = Normal (Some (videoMeta "v2" "a" 10))
  /\ retryFailedWebhooks envRetryRateLimited config0
       (mkWorld storeTwoFailed noFile [])
     = (Throw rateLimited,
        mkWorld storeTwoFailed noFile
                [EvLog (LogRetrying 2); EvGetVideoById "v1"]).
Proof.
  split; [reflexivity|]. split; reflexivity.
Qed.

Lemma fetchFree_retryOne (E : Env) (config : Config) (ref : string) :
  fetchFree (retryOne E config ref).
Proof.
  unfold retryOne.
  apply fetchFree_bind; [appends_nothing|].
  intros [video|]; [|apply fetchFree_ret].
  destruct (retryCount video >=? maxRetries config); [apply fetchFree_logger|].
  apply fetchFree_bind.
  { intros w. exists [EvGetVideoById (videoId video)]. split; reflexivity. }
  intros [meta|]; [|apply fetchFree_logger].
  apply fetchFree_bind; [apply fetchFree_sendWithRetry|intros r].
  apply fetchFree_bind.
  { destruct r; [apply fetchFree_ret|apply fetchFree_throw]. }
  intros result.
  destruct (success result);
    (apply fetchFree_bind;
     [apply fetchFree_updateWebhookStatus|intros _; apply fetchFree_logger]).
Qed.

(** What the sweep does when the scraper returns and no write fails:
    every record that is not failed is left as it is, and every failed
    record goes through one round, which skips it with a log when its
    retries are used up or its metadata is not found, and otherwise
    retries it with the budget [maxRetries - retryCount] and adds the
    attempts made to its [retryCount]. *)
Section Sweep.
Variable E : Env.
Variable config : Config.
Hypothesis scraper_returns :
  forall n v, exists m, scraper_getVideoById E n v = Normal m.
Hypothesis writes_ok : forall n, fs_writeFile E n = None.

Lemma retryOne_run (ref : string) (r : ProcessedVideo) (w : World) :
  JsMap.get ref (processedVideos (mem w)) = Some r ->
  videoId r = ref ->
  exists evs r' w',
    retryOne E config ref w = (Normal tt, w')
    /\ trace w' = trace w ++ evs
    /\ retryEffect E config r evs r'
    /\ JsMap.get ref (processedVideos (mem w')) = Some r'
    /\ videoId r' = ref
    /\ (forall k, k <> ref ->
          JsMap.get k (processedVideos (mem w'))
          = JsMap.get k (processedVideos (mem w))).
Proof.
  intros Hget Hid. subst ref. unfold retryOne, retryEffect.
  rewrite (bind_normal _ _ _ _ w w (Some r))
    by (unfold deref, bind, getMem, ret; now rewrite Hget).
  destruct (retryCount r >=? maxRetries config) eqn:Hrc.
  - exists [EvLog (LogExceeded (videoId r))], r, (after w [EvLog (LogExceeded (videoId r))]).
    repeat split; auto.
  - assert (Hbudget : 0 <= maxRetries config - retryCount r).
    { rewrite Z.geb_leb in Hrc. apply Z.leb_gt in Hrc. lia. }
    destruct (scraper_returns (now w) (videoId r)) as [m Hm].
    set (w1 := after w [EvGetVideoById (videoId r)]).
    rewrite (bind_normal _ _ _ _ w w1 m)
      by (unfold getVideoById; now rewrite Hm).
    destruct m as [meta|].
    + destruct (sendWithRetry_run E (createPayload E meta)
                  (maxRetries config - retryCount r) w1 Hbudget)
        as (sends & res & tl & Hsend & Hall & Hsends & Hn & Hatt).
      rewrite (bind_normal _ _ _ _ _ _ _ Hsend).
      rewrite (bind_normal _ _ _ _ _ (after w1 sends) res) by reflexivity.
      set (r' := mkProcessedVideo (videoId r) (author r) (processedAt r)
                   (if success res then Sent else Failed)
                   (retryCount r + attempts res)).
      set (s2 := mkState (JsMap.set (videoId r) r' (processedVideos (mem w)))
                         (lastCheckTimes (mem w))).
      set (w2 := mkWorld s2 (disk w) (trace w1 ++ sends)).
      assert (Hupd : forall status,
        updateWebhookStatus E (videoId r) status
          (Some (retryCount r + attempts res)) (after w1 sends)
        = (Normal tt,
           written E
             (mkState
                (JsMap.set (videoId r)
                   (mkProcessedVideo (videoId r) (author r) (processedAt r) status
                      (retryCount r + attempts res))
                   (processedVideos (mem w)))
                (lastCheckTimes (mem w)))
             (mkWorld (mem w) (disk w) (trace w1 ++ sends)))).
      { intros status. rewrite updateWebhookStatus_unfold.
        cbn [after mem w1]. rewrite Hget.
        rewrite save_run, writes_ok. reflexivity. }
      exists (EvGetVideoById (videoId r) :: sends
              ++ [EvWriteFile (stateToJSON E s2);
                  EvLog (if success res then LogRetryOk (videoId r)
                         else LogRetryFailed (videoId r))]),
             r',
             (after (written E s2 (mkWorld (mem w) (disk w) (trace w1 ++ sends)))
                    [EvLog (if success res then LogRetryOk (videoId r)
                            else LogRetryFailed (videoId r))]).
      split.
      { unfold s2, r'. destruct (success res);
          rewrite (bind_normal _ _ _ _ _ _ _ (Hupd _)); reflexivity. }
      split.
      { unfold w1, written, after. cbn [trace].
        now rewrite <- !app_assoc. }
      split.
      { right. exists meta, res, sends, (stateToJSON E s2).
        split; [reflexivity|]. split; [exact Hall|].
        split; [|split; [exact Hatt|reflexivity]].
        split; [|lia]. rewrite Hsends. unfold nposts. simpl. lia. }
      split.
      { cbn [after written mem processedVideos s2]. apply get_set_same. }
      split; [reflexivity|].
      intros k Hk. cbn [after written mem processedVideos s2].
      rewrite get_set_other by congruence. reflexivity.
    + exists [EvGetVideoById (videoId r); EvLog (LogNoMetadata (videoId r))], r,
        (after w1 [EvLog (LogNoMetadata (videoId r))]).
      split; [reflexivity|].
      split; [unfold w1, after; cbn [trace]; now rewrite <- app_assoc|].
      split; [now left|].
      repeat split; auto.
Qed.

Lemma retryLoop_run (refs : list string) (w : World) :
  NoDup refs ->
  (forall ref, In ref refs ->
     exists r, JsMap.get ref (processedVideos (mem w)) = Some r /\ videoId r = ref) ->
  exists w',
    forOf refs (retryOne E config) w = (Normal tt, w')
    /\ (forall k, ~ In k refs ->
          JsMap.get k (processedVideos (mem w'))
          = JsMap.get k (processedVideos (mem w)))
    /\ (forall ref r,
          In ref refs ->
          JsMap.get ref (processedVideos (mem w)) = Some r ->
          exists evs r' pre post,
            JsMap.get ref (processedVideos (mem w')) = Some r'
            /\ retryEffect E config r evs r'
            /\ trace w' = trace w ++ pre ++ evs ++ post).
Proof.
  revert w. induction refs as [|ref refs IH]; intros w Hnd Hrefs.
  - exists w. split; [reflexivity|]. split; [reflexivity|]. intros ? ? [].
  - inversion Hnd as [|? ? Hnotin Hnd']; subst.
    destruct (Hrefs ref (or_introl eq_refl)) as (r & Hget & Hid).
    destruct (retryOne_run ref r w Hget Hid)
      as (evs & r' & w1 & Hrun & Htr & Heff & Hget1 & Hid1 & Hframe1).
    destruct (IH w1 Hnd') as (w' & Hloop & Hframe & Heach).
    { intros ref' Hin. destruct (Hrefs ref' (or_intror Hin)) as (r0 & Hg & Hi).
      exists r0. split; [|exact Hi].
      rewrite Hframe1; [exact Hg|]. intros ->. contradiction. }
    exists w'. split; [|split].
    + cbn [forOf]. now rewrite (bind_normal _ _ _ _ _ _ _ Hrun).
    + intros k Hk. rewrite Hframe by (intros Hin; apply Hk; now right).
      apply Hframe1. intros ->. apply Hk. now left.
    + intros ref' r0 [->|Hin] Hg.
      * rewrite Hget in Hg. inversion Hg; subst r0.
        pose proof (Hframe ref' Hnotin) as Hkeep.
        assert (Htr' : exists post, trace w' = trace w1 ++ post).
        { destruct (fetchFree_forOf _ refs (retryOne E config)
                      (fetchFree_retryOne E config) w1) as (post & Hpost & _).
          rewrite Hloop in Hpost. exists post. exact Hpost. }
        destruct Htr' as [post Hpost].
        exists evs, r', [], post.
        split; [congruence|]. split; [exact Heff|].
        rewrite Hpost, Htr. cbn [app]. now rewrite app_assoc.
      * assert (Hne : ref' <> ref) by (intros ->; contradiction).
        destruct (Heach ref' r0 Hin) as (evs0 & r0' & pre & post & Hg' & He & Ht).
        { rewrite Hframe1 by exact Hne. exact Hg. }
        exists evs0, r0', (evs ++ pre), post.
        split; [exact Hg'|]. split; [exact He|].
        rewrite Ht, Htr. now rewrite <- !app_assoc.
Qed.
End Sweep.

Lemma WebhookStatus_eqb_eq (a b : WebhookStatus) :
  WebhookStatus_eqb a b = true <-> a = b.
Proof. destruct a, b; simpl; split; congruence. Qed.

Lemma In_pendingRetryRefs (k : string) (s : State) :
  In k (pendingRetryRefs s)
  <-> exists r, In (k, r) (processedVideos s) /\ webhookStatus r = Failed.
Proof.
  unfold pendingRetryRefs, JsMap.entries. rewrite in_map_iff. split.
  - intros ([k' r] & Hk & Hin). cbn in Hk. subst k'.
    apply filter_In in Hin. destruct Hin as [Hin Hf]. cbn in Hf.
    exists r. split; [exact Hin|]. now apply WebhookStatus_eqb_eq.
  - intros (r & Hin & Hf). exists (k, r). split; [reflexivity|].
    apply filter_In. split; [exact Hin|]. cbn. now apply WebhookStatus_eqb_eq.
Qed.

Lemma NoDup_pendingRetryRefs (s : State) :
  JsMap.wf (processedVideos s) -> NoDup (pendingRetryRefs s).
Proof.
  unfold JsMap.wf, JsMap.keys, pendingRetryRefs, JsMap.entries.
  induction (processedVideos s) as [|[k r] m IH]; cbn; intros Hnd; [constructor|].
  inversion Hnd as [|? ? Hnotin Hnd']; subst.
  destruct (WebhookStatus_eqb (webhookStatus r) Failed); cbn; [|now apply IH].
  constructor; [|now apply IH].
  intros Hin. apply Hnotin. apply in_map_iff in Hin.
  destruct Hin as (kv & Hk & Hin). apply filter_In in Hin.
  apply in_map_iff. exists kv. tauto.
Qed.

(** X11.  The retry sweep when the scraper returns.  Let
    [getVideoById] return for every id (a video or [null]), let no write
    fail, and let every record be stored once, under its own id.  Then
    [retryFailedWebhooks] returns; every record that is not failed is
    left as it is; and every failed record goes through one round:
    skipped with a log when [retryCount >= maxRetries] or when its
    metadata is not found, and otherwise sent with the budget
    [maxRetries - retryCount], that is in at most
    [maxRetries - retryCount + 1] attempts, and left [Sent] or [Failed]
    with the attempts made added to its [retryCount]. *)
Lemma retryFailedWebhooks_sweep (E : Env) (config : Config) (w : World) :
  (forall n v, exists m, scraper_getVideoById E n v = Normal m) ->
  (forall n, fs_writeFile E n = None) ->
  JsMap.wf (processedVideos (mem w)) ->
  keysMatch (mem w) ->
  exists w',
    retryFailedWebhooks E config w = (Normal tt, w')
    /\ forall k r,
         JsMap.get k (processedVideos (mem w)) = Some r ->
         (webhookStatus r <> Failed ->
          JsMap.get k (processedVideos (mem w')) = Some r)
         /\ (webhookStatus r = Failed ->
             exists evs r' pre post,
               JsMap.get k (processedVideos (mem w')) = Some r'
               /\ retryEffect E config r evs r'
               /\ trace w' = trace w ++ pre ++ evs ++ post).
Proof.
  intros Hscraper Hwrites Hwf Hkeys.
  unfold retryFailedWebhooks.
  rewrite (bind_normal _ _ _ _ w w (mem w)) by reflexivity.
  set (refs := pendingRetryRefs (mem w)).
  assert (Hin_refs : forall k r,
    JsMap.get k (processedVideos (mem w)) = Some r ->
    (In k refs <-> webhookStatus r = Failed)).
  { intros k r Hget. unfold refs. rewrite In_pendingRetryRefs. split.
    - intros (r0 & Hin & Hf). apply get_In in Hin; [|exact Hwf]. congruence.
    - intros Hf. exists r. split; [now apply get_Some_In|exact Hf]. }
  destruct (Nat.eqb (List.length refs) 0) eqn:Hzero.
  - apply Nat.eqb_eq, length_zero_iff_nil in Hzero.
    exists (after w [EvLog LogNoFailedWebhooks]). split; [reflexivity|].
    intros k r Hget. split; [intros _; exact Hget|].
    intros Hf. apply (Hin_refs k r Hget) in Hf. rewrite Hzero in Hf. destruct Hf.
  - set (w0 := after w [EvLog (LogRetrying (List.length refs))]).
    rewrite (bind_normal _ _ _ _ w w0 tt) by reflexivity.
    destruct (retryLoop_run E config Hscraper Hwrites refs w0)
      as (w' & Hloop & Hframe & Heach).
    { now apply NoDup_pendingRetryRefs. }
    { intros ref Hin. apply In_pendingRetryRefs in Hin.
      destruct Hin as (r & Hin & _). apply get_In in Hin; [|exact Hwf].
      exists r. split; [exact Hin|]. now apply Hkeys. }
    exists w'. split; [exact Hloop|].
    intros k r Hget. split.
    + intros Hnf. rewrite Hframe; [exact Hget|].
      intros Hin. apply (Hin_refs k r Hget) in Hin. contradiction.
    + intros Hf. apply (Hin_refs k r Hget) in Hf.
      destruct (Heach k r Hf Hget) as (evs & r' & pre & post & Hg & He & Ht).
      exists evs, r', ([EvLog (LogRetrying (List.length refs))] ++ pre), post.
      split; [exact Hg|]. split; [exact He|].
      rewrite Ht. unfold w0, after. cbn [trace]. now rewrite <- !app_assoc.
Qed.

(* ================================================================= *)
(** * Further properties *)


(** ** The backoff of the webhook client *)

Section Backoff.
Variable E : Env.
Variable payload : WebhookPayload.
Variable total : Z.

(** A loop that has rounds left returns a result; what it has done by
    then is a run of attempts with the sleeps between them, and a
    failure is only returned when the rounds are used up. *)
Lemma sendLoop_backoff :
  forall (fuel : nat) (attempt count : Z) (last : option WebhookResult)
         (w : World),
    Z.of_nat (S fuel) = total - attempt ->
    exists n res,
      (n <= fuel)%nat
      /\ sendLoop E payload total (S fuel) attempt count last w
         = (Normal (Some res), after w (backoffTrace payload attempt n))
      /\ attempts res = count + Z.of_nat n + 1
      /\ (success res = false -> n = fuel).
Proof.
  induction fuel as [|f IH]; intros attempt count last w Hfuel;
    rewrite sendLoop_round;
    (assert (Hlt : (attempt <? total) = true) by (apply Z.ltb_lt; lia));
    rewrite Hlt;
    destruct (axios_post E (now w) payload) as [status|status message].
  - exists O. eexists. split; [lia|]. split; [reflexivity|].
    split; [cbn; lia|]. discriminate.
  - assert (Hl : (attempt <? total - 1) = false) by (apply Z.ltb_ge; lia).
    rewrite Hl. exists O. eexists. split; [lia|]. split; [reflexivity|].
    split; [cbn; lia|]. reflexivity.
  - exists O. eexists. split; [lia|]. split; [reflexivity|].
    split; [cbn; lia|]. discriminate.
  - assert (Hl : (attempt <? total - 1) = true) by (apply Z.ltb_lt; lia).
    rewrite Hl.
    destruct (IH (attempt + 1) (count + 1)
                 (Some (mkResult false status (Some message) (count + 1)))
                 (after w [EvPost payload; EvSleep (2 ^ attempt * 1000)])
                 ltac:(lia))
      as (n & res & Hn & Hrun & Hatt & Hfail).
    exists (S n), res. split; [lia|]. split.
    + rewrite Hrun, after_after. reflexivity.
    + split; [lia|]. intros Hs. now rewrite (Hfail Hs).
Qed.
End Backoff.





(* ================================================================= *)
(** ** Runs of the scheduler *)

Section Runs.
Variable Q : World -> list Event -> World -> Prop.
Hypothesis Q_steps : stepwise Q.

Lemma runs_ret (A : Type) (a : A) : runs Q (ret a).
Proof.
  intros w. exists []. cbn. rewrite app_nil_r.
  split; [reflexivity|apply (sw_refl Q_steps)].
Qed.

Lemma runs_throw (A : Type) (e : JsError) : runs Q (@throw A e).
Proof.
  intros w. exists []. cbn. rewrite app_nil_r.
  split; [reflexivity|apply (sw_refl Q_steps)].
Qed.

Lemma runs_bind_yields (A B : Type) (P : A -> Prop) (m : M A) (k : A -> M B) :
  runs Q m -> yields P m -> (forall a, P a -> runs Q (k a)) ->
  runs Q (bind m k).
Proof.
  intros Hm Hy Hk w. unfold bind.
  destruct (Hm w) as (evs1 & Htr1 & HQ1).
  pose proof (Hy w) as Hyw.
  destruct (m w) as [[a|e] w1]; cbn [fst snd] in *.
  - destruct (Hk a (Hyw a eq_refl) w1) as (evs2 & Htr2 & HQ2).
    exists (evs1 ++ evs2). rewrite Htr2, Htr1, app_assoc.
    split; [reflexivity|]. exact (sw_trans Q_steps _ _ _ _ _ HQ1 HQ2).
  - exists evs1. auto.
Qed.

Lemma runs_bind (A B : Type) (m : M A) (k : A -> M B) :
  runs Q m -> (forall a, runs Q (k a)) -> runs Q (bind m k).
Proof.
  intros Hm Hk. apply (runs_bind_yields _ _ (fun _ => True)); auto.
  intros w a _. exact I.
Qed.

Lemma runs_tryCatch (A : Type) (m : M A) (h : JsError -> M A) :
  runs Q m -> (forall e, runs Q (h e)) -> runs Q (tryCatch m h).
Proof.
  intros Hm Hh w. unfold tryCatch.
  destruct (Hm w) as (evs1 & Htr1 & HQ1).
  destruct (m w) as [[a|e] w1]; cbn [fst snd] in *.
  - exists evs1. auto.
  - destruct (Hh e w1) as (evs2 & Htr2 & HQ2).
    exists (evs1 ++ evs2). rewrite Htr2, Htr1, app_assoc.
    split; [reflexivity|]. exact (sw_trans Q_steps _ _ _ _ _ HQ1 HQ2).
Qed.

Lemma runs_forOf (A : Type) (xs : list A) (body : A -> M unit) :
  (forall x, In x xs -> runs Q (body x)) -> runs Q (forOf xs body).
Proof.
  induction xs as [|x xs IH]; intros Hbody; cbn [forOf].
  - apply runs_ret.
  - apply runs_bind; [apply Hbody; now left|].
    intros _. apply IH. intros y Hy. apply Hbody. now right.
Qed.

Lemma runs_emit (e : Event) : admits Q e -> runs Q (emit e).
Proof. intros He w. exists [e]. split; [reflexivity|apply He]. Qed.

Lemma runs_logger (m : LogMsg) : admits Q (EvLog m) -> runs Q (logger m).
Proof. apply runs_emit. Qed.

Lemma runs_getMem : runs Q getMem.
Proof.
  intros w. exists []. cbn. rewrite app_nil_r.
  split; [reflexivity|apply (sw_refl Q_steps)].
Qed.

Lemma runs_newDate (E : Env) : runs Q (newDate E).
Proof.
  intros w. exists []. cbn. rewrite app_nil_r.
  split; [reflexivity|apply (sw_refl Q_steps)].
Qed.

Lemma runs_nonNull (r : option WebhookResult) : runs Q (nonNull r).
Proof. destruct r; [apply runs_ret|apply runs_throw]. Qed.

Lemma runs_delay (E : Env) :
  (forall ms, admits Q (EvDelay ms)) -> runs Q (delay E).
Proof. intros He w. eexists [_]. split; [reflexivity|apply He]. Qed.

Lemma runs_getLatestVideos (E : Env) (a : string) (limit : Z) :
  admits Q (EvGetLatestVideos a limit) -> runs Q (getLatestVideos E a limit).
Proof. intros He w. eexists [_]. split; [reflexivity|apply He]. Qed.

Lemma runs_getVideoById (E : Env) (v : string) :
  admits Q (EvGetVideoById v) -> runs Q (getVideoById E v).
Proof. intros He w. eexists [_]. split; [reflexivity|apply He]. Qed.

(** [checkAuthor] from its parts. *)
Lemma runs_checkAuthor (E : Env) (a : string) (config : Config) :
  (forall m, admits Q (EvLog m)) ->
  admits Q (EvGetLatestVideos a 10) ->
  (forall video, runs Q (processVideo E video config)) ->
  runs Q (updateLastCheckTime E a) ->
  runs Q (checkAuthor E a config).
Proof.
  intros Hlog Hfetch Hvideo Hcheck. unfold checkAuthor.
  apply runs_bind; [now apply runs_logger|intros _].
  apply runs_bind; [now apply runs_getLatestVideos|intros videos].
  apply runs_bind; [apply runs_getMem|intros s].
  destruct (Nat.eqb _ 0).
  - apply runs_bind; [now apply runs_logger|intros _]. exact Hcheck.
  - apply runs_bind; [now apply runs_logger|intros _].
    apply runs_bind; [|intros _; exact Hcheck].
    apply runs_forOf. intros video _. apply Hvideo.
Qed.

(** [runOnce] from the checks of the authors. *)
Lemma runs_runOnce (E : Env) (config : Config) :
  (forall m, admits Q (EvLog m)) ->
  (forall ms, admits Q (EvDelay ms)) ->
  (forall a, In a (authors config) -> runs Q (checkAuthor E a config)) ->
  runs Q (runOnce E config).
Proof.
  intros Hlog Hdelay Hcheck. unfold runOnce.
  destruct (Nat.eqb _ 0); [now apply runs_logger|].
  apply runs_bind; [now apply runs_logger|intros _].
  apply runs_bind; [|intros _; now apply runs_logger].
  apply runs_forOf. intros a Ha. unfold runOnceBody.
  apply runs_bind.
  - apply runs_tryCatch; [now apply Hcheck|].
    intros e. now apply runs_logger.
  - intros _. destruct (_ <? _); [now apply runs_delay|apply runs_ret].
Qed.
End Runs.

(** The client touches nothing but the network and the sleep function,
    whatever its budget. *)
Lemma sendLoop_after (E : Env) (payload : WebhookPayload) (total : Z) :
  forall (fuel : nat) (attempt count : Z) (last : option WebhookResult)
         (w : World),
    exists evs,
      snd (sendLoop E payload total fuel attempt count last w) = after w evs
      /\ Forall (clientEvent payload) evs.
Proof.
  induction fuel as [|f IH]; intros attempt count last w.
  - exists []. cbn. now rewrite after_nil.
  - rewrite sendLoop_round. destruct (attempt <? total).
    + destruct (axios_post E (now w) payload) as [status|status message].
      * exists [EvPost payload]. split; [reflexivity|].
        constructor; [now left|constructor].
      * match goal with |- context [after w ?l] =>
          destruct (IH (attempt + 1) (count + 1)
                       (Some (mkResult false status (Some message) (count + 1)))
                       (after w l)) as (evs & Hsnd & Hall);
          exists (l ++ evs); rewrite Hsnd, after_after
        end.
        split; [reflexivity|]. apply Forall_app. split; [|exact Hall].
        constructor; [now left|].
        destruct (attempt <? total - 1); [|constructor].
        constructor; [right; eauto|constructor].
    + exists []. cbn. now rewrite after_nil.
Qed.

Lemma sendWithRetry_after (E : Env) (payload : WebhookPayload)
    (maxRetries : Z) (w : World) :
  exists evs,
    snd (sendWithRetry E payload maxRetries w) = after w evs
    /\ Forall (clientEvent payload) evs.
Proof. apply sendLoop_after. Qed.

(** A failure is what [sendWithRetry] returns only after
    [maxRetries + 1] attempts, and [null] only for a negative budget. *)
Lemma sendWithRetry_yields (E : Env) (payload : WebhookPayload)
    (maxRetries : Z) :
  yields (fun r => match r with
                   | Some res => success res = false ->
                                 attempts res = maxRetries + 1
                   | None => maxRetries < 0
                   end)
         (sendWithRetry E payload maxRetries).
Proof.
  intros w r Hr. unfold sendWithRetry in Hr.
  destruct (Z.to_nat (maxRetries + 1)) as [|fuel] eqn:Hfuel.
  - cbn in Hr. inversion Hr; subst. lia.
  - destruct (sendLoop_backoff E payload (maxRetries + 1) fuel 0 0 None w
                ltac:(lia))
      as (n & res & Hn & Hrun & Hatt & Hfail).
    rewrite Hrun in Hr. inversion Hr; subst.
    intros Hs. rewrite Hatt, (Hfail Hs). lia.
Qed.

Lemma processVideo_unfold (E : Env) (video : VideoMetadata) (config : Config)
    (w : World) :
  processVideo E video config w
  = bind (markProcessed E (pendingRecord E video w))
         (fun _ => deliverVideo E video config) (announced video w).
Proof. reflexivity. Qed.

(** *** What a run does to the memory *)

Section MemoryRelation.
Variable E : Env.
Variable config : Config.
Variable R : State -> State -> Prop.
Variable allowed : string -> Prop.
Variable settles : WebhookStatus -> Z -> Prop.
Hypothesis R_refl : forall s, R s s.
Hypothesis R_trans : forall s1 s2 s3, R s1 s2 -> R s2 s3 -> R s1 s3.
Hypothesis R_pending :
  forall s vid a t, R s (withRecord (mkProcessedVideo vid a t Pending 0) s).
Hypothesis R_settled :
  forall s vid r status n,
    JsMap.get vid (processedVideos s) = Some r ->
    settles status n ->
    R s (mkState
           (JsMap.set vid
              (mkProcessedVideo (videoId r) (author r) (processedAt r) status n)
              (processedVideos s))
           (lastCheckTimes s)).
Hypothesis R_checked :
  forall s a t,
    allowed a ->
    R s (mkState (processedVideos s) (JsMap.set a t (lastCheckTimes s))).

Lemma onMem_stepwise : stepwise (onMem R).
Proof.
  split; unfold onMem.
  - intros w. apply R_refl.
  - intros w evs w1 evs' w2. apply R_trans.
Qed.

Lemma onMem_admits (e : Event) : admits (onMem R) e.
Proof. intros w. apply R_refl. Qed.

Lemma onMem_after (A : Type) (m : M A) :
  (forall w, exists evs, snd (m w) = after w evs) -> runs (onMem R) m.
Proof.
  intros Hm w. destruct (Hm w) as [evs ->]. exists evs.
  split; [reflexivity|apply R_refl].
Qed.

Lemma onMem_saved (s : State) (w : World) :
  R (mem w) s ->
  exists evs,
    trace (snd (save E (mkWorld s (disk w) (trace w)))) = trace w ++ evs
    /\ onMem R w evs (snd (save E (mkWorld s (disk w) (trace w)))).
Proof.
  intros HR. rewrite save_run.
  destruct (fs_writeFile E _); eexists [_]; split; try reflexivity; exact HR.
Qed.

Lemma onMem_markPending (vid a : string) (t : Z) :
  runs (onMem R) (markProcessed E (mkProcessedVideo vid a t Pending 0)).
Proof.
  intros w. rewrite markProcessed_unfold. apply onMem_saved. apply R_pending.
Qed.

Lemma onMem_updateLastCheckTime (a : string) :
  allowed a -> runs (onMem R) (updateLastCheckTime E a).
Proof.
  intros Ha w. rewrite updateLastCheckTime_unfold. apply onMem_saved.
  now apply R_checked.
Qed.

Lemma onMem_updateWebhookStatus (vid : string) (status : WebhookStatus)
    (n : Z) :
  settles status n ->
  runs (onMem R) (updateWebhookStatus E vid status (Some n)).
Proof.
  intros Hs w. rewrite updateWebhookStatus_unfold.
  destruct (JsMap.get vid (processedVideos (mem w))) as [r|] eqn:Hget.
  - apply onMem_saved. now apply R_settled.
  - exists []. cbn. rewrite app_nil_r. split; [reflexivity|apply R_refl].
Qed.

Lemma onMem_sendWithRetry (payload : WebhookPayload) (n : Z) :
  runs (onMem R) (sendWithRetry E payload n).
Proof.
  apply onMem_after. intros w.
  destruct (sendWithRetry_after E payload n w) as (evs & Hsnd & _). eauto.
Qed.

Lemma onMem_deliverVideo (video : VideoMetadata) :
  (forall n, settles Sent n) ->
  settles Failed (maxRetries config + 1) ->
  runs (onMem R) (deliverVideo E video config).
Proof.
  intros Hsent Hfailed. unfold deliverVideo.
  eapply (runs_bind_yields _ onMem_stepwise);
    [apply onMem_sendWithRetry|apply sendWithRetry_yields|].
  intros [res|] Hres; [|apply (runs_throw _ onMem_stepwise)].
  change (runs (onMem R)
    (if success res then
       updateWebhookStatus E (id video) Sent (Some (attempts res)) ;;
       logger (LogWebhookSent (id video) (attempts res))
     else
       updateWebhookStatus E (id video) Failed (Some (attempts res)) ;;
       logger (LogWebhookFailed (id video) (attempts res) (error res)))).
  destruct (success res).
  - apply (runs_bind _ onMem_stepwise);
      [now apply onMem_updateWebhookStatus|intros _].
    apply runs_logger, onMem_admits.
  - rewrite (Hres eq_refl).
    apply (runs_bind _ onMem_stepwise);
      [now apply onMem_updateWebhookStatus|intros _].
    apply runs_logger, onMem_admits.
Qed.

Lemma onMem_processVideo (video : VideoMetadata) :
  (forall n, settles Sent n) ->
  settles Failed (maxRetries config + 1) ->
  runs (onMem R) (processVideo E video config).
Proof.
  intros Hsent Hfailed. unfold processVideo.
  apply (runs_bind _ onMem_stepwise);
    [apply runs_logger, onMem_admits|intros _].
  apply (runs_bind _ onMem_stepwise);
    [apply (runs_newDate _ onMem_stepwise)|intros t].
  apply (runs_bind _ onMem_stepwise); [apply onMem_markPending|intros _].
  now apply onMem_deliverVideo.
Qed.

Lemma onMem_checkAuthor (a : string) :
  (forall n, settles Sent n) ->
  settles Failed (maxRetries config + 1) ->
  allowed a ->
  runs (onMem R) (checkAuthor E a config).
Proof.
  intros Hsent Hfailed Ha.
  apply (runs_checkAuthor _ onMem_stepwise).
  - intros m. apply onMem_admits.
  - apply onMem_admits.
  - intros video. now apply onMem_processVideo.
  - now apply onMem_updateLastCheckTime.
Qed.

Lemma onMem_runOnce :
  (forall n, settles Sent n) ->
  settles Failed (maxRetries config + 1) ->
  (forall a, In a (authors config) -> allowed a) ->
  runs (onMem R) (runOnce E config).
Proof.
  intros Hsent Hfailed Hall.
  apply (runs_runOnce _ onMem_stepwise).
  - intros m. apply onMem_admits.
  - intros ms. apply onMem_admits.
  - intros a Ha. apply onMem_checkAuthor; auto.
Qed.

Lemma onMem_retryFailedWebhooks :
  (forall status n, settles status n) ->
  runs (onMem R) (retryFailedWebhooks E config).
Proof.
  intros Hany. unfold retryFailedWebhooks.
  apply (runs_bind _ onMem_stepwise);
    [apply (runs_getMem _ onMem_stepwise)|intros s].
  destruct (Nat.eqb _ 0); [apply runs_logger, onMem_admits|].
  apply (runs_bind _ onMem_stepwise); [apply runs_logger, onMem_admits|intros _].
  apply (runs_forOf _ onMem_stepwise). intros ref _. unfold retryOne.
  apply (runs_bind _ onMem_stepwise).
  { unfold deref. apply (runs_bind _ onMem_stepwise);
      [apply (runs_getMem _ onMem_stepwise)|intros s0].
    apply (runs_ret _ onMem_stepwise). }
  intros [video|]; [|apply (runs_ret _ onMem_stepwise)].
  destruct (_ >=? _); [apply runs_logger, onMem_admits|].
  apply (runs_bind _ onMem_stepwise);
    [apply runs_getVideoById, onMem_admits|].
  intros [meta|]; [|apply runs_logger, onMem_admits].
  apply (runs_bind _ onMem_stepwise); [apply onMem_sendWithRetry|intros r].
  apply (runs_bind _ onMem_stepwise);
    [apply (runs_nonNull _ onMem_stepwise)|intros result].
  destruct (success result);
    (apply (runs_bind _ onMem_stepwise);
     [now apply onMem_updateWebhookStatus|intros _;
      apply runs_logger, onMem_admits]).
Qed.
End MemoryRelation.

Lemma runs_both (A : Type) (Q1 Q2 : World -> list Event -> World -> Prop)
    (m : M A) :
  runs Q1 m -> runs Q2 m ->
  runs (fun w evs w' => Q1 w evs w' /\ Q2 w evs w') m.
Proof.
  intros H1 H2 w.
  destruct (H1 w) as (evs & Htr & HQ1). destruct (H2 w) as (evs' & Htr' & HQ2).
  rewrite Htr in Htr'. apply app_inv_head in Htr'. subst evs'.
  exists evs. auto.
Qed.

(** *** No id is forgotten *)

Lemma retains_refl (s : State) : retains s s.
Proof. intros k Hk. exact Hk. Qed.

Lemma retains_trans (s1 s2 s3 : State) :
  retains s1 s2 -> retains s2 s3 -> retains s1 s3.
Proof. intros H1 H2 k Hk. auto. Qed.

Lemma retains_set (s : State) (vid : string) (r : ProcessedVideo) :
  retains s (mkState (JsMap.set vid r (processedVideos s)) (lastCheckTimes s)).
Proof.
  intros k Hk. unfold isProcessed in *. cbn [processedVideos].
  rewrite has_set, Hk. apply orb_true_r.
Qed.

Lemma keeps_deliverVideo (E : Env) (video : VideoMetadata) (config : Config) :
  runs keepsProcessed (deliverVideo E video config).
Proof.
  apply (onMem_deliverVideo E config retains (fun _ _ => True));
    auto using retains_refl.
  - exact retains_trans.
  - intros s vid r status n _ _. apply retains_set.
Qed.

Lemma keeps_processVideo (E : Env) (video : VideoMetadata) (config : Config) :
  runs keepsProcessed (processVideo E video config).
Proof.
  apply (onMem_processVideo E config retains (fun _ _ => True));
    auto using retains_refl.
  - exact retains_trans.
  - intros s vid a t. apply retains_set.
  - intros s vid r status n _ _. apply retains_set.
Qed.

Lemma keeps_runOnce (E : Env) (config : Config) :
  runs keepsProcessed (runOnce E config).
Proof.
  apply (onMem_runOnce E config retains (fun _ => True) (fun _ _ => True));
    auto using retains_refl.
  - exact retains_trans.
  - intros s vid a t. apply retains_set.
  - intros s vid r status n _ _. apply retains_set.
  - intros s a t _ k Hk. exact Hk.
Qed.

Lemma keeps_retryFailedWebhooks (E : Env) (config : Config) :
  runs keepsProcessed (retryFailedWebhooks E config).
Proof.
  apply (onMem_retryFailedWebhooks E config retains (fun _ _ => True));
    auto using retains_refl.
  - exact retains_trans.
  - intros s vid r status n _ _. apply retains_set.
Qed.

Lemma keeps_runOps (E : Env) (config : Config) (ops : list SchedOp) :
  forall w, retains (mem w) (mem (runOps E config ops w)).
Proof.
  induction ops as [|op ops IH]; intros w; cbn [runOps].
  - apply retains_refl.
  - eapply retains_trans; [|apply IH].
    destruct op; cbn [schedOp].
    + destruct (keeps_runOnce E config w) as (evs & _ & H). exact H.
    + destruct (keeps_retryFailedWebhooks E config w) as (evs & _ & H). exact H.
Qed.

(** *** What the delivery of a video adds to the trace *)

Section EventsOfVideo.
Variable E : Env.
Variable video : VideoMetadata.
Variable config : Config.

Lemma onEvents_stepwise (P : Event -> Prop) : stepwise (onEvents P).
Proof.
  split; unfold onEvents.
  - constructor.
  - intros w evs w1 evs' w2 H1 H2. apply Forall_app. auto.
Qed.

Lemma onEvents_admits (P : Event -> Prop) (e : Event) :
  P e -> admits (onEvents P) e.
Proof. intros He w. constructor; [exact He|constructor]. Qed.

Lemma onEvents_saved (P : Event -> Prop) (s : State) (w : World) :
  (forall j, P (EvWriteFile j)) -> (forall e, P (EvWriteFailed e)) ->
  exists evs,
    trace (snd (save E (mkWorld s (disk w) (trace w)))) = trace w ++ evs
    /\ onEvents P w evs (snd (save E (mkWorld s (disk w) (trace w)))).
Proof.
  intros Hw Hf. rewrite save_run.
  destruct (fs_writeFile E _); eexists [_]; split; try reflexivity;
    (constructor; [auto|constructor]).
Qed.

Lemma onEvents_updateWebhookStatus (P : Event -> Prop) (vid : string)
    (status : WebhookStatus) (count : option Z) :
  (forall j, P (EvWriteFile j)) -> (forall e, P (EvWriteFailed e)) ->
  runs (onEvents P) (updateWebhookStatus E vid status count).
Proof.
  intros Hw Hf w. rewrite updateWebhookStatus_unfold.
  destruct (JsMap.get vid (processedVideos (mem w))).
  - now apply onEvents_saved.
  - exists []. cbn. rewrite app_nil_r. split; [reflexivity|constructor].
Qed.

Lemma videoEvent_client (payload : WebhookPayload) (evs : list Event) :
  Forall (clientEvent payload) evs -> Forall (videoEvent payload) evs.
Proof.
  apply Forall_impl. intros e [->|[ms ->]]; cbn; auto.
Qed.

Lemma events_deliverVideo :
  runs (onEvents (videoEvent (createPayload E video)))
       (deliverVideo E video config).
Proof.
  pose proof (onEvents_stepwise (videoEvent (createPayload E video))) as Hsw.
  unfold deliverVideo.
  apply (runs_bind _ Hsw).
  { intros w.
    destruct (sendWithRetry_after E (createPayload E video) (maxRetries config) w)
      as (evs & Hsnd & Hall).
    exists evs. rewrite Hsnd. split; [reflexivity|].
    now apply videoEvent_client. }
  intros r. apply (runs_bind _ Hsw); [apply (runs_nonNull _ Hsw)|].
  intros result.
  destruct (success result);
    (apply (runs_bind _ Hsw);
     [apply onEvents_updateWebhookStatus; intros; exact I
     |intros _; apply runs_logger, onEvents_admits; exact I]).
Qed.

Lemma events_processVideo :
  runs (onEvents (videoEvent (createPayload E video)))
       (processVideo E video config).
Proof.
  pose proof (onEvents_stepwise (videoEvent (createPayload E video))) as Hsw.
  unfold processVideo.
  apply (runs_bind _ Hsw);
    [apply runs_logger, onEvents_admits; exact I|intros _].
  apply (runs_bind _ Hsw); [apply (runs_newDate _ Hsw)|intros t].
  apply (runs_bind _ Hsw); [|intros _; apply events_deliverVideo].
  intros w. rewrite markProcessed_unfold.
  apply onEvents_saved; intros; exact I.
Qed.

(** The delivery of a video, whatever fails on the way: nothing is
    posted but the payload of the video, no id is forgotten, and the id
    of the video is in the store from then on. *)
Lemma processVideo_delivery (w : World) :
  exists evs,
    trace (snd (processVideo E video config w)) = trace w ++ evs
    /\ Forall (videoEvent (createPayload E video)) evs
    /\ retains (mem w) (mem (snd (processVideo E video config w)))
    /\ isProcessed (id video) (mem (snd (processVideo E video config w))) = true.
Proof.
  destruct (runs_both _ _ _ _ events_processVideo
              (keeps_processVideo E video config) w)
    as (evs & Htr & Hev & Hkeep).
  exists evs. split; [exact Htr|]. split; [exact Hev|]. split; [exact Hkeep|].
  rewrite processVideo_unfold. unfold bind.
  rewrite markProcessed_unfold, save_run.
  assert (Hin : isProcessed (id video)
                  (withRecord (pendingRecord E video w) (mem w)) = true).
  { unfold isProcessed, withRecord. cbn [processedVideos pendingRecord videoId].
    rewrite has_set, String.eqb_refl. reflexivity. }
  destruct (fs_writeFile E _); [exact Hin|].
  match goal with |- context [deliverVideo E video config ?w1] =>
    destruct (keeps_deliverVideo E video config w1) as (evs1 & _ & Hk)
  end.
  apply Hk. exact Hin.
Qed.
End EventsOfVideo.

(** *** Deduplication *)

Lemma postsOf_videoEvent (payload : WebhookPayload) (evs : list Event) :
  Forall (videoEvent payload) evs ->
  forall p, In p (postsOf evs) -> p = payload.
Proof.
  induction 1 as [|e evs He _ IH]; intros p Hp; [destruct Hp|].
  destruct e; cbn in *; auto. destruct Hp as [<-|Hp]; auto.
Qed.

Lemma pace_videoEvent (payload : WebhookPayload) (evs : list Event) :
  Forall (videoEvent payload) evs -> pace evs = [].
Proof.
  induction 1 as [|e evs He _ IH]; [reflexivity|].
  destruct e; cbn in *; auto; contradiction.
Qed.

Lemma pace_app (a b : list Event) : pace (a ++ b) = pace a ++ pace b.
Proof.
  induction a as [|e a IH]; simpl; [reflexivity|].
  destruct e; simpl; now rewrite ?IH.
Qed.

(** The loop of [checkAuthor] over the new videos. *)
Lemma deliveryLoop (E : Env) (config : Config) (vs : list VideoMetadata) :
  forall w, exists evs,
    trace (snd (forOf vs (fun v => processVideo E v config) w)) = trace w ++ evs
    /\ retains (mem w)
               (mem (snd (forOf vs (fun v => processVideo E v config) w)))
    /\ pace evs = []
    /\ forall p, In p (postsOf evs) ->
         exists v, In v vs /\ p = createPayload E v
           /\ isProcessed (id v)
                (mem (snd (forOf vs (fun v => processVideo E v config) w)))
              = true.
Proof.
  induction vs as [|v vs IH]; intros w; cbn [forOf].
  - exists []. cbn. rewrite app_nil_r. split; [reflexivity|].
    split; [apply retains_refl|]. split; [reflexivity|]. intros p [].
  - destruct (processVideo_delivery E v config w) as (evs1 & Htr1 & Hev1 & Hk1 & Hin1).
    unfold bind.
    destruct (processVideo E v config w) as [[[]|e] w1]; cbn [fst snd] in *.
    + destruct (IH w1) as (evs2 & Htr2 & Hk2 & Hp2 & Hposts2).
      exists (evs1 ++ evs2). rewrite Htr2, Htr1, app_assoc.
      split; [reflexivity|].
      split; [eapply retains_trans; eauto|].
      split; [rewrite pace_app, Hp2, (pace_videoEvent _ _ Hev1); reflexivity|].
      intros p Hp. rewrite postsOf_app in Hp. apply in_app_or in Hp.
      destruct Hp as [Hp|Hp].
      * exists v. split; [now left|].
        split; [exact (postsOf_videoEvent _ _ Hev1 p Hp)|]. now apply Hk2.
      * destruct (Hposts2 p Hp) as (v' & Hv' & Hpv & Hproc).
        exists v'. split; [now right|]. auto.
    + exists evs1. split; [exact Htr1|]. split; [exact Hk1|].
      split; [exact (pace_videoEvent _ _ Hev1)|].
      intros p Hp. exists v. split; [now left|].
      split; [exact (postsOf_videoEvent _ _ Hev1 p Hp)|exact Hin1].
Qed.

Lemma updateLastCheckTime_trace (E : Env) (a : string) (w : World) :
  exists ev,
    trace (snd (updateLastCheckTime E a w)) = trace w ++ [ev]
    /\ postsOf [ev] = [] /\ pace [ev] = []
    /\ processedVideos (mem (snd (updateLastCheckTime E a w)))
       = processedVideos (mem w).
Proof.
  rewrite updateLastCheckTime_unfold, save_run.
  destruct (fs_writeFile E _); eexists; repeat split.
Qed.

(** What [checkAuthor] posts, whatever fails on the way. *)
Lemma checkAuthor_posts (E : Env) (a : string) (config : Config) (w : World) :
  exists evs,
    trace (snd (checkAuthor E a config w)) = trace w ++ evs
    /\ retains (mem w) (mem (snd (checkAuthor E a config w)))
    /\ pace evs = [Some a]
    /\ forall p, In p (postsOf evs) ->
         exists videos v,
           scraper_getLatestVideos E
             (now (after w [EvLog (LogCheckingAuthor a)])) a 10 = Normal videos
           /\ In v videos /\ p = createPayload E v
           /\ isProcessed (id v) (mem w) = false
           /\ isProcessed (id v) (mem (snd (checkAuthor E a config w))) = true.
Proof.
  rewrite checkAuthor_run.
  set (w1 := after w [EvLog (LogCheckingAuthor a); EvGetLatestVideos a 10]).
  destruct (scraper_getLatestVideos E _ a 10) as [videos|e].
  - set (fresh := filter (fun v => negb (isProcessed (id v) (mem w))) videos).
    set (sorted := Array_sort (fun x y => publishedAt x - publishedAt y) fresh).
    destruct (Nat.eqb (List.length fresh) 0).
    + set (w2 := after w1 [EvLog (LogNoNewVideos a)]).
      rewrite (bind_normal _ _ _ _ w1 w2 tt) by reflexivity.
      destruct (updateLastCheckTime_trace E a w2) as (ev & Htr & Hp & Hpace & Hpv).
      exists ([EvLog (LogCheckingAuthor a); EvGetLatestVideos a 10;
               EvLog (LogNoNewVideos a)] ++ [ev]).
      split.
      { rewrite Htr. unfold w2, w1, after. cbn [trace].
        now rewrite <- !app_assoc. }
      split.
      { intros k Hk. unfold isProcessed in *. now rewrite Hpv. }
      split; [rewrite pace_app, Hpace; reflexivity|].
      intros p Hin. rewrite postsOf_app, Hp in Hin. destruct Hin.
    + set (w2 := after w1 [EvLog (LogFound (List.length fresh) a)]).
      rewrite (bind_normal _ _ _ _ w1 w2 tt) by reflexivity.
      destruct (deliveryLoop E config sorted w2)
        as (evs & Htr & Hkeep & Hpace & Hposts).
      assert (Hfresh : forall v, In v sorted ->
                In v videos /\ isProcessed (id v) (mem w) = false).
      { intros v Hv. apply (Permutation_in _ (Array_sort_perm _ _ fresh)) in Hv.
        apply filter_In in Hv. destruct Hv as [Hv Hn].
        split; [exact Hv|]. now apply negb_true_iff in Hn. }
      unfold bind.
      destruct (forOf sorted (fun video => processVideo E video config) w2)
        as [[[]|e] w3]; cbn [fst snd] in *.
      * destruct (updateLastCheckTime_trace E a w3)
          as (ev & Htr' & Hp & Hpace' & Hpv).
        exists ([EvLog (LogCheckingAuthor a); EvGetLatestVideos a 10;
                 EvLog (LogFound (List.length fresh) a)] ++ evs ++ [ev]).
        split.
        { rewrite Htr', Htr. unfold w2, w1, after. cbn [trace].
          now rewrite <- !app_assoc. }
        split.
        { intros k Hk. unfold isProcessed. rewrite Hpv. now apply Hkeep. }
        split; [rewrite !pace_app, Hpace, Hpace'; reflexivity|].
        intros p Hin. rewrite !postsOf_app, Hp, app_nil_r in Hin.
        cbn [postsOf app] in Hin.
        destruct (Hposts p Hin) as (v & Hv & Hpv' & Hproc).
        destruct (Hfresh v Hv) as [Hvin Hnew].
        exists videos, v. repeat split; auto.
        unfold isProcessed. rewrite Hpv. exact Hproc.
      * exists ([EvLog (LogCheckingAuthor a); EvGetLatestVideos a 10;
                 EvLog (LogFound (List.length fresh) a)] ++ evs).
        split.
        { rewrite Htr. unfold w2, w1, after. cbn [trace].
          now rewrite <- !app_assoc. }
        split; [exact Hkeep|].
        split; [rewrite pace_app, Hpace; reflexivity|].
        intros p Hin. rewrite postsOf_app in Hin. cbn [postsOf app] in Hin.
        destruct (Hposts p Hin) as (v & Hv & Hpv' & Hproc).
        destruct (Hfresh v Hv) as [Hvin Hnew].
        exists videos, v. repeat split; auto.
  - exists [EvLog (LogCheckingAuthor a); EvGetLatestVideos a 10].
    split; [reflexivity|]. split; [apply retains_refl|].
    split; [reflexivity|]. intros p [].
Qed.

(** X2.  Deduplication.  Whatever the scraper, the endpoint and the file
    system do, what [checkAuthor] posts is the payload of a video that
    the fetch of this call returned and whose id the store did not hold
    when the call began; the id of every video it has posted is in the
    store when the call ends, be it by a return or by a throw; and no id
    that the store held is forgotten. *)
Theorem checkAuthor_posts_only_new :
  forall (E : Env) (a : string) (config : Config) (w : World),
    exists evs,
      trace (snd (checkAuthor E a config w)) = trace w ++ evs
      /\ (forall k, isProcessed k (mem w) = true ->
            isProcessed k (mem (snd (checkAuthor E a config w))) = true)
      /\ forall p, In p (postsOf evs) ->
           exists videos v,
             scraper_getLatestVideos E
               (now (after w [EvLog (LogCheckingAuthor a)])) a 10
             = Normal videos
             /\ In v videos /\ p = createPayload E v
             /\ isProcessed (id v) (mem w) = false
             /\ isProcessed (id v) (mem (snd (checkAuthor E a config w))) = true.
Proof.
  intros E a config w.
  destruct (checkAuthor_posts E a config w) as (evs & Htr & Hkeep & _ & Hposts).
  exists evs. auto.
Qed.

Lemma delivers_stepwise : stepwise delivers.
Proof.
  split.
  - intros w. split; [apply retains_refl|]. intros p [].
  - intros w evs w1 evs' w2 [Hk1 Hp1] [Hk2 Hp2].
    split; [eapply retains_trans; eauto|].
    intros p Hp. rewrite postsOf_app in Hp. apply in_app_or in Hp.
    destruct Hp as [Hp|Hp].
    + destruct (Hp1 p Hp) as [Hnew Hin]. split; [exact Hnew|]. now apply Hk2.
    + destruct (Hp2 p Hp) as [Hnew Hin]. split; [|exact Hin].
      destruct (isProcessed (pVideoId p) (mem w)) eqn:Hw; [|reflexivity].
      apply Hk1 in Hw. congruence.
Qed.

Lemma delivers_checkAuthor (E : Env) (a : string) (config : Config) :
  runs delivers (checkAuthor E a config).
Proof.
  intros w.
  destruct (checkAuthor_posts E a config w) as (evs & Htr & Hkeep & _ & Hposts).
  exists evs. split; [exact Htr|]. split; [exact Hkeep|].
  intros p Hp. destruct (Hposts p Hp) as (videos & v & _ & _ & -> & Hnew & Hin).
  auto.
Qed.

Lemma delivers_runOnce (E : Env) (config : Config) :
  runs delivers (runOnce E config).
Proof.
  apply (runs_runOnce _ delivers_stepwise).
  - intros m w. split; [apply retains_refl|]. intros p [].
  - intros ms w. split; [apply retains_refl|]. intros p [].
  - intros a _. apply delivers_checkAuthor.
Qed.

(** X3.  No redelivery.  Take two poll cycles of one scheduler, under
    any configurations, with any number of poll cycles and retry sweeps
    between them, each of them run to its end before the next one
    begins: no video that the first cycle has posted is posted by the
    second one, whether the first delivery succeeded or not and whatever
    failed in between.  (Cycles that overlap in time, as a timer may
    start them, are not covered.) *)
Theorem runOnce_never_redelivers :
  forall (E : Env) (c1 c2 c3 : Config) (ops : list SchedOp) (w : World)
         (p p' : WebhookPayload),
    In p (postsOf (since w (snd (runOnce E c1 w)))) ->
    In p' (postsOf
             (since (runOps E c2 ops (snd (runOnce E c1 w)))
                    (snd (runOnce E c3
                            (runOps E c2 ops (snd (runOnce E c1 w))))))) ->
    pVideoId p <> pVideoId p'.
Proof.
  intros E c1 c2 c3 ops w p p' Hp Hp' Heq.
  set (w1 := snd (runOnce E c1 w)) in *.
  set (w2 := runOps E c2 ops w1) in *.
  destruct (delivers_runOnce E c1 w) as (evs1 & Htr1 & _ & Hd1).
  destruct (delivers_runOnce E c3 w2) as (evs3 & Htr3 & _ & Hd3).
  fold w1 in Htr1, Hd1.
  rewrite (since_app _ _ _ Htr1) in Hp. rewrite (since_app _ _ _ Htr3) in Hp'.
  destruct (Hd1 p Hp) as [_ Hin1]. destruct (Hd3 p' Hp') as [Hnew _].
  apply (keeps_runOps E c2 ops w1) in Hin1. fold w2 in Hin1.
  rewrite Heq in Hin1. congruence.
Qed.

(** ** The pace of a poll cycle *)

Lemma Array_indexOf_In (x : string) (l : list string) :
  In x l -> 0 <= Array_indexOf x l < Z.of_nat (List.length l).
Proof.
  induction l as [|y l IH]; intros Hin; [destruct Hin|].
  cbn [Array_indexOf List.length]. destruct (String.eqb x y) eqn:Hxy; [lia|].
  apply String.eqb_neq in Hxy.
  destruct Hin as [->|Hin]; [congruence|].
  specialize (IH Hin).
  assert (Hnn : (Array_indexOf x l <? 0) = false) by (apply Z.ltb_ge; lia).
  rewrite Hnn. lia.
Qed.

Lemma Array_indexOf_app (x : string) (pre post : list string) :
  In x pre -> Array_indexOf x (pre ++ post) = Array_indexOf x pre.
Proof.
  induction pre as [|y pre IH]; intros Hin; [destruct Hin|].
  cbn [Array_indexOf app]. destruct (String.eqb x y) eqn:Hxy; [reflexivity|].
  apply String.eqb_neq in Hxy.
  destruct Hin as [->|Hin]; [congruence|]. now rewrite IH.
Qed.

Lemma Array_indexOf_first (x : string) (pre post : list string) :
  ~ In x pre ->
  Array_indexOf x (pre ++ x :: post) = Z.of_nat (List.length pre).
Proof.
  induction pre as [|y pre IH]; intros Hnot.
  - cbn. now rewrite String.eqb_refl.
  - cbn [Array_indexOf app List.length].
    destruct (String.eqb x y) eqn:Hxy.
    + apply String.eqb_eq in Hxy. subst. exfalso. apply Hnot. now left.
    + rewrite IH by (intros Hin; apply Hnot; now right).
      assert (Hnn : (Z.of_nat (List.length pre) <? 0) = false)
        by (apply Z.ltb_ge; lia).
      rewrite Hnn. lia.
Qed.

Lemma existsb_eqb_In (x : string) (l : list string) :
  existsb (String.eqb x) l = true <-> In x l.
Proof.
  rewrite existsb_exists. split.
  - intros (y & Hy & Heq). apply String.eqb_eq in Heq. now subst.
  - intros Hin. exists x. split; [exact Hin|apply String.eqb_refl].
Qed.

Lemma flat_map_ext_In (A B : Type) (f g : A -> list B) (l : list A) :
  (forall a, In a l -> f a = g a) -> flat_map f l = flat_map g l.
Proof.
  induction l as [|x l IH]; intros H; [reflexivity|].
  cbn [flat_map]. rewrite (H x (or_introl eq_refl)), IH; [reflexivity|].
  intros a Ha. apply H. now right.
Qed.

(** One round of the loop of [runOnce]: one fetch, and then a delay or
    none, as the test on [indexOf] decides. *)
Lemma runOnceBody_pace (E : Env) (config : Config) (a : string) (w : World) :
  exists evs,
    fst (runOnceBody E config a w) = Normal tt
    /\ trace (snd (runOnceBody E config a w)) = trace w ++ evs
    /\ pace evs
       = Some a ::
         (if Array_indexOf a (authors config)
             <? Z.of_nat (List.length (authors config)) - 1
          then [None] else []).
Proof.
  destruct (checkAuthor_posts E a config w) as (evs & Htr & _ & Hpace & _).
  unfold runOnceBody, bind, tryCatch.
  destruct (checkAuthor E a config w) as [[[]|e] w1]; cbn [fst snd] in *.
  - destruct (_ <? _).
    + exists (evs ++ [EvDelay (jitter E (now w1))]).
      split; [reflexivity|]. cbn [delay emit snd trace].
      rewrite Htr, app_assoc. split; [reflexivity|].
      rewrite pace_app, Hpace. reflexivity.
    + exists evs. cbn [ret fst snd]. auto.
  - cbn [logger emit].
    destruct (_ <? _).
    + eexists (evs ++ [EvLog _; EvDelay _]).
      split; [reflexivity|]. cbn [delay emit snd trace].
      rewrite Htr, <- !app_assoc. split; [reflexivity|].
      rewrite pace_app, Hpace. reflexivity.
    + eexists (evs ++ [EvLog _]).
      split; [reflexivity|]. cbn [ret snd trace].
      rewrite Htr, <- !app_assoc. split; [reflexivity|].
      rewrite pace_app, Hpace. reflexivity.
Qed.

Lemma runOnceLoop_pace (E : Env) (config : Config) (l : list string) :
  forall w, exists evs,
    fst (forOf l (runOnceBody E config) w) = Normal tt
    /\ trace (snd (forOf l (runOnceBody E config) w)) = trace w ++ evs
    /\ pace evs
       = flat_map
           (fun a => Some a ::
              (if Array_indexOf a (authors config)
                  <? Z.of_nat (List.length (authors config)) - 1
               then [None] else []))
           l.
Proof.
  induction l as [|a l IH]; intros w; cbn [forOf flat_map].
  - exists []. cbn. now rewrite app_nil_r.
  - destruct (runOnceBody_pace E config a w) as (evs1 & Hfst & Htr1 & Hp1).
    unfold bind.
    destruct (runOnceBody E config a w) as [[[]|e] w1]; cbn [fst snd] in *;
      [|discriminate].
    destruct (IH w1) as (evs2 & Hfst2 & Htr2 & Hp2).
    exists (evs1 ++ evs2). split; [exact Hfst2|].
    rewrite Htr2, Htr1, app_assoc. split; [reflexivity|].
    now rewrite pace_app, Hp1, Hp2.
Qed.

(** X4.  The pace of a poll cycle.  In a cycle over the authors
    [front ++ [lastA]] the feeds are fetched in the order of the list,
    and a delay is made after the check of every author but the last
    one, so that two fetches are never made without a delay between
    them.  After the last author the cycle ends without a delay - unless
    that author is listed twice: the test [indexOf(author) < length - 1]
    finds the earlier entry, and the cycle waits once more. *)
Theorem runOnce_pacing :
  forall (E : Env) (config : Config) (w : World)
         (front : list string) (lastA : string),
    authors config = front ++ [lastA] ->
    pace (since w (snd (runOnce E config w)))
    = flat_map (fun a => [Some a; None]) front
      ++ Some lastA :: (if existsb (String.eqb lastA) front then [None] else []).
Proof.
  intros E config w front lastA Hauthors.
  unfold runOnce.
  assert (Hlen : List.length (authors config) = S (List.length front)).
  { rewrite Hauthors, length_app. cbn. lia. }
  rewrite Hlen. cbn [Nat.eqb].
  set (w0 := after w [EvLog (LogCheckingAuthors (S (List.length front)))]).
  rewrite (bind_normal _ _ _ _ w w0 tt) by reflexivity.
  destruct (runOnceLoop_pace E config (authors config) w0)
    as (evs & Hfst & Htr & Hpace).
  unfold bind.
  destruct (forOf (authors config) (runOnceBody E config) w0)
    as [[[]|e] w1]; cbn [fst snd] in *; [|discriminate].
  rewrite (since_app w _
             ([EvLog (LogCheckingAuthors (S (List.length front)))] ++ evs
              ++ [EvLog LogCycleCompleted])).
  2:{ cbn [logger emit snd trace]. rewrite Htr. unfold w0, after. cbn [trace].
      now rewrite <- !app_assoc. }
  rewrite !pace_app, Hpace. cbn [pace app]. rewrite app_nil_r.
  rewrite Hlen, Hauthors, flat_map_app. cbn [flat_map]. rewrite app_nil_r.
  replace (Z.of_nat (S (List.length front)) - 1)
    with (Z.of_nat (List.length front)) by lia.
  f_equal.
  - apply flat_map_ext_In. intros a Ha.
    rewrite (Array_indexOf_app a front [lastA] Ha).
    pose proof (Array_indexOf_In a front Ha) as Hrange.
    assert (Hlt : (Array_indexOf a front <? Z.of_nat (List.length front)) = true)
      by (apply Z.ltb_lt; lia).
    now rewrite Hlt.
  - f_equal. destruct (existsb (String.eqb lastA) front) eqn:Hdup.
    + apply existsb_eqb_In in Hdup.
      rewrite (Array_indexOf_app lastA front [lastA] Hdup).
      pose proof (Array_indexOf_In lastA front Hdup) as Hrange.
      assert (Hlt : (Array_indexOf lastA front <? Z.of_nat (List.length front))
                    = true) by (apply Z.ltb_lt; lia).
      now rewrite Hlt.
    + assert (Hnot : ~ In lastA front).
      { intros Hin. apply existsb_eqb_In in Hin. congruence. }
      rewrite (Array_indexOf_first lastA front [] Hnot).
      now rewrite Z.ltb_irrefl.
Qed.

(** ** The retry sweep after the main path *)

Section NoRetryLeft.
Variable E : Env.
Variable config : Config.

Lemma retryOne_skips (ref : string) (r : ProcessedVideo) (w : World) :
  JsMap.get ref (processedVideos (mem w)) = Some r ->
  maxRetries config <= retryCount r ->
  retryOne E config ref w
  = (Normal tt, after w [EvLog (LogExceeded (videoId r))]).
Proof.
  intros Hget Hcount. unfold retryOne.
  rewrite (bind_normal _ _ _ _ w w (Some r))
    by (unfold deref, bind, getMem, ret; now rewrite Hget).
  assert (Hge : (retryCount r >=? maxRetries config) = true).
  { rewrite Z.geb_leb. now apply Z.leb_le. }
  now rewrite Hge.
Qed.

Lemma retryLoop_skips (refs : list string) :
  forall w,
    (forall ref, In ref refs ->
       exists r, JsMap.get ref (processedVideos (mem w)) = Some r
                 /\ maxRetries config <= retryCount r) ->
    exists msgs,
      forOf refs (retryOne E config) w = (Normal tt, after w (logged msgs)).
Proof.
  induction refs as [|ref refs IH]; intros w Hrefs; cbn [forOf].
  - exists []. cbn. now rewrite after_nil.
  - destruct (Hrefs ref (or_introl eq_refl)) as (r & Hget & Hcount).
    rewrite (bind_normal _ _ _ _ _ _ _ (retryOne_skips ref r w Hget Hcount)).
    destruct (IH (after w [EvLog (LogExceeded (videoId r))])) as (msgs & Hrun).
    { intros ref' Hin. apply Hrefs. now right. }
    exists (LogExceeded (videoId r) :: msgs).
    rewrite Hrun, after_after. reflexivity.
Qed.

(** On a store whose failed records have used up their retries the
    sweep writes to the log and does nothing else. *)
Lemma retryFailedWebhooks_skips (w : World) :
  noRetryLeft (maxRetries config) (mem w) ->
  exists msgs,
    retryFailedWebhooks E config w = (Normal tt, after w (logged msgs)).
Proof.
  intros [Hwf Hleft]. unfold retryFailedWebhooks.
  rewrite (bind_normal _ _ _ _ w w (mem w)) by reflexivity.
  destruct (Nat.eqb _ 0).
  - exists [LogNoFailedWebhooks]. reflexivity.
  - set (n := List.length (pendingRetryRefs (mem w))).
    rewrite (bind_normal _ _ _ _ w (after w [EvLog (LogRetrying n)]) tt)
      by reflexivity.
    destruct (retryLoop_skips (pendingRetryRefs (mem w))
                (after w [EvLog (LogRetrying n)])) as (msgs & Hrun).
    { intros ref Hin. apply In_pendingRetryRefs in Hin.
      destruct Hin as (r & Hin & Hfailed).
      apply get_In in Hin; [|exact Hwf].
      exists r. split; [exact Hin|].
      pose proof (Hleft ref r Hin Hfailed). lia. }
    exists (LogRetrying n :: msgs). rewrite Hrun, after_after. reflexivity.
Qed.

Lemma noRetryLeft_set (s : State) (vid : string) (r : ProcessedVideo) :
  (webhookStatus r = Failed -> maxRetries config + 1 <= retryCount r) ->
  noRetryLeft (maxRetries config) s ->
  noRetryLeft (maxRetries config)
    (mkState (JsMap.set vid r (processedVideos s)) (lastCheckTimes s)).
Proof.
  intros Hr [Hwf Hleft]. split; cbn [processedVideos].
  - now apply wf_set.
  - intros k r0 Hget Hfailed.
    destruct (String.eqb vid k) eqn:Hk.
    + apply String.eqb_eq in Hk. subst k.
      rewrite get_set_same in Hget. inversion Hget; subst. auto.
    + apply String.eqb_neq in Hk. rewrite get_set_other in Hget by exact Hk.
      eauto.
Qed.

(** The main path keeps such a store: the record it leaves behind a
    failed delivery has [retryCount = maxRetries + 1]. *)
Lemma noRetryLeft_runOnce (w : World) :
  noRetryLeft (maxRetries config) (mem w) ->
  noRetryLeft (maxRetries config) (mem (snd (runOnce E config w))).
Proof.
  destruct (onMem_runOnce E config
              (fun s s' => noRetryLeft (maxRetries config) s ->
                           noRetryLeft (maxRetries config) s')
              (fun _ => True)
              (fun status n => status = Failed ->
                               maxRetries config + 1 <= n)) with (w := w)
    as (evs & _ & H); auto.
  - intros s vid a t. apply noRetryLeft_set. discriminate.
  - intros s vid r status n _ Hs. apply noRetryLeft_set. exact Hs.
  - discriminate.
  - lia.
Qed.

Lemma noRetryLeft_runOps (ops : list SchedOp) :
  forall w,
    noRetryLeft (maxRetries config) (mem w) ->
    noRetryLeft (maxRetries config) (mem (runOps E config ops w)).
Proof.
  induction ops as [|op ops IH]; intros w Hw; cbn [runOps]; [exact Hw|].
  apply IH. destruct op; cbn [schedOp].
  - now apply noRetryLeft_runOnce.
  - destruct (retryFailedWebhooks_skips w Hw) as (msgs & ->). exact Hw.
Qed.
End NoRetryLeft.

(** X5.  The retry sweep after the main path.  Let a scheduler start
    from a store in which every failed record has a [retryCount] above
    [maxRetries] - the empty store is one - and run poll cycles and
    retry sweeps under one configuration, in any order, one after the
    other, and whatever fails.  Then the store stays such a store,
    because a delivery that
    fails leaves [retryCount = maxRetries + 1]; and every sweep finds
    that each failed record has exceeded its retries: it returns, and
    all it has done is to write to the log - no fetch, no post, no
    change of the store. *)
Theorem retry_sweep_finds_nothing :
  forall (E : Env) (config : Config) (ops : list SchedOp) (w : World),
    noRetryLeft (maxRetries config) (mem w) ->
    noRetryLeft (maxRetries config) (mem (runOps E config ops w))
    /\ exists msgs,
         retryFailedWebhooks E config (runOps E config ops w)
         = (Normal tt, after (runOps E config ops w) (logged msgs)).
Proof.
  intros E config ops w Hw.
  pose proof (noRetryLeft_runOps E config ops w Hw) as Hops.
  split; [exact Hops|]. now apply retryFailedWebhooks_skips.
Qed.

(** ** Edges of the delivery of a video *)

(** X6.  A write that fails.  When the write of the pending record
    fails, [processVideo] throws the error of the file system and
    nothing is posted.  The memory holds the record all the same: for
    this scheduler the video counts as processed, and no later poll cycle
    posts it, whatever the failed write has left of the backing file and
    whatever runs in between (one after the other). *)
Theorem processVideo_unwritten_video_is_dropped :
  forall (E : Env) (video : VideoMetadata) (config : Config) (w : World)
         (e : JsError),
    fs_writeFile E (now (announced video w)) = Some e ->
    fst (processVideo E video config w) = Throw e
    /\ postsOf (since w (snd (processVideo E video config w))) = []
    /\ isProcessed (id video) (mem (snd (processVideo E video config w))) = true
    /\ forall (left : Disk) (ops : list SchedOp) (c : Config)
              (p : WebhookPayload),
         In p (postsOf
                 (since (runOps E config ops
                           (onDisk left (snd (processVideo E video config w))))
                        (snd (runOnce E c
                                (runOps E config ops
                                   (onDisk left
                                      (snd (processVideo E video config w)))))))) ->
         pVideoId p <> id video.
Proof.
  intros E video config w e Hfail.
  assert (Hrun : processVideo E video config w
                 = (Throw e,
                    mkWorld (withRecord (pendingRecord E video w) (mem w))
                            (disk w)
                            (trace w
                             ++ [EvLog (LogProcessing (id video) (vAuthor video));
                                 EvWriteFailed e]))).
  { rewrite processVideo_unfold. unfold bind.
    rewrite markProcessed_unfold, save_run. unfold now in *.
    cbn [trace announced after] in *. rewrite Hfail.
    now rewrite <- app_assoc. }
  rewrite Hrun. cbn [fst snd disk mem].
  assert (Hin : isProcessed (id video)
                  (withRecord (pendingRecord E video w) (mem w)) = true).
  { unfold isProcessed, withRecord. cbn [processedVideos pendingRecord videoId].
    rewrite has_set, String.eqb_refl. reflexivity. }
  split; [reflexivity|].
  split.
  { rewrite (since_app w _
               [EvLog (LogProcessing (id video) (vAuthor video));
                EvWriteFailed e]); reflexivity. }
  split; [exact Hin|].
  intros left ops c p Hp Heq.
  match type of Hp with context [runOps E config ops ?w1] =>
    set (w2 := runOps E config ops w1) in *;
    pose proof (keeps_runOps E config ops w1 (id video) Hin) as Hin2
  end.
  fold w2 in Hin2.
  destruct (delivers_runOnce E c w2) as (evs & Htr & _ & Hd).
  rewrite (since_app _ _ _ Htr) in Hp.
  destruct (Hd p Hp) as [Hnew _]. rewrite Heq in Hnew. congruence.
Qed.

(** X7.  A negative budget.  With [maxRetries < 0] the loop of
    [sendWithRetry] is not entered: nothing is posted, and the call
    returns the [null] that [lastResult] still is.  [processVideo] has
    by then written the pending record; it throws a TypeError when it
    reads [result.success], and the record stays pending: the video
    counts as processed and was never sent. *)
Theorem processVideo_negative_budget :
  forall (E : Env) (video : VideoMetadata) (config : Config) (w : World),
    maxRetries config < 0 ->
    fs_writeFile E (now (announced video w)) = None ->
    (forall payload w', sendWithRetry E payload (maxRetries config) w'
                        = (Normal None, w'))
    /\ processVideo E video config w
       = (Throw (TypeError "Cannot read properties of null (reading 'success')"),
          written E (withRecord (pendingRecord E video w) (mem w))
                  (announced video w))
    /\ JsMap.get (id video)
         (processedVideos (mem (snd (processVideo E video config w))))
       = Some (pendingRecord E video w).
Proof.
  intros E video config w Hneg Hwrite.
  assert (Hsend : forall payload w',
            sendWithRetry E payload (maxRetries config) w' = (Normal None, w')).
  { intros payload w'. unfold sendWithRetry.
    replace (Z.to_nat (maxRetries config + 1)) with O by lia. reflexivity. }
  assert (Hrun : processVideo E video config w
       = (Throw (TypeError "Cannot read properties of null (reading 'success')"),
          written E (withRecord (pendingRecord E video w) (mem w))
                  (announced video w))).
  { rewrite processVideo_unfold. unfold bind at 1.
    rewrite markProcessed_unfold, save_run. unfold now in *.
    cbn [trace announced after mem disk] in *. rewrite Hwrite.
    unfold deliverVideo. rewrite (bind_normal _ _ _ _ _ _ _ (Hsend _ _)).
    reflexivity. }
  split; [exact Hsend|]. split; [exact Hrun|].
  rewrite Hrun. cbn [snd written mem withRecord processedVideos].
  apply get_set_same.
Qed.

(* ================================================================= *)
(** ** More of the state store *)

(** X8.  [updateWebhookStatus] on an id that the store holds.  The
    record of the id gets the new status, and the new [retryCount] when
    one is given; its [videoId], [author] and [processedAt] stay, as do
    its place in the map, every other record and every last-check time.
    The state is then written: when the write succeeds the call returns
    and the backing file holds the new state; when it fails the call
    throws the error of the file system, and the memory is changed all
    the same, whatever the failed write has left of the backing file. *)
Theorem updateWebhookStatus_present :
  forall (E : Env) (vid : string) (status : WebhookStatus) (count : option Z)
         (w : World) (r : ProcessedVideo),
    JsMap.get vid (processedVideos (mem w)) = Some r ->
    exists c w',
      updateWebhookStatus E vid status count w = (c, w')
      /\ JsMap.get vid (processedVideos (mem w'))
         = Some (mkProcessedVideo (videoId r) (author r) (processedAt r) status
                   (match count with Some n => n | None => retryCount r end))
      /\ (forall k, k <> vid ->
            JsMap.get k (processedVideos (mem w'))
            = JsMap.get k (processedVideos (mem w)))
      /\ getProcessedVideoIds (mem w') = getProcessedVideoIds (mem w)
      /\ lastCheckTimes (mem w') = lastCheckTimes (mem w)
      /\ match fs_writeFile E (now w) with
         | None =>
             c = Normal tt
             /\ disk w' = FileWith (JSONText (stateToJSON E (mem w')))
             /\ trace w' = trace w ++ [EvWriteFile (stateToJSON E (mem w'))]
         | Some e =>
             c = Throw e
             /\ trace w' = trace w ++ [EvWriteFailed e]
         end.
Proof.
  intros E vid status count w r Hget.
  rewrite updateWebhookStatus_unfold, Hget, save_run.
  unfold now. cbn [trace mem disk].
  assert (Hkeys : forall r',
    JsMap.keys (JsMap.set vid r' (processedVideos (mem w)))
    = JsMap.keys (processedVideos (mem w))).
  { intros r'. rewrite keys_set. unfold JsMap.has. now rewrite Hget. }
  destruct (fs_writeFile E _); eexists _, _; (split; [reflexivity|]);
    cbn [mem disk trace written processedVideos lastCheckTimes];
    (split; [apply get_set_same|]);
    (split; [intros k Hk; apply get_set_other; congruence|]);
    (split; [apply Hkeys|]); auto.
Qed.

Lemma updateWebhookStatus_present_witness :
  JsMap.get "2" (processedVideos (mem (mkWorld tiedStore noFile [])))
  = Some (mkProcessedVideo "2" "a" 1700000000000 Sent 1)
  /\ getHistory 100
       (mem (snd (updateWebhookStatus envQuiet "2" Failed None
                    (mkWorld tiedStore noFile []))))
     = [ mkProcessedVideo "2" "a" 1700000000000 Failed 1;
         mkProcessedVideo "1" "a" 1700000000000 Sent 1 ]
  /\ exists c w',
      updateWebhookStatus envQuiet "2" Failed None (mkWorld tiedStore noFile [])
      = (c, w')
      /\ JsMap.get "2" (processedVideos (mem w'))
         = Some (mkProcessedVideo "2" "a" 1700000000000 Failed 1)
      /\ (forall k, k <> "2"%string ->
            JsMap.get k (processedVideos (mem w'))
            = JsMap.get k (processedVideos tiedStore))
      /\ getProcessedVideoIds (mem w') = getProcessedVideoIds tiedStore
      /\ lastCheckTimes (mem w') = lastCheckTimes tiedStore
      /\ c = Normal tt
      /\ disk w' = FileWith (JSONText (stateToJSON envQuiet (mem w')))
      /\ trace w' = [EvWriteFile (stateToJSON envQuiet (mem w'))].
Proof.
  split; [reflexivity|]. split; [vm_compute; reflexivity|].
  exact (updateWebhookStatus_present envQuiet "2" Failed None
           (mkWorld tiedStore noFile [])
           (mkProcessedVideo "2" "a" 1700000000000 Sent 1) eq_refl).
Defined.

(** *** The invariant of the store *)

Lemma keysMatch_set (s : State) (vid : string) (r : ProcessedVideo) :
  videoId r = vid -> keysMatch s ->
  keysMatch (mkState (JsMap.set vid r (processedVideos s)) (lastCheckTimes s)).
Proof.
  intros Hid Hkeys k r0. cbn [processedVideos].
  destruct (String.eqb vid k) eqn:Hk.
  - apply String.eqb_eq in Hk. subst k. rewrite get_set_same.
    intros H. inversion H; subst. reflexivity.
  - apply String.eqb_neq in Hk. rewrite get_set_other by exact Hk. apply Hkeys.
Qed.

Lemma storeInv_empty : storeInv emptyState.
Proof.
  split; [constructor|]. split; [constructor|]. intros k r H. discriminate H.
Qed.

Lemma storeInv_reloaded (s : State) : storeInv s -> storeInv (reloaded s).
Proof.
  intros (Hwf1 & Hwf2 & Hkeys).
  split; [apply Object_fromEntries_wf|]. split; [apply Object_fromEntries_wf|].
  intros k r Hget. apply Hkeys.
  rewrite reloaded_wf in Hget by assumption. cbn [processedVideos] in Hget.
  rewrite (get_perm _ k _ _ Hwf1 (Permutation_sym (ownPropertyOrder_perm _ _))).
  exact Hget.
Qed.

Section StoreInvariant.
Variable E : Env.
Hypothesis codec : forall t, Date_parse E (toISOString E t) = Some t.

Lemma worldInv_saved (s : State) (w : World) :
  storeInv s -> worldInv E w ->
  worldInv E (snd (save E (mkWorld s (disk w) (trace w)))).
Proof.
  intros Hs [_ Hdisk]. rewrite save_run.
  destruct (fs_writeFile E _) as [e|]; cbn [snd written mem disk].
  - split; [exact Hs|]. exact Hdisk.
  - split; [exact Hs|]. intros s' Hload. cbn [written disk mem] in Hload.
    rewrite (load_stateToJSON E codec) in Hload. inversion Hload; subst.
    now apply storeInv_reloaded.
Qed.

Lemma worldInv_step (w w' : World) (op : StoreOp) :
  worldInv E w -> store_step E w op w' -> worldInv E w'.
Proof.
  intros Hw Hstep. pose proof Hw as [(Hwf1 & Hwf2 & Hkeys) Hdisk].
  destruct Hstep as [w video|w a|w vid status count|w|w s Hload|w e Hload].
  - rewrite markProcessed_unfold. apply worldInv_saved; [|exact Hw].
    split; [now apply wf_set|]. split; [exact Hwf2|].
    now apply keysMatch_set.
  - rewrite updateLastCheckTime_unfold. apply worldInv_saved; [|exact Hw].
    split; [exact Hwf1|]. split; [now apply wf_set|]. exact Hkeys.
  - rewrite updateWebhookStatus_unfold.
    destruct (JsMap.get vid (processedVideos (mem w))) as [r|] eqn:Hget;
      [|exact Hw].
    apply worldInv_saved; [|exact Hw].
    split; [now apply wf_set|]. split; [exact Hwf2|].
    apply keysMatch_set; [|exact Hkeys]. cbn [videoId]. now apply Hkeys.
  - destruct w as [s d t]. apply (worldInv_saved s (mkWorld s d t)); [|exact Hw].
    exact (proj1 Hw).
  - split; [now apply Hdisk|exact Hdisk].
  - exact Hw.
Qed.

Lemma worldInv_steps (w w' : World) (ops : list StoreOp) :
  worldInv E w -> store_steps E w ops w' -> worldInv E w'.
Proof.
  intros Hw Hsteps. induction Hsteps as [|w op w1 ops w2 Hstep _ IH];
    [exact Hw|].
  apply IH. eapply worldInv_step; eauto.
Qed.
End StoreInvariant.

Lemma keysMatch_ids (s : State) :
  JsMap.wf (processedVideos s) -> keysMatch s ->
  map videoId (JsMap.values (processedVideos s)) = JsMap.keys (processedVideos s).
Proof.
  intros Hwf Hkeys. unfold JsMap.values, JsMap.keys. rewrite map_map.
  apply map_ext_in. intros [k r] Hin. cbn [fst snd].
  apply Hkeys. now apply get_In.
Qed.

(** X9.  The invariant of the store.  Start from a store in which no
    key occurs twice and every record is stored under its own id, in
    memory and in what the backing file holds - a new store without a
    file is one.  After any sequence of [markProcessed],
    [updateLastCheckTime], [updateWebhookStatus], [save] and [load],
    whichever of them throw, the store is still such a store; so
    [getProcessedVideoIds] lists every id once, an id is listed exactly
    when [isProcessed] holds of it, and [getHistory] never lists a video
    twice. *)
Theorem store_keeps_ids_unique :
  forall (E : Env) (w w' : World) (ops : list StoreOp),
    (forall t, Date_parse E (toISOString E t) = Some t) ->
    worldInv E w ->
    store_steps E w ops w' ->
    worldInv E w'
    /\ NoDup (getProcessedVideoIds (mem w'))
    /\ (forall k, In k (getProcessedVideoIds (mem w'))
                  <-> isProcessed k (mem w') = true)
    /\ (forall limit, NoDup (map videoId (getHistory limit (mem w')))).
Proof.
  intros E w w' ops Hcodec Hw Hsteps.
  pose proof (worldInv_steps E Hcodec w w' ops Hw Hsteps) as Hw'.
  split; [exact Hw'|].
  destruct Hw' as [(Hwf1 & Hwf2 & Hkeys) _].
  split; [exact Hwf1|].
  split.
  { intros k. unfold getProcessedVideoIds, isProcessed.
    symmetry. apply has_In_keys. }
  intros limit. unfold getHistory.
  match goal with |- context [Array_slice0 ?n ?l] =>
    destruct (Array_slice0_split _ n l) as [rest Hsplit];
    assert (Hnd : NoDup (map videoId l))
  end.
  { eapply Permutation_NoDup.
    - apply Permutation_map. symmetry. apply Array_sort_perm.
    - rewrite keysMatch_ids by assumption. exact Hwf1. }
  rewrite Hsplit, map_app in Hnd. now apply NoDup_app_remove_r in Hnd.
Qed.

(** *** The last check times *)

Lemma updateLastCheckTime_sets (E : Env) (a : string) (w : World) :
  getLastCheckTime a (mem (snd (updateLastCheckTime E a w)))
  = Some (Date_now E (now w)).
Proof.
  rewrite updateLastCheckTime_unfold, save_mem. unfold getLastCheckTime.
  cbn [mem lastCheckTimes]. apply get_set_same.
Qed.

Lemma lastCheckTimes_frame (E : Env) (config : Config) (allowed : string -> Prop) :
  (forall a, In a (authors config) -> allowed a) ->
  runs (onMem (fun s s' => forall b, ~ allowed b ->
                 getLastCheckTime b s' = getLastCheckTime b s))
       (runOnce E config).
Proof.
  intros Hall.
  apply (onMem_runOnce E config _ allowed (fun _ _ => True)); auto.
  - intros s1 s2 s3 H12 H23 b Hb. now rewrite H23, H12.
  - intros s a t Ha b Hb. unfold getLastCheckTime. cbn [lastCheckTimes].
    apply get_set_other. intros ->. contradiction.
Qed.

(** X10.  The last check times.  [checkAuthor] leaves the last check
    time of every other author as it was.  When it returns, the last
    check time of its author is a reading of the clock taken during the
    call.  When the fetch throws, it throws the same error, having
    logged and fetched and done nothing else: the store, the last check
    time of the author and the backing file are as they were.  And a
    poll cycle leaves the last check time of every author that is not
    configured as it was. *)
Theorem checkAuthor_last_check_time :
  forall (E : Env) (a : string) (config : Config) (w : World),
    (forall b, b <> a ->
       getLastCheckTime b (mem (snd (checkAuthor E a config w)))
       = getLastCheckTime b (mem w))
    /\ (fst (checkAuthor E a config w) = Normal tt ->
        exists n,
          (now w <= n < now (snd (checkAuthor E a config w)))%nat
          /\ getLastCheckTime a (mem (snd (checkAuthor E a config w)))
             = Some (Date_now E n))
    /\ (forall e,
          scraper_getLatestVideos E
            (now (after w [EvLog (LogCheckingAuthor a)])) a 10 = Throw e ->
          checkAuthor E a config w
          = (Throw e,
             after w [EvLog (LogCheckingAuthor a); EvGetLatestVideos a 10]))
    /\ (forall b, ~ In b (authors config) ->
          getLastCheckTime b (mem (snd (runOnce E config w)))
          = getLastCheckTime b (mem w)).
Proof.
  intros E a config w.
  split; [|split; [|split]].
  - destruct (onMem_checkAuthor E config
                (fun s s' => forall b, b <> a ->
                   getLastCheckTime b s' = getLastCheckTime b s)
                (eq a) (fun _ _ => True)) with (a := a) (w := w)
      as (evs & _ & H); auto.
    + intros s1 s2 s3 H12 H23 b Hb. now rewrite H23, H12.
    + intros s a' t <- b Hb. unfold getLastCheckTime. cbn [lastCheckTimes].
      apply get_set_other. congruence.
  - rewrite checkAuthor_run.
    set (w1 := after w [EvLog (LogCheckingAuthor a); EvGetLatestVideos a 10]).
    destruct (scraper_getLatestVideos E _ a 10) as [videos|e];
      [|discriminate].
    assert (Hfinal : forall w3,
      (now w <= now w3)%nat ->
      fst (updateLastCheckTime E a w3) = Normal tt ->
      exists n,
        (now w <= n < now (snd (updateLastCheckTime E a w3)))%nat
        /\ getLastCheckTime a (mem (snd (updateLastCheckTime E a w3)))
           = Some (Date_now E n)).
    { intros w3 Hle _. exists (now w3).
      split; [|apply updateLastCheckTime_sets].
      destruct (updateLastCheckTime_trace E a w3) as (ev & Htr & _).
      unfold now in *. rewrite Htr, length_app. cbn. lia. }
    destruct (Nat.eqb _ 0).
    + rewrite (bind_normal _ _ _ _ w1 (after w1 [EvLog (LogNoNewVideos a)]) tt)
        by reflexivity.
      apply Hfinal. unfold now, w1, after. cbn [trace].
      rewrite !length_app. lia.
    + match goal with |- context [logger ?m] =>
        rewrite (bind_normal _ _ _ _ w1 (after w1 [EvLog m]) tt) by reflexivity;
        set (w2 := after w1 [EvLog m])
      end.
      match goal with |- context [forOf ?l ?body] =>
        destruct (deliveryLoop E config l w2) as (evs & Htr & _)
      end.
      unfold bind.
      destruct (forOf _ _ w2) as [[[]|e] w3]; cbn [fst snd] in *;
        [|discriminate].
      apply Hfinal. unfold now. rewrite Htr. unfold w2, w1, after. cbn [trace].
      rewrite !length_app. lia.
  - intros e He. rewrite checkAuthor_run, He. reflexivity.
  - destruct (lastCheckTimes_frame E config (fun b => In b (authors config))
                ltac:(auto) w) as (evs & _ & H).
    exact H.
Qed.

(* ================================================================= *)
(** ** The further properties at work *)

(** A feed that grows between two cycles: the first cycle posts [n1],
    the second one posts [n2] and not [n1] again. *)
Lemma runOnce_never_redelivers_witness :
  In (createPayload envGrowingFeed (videoMeta "n1" "a" 10))
     (postsOf (since world0 (snd (runOnce envGrowingFeed config0 world0))))
  /\ In (createPayload envGrowingFeed (videoMeta "n2" "a" 20))
        (postsOf
           (since (runOps envGrowingFeed config0 []
                     (snd (runOnce envGrowingFeed config0 world0)))
                  (snd (runOnce envGrowingFeed config0
                          (runOps envGrowingFeed config0 []
                             (snd (runOnce envGrowingFeed config0 world0)))))))
  /\ pVideoId (createPayload envGrowingFeed (videoMeta "n1" "a" 10))
     <> pVideoId (createPayload envGrowingFeed (videoMeta "n2" "a" 20)).
Proof.
  assert (H1 :
    In (createPayload envGrowingFeed (videoMeta "n1" "a" 10))
       (postsOf (since world0 (snd (runOnce envGrowingFeed config0 world0)))))
    by (vm_compute; tauto).
  assert (H2 :
    In (createPayload envGrowingFeed (videoMeta "n2" "a" 20))
       (postsOf
          (since (runOps envGrowingFeed config0 []
                    (snd (runOnce envGrowingFeed config0 world0)))
                 (snd (runOnce envGrowingFeed config0
                         (runOps envGrowingFeed config0 []
                            (snd (runOnce envGrowingFeed config0 world0))))))))
    by (vm_compute; tauto).
  split; [exact H1|]. split; [exact H2|].
  exact (runOnce_never_redelivers envGrowingFeed config0 config0 config0 []
           world0 _ _ H1 H2).
Defined.

(** Two authors: one delay, between them.  One author listed twice: a
    delay after each of the two checks. *)
Lemma runOnce_pacing_witness :
  authors configTwoAuthors = ["bad"%string] ++ ["good"%string]
  /\ pace (since world0 (snd (runOnce envOneAuthorFails configTwoAuthors world0)))
     = [Some "bad"%string; None; Some "good"%string]
  /\ authors configSameAuthorTwice = ["good"%string] ++ ["good"%string]
  /\ pace (since world0
             (snd (runOnce envOneAuthorFails configSameAuthorTwice world0)))
     = [Some "good"%string; None; Some "good"%string; None].
Proof.
  split; [reflexivity|].
  split; [exact (runOnce_pacing envOneAuthorFails configTwoAuthors world0
                   ["bad"%string] "good" eq_refl)|].
  split; [reflexivity|].
  exact (runOnce_pacing envOneAuthorFails configSameAuthorTwice world0
           ["good"%string] "good" eq_refl).
Defined.

(** The endpoint is down during a poll cycle: the record of the video is
    left failed with four attempts, and the sweep skips it. *)
Lemma retry_sweep_finds_nothing_witness :
  noRetryLeft (maxRetries config0) (mem world0)
  /\ getPendingRetries (mem (runOps envDown config0 [OpRunOnce] world0))
     = [mkProcessedVideo "v1" "a" 1700000000005 Failed 4]
  /\ since (runOps envDown config0 [OpRunOnce] world0)
           (snd (retryFailedWebhooks envDown config0
                   (runOps envDown config0 [OpRunOnce] world0)))
     = [EvLog (LogRetrying 1); EvLog (LogExceeded "v1")]
  /\ noRetryLeft (maxRetries config0)
                 (mem (runOps envDown config0 [OpRunOnce] world0))
  /\ exists msgs,
       retryFailedWebhooks envDown config0
         (runOps envDown config0 [OpRunOnce] world0)
       = (Normal tt,
          after (runOps envDown config0 [OpRunOnce] world0) (logged msgs)).
Proof.
  assert (H0 : noRetryLeft (maxRetries config0) (mem world0)).
  { split; [constructor|]. intros k r H. discriminate H. }
  split; [exact H0|].
  split; [vm_compute; reflexivity|]. split; [vm_compute; reflexivity|].
  exact (retry_sweep_finds_nothing envDown config0 [OpRunOnce] world0 H0).
Defined.

(** The disk is full when the pending record is to be written. *)
Lemma processVideo_unwritten_video_is_dropped_witness :
  fs_writeFile envDiskFull (now (announced video0 world0)) = Some diskFull
  /\ fst (processVideo envDiskFull video0 config0 world0) = Throw diskFull
  /\ postsOf (since world0 (snd (processVideo envDiskFull video0 config0 world0)))
     = []
  /\ isProcessed (id video0)
       (mem (snd (processVideo envDiskFull video0 config0 world0))) = true
  /\ forall (left : Disk) (ops : list SchedOp) (c : Config)
            (p : WebhookPayload),
       In p (postsOf
               (since (runOps envDiskFull config0 ops
                         (onDisk left
                            (snd (processVideo envDiskFull video0 config0
                                    world0))))
                      (snd (runOnce envDiskFull c
                              (runOps envDiskFull config0 ops
                                 (onDisk left
                                    (snd (processVideo envDiskFull video0 config0
                                            world0)))))))) ->
       pVideoId p <> id video0.
Proof.
  split; [reflexivity|].
  exact (processVideo_unwritten_video_is_dropped envDiskFull video0 config0
           world0 diskFull eq_refl).
Defined.

Lemma processVideo_negative_budget_witness :
  maxRetries configNoAttempt < 0
  /\ fs_writeFile envQuiet (now (announced video0 world0)) = None
  /\ postsOf (since world0 (snd (processVideo envQuiet video0 configNoAttempt world0)))
     = []
  /\ (forall payload w',
        sendWithRetry envQuiet payload (maxRetries configNoAttempt) w'
        = (Normal None, w'))
  /\ processVideo envQuiet video0 configNoAttempt world0
     = (Throw (TypeError "Cannot read properties of null (reading 'success')"),
        written envQuiet
          (withRecord (pendingRecord envQuiet video0 world0) (mem world0))
          (announced video0 world0))
  /\ JsMap.get (id video0)
       (processedVideos
          (mem (snd (processVideo envQuiet video0 configNoAttempt world0))))
     = Some (pendingRecord envQuiet video0 world0).
Proof.
  assert (Hneg : maxRetries configNoAttempt < 0) by (cbn; lia).
  split; [exact Hneg|]. split; [reflexivity|].
  split; [vm_compute; reflexivity|].
  exact (processVideo_negative_budget envQuiet video0 configNoAttempt world0
           Hneg eq_refl).
Defined.

Lemma store_keeps_ids_unique_witness :
  (forall t, Date_parse envQuiet (toISOString envQuiet t) = Some t)
  /\ worldInv envQuiet world0
  /\ store_steps envQuiet world0 [OpMarkProcessed video1; OpSave] worldSaved
  /\ worldInv envQuiet worldSaved
  /\ NoDup (getProcessedVideoIds (mem worldSaved))
  /\ (forall k, In k (getProcessedVideoIds (mem worldSaved))
                <-> isProcessed k (mem worldSaved) = true)
  /\ (forall limit, NoDup (map videoId (getHistory limit (mem worldSaved)))).
Proof.
  assert (Hcodec : forall t, Date_parse envQuiet (toISOString envQuiet t) = Some t)
    by exact readTime_printTime.
  assert (Hinv : worldInv envQuiet world0).
  { split; [exact storeInv_empty|]. intros s H. vm_compute in H.
    injection H as <-. exact storeInv_empty. }
  assert (Hsteps :
    store_steps envQuiet world0 [OpMarkProcessed video1; OpSave] worldSaved).
  { eapply steps_cons; [apply step_mark|].
    eapply steps_cons; [apply step_save|apply steps_nil]. }
  split; [exact Hcodec|]. split; [exact Hinv|]. split; [exact Hsteps|].
  exact (store_keeps_ids_unique envQuiet world0 worldSaved
           [OpMarkProcessed video1; OpSave] Hcodec Hinv Hsteps).
Defined.

(** Two failed records with one attempt each, a budget of three, an
    endpoint that answers: each record is sent once and left [Sent] with
    two attempts. *)
Lemma retryFailedWebhooks_sweep_witness :
  (forall n v, exists m, scraper_getVideoById envRetryOk n v = Normal m)
  /\ (forall n, fs_writeFile envRetryOk n = None)
  /\ JsMap.wf (processedVideos (mem (mkWorld storeTwoFailed noFile [])))
  /\ keysMatch (mem (mkWorld storeTwoFailed noFile []))
  /\ JsMap.values
       (processedVideos
          (mem (snd (retryFailedWebhooks envRetryOk config0
                       (mkWorld storeTwoFailed noFile [])))))
     = [ mkProcessedVideo "v1" "a" 1700000000000 Sent 2;
         mkProcessedVideo "v2" "a" 1700000000001 Sent 2 ]
  /\ exists w',
       retryFailedWebhooks envRetryOk config0 (mkWorld storeTwoFailed noFile [])
       = (Normal tt, w')
       /\ forall k r,
            JsMap.get k (processedVideos storeTwoFailed) = Some r ->
            (webhookStatus r <> Failed ->
             JsMap.get k (processedVideos (mem w')) = Some r)
            /\ (webhookStatus r = Failed ->
                exists evs r' pre post,
                  JsMap.get k (processedVideos (mem w')) = Some r'
                  /\ retryEffect envRetryOk config0 r evs r'
                  /\ trace w' = [] ++ pre ++ evs ++ post).
Proof.
  assert (Hscraper : forall n v,
            exists m, scraper_getVideoById envRetryOk n v = Normal m)
    by (intros n v; eexists; reflexivity).
  assert (Hwrites : forall n, fs_writeFile envRetryOk n = None)
    by reflexivity.
  assert (Hwf : JsMap.wf (processedVideos (mem (mkWorld storeTwoFailed noFile [])))).
  { unfold JsMap.wf. cbn. repeat constructor; cbn; intuition discriminate. }
  assert (Hkeys : keysMatch (mem (mkWorld storeTwoFailed noFile []))).
  { intros k r H. cbn in H.
    destruct (String.eqb k "v1") eqn:H1.
    - apply String.eqb_eq in H1. injection H as <-. now subst.
    - destruct (String.eqb k "v2") eqn:H2; [|discriminate].
      apply String.eqb_eq in H2. injection H as <-. now subst. }
  split; [exact Hscraper|]. split; [exact Hwrites|]. split; [exact Hwf|].
  split; [exact Hkeys|]. split; [vm_compute; reflexivity|].
  exact (retryFailedWebhooks_sweep envRetryOk config0
           (mkWorld storeTwoFailed noFile []) Hscraper Hwrites Hwf Hkeys).
Defined.

(** A backing file in which the record of [v1] is [null], and one whose
    last check time is an array nested too deep to be converted. *)
Lemma load_throws_only_witness :
  load envQuiet (FileWith (JSONText jsonNullRecord))
  = Throws (TypeError "Cannot read properties of null (reading 'processedAt')")
  /\ load envQuiet (FileWith (JSONText jsonDeepTime))
     = Throws (RangeError "Maximum call stack size exceeded")
  /\ (exists e, load envQuiet (FileWith (JSONText jsonDeepTime)) = Throws e)
  /\ ~ (exists e, load envQuiet (FileWith (JSONText (stateToJSON envQuiet storeTwoFailed)))
                  = Throws e).
Proof.
  split; [reflexivity|]. split; [vm_compute; reflexivity|]. split.
  - apply (proj2 (load_throws_only envQuiet jsonDeepTime)).
    right; right. exists ("a"%string, nestedArray 1001).
    split; [left; reflexivity|]. vm_compute. discriminate.
  - intros H. apply (proj1 (load_throws_only envQuiet _)) in H.
    vm_compute in H.
    destruct H as [H|[(kv & Hin & H)|(kv & [] & _)]]; [discriminate|].
    destruct Hin as [<-|[<-|[]]]; cbn in H;
      destruct H as [H|(x & Hx & H)]; try discriminate;
      inversion Hx; subst x; now apply H.
Defined.

(* ================================================================= *)
(** ** The history route *)

Lemma Math_ceil_div_spec (a b : Z) :
  0 <= a -> 0 < b ->
  0 <= Math_ceil_div a b
  /\ a <= b * Math_ceil_div a b < a + b.
Proof.
  intros Ha Hb. unfold Math_ceil_div.
  pose proof (Z.mul_div_le (a + b - 1) b Hb).
  pose proof (Z.mul_succ_div_gt (a + b - 1) b Hb).
  assert (0 <= (a + b - 1) / b) by (apply Z.div_pos; lia).
  lia.
Qed.

Lemma firstn_min_length (A : Type) (k : nat) (l : list A) :
  firstn (Nat.min k (List.length l)) l = firstn k l.
Proof.
  destruct (Nat.le_ge_cases k (List.length l)) as [H|H].
  - now rewrite Nat.min_l.
  - rewrite Nat.min_r by exact H. now rewrite !firstn_all2.
Qed.

(** The slice that the handler takes for the page after [i] pages of
    [k] items. *)
Lemma Array_slice_chunk (A : Type) (i k : nat) (l : list A) :
  Array_slice (Z.of_nat i * Z.of_nat k) (Z.of_nat i * Z.of_nat k + Z.of_nat k) l
  = firstn k (skipn (i * k) l).
Proof.
  unfold Array_slice.
  assert (H1 : (Z.of_nat i * Z.of_nat k <? 0) = false) by (apply Z.ltb_ge; lia).
  assert (H2 : (Z.of_nat i * Z.of_nat k + Z.of_nat k <? 0) = false)
    by (apply Z.ltb_ge; lia).
  rewrite H1, H2.
  destruct (Nat.le_gt_cases (i * k) (List.length l)) as [Hle|Hgt].
  - replace (Z.to_nat (Z.min (Z.of_nat i * Z.of_nat k) (Z.of_nat (List.length l))))
      with (i * k)%nat by lia.
    rewrite <- (firstn_min_length _ k (skipn (i * k) l)), length_skipn.
    f_equal. lia.
  - replace (Z.to_nat (Z.min (Z.of_nat i * Z.of_nat k) (Z.of_nat (List.length l))))
      with (List.length l) by lia.
    rewrite skipn_all, (skipn_all2 l) by lia. now rewrite !firstn_nil.
Qed.

(** Consecutive chunks of [k] items make up the list. *)
Lemma chunks_concat (A : Type) (k : nat) :
  forall (pages : nat) (l : list A),
    (List.length l <= pages * k)%nat ->
    List.concat (map (fun i => firstn k (skipn (i * k) l)) (seq 0 pages)) = l.
Proof.
  induction pages as [|pages IH]; intros l Hlen.
  - destruct l; [reflexivity|cbn in Hlen; lia].
  - cbn [seq map List.concat]. rewrite <- seq_shift, map_map.
    cbn [Nat.mul skipn].
    rewrite (map_ext _ (fun i => firstn k (skipn (i * k) (skipn k l)))).
    + rewrite IH by (rewrite length_skipn; lia). apply firstn_skipn.
    + intros i. rewrite skipn_skipn. do 2 f_equal. lia.
Qed.

Section HistoryRouteFacts.
Variable E : Env.
Variable parseInt : option string -> option Z.

Lemma filteredHistory_In (af sf : option string) (s : State)
    (video : ProcessedVideo) :
  In video (HistoryRoute.filteredHistory af sf s) ->
  In video (getHistory 100 s)
  /\ passes af (author video)
  /\ passes sf (statusName (webhookStatus video)).
Proof.
  unfold HistoryRoute.filteredHistory, passes, HistoryRoute.MAX_PAGE_SIZE.
  destruct (HistoryRoute.given af) as [a|], (HistoryRoute.given sf) as [st|];
    rewrite ?filter_In, ?String.eqb_eq; tauto.
Qed.

Lemma filteredHistory_length (af sf : option string) (s : State) :
  Z.of_nat (List.length (HistoryRoute.filteredHistory af sf s)) <= 100.
Proof.
  assert (Hall : Z.of_nat (List.length (getHistory 100 s)) <= 100).
  { unfold getHistory. change (Z.min 100 DEFAULT_HISTORY_LIMIT) with 100.
    rewrite Array_slice0_length by lia. lia. }
  assert (Hfilter : forall (f : ProcessedVideo -> bool) l,
    (List.length (filter f l) <= List.length l)%nat).
  { intros f l. induction l as [|x l IH]; cbn; [lia|].
    destruct (f x); cbn; lia. }
  unfold HistoryRoute.filteredHistory, HistoryRoute.MAX_PAGE_SIZE.
  destruct (HistoryRoute.given af) as [a|], (HistoryRoute.given sf) as [st|].
  - match goal with |- context [filter ?f (filter ?g ?l)] =>
      pose proof (Hfilter f (filter g l)); pose proof (Hfilter g l)
    end. lia.
  - match goal with |- context [filter ?g ?l] => pose proof (Hfilter g l) end.
    lia.
  - match goal with |- context [filter ?g ?l] => pose proof (Hfilter g l) end.
    lia.
  - exact Hall.
Qed.

Lemma filteredHistory_filter (af sf : option string) (s : State) :
  HistoryRoute.filteredHistory af sf s
  = filter (passesBoth af sf) (getHistory 100 s).
Proof.
  assert (Handb : forall (f g : ProcessedVideo -> bool) l,
    filter g (filter f l) = filter (fun x => f x && g x) l).
  { intros f g l. induction l as [|x l IH]; cbn; [reflexivity|].
    destruct (f x); cbn; [destruct (g x)|]; now rewrite IH. }
  assert (Hall : forall l : list ProcessedVideo, filter (fun _ => true) l = l).
  { intros l. induction l as [|x l IH]; cbn; [reflexivity|]. now rewrite IH. }
  unfold HistoryRoute.filteredHistory, passesBoth, passesb,
    HistoryRoute.MAX_PAGE_SIZE.
  destruct (HistoryRoute.given af) as [a|], (HistoryRoute.given sf) as [st|].
  - apply Handb.
  - apply filter_ext. intros x. now rewrite andb_true_r.
  - reflexivity.
  - cbn. symmetry. apply Hall.
Qed.

Lemma Array_slice_length (A : Type) (start size : Z) (l : list A) :
  0 <= size ->
  Z.of_nat (List.length (Array_slice start (start + size) l)) <= size.
Proof.
  intros Hsize. unfold Array_slice. rewrite length_firstn.
  destruct (start <? 0) eqn:H1, (start + size <? 0) eqn:H2; lia.
Qed.

Lemma Array_slice_incl (A : Type) (start end_ : Z) (l : list A) (x : A) :
  In x (Array_slice start end_ l) -> In x l.
Proof.
  unfold Array_slice.
  set (k := Z.to_nat _). set (n := Z.to_nat _). intros H.
  rewrite <- (firstn_skipn n l). apply in_or_app. right.
  rewrite <- (firstn_skipn k (skipn n l)). apply in_or_app. now left.
Qed.

Lemma paginate_bounds (page pageSize : Z) (af sf : option string) (s : State) :
  1 <= pageSize ->
  let r := HistoryRoute.paginate E page pageSize
             (HistoryRoute.filteredHistory af sf s) in
  0 <= HistoryRoute.total r <= 100
  /\ 0 <= HistoryRoute.totalPages r
  /\ HistoryRoute.total r
     <= HistoryRoute.pageSize r * HistoryRoute.totalPages r
     < HistoryRoute.total r + HistoryRoute.pageSize r
  /\ Z.of_nat (List.length (HistoryRoute.items r)) <= HistoryRoute.pageSize r
  /\ forall item, In item (HistoryRoute.items r) ->
       exists video,
         item = HistoryRoute.toItem E video
         /\ In video (getHistory 100 s)
         /\ passes af (author video)
         /\ passes sf (statusName (webhookStatus video)).
Proof.
  intros Hsize.
  cbn [HistoryRoute.paginate HistoryRoute.page HistoryRoute.pageSize
       HistoryRoute.total HistoryRoute.totalPages HistoryRoute.items].
  pose proof (filteredHistory_length af sf s) as Hlen.
  destruct (Math_ceil_div_spec
              (Z.of_nat (List.length (HistoryRoute.filteredHistory af sf s)))
              pageSize ltac:(lia) ltac:(lia)) as [Hpos Hceil].
  repeat split; try lia.
  - rewrite length_map. apply Array_slice_length. lia.
  - intros item Hin. apply in_map_iff in Hin.
    destruct Hin as (video & <- & Hin). apply Array_slice_incl in Hin.
    apply filteredHistory_In in Hin. exists video. tauto.
Qed.

(** X13.  The bounds of a page of the history.  Whatever the query
    holds, the handler answers 400 only when a status filter is given
    that is none of the three statuses.  Otherwise it answers with a
    page for which [page >= 1] and [1 <= pageSize <= 100]; [total] is the
    number of records among the 100 most recent ones of the store that
    pass the filters which are given, so it is at most 100 and not the
    number of such records in the store; [totalPages] is the least number
    of pages of [pageSize] items that hold [total] items; the page carries
    at most [pageSize] items, each of them a record of those 100 that
    passes the filters which are given. *)
Theorem history_page_bounds :
  forall (q : HistoryRoute.Query) (s : State),
    match HistoryRoute.get E parseInt q s with
    | HistoryRoute.Ok r =>
        1 <= HistoryRoute.page r
        /\ 1 <= HistoryRoute.pageSize r <= 100
        /\ HistoryRoute.total r
           = Z.of_nat (List.length
                         (filter (passesBoth (HistoryRoute.qAuthor q)
                                    (HistoryRoute.qStatus q))
                                 (getHistory 100 s)))
        /\ 0 <= HistoryRoute.total r <= 100
        /\ 0 <= HistoryRoute.totalPages r
        /\ HistoryRoute.total r
           <= HistoryRoute.pageSize r * HistoryRoute.totalPages r
           < HistoryRoute.total r + HistoryRoute.pageSize r
        /\ Z.of_nat (List.length (HistoryRoute.items r)) <= HistoryRoute.pageSize r
        /\ forall item, In item (HistoryRoute.items r) ->
             exists video,
               item = HistoryRoute.toItem E video
               /\ In video (getHistory 100 s)
               /\ passes (HistoryRoute.qAuthor q) (author video)
               /\ passes (HistoryRoute.qStatus q)
                         (statusName (webhookStatus video))
    | HistoryRoute.BadRequest _ _ =>
        exists st,
          HistoryRoute.qStatus q = Some st /\ st <> EmptyString
          /\ st <> "pending"%string /\ st <> "sent"%string
          /\ st <> "failed"%string
    end.
Proof.
  intros q s. unfold HistoryRoute.get.
  set (page := Z.max 1 _). set (pageSize := Z.min HistoryRoute.MAX_PAGE_SIZE _).
  assert (Hpage : 1 <= page) by (unfold page; lia).
  assert (Hsize : 1 <= pageSize <= 100)
    by (unfold pageSize, HistoryRoute.MAX_PAGE_SIZE; lia).
  pose proof (paginate_bounds page pageSize (HistoryRoute.qAuthor q)
                (HistoryRoute.qStatus q) s (proj1 Hsize)) as Hbounds.
  cbv zeta in Hbounds.
  assert (Hok := conj (f_equal (fun l => Z.of_nat (List.length l))
                         (filteredHistory_filter (HistoryRoute.qAuthor q)
                            (HistoryRoute.qStatus q) s))
                      Hbounds).
  clear Hbounds.
  destruct (HistoryRoute.qStatus q) as [st|] eqn:Hst; cbn [HistoryRoute.given];
    [|split; [exact Hpage|]; split; [exact Hsize|]; exact Hok].
  destruct (String.eqb st EmptyString) eqn:Hempty;
    [split; [exact Hpage|]; split; [exact Hsize|]; exact Hok|].
  destruct (negb (existsb (String.eqb st) _)) eqn:Hbad;
    [|split; [exact Hpage|]; split; [exact Hsize|]; exact Hok].
  exists st. split; [reflexivity|].
  apply String.eqb_neq in Hempty. split; [exact Hempty|].
  apply negb_true_iff in Hbad. cbn [existsb] in Hbad.
  apply orb_false_elim in Hbad. destruct Hbad as [H1 Hbad].
  apply orb_false_elim in Hbad. destruct Hbad as [H2 Hbad].
  apply orb_false_elim in Hbad. destruct Hbad as [H3 _].
  apply String.eqb_neq in H1, H2, H3. auto.
Qed.

Lemma get_Ok (q : HistoryRoute.Query) (s : State)
    (r : HistoryRoute.PaginatedResponse) :
  HistoryRoute.get E parseInt q s = HistoryRoute.Ok r ->
  exists page pageSize,
    1 <= pageSize
    /\ r = HistoryRoute.paginate E page pageSize
             (HistoryRoute.filteredHistory (HistoryRoute.qAuthor q)
                (HistoryRoute.qStatus q) s).
Proof.
  unfold HistoryRoute.get.
  set (page := Z.max 1 _). set (pageSize := Z.min HistoryRoute.MAX_PAGE_SIZE _).
  intros Hget. exists page, pageSize.
  split; [unfold pageSize, HistoryRoute.MAX_PAGE_SIZE; lia|].
  destruct (match HistoryRoute.given (HistoryRoute.qStatus q) with
            | Some st => _
            | None => false
            end); [discriminate|].
  now inversion Hget.
Qed.

Lemma get_page (pageText : nat -> string) (q : HistoryRoute.Query) (s : State)
    (p : nat) :
  (forall n, parseInt (Some (pageText n)) = Some (Z.of_nat n)) ->
  (1 <= p)%nat ->
  HistoryRoute.get E parseInt (withPage q (pageText p)) s
  = match HistoryRoute.get E parseInt q s with
    | HistoryRoute.Ok r =>
        HistoryRoute.Ok
          (HistoryRoute.paginate E (Z.of_nat p) (HistoryRoute.pageSize r)
             (HistoryRoute.filteredHistory (HistoryRoute.qAuthor q)
                (HistoryRoute.qStatus q) s))
    | bad => bad
    end.
Proof.
  intros Hparse Hp. unfold HistoryRoute.get.
  cbn [withPage HistoryRoute.qPage HistoryRoute.qPageSize HistoryRoute.qAuthor
       HistoryRoute.qStatus].
  rewrite Hparse.
  assert (Hpage : Z.max 1 (HistoryRoute.orDefault (Some (Z.of_nat p)) 1)
                  = Z.of_nat p).
  { cbn [HistoryRoute.orDefault].
    destruct (Z.of_nat p =? 0) eqn:H0; [apply Z.eqb_eq in H0|]; lia. }
  rewrite Hpage.
  destruct (match HistoryRoute.given (HistoryRoute.qStatus q) with
            | Some st => _
            | None => false
            end); reflexivity.
Qed.

(** X14.  The pages of the history make up the history.  Fix a query
    that the handler accepts, and ask for its pages [1 .. totalPages]
    one after the other, the store being the same: the items of these
    pages, in this order, are the filtered history, every record once
    and in the order of the history; and every page after the last one
    is empty.  ([pageText n] is any text that [parseInt] reads as [n].) *)
Theorem history_pages_partition :
  forall (pageText : nat -> string) (q : HistoryRoute.Query) (s : State)
         (r : HistoryRoute.PaginatedResponse),
    (forall n, parseInt (Some (pageText n)) = Some (Z.of_nat n)) ->
    HistoryRoute.get E parseInt q s = HistoryRoute.Ok r ->
    List.concat
      (map (fun p => itemsOf (HistoryRoute.get E parseInt
                                (withPage q (pageText p)) s))
           (seq 1 (Z.to_nat (HistoryRoute.totalPages r))))
    = map (HistoryRoute.toItem E)
          (HistoryRoute.filteredHistory (HistoryRoute.qAuthor q)
             (HistoryRoute.qStatus q) s)
    /\ forall p, (Z.to_nat (HistoryRoute.totalPages r) < p)%nat ->
         itemsOf (HistoryRoute.get E parseInt (withPage q (pageText p)) s) = [].
Proof.
  intros pageText q s r Hparse Hget.
  set (filtered := HistoryRoute.filteredHistory (HistoryRoute.qAuthor q)
                     (HistoryRoute.qStatus q) s).
  destruct (get_Ok q s r Hget) as (page & pageSize & Hsize & Hr).
  fold filtered in Hr.
  set (k := Z.to_nat pageSize).
  assert (Hk : Z.of_nat k = pageSize) by (unfold k; lia).
  assert (Hitems : forall i,
    itemsOf (HistoryRoute.get E parseInt (withPage q (pageText (S i))) s)
    = map (HistoryRoute.toItem E) (firstn k (skipn (i * k) filtered))).
  { intros i. rewrite (get_page pageText q s (S i) Hparse) by lia.
    rewrite Hget. fold filtered. rewrite Hr.
    cbn [itemsOf HistoryRoute.paginate HistoryRoute.items HistoryRoute.pageSize].
    rewrite <- (Array_slice_chunk _ i k filtered). do 2 f_equal; lia. }
  assert (Hpages : (List.length filtered
                    <= Z.to_nat (HistoryRoute.totalPages r) * k)%nat).
  { rewrite Hr. cbn [HistoryRoute.paginate HistoryRoute.totalPages].
    destruct (Math_ceil_div_spec (Z.of_nat (List.length filtered)) pageSize
                ltac:(lia) ltac:(lia)) as [Hpos Hceil].
    nia. }
  split.
  - rewrite <- seq_shift, map_map.
    rewrite (map_ext _ _ Hitems), <- (map_map (fun i => firstn k (skipn (i * k) filtered))),
      <- concat_map.
    now rewrite chunks_concat.
  - intros p Hp. destruct p as [|i]; [lia|]. rewrite Hitems.
    rewrite skipn_all2; [now rewrite firstn_nil|]. nia.
Qed.
End HistoryRouteFacts.

(** 150 records in the store: the history has four pages of 30, 30, 30
    and 10 items, which are the 100 most recent records. *)
Lemma history_pages_partition_witness :
  (forall n, parseDecimal (Some (decimal n)) = Some (Z.of_nat n))
  /\ HistoryRoute.get envQuiet parseDecimal queryPagesOf30 (storeOfSize 150)
     = HistoryRoute.Ok
         (HistoryRoute.paginate envQuiet 1 30
            (HistoryRoute.filteredHistory None None (storeOfSize 150)))
  /\ map (fun p => List.length
                     (itemsOf (HistoryRoute.get envQuiet parseDecimal
                                 (withPage queryPagesOf30 (decimal p))
                                 (storeOfSize 150))))
         [1; 2; 3; 4; 5]%nat
     = [30; 30; 30; 10; 0]%nat
  /\ List.concat
       (map (fun p => itemsOf (HistoryRoute.get envQuiet parseDecimal
                                 (withPage queryPagesOf30 (decimal p))
                                 (storeOfSize 150)))
            (seq 1 (Z.to_nat
                      (HistoryRoute.totalPages
                         (HistoryRoute.paginate envQuiet 1 30
                            (HistoryRoute.filteredHistory None None
                               (storeOfSize 150)))))))
     = map (HistoryRoute.toItem envQuiet)
           (HistoryRoute.filteredHistory None None (storeOfSize 150)).
Proof.
  assert (Hparse : forall n, parseDecimal (Some (decimal n)) = Some (Z.of_nat n)).
  { intros n. apply readTime_printTime. }
  assert (Hget :
    HistoryRoute.get envQuiet parseDecimal queryPagesOf30 (storeOfSize 150)
    = HistoryRoute.Ok
        (HistoryRoute.paginate envQuiet 1 30
           (HistoryRoute.filteredHistory None None (storeOfSize 150))))
    by (vm_compute; reflexivity).
  split; [exact Hparse|]. split; [exact Hget|].
  split; [vm_compute; reflexivity|].
  exact (proj1 (history_pages_partition envQuiet parseDecimal decimal
                  queryPagesOf30 (storeOfSize 150) _ Hparse Hget)).
Defined.

(* ================================================================= *)
(** ** The command line *)

(** X15.  The history on the command line.  For every integer [limit],
    [history(limit)] prints the [n] most recent records, most recent
    first, under a header that gives [n], where [n] is the least of
    [max(1, limit)], 100 and the number of records; so a store that is
    not empty always shows at least one record and never more than 100,
    also for a limit that is zero or negative.  An empty store prints
    the one line that says so. *)
Theorem cli_history_lines :
  forall (E : Env) (limit : Z) (s : State),
    let count := Z.of_nat (List.length (JsMap.values (processedVideos s))) in
    let n := Z.min (Z.min (Z.max 1 limit) 100) count in
    Cli.history E limit s
    = (if count =? 0 then [Cli.NoVideos]
       else Cli.Header (Z.to_nat n)
            :: map (Cli.lineOf E)
                   (firstn (Z.to_nat n)
                      (Array_sort (fun a b => processedAt b - processedAt a)
                         (JsMap.values (processedVideos s)))))
    /\ (0 < count -> 1 <= n <= 100).
Proof.
  intros E limit s count n.
  split; [|lia].
  unfold Cli.history, getHistory, Array_slice0.
  set (sorted := Array_sort _ _).
  assert (Hlen : Z.of_nat (List.length sorted) = count).
  { unfold sorted, count. now rewrite Array_sort_length. }
  assert (Hneg : (Z.min (Z.min (Z.max 1 limit) 100) DEFAULT_HISTORY_LIMIT <? 0)
                 = false).
  { apply Z.ltb_ge. unfold DEFAULT_HISTORY_LIMIT. lia. }
  rewrite Hneg, Hlen.
  replace (Z.min (Z.min (Z.min (Z.max 1 limit) 100) DEFAULT_HISTORY_LIMIT) count)
    with n by (unfold n, DEFAULT_HISTORY_LIMIT; lia).
  rewrite length_firstn.
  replace (Nat.min (Z.to_nat n) (List.length sorted)) with (Z.to_nat n) by lia.
  destruct (count =? 0) eqn:Hc.
  - apply Z.eqb_eq in Hc. replace (Z.to_nat n) with O by lia. reflexivity.
  - apply Z.eqb_neq in Hc.
    destruct (Z.to_nat n) as [|m] eqn:Hn; [lia|]. reflexivity.
Qed.

(* ================================================================= *)
(** ** User names *)

Lemma alnum_alnumUnderscorePeriod :
  forall c, alnum c = true -> alnumUnderscorePeriod c = true.
Proof.
  intros c H. unfold alnumUnderscorePeriod. rewrite H. reflexivity.
Qed.

Lemma alnumUnderscore_alnumUnderscorePeriod :
  forall c, alnumUnderscore c = true -> alnumUnderscorePeriod c = true.
Proof.
  intros c H. unfold alnumUnderscorePeriod.
  unfold alnumUnderscore in H. rewrite H. reflexivity.
Qed.

Lemma alnumUnderscorePeriod_cases :
  forall c, alnumUnderscorePeriod c = alnumUnderscore c || period c.
Proof. reflexivity. Qed.

Lemma alnumUnderscorePeriod_anyChar :
  forall c, alnumUnderscorePeriod c = true -> anyChar c = true.
Proof.
  intros c.
  destruct c as [[] [] [] [] [] [] [] []]; vm_compute; congruence.
Qed.

Lemma alnumUnderscorePeriod_not_space :
  forall c, alnumUnderscorePeriod c = true -> isWhiteSpace c = false.
Proof.
  intros c.
  destruct c as [[] [] [] [] [] [] [] []]; vm_compute; congruence.
Qed.

Lemma allChars_impl :
  forall (p q : ascii -> bool),
    (forall c, p c = true -> q c = true) ->
    forall s, allChars p s = true -> allChars q s = true.
Proof.
  intros p q Hpq s. induction s as [|c s IH]; cbn; [reflexivity|].
  intros H. apply andb_true_iff in H. destruct H as [Hc Hs].
  rewrite (Hpq c Hc), (IH Hs). reflexivity.
Qed.

(** *** What the patterns match *)

Lemma star_twoPeriods :
  forall s,
    allChars anyChar s = true ->
    Regex.star anyChar
      (Regex.run (Regex.Seq (Regex.Class period) (Regex.Class period))
         (fun _ => true)) s
    = hasTwoPeriods s.
Proof.
  induction s as [|c s IH]; intros H; [reflexivity|].
  cbn [allChars] in H. apply andb_true_iff in H. destruct H as [Hc Hs].
  cbn [Regex.star]. rewrite Hc, (IH Hs). cbn [andb].
  cbn [Regex.run hasTwoPeriods].
  destruct s as [|c2 s]; cbn.
  - rewrite andb_false_r. reflexivity.
  - rewrite andb_true_r. apply orb_comm.
Qed.

Lemma star_endsWithPeriod :
  forall s,
    allChars anyChar s = true ->
    Regex.star anyChar
      (Regex.run (Regex.Seq (Regex.Class period) Regex.AtEnd)
         (fun _ => true)) s
    = endsWith period s.
Proof.
  induction s as [|c s IH]; intros H; [reflexivity|].
  cbn [allChars] in H. apply andb_true_iff in H. destruct H as [Hc Hs].
  cbn [Regex.star]. rewrite Hc, (IH Hs). cbn [andb].
  cbn [Regex.run endsWith].
  destruct s as [|c2 s]; cbn.
  - rewrite andb_true_r. reflexivity.
  - rewrite andb_false_r. apply orb_false_r.
Qed.

Lemma repeat_atEnd :
  forall (p : ascii -> bool) (n : nat) (s : string),
    Regex.repeat p 0 n (Regex.run Regex.AtEnd (fun _ => true)) s
    = allChars p s && (String.length s <=? n)%nat.
Proof.
  intros p n. induction n as [|n IH]; intros s.
  - destruct s as [|c s]; cbn; [reflexivity|]. rewrite andb_false_r. reflexivity.
  - destruct s as [|c s]; [reflexivity|].
    cbn [Regex.repeat Regex.run allChars String.length].
    rewrite IH, orb_false_r. cbn [Nat.leb]. rewrite andb_assoc. reflexivity.
Qed.

Lemma repeat_opt_atEnd :
  forall (n : nat) (s : string),
    Regex.repeat alnumUnderscorePeriod 0 n
      (Regex.run
         (Regex.Seq (Regex.Opt (Regex.Class alnumUnderscore)) Regex.AtEnd)
         (fun _ => true)) s
    = allChars alnumUnderscorePeriod s
      && ((String.length s <=? n)%nat
          || ((String.length s =? S n)%nat && endsWith alnumUnderscore s)).
Proof.
  induction n as [|n IH]; intros s.
  - destruct s as [|c [|c2 s]]; cbn; try reflexivity.
    + rewrite !andb_true_r, orb_false_r.
      destruct (alnumUnderscore c) eqn:Hc; cbn.
      * rewrite (alnumUnderscore_alnumUnderscorePeriod c Hc). reflexivity.
      * rewrite andb_false_r. reflexivity.
    + rewrite !andb_false_r. reflexivity.
  - destruct s as [|c s]; [reflexivity|].
    cbn [Regex.repeat]. rewrite IH.
    cbn [allChars String.length Nat.leb Nat.eqb].
    destruct s as [|c2 s].
    + cbn. rewrite !andb_true_r, orb_false_r.
      destruct (alnumUnderscore c) eqn:Hc; cbn.
      * rewrite (alnumUnderscore_alnumUnderscorePeriod c Hc). reflexivity.
      * rewrite orb_false_r. reflexivity.
    + cbn [Regex.run endsWith].
      cbn. rewrite !andb_false_r, !orb_false_r.
      destruct (alnumUnderscorePeriod c); reflexivity.
Qed.

Lemma endsWith_cons :
  forall (p : ascii -> bool) (c c2 : ascii) (s : string),
    endsWith p (String c (String c2 s)) = endsWith p (String c2 s).
Proof. reflexivity. Qed.

Lemma endsWith_alnumUnderscore :
  forall s,
    allChars alnumUnderscorePeriod s = true ->
    endsWith alnumUnderscore s
    = negb (String.eqb s EmptyString) && negb (endsWith period s).
Proof.
  induction s as [|c s IH]; intros H; [reflexivity|].
  cbn [allChars] in H. apply andb_true_iff in H. destruct H as [Hc Hs].
  destruct s as [|c2 s].
  - cbn. rewrite alnumUnderscorePeriod_cases in Hc.
    destruct (alnumUnderscore c) eqn:Ha, (period c) eqn:Hp;
      cbn in *; try reflexivity; try discriminate.
    unfold alnumUnderscore, alnum, inRange, period in *.
    apply Ascii.eqb_eq in Hp. subst c. vm_compute in Ha. discriminate.
  - rewrite !endsWith_cons, (IH Hs). reflexivity.
Qed.

Lemma scraper_pattern :
  forall s, Regex.test TikTokScraper.usernameRegex s = scraperShape s.
Proof.
  intros s. unfold Regex.test, TikTokScraper.usernameRegex, scraperShape.
  destruct s as [|c s]; [reflexivity|].
  cbn [Regex.run startsWith allChars String.length].
  rewrite repeat_atEnd.
  destruct (alnum c) eqn:Hc; [|reflexivity].
  rewrite (alnum_alnumUnderscorePeriod c Hc). reflexivity.
Qed.

Lemma username_pattern_parts :
  forall s,
    Regex.test ConfigManager.TIKTOK_USERNAME_REGEX s
    = negb (Regex.star anyChar
              (Regex.run (Regex.Seq (Regex.Class period) (Regex.Class period))
                 (fun _ => true)) s)
      && (negb (Regex.star anyChar
                  (Regex.run (Regex.Seq (Regex.Class period) Regex.AtEnd)
                     (fun _ => true)) s)
          && match s with
             | EmptyString => false
             | String c s' =>
                 alnum c
                 && Regex.repeat alnumUnderscorePeriod 0 22
                      (Regex.run
                         (Regex.Seq (Regex.Opt (Regex.Class alnumUnderscore))
                            Regex.AtEnd)
                         (fun _ => true)) s'
             end).
Proof. reflexivity. Qed.

Lemma username_pattern :
  forall s, Regex.test ConfigManager.TIKTOK_USERNAME_REGEX s = usernameShape s.
Proof.
  intros s. rewrite username_pattern_parts.
  unfold usernameShape, scraperShape.
  destruct s as [|c s]; [reflexivity|].
  rewrite repeat_opt_atEnd.
  cbn [startsWith].
  destruct (alnum c) eqn:Hc;
    [|cbn [andb]; rewrite !andb_false_r; reflexivity].
  cbn [andb allChars].
  rewrite (alnum_alnumUnderscorePeriod c Hc). cbn [andb].
  destruct (allChars alnumUnderscorePeriod s) eqn:Hs;
    [|cbn [andb]; rewrite !andb_false_r; reflexivity].
  assert (Hall : allChars anyChar (String c s) = true).
  { apply allChars_impl with (p := alnumUnderscorePeriod).
    - apply alnumUnderscorePeriod_anyChar.
    - cbn [allChars]. rewrite (alnum_alnumUnderscorePeriod c Hc), Hs. reflexivity. }
  rewrite (star_twoPeriods _ Hall), (star_endsWithPeriod _ Hall).
  rewrite (endsWith_alnumUnderscore s Hs).
  cbn [andb String.length].
  destruct (hasTwoPeriods (String c s));
    [cbn [negb andb]; rewrite andb_false_r; reflexivity|].
  cbn [negb andb].
  destruct s as [|c2 s]; [cbn; destruct (period c); reflexivity|].
  rewrite endsWith_cons.
  destruct (endsWith period (String c2 s)); cbn [negb andb].
  - rewrite andb_false_r. reflexivity.
  - cbn [String.eqb negb andb]. rewrite !andb_true_r.
    generalize (String.length (String c2 s)). intros n.
    destruct (Nat.leb_spec n 22), (Nat.eqb_spec n 23), (Nat.leb_spec (S n) 24);
      try reflexivity; lia.
Qed.

(** *** Trimming *)

Lemma trimEnd_cons :
  forall c s,
    isWhiteSpace c = false -> trimEnd (String c s) = String c (trimEnd s).
Proof.
  intros c s Hc. cbn [trimEnd]. rewrite Hc.
  destruct (trimEnd s); reflexivity.
Qed.

Lemma trimEnd_idempotent : forall s, trimEnd (trimEnd s) = trimEnd s.
Proof.
  induction s as [|c s IH]; [reflexivity|].
  cbn [trimEnd].
  destruct (trimEnd s) as [|c2 r] eqn:Hr.
  - destruct (isWhiteSpace c) eqn:Hc; [reflexivity|].
    cbn [trimEnd]. rewrite Hc. reflexivity.
  - cbn [trimEnd] in *. rewrite IH. reflexivity.
Qed.

Lemma trimStart_shape :
  forall s,
    trimStart s = EmptyString
    \/ exists c r, trimStart s = String c r /\ isWhiteSpace c = false.
Proof.
  induction s as [|c s IH]; [left; reflexivity|].
  cbn [trimStart]. destruct (isWhiteSpace c) eqn:Hc; [exact IH|].
  right. exists c, s. split; [reflexivity|exact Hc].
Qed.

Lemma trim_idempotent : forall s, trim (trim s) = trim s.
Proof.
  intros s. unfold trim.
  destruct (trimStart_shape s) as [H|(c & r & H & Hc)]; rewrite H.
  - reflexivity.
  - rewrite (trimEnd_cons c r Hc). cbn [trimStart]. rewrite Hc.
    rewrite <- (trimEnd_cons c r Hc). apply trimEnd_idempotent.
Qed.

Lemma trimEnd_id :
  forall s, allChars alnumUnderscorePeriod s = true -> trimEnd s = s.
Proof.
  induction s as [|c s IH]; intros H; [reflexivity|].
  cbn [allChars] in H. apply andb_true_iff in H. destruct H as [Hc Hs].
  rewrite (trimEnd_cons c s (alnumUnderscorePeriod_not_space c Hc)), (IH Hs).
  reflexivity.
Qed.

Lemma trim_id :
  forall s, allChars alnumUnderscorePeriod s = true -> trim s = s.
Proof.
  intros s H. unfold trim.
  destruct s as [|c s]; [reflexivity|].
  cbn [trimStart].
  assert (Hc : alnumUnderscorePeriod c = true).
  { cbn [allChars] in H. apply andb_true_iff in H. tauto. }
  rewrite (alnumUnderscorePeriod_not_space c Hc).
  apply trimEnd_id, H.
Qed.

Lemma scraperShape_chars :
  forall s, scraperShape s = true -> allChars alnumUnderscorePeriod s = true.
Proof.
  intros s H. unfold scraperShape in H.
  apply andb_true_iff in H. destruct H as [H _].
  apply andb_true_iff in H. tauto.
Qed.

Lemma usernameShape_scraperShape :
  forall s, usernameShape s = true -> scraperShape s = true.
Proof.
  intros s H. unfold usernameShape in H.
  apply andb_true_iff in H. destruct H as [H _].
  apply andb_true_iff in H. tauto.
Qed.

Lemma scraperShape_length :
  forall s,
    scraperShape s = true -> (1 <= String.length s <= 24)%nat.
Proof.
  intros s H. unfold scraperShape in H.
  apply andb_true_iff in H. destruct H as [H Hlen].
  apply andb_true_iff in H. destruct H as [Hstart _].
  apply Nat.leb_le in Hlen.
  destruct s; [discriminate|]. cbn [String.length] in *. lia.
Qed.

Lemma validateUsername_valid :
  forall s,
    ConfigManager.valid (ConfigManager.validateUsername (JStr s))
    = usernameShape (trim s).
Proof.
  intros s. unfold ConfigManager.validateUsername.
  destruct (String.eqb_spec s "") as [->|Hs]; [reflexivity|].
  destruct (Nat.eqb_spec (String.length (trim s)) 0) as [H0|H0].
  - destruct (trim s); [reflexivity|discriminate].
  - destruct (Nat.ltb_spec 24 (String.length (trim s))) as [H24|H24].
    + cbn. symmetry.
      destruct (usernameShape (trim s)) eqn:Hshape; [|reflexivity].
      apply usernameShape_scraperShape, scraperShape_length in Hshape. lia.
    + rewrite username_pattern.
      destruct (usernameShape (trim s)); reflexivity.
Qed.

Lemma isValidUsername_shape :
  forall s, TikTokScraper.isValidUsername s = scraperShape s.
Proof.
  intros s. unfold TikTokScraper.isValidUsername.
  destruct (String.eqb_spec s "") as [->|Hs]; [reflexivity|].
  apply scraper_pattern.
Qed.

Lemma acceptedName_trim :
  forall s, acceptedName s -> acceptedName (trim s).
Proof.
  unfold acceptedName. intros s H.
  rewrite validateUsername_valid in *. rewrite trim_idempotent. exact H.
Qed.

(** X16.  The user names that are accepted.  [validateUsername] accepts
    a value exactly when it is a string whose trimmed text has 1 to 24
    characters, all of them letters, digits, underscores or periods, the
    first one a letter or a digit, with no two periods in a row and no
    period at the end; whatever it rejects, it rejects with one
    message. *)
Theorem validateUsername_accepts :
  forall username : json,
    let result := ConfigManager.validateUsername username in
    ConfigManager.valid result
    = match username with
      | JStr s => usernameShape (trim s)
      | _ => false
      end
    /\ List.length (ConfigManager.errors result)
       = (if ConfigManager.valid result then 0 else 1)%nat.
Proof.
  intros username result. subst result. split.
  - destruct username; try reflexivity. apply validateUsername_valid.
  - unfold ConfigManager.validateUsername.
    destruct username as [| | |s| |]; try reflexivity.
    destruct (String.eqb s ""); [reflexivity|].
    destruct (String.length (trim s) =? 0)%nat; [reflexivity|].
    destruct (24 <? String.length (trim s))%nat; [reflexivity|].
    destruct (Regex.test ConfigManager.TIKTOK_USERNAME_REGEX (trim s));
      reflexivity.
Qed.

(** X17.  The names the manager accepts and the names the scraper
    takes.  The scraper takes the trimmed text of every name that
    [validateUsername] accepts.  It takes no name with white space
    around it: a name it takes is its own trimmed text.  So a name that
    [validateUsername] accepts and that is stored as it was given, not
    trimmed (as [load] stores the authors of a file), is refused by the
    scraper.  And of the names the scraper takes, [validateUsername]
    refuses those with two periods in a row or a period at the end. *)
Theorem accepted_names_and_the_scraper :
  forall s : string,
    (acceptedName s -> TikTokScraper.isValidUsername (trim s) = true)
    /\ (TikTokScraper.isValidUsername s = true -> trim s = s)
    /\ (acceptedName s -> trim s <> s ->
        TikTokScraper.isValidUsername s = false)
    /\ (TikTokScraper.isValidUsername s = true ->
        ConfigManager.valid (ConfigManager.validateUsername (JStr s))
        = negb (hasTwoPeriods s) && negb (endsWith period s)).
Proof.
  intros s. unfold acceptedName.
  rewrite validateUsername_valid, !isValidUsername_shape.
  assert (Hid : scraperShape s = true -> trim s = s).
  { intros H. apply trim_id, scraperShape_chars, H. }
  repeat split.
  - apply usernameShape_scraperShape.
  - exact Hid.
  - intros _ Hneq. destruct (scraperShape s) eqn:H; [|reflexivity].
    elim Hneq. apply Hid. reflexivity.
  - intros H. rewrite (Hid H). unfold usernameShape. rewrite H. reflexivity.
Qed.

(* ================================================================= *)
(** ** The configuration *)

Lemma Array_indexOf_absent (x : string) (l : list string) :
  ~ In x l -> Array_indexOf x l = -1.
Proof.
  induction l as [|y l IH]; intros Hnot; [reflexivity|].
  cbn [Array_indexOf]. destruct (String.eqb_spec x y) as [->|Hxy].
  - elim Hnot. now left.
  - rewrite IH by (intros Hin; apply Hnot; now right). reflexivity.
Qed.

Lemma in_split_first (x : string) (l : list string) :
  In x l -> exists l1 l2, l = l1 ++ x :: l2 /\ ~ In x l1.
Proof.
  induction l as [|y l IH]; intros Hin; [destruct Hin|].
  destruct (String.eqb_spec x y) as [->|Hxy].
  - exists [], l. split; [reflexivity|intros []].
  - destruct Hin as [->|Hin]; [congruence|].
    destruct (IH Hin) as (l1 & l2 & -> & Hnot).
    exists (y :: l1), l2. split; [reflexivity|].
    intros [H|H]; [congruence|exact (Hnot H)].
Qed.

Lemma splice1_first (x : string) (l1 l2 : list string) :
  ConfigManager.splice1 (Z.of_nat (List.length l1)) (l1 ++ x :: l2) = l1 ++ l2.
Proof.
  unfold ConfigManager.splice1. rewrite Nat2Z.id.
  rewrite firstn_app, firstn_all, Nat.sub_diag, firstn_O, app_nil_r.
  change (S (List.length l1)) with (1 + List.length l1)%nat.
  rewrite <- skipn_skipn.
  rewrite skipn_app, skipn_all, Nat.sub_diag. reflexivity.
Qed.

Section ConfigFacts.

Variable URL_protocol : string -> option string.

Lemma validateUsername_rejects :
  forall j,
    ConfigManager.valid (ConfigManager.validateUsername j) = false ->
    ConfigManager.errors (ConfigManager.validateUsername j) <> [].
Proof.
  intros j. unfold ConfigManager.validateUsername.
  destruct j as [| | |s| |]; try (intros _; discriminate).
  destruct (String.eqb s ""); [intros _; discriminate|].
  destruct (String.length (trim s) =? 0)%nat; [intros _; discriminate|].
  destruct (24 <? String.length (trim s))%nat; [intros _; discriminate|].
  destruct (Regex.test ConfigManager.TIKTOK_USERNAME_REGEX (trim s));
    intros H; discriminate.
Qed.

Lemma validateUsername_string :
  forall j,
    ConfigManager.valid (ConfigManager.validateUsername j) = true ->
    exists a, j = JStr a /\ acceptedName a.
Proof.
  intros j H. destruct j as [| | |s| |]; try discriminate.
  exists s. split; [reflexivity|exact H].
Qed.

Lemma validateUrl_rejects :
  forall j,
    ConfigManager.valid (ConfigManager.validateUrl URL_protocol j) = false ->
    ConfigManager.errors (ConfigManager.validateUrl URL_protocol j) <> [].
Proof.
  intros j. unfold ConfigManager.validateUrl.
  destruct j as [| | |s| |]; try (intros _; discriminate).
  destruct (String.eqb s ""); [intros _; discriminate|].
  destruct (String.length (trim s) =? 0)%nat; [intros _; discriminate|].
  destruct (URL_protocol (trim s)) as [protocol|]; [|intros _; discriminate].
  destruct (negb (existsb (String.eqb protocol) ["http:"%string; "https:"%string]));
    intros H; discriminate.
Qed.

Lemma validateUrl_string :
  forall j,
    ConfigManager.valid (ConfigManager.validateUrl URL_protocol j) = true ->
    exists url, j = JStr url /\ acceptedUrl URL_protocol url.
Proof.
  intros j H. destruct j as [| | |s| |]; try discriminate.
  exists s. split; [reflexivity|exact H].
Qed.

Lemma validateUrl_empty :
  ConfigManager.validateUrl URL_protocol (JStr "")
  = ConfigManager.rejected "URL must be a non-empty string".
Proof. reflexivity. Qed.

Lemma acceptedUrl_trim :
  forall url, acceptedUrl URL_protocol url -> acceptedUrl URL_protocol (trim url).
Proof.
  unfold acceptedUrl, ConfigManager.validateUrl. intros url.
  destruct (String.eqb_spec url "") as [->|Hurl]; [discriminate|].
  destruct (Nat.eqb_spec (String.length (trim url)) 0) as [H0|H0];
    [discriminate|].
  rewrite trim_idempotent.
  destruct (String.eqb_spec (trim url) "") as [He|He].
  - rewrite He in H0. elim H0. reflexivity.
  - destruct (Nat.eqb_spec (String.length (trim url)) 0); [contradiction|].
    trivial.
Qed.

Lemma acceptedUrl_not_empty :
  forall url, acceptedUrl URL_protocol url -> trim url <> EmptyString.
Proof.
  unfold acceptedUrl, ConfigManager.validateUrl. intros url.
  destruct (String.eqb_spec url "") as [->|Hurl]; [discriminate|].
  destruct (Nat.eqb_spec (String.length (trim url)) 0) as [H0|H0];
    [discriminate|].
  intros _ He. rewrite He in H0. elim H0. reflexivity.
Qed.

Lemma validatePollingInterval_rejects :
  forall j,
    ConfigManager.valid (ConfigManager.validatePollingInterval j) = false ->
    ConfigManager.errors (ConfigManager.validatePollingInterval j) <> [].
Proof.
  intros j. unfold ConfigManager.validatePollingInterval.
  destruct j as [| |n| | |]; try (intros _; discriminate).
  destruct ((n <? ConfigManager.MIN_POLLING_INTERVAL)
            || (ConfigManager.MAX_POLLING_INTERVAL <? n));
    intros H; discriminate.
Qed.

Lemma validatePollingInterval_valid :
  forall n,
    ConfigManager.valid (ConfigManager.validatePollingInterval (JNum n)) = true
    <-> 60 <= n <= 3600.
Proof.
  intros n. unfold ConfigManager.validatePollingInterval,
    ConfigManager.MIN_POLLING_INTERVAL, ConfigManager.MAX_POLLING_INTERVAL.
  destruct (Z.ltb_spec n 60), (Z.ltb_spec 3600 n); cbn; split;
    intros; try discriminate; try lia; reflexivity.
Qed.

Lemma validatePollingInterval_number :
  forall j,
    ConfigManager.valid (ConfigManager.validatePollingInterval j) = true ->
    exists n, j = JNum n /\ 60 <= n <= 3600.
Proof.
  intros j H. destruct j as [| |n| | |]; try discriminate.
  exists n. split; [reflexivity|]. apply validatePollingInterval_valid, H.
Qed.

Lemma pushErrors_nil :
  forall prefix result,
    (ConfigManager.valid result = false -> ConfigManager.errors result <> []) ->
    (ConfigManager.pushErrors prefix result = []
     <-> ConfigManager.valid result = true).
Proof.
  intros prefix result Hrej. unfold ConfigManager.pushErrors.
  destruct (ConfigManager.valid result) eqn:Hv; cbn.
  - tauto.
  - split; [|discriminate].
    intros H. apply map_eq_nil in H. elim (Hrej eq_refl H).
Qed.

Lemma authorErrors_nil :
  forall items index,
    ConfigManager.authorErrors index items = []
    <-> Forall (fun j => ConfigManager.valid (ConfigManager.validateUsername j)
                         = true) items.
Proof.
  induction items as [|j items IH]; intros index; cbn [ConfigManager.authorErrors].
  - split; [constructor|reflexivity].
  - split.
    + intros H. apply app_eq_nil in H. destruct H as [Hj Hrest].
      constructor.
      * apply (pushErrors_nil _ _ (validateUsername_rejects j)) in Hj. exact Hj.
      * apply (IH (S index)), Hrest.
    + intros H. inversion H as [|? ? Hj Hrest]; subst.
      apply (pushErrors_nil ("authors[" ++ showNat index ++ "]: ") _
               (validateUsername_rejects j)) in Hj.
      rewrite Hj. apply (IH (S index)), Hrest.
Qed.

(** What a parsed file that passes [validateConfig] holds. *)
Lemma validateConfig_sound :
  forall parsed,
    ConfigManager.valid (ConfigManager.validateConfig URL_protocol parsed) = true ->
    (forall v, json_prop "webhookUrl" parsed = Some v ->
       exists url, v = JStr url /\ acceptedUrl URL_protocol url)
    /\ (forall v, json_prop "pollingInterval" parsed = Some v ->
          exists n, v = JNum n /\ 60 <= n <= 3600)
    /\ (forall v, json_prop "authors" parsed = Some v ->
          exists items, v = JArr items
            /\ Forall (fun j => exists a, j = JStr a /\ acceptedName a) items)
    /\ (forall v, json_prop "maxRetries" parsed = Some v ->
          exists n, v = JNum n /\ 0 <= n).
Proof.
  intros parsed. unfold ConfigManager.validateConfig.
  destruct (negb (truthy parsed) || negb (ConfigManager.isObject parsed));
    [discriminate|].
  cbn [ConfigManager.valid]. intros H. apply Nat.eqb_eq in H.
  apply length_zero_iff_nil in H.
  apply app_eq_nil in H. destruct H as [Hurl H].
  apply app_eq_nil in H. destruct H as [Hint H].
  apply app_eq_nil in H. destruct H as [Hauth Hret].
  repeat split.
  - intros v Hv. rewrite Hv in Hurl.
    apply (pushErrors_nil _ _ (validateUrl_rejects v)) in Hurl.
    apply validateUrl_string, Hurl.
  - intros v Hv. rewrite Hv in Hint.
    apply (pushErrors_nil _ _ (validatePollingInterval_rejects v)) in Hint.
    apply validatePollingInterval_number, Hint.
  - intros v Hv. rewrite Hv in Hauth.
    destruct v as [| | | |items|]; try discriminate.
    exists items. split; [reflexivity|].
    apply authorErrors_nil in Hauth.
    eapply Forall_impl; [|exact Hauth].
    intros j Hj. apply validateUsername_string, Hj.
  - intros v Hv. rewrite Hv in Hret.
    destruct v as [| |n| | |]; try discriminate.
    exists n. split; [reflexivity|].
    destruct (Z.ltb_spec n 0); [discriminate|lia].
Qed.

Lemma map_stringItem : forall l, map ConfigManager.stringItem (map JStr l) = l.
Proof.
  induction l as [|a l IH]; [reflexivity|]. cbn. now rewrite IH.
Qed.

Lemma fromParsed_toJSON :
  forall s c,
    ConfigManager.fromParsed (ConfigManager.toJSON s c)
    = ConfigManager.mkConfigObject (ConfigManager.cWebhookUrl c)
        (ConfigManager.cPollingInterval c)
        (ConfigManager.OwnAuthors (ConfigManager.authorsIn s c))
        (ConfigManager.cMaxRetries c).
Proof.
  intros s c. unfold ConfigManager.fromParsed, ConfigManager.toJSON.
  cbn. rewrite map_stringItem. reflexivity.
Qed.

Lemma validateConfig_toJSON :
  forall s c,
    ConfigManager.valid
      (ConfigManager.validateConfig URL_protocol (ConfigManager.toJSON s c)) = true
    <-> acceptedUrl URL_protocol (ConfigManager.cWebhookUrl c)
        /\ 60 <= ConfigManager.cPollingInterval c <= 3600
        /\ Forall acceptedName (ConfigManager.authorsIn s c)
        /\ 0 <= ConfigManager.cMaxRetries c.
Proof.
  intros s c. split.
  - intros H. apply validateConfig_sound in H.
    destruct H as (Hurl & Hint & Hauth & Hret).
    destruct (Hurl _ eq_refl) as (url & Heq & Hu). inversion Heq; subst url.
    destruct (Hint _ eq_refl) as (n & Heqn & Hn). inversion Heqn; subst n.
    destruct (Hauth _ eq_refl) as (items & Heqi & Hi). inversion Heqi; subst items.
    destruct (Hret _ eq_refl) as (m & Heqm & Hm). inversion Heqm; subst m.
    repeat split; try assumption; try lia.
    apply Forall_forall. intros a Ha.
    rewrite Forall_forall in Hi.
    destruct (Hi (JStr a) (in_map JStr _ _ Ha)) as (a' & Heqa & Hacc).
    inversion Heqa; subst a'. exact Hacc.
  - intros (Hurl & Hint & Hauth & Hret).
    unfold ConfigManager.validateConfig, ConfigManager.toJSON.
    cbn [truthy ConfigManager.isObject negb orb].
    change (json_prop "webhookUrl" (JObj _))
      with (Some (JStr (ConfigManager.cWebhookUrl c))).
    change (json_prop "pollingInterval" (JObj _))
      with (Some (JNum (ConfigManager.cPollingInterval c))).
    change (json_prop "authors" (JObj _))
      with (Some (JArr (map JStr (ConfigManager.authorsIn s c)))).
    change (json_prop "maxRetries" (JObj _))
      with (Some (JNum (ConfigManager.cMaxRetries c))).
    cbn [ConfigManager.valid].
    replace (ConfigManager.pushErrors "webhookUrl: " _) with (@nil string)
      by (symmetry; apply pushErrors_nil;
          [apply validateUrl_rejects|exact Hurl]).
    replace (ConfigManager.pushErrors "pollingInterval: " _) with (@nil string)
      by (symmetry; apply pushErrors_nil;
          [apply validatePollingInterval_rejects
          |apply validatePollingInterval_valid, Hint]).
    replace (ConfigManager.authorErrors 0 _) with (@nil string)
      by (symmetry; apply authorErrors_nil, Forall_forall;
          intros j Hj; apply in_map_iff in Hj; destruct Hj as (a & <- & Ha);
          rewrite Forall_forall in Hauth; exact (Hauth a Ha)).
    destruct (Z.ltb_spec (ConfigManager.cMaxRetries c) 0); [lia|reflexivity].
Qed.

(** *** What a call changes *)

Lemma getConfig_ext :
  forall s s',
    ConfigManager.defaultAuthors s' = ConfigManager.defaultAuthors s ->
    ConfigManager.config s' = ConfigManager.config s ->
    ConfigManager.getConfig s' = ConfigManager.getConfig s.
Proof.
  intros s s' Hd Hc.
  unfold ConfigManager.getConfig, ConfigManager.authorsIn.
  rewrite Hd, Hc. reflexivity.
Qed.

Lemma save_current :
  forall fault s,
    ConfigManager.defaultAuthors (snd (ConfigManager.save URL_protocol fault None s))
    = ConfigManager.defaultAuthors s
    /\ ConfigManager.config (snd (ConfigManager.save URL_protocol fault None s))
       = ConfigManager.config s
    /\ match fault with
       | None =>
           fst (ConfigManager.save URL_protocol fault None s) = Normal tt
           /\ ConfigManager.file (snd (ConfigManager.save URL_protocol fault None s))
              = FileWith (JSONText (ConfigManager.toJSON s (ConfigManager.config s)))
       | Some e =>
           fst (ConfigManager.save URL_protocol fault None s) = Throw e
           /\ ConfigManager.file (snd (ConfigManager.save URL_protocol fault None s))
              = ConfigManager.file s
       end.
Proof.
  intros fault s. unfold ConfigManager.save.
  destruct fault; cbn; repeat split; reflexivity.
Qed.

Lemma getConfig_save_current :
  forall fault s,
    ConfigManager.getConfig (snd (ConfigManager.save URL_protocol fault None s))
    = ConfigManager.getConfig s.
Proof.
  intros fault s. destruct (save_current fault s) as (Hd & Hc & _).
  apply getConfig_ext; assumption.
Qed.

Lemma getAuthors_setAuthors :
  forall l s,
    ConfigManager.getAuthors (ConfigManager.setAuthors l s) = l.
Proof.
  intros l s.
  unfold ConfigManager.getAuthors, ConfigManager.setAuthors, ConfigManager.authorsIn.
  destruct (ConfigManager.cAuthors (ConfigManager.config s)) eqn:Hc; cbn.
  - rewrite Hc. reflexivity.
  - reflexivity.
Qed.

Lemma getConfig_setAuthors :
  forall l s,
    ConfigManager.getConfig (ConfigManager.setAuthors l s)
    = mkConfig (webhookUrl (ConfigManager.getConfig s))
        (pollingInterval (ConfigManager.getConfig s)) l
        (maxRetries (ConfigManager.getConfig s)).
Proof.
  intros l s.
  unfold ConfigManager.getConfig, ConfigManager.setAuthors, ConfigManager.authorsIn.
  destruct (ConfigManager.cAuthors (ConfigManager.config s)) eqn:Hc; cbn.
  - rewrite Hc. reflexivity.
  - reflexivity.
Qed.

Lemma defaultAuthors_setAuthors :
  forall l s,
    ConfigManager.defaultAuthors (ConfigManager.setAuthors l s)
    = match ConfigManager.cAuthors (ConfigManager.config s) with
      | ConfigManager.DefaultAuthors => l
      | ConfigManager.OwnAuthors _ => ConfigManager.defaultAuthors s
      end.
Proof.
  intros l s. unfold ConfigManager.setAuthors.
  destruct (ConfigManager.cAuthors (ConfigManager.config s)); reflexivity.
Qed.

Lemma getAuthors_getConfig :
  forall s, ConfigManager.getAuthors s = authors (ConfigManager.getConfig s).
Proof. reflexivity. Qed.

Lemma includes_In :
  forall x l, ConfigManager.includes x l = true <-> In x l.
Proof. intros x l. apply existsb_eqb_In. Qed.

(** [addAuthor], case by case. *)
Lemma addAuthor_run :
  forall fault username s,
    (~ acceptedName username ->
       exists e, ConfigManager.addAuthor URL_protocol fault username s = (Throw e, s))
    /\ (acceptedName username ->
        In (trim username) (ConfigManager.getAuthors s) ->
        ConfigManager.addAuthor URL_protocol fault username s = (Normal tt, s))
    /\ (acceptedName username ->
        ~ In (trim username) (ConfigManager.getAuthors s) ->
        ConfigManager.addAuthor URL_protocol fault username s
        = ConfigManager.save URL_protocol fault None
            (ConfigManager.setAuthors
               (ConfigManager.getAuthors s ++ [trim username]) s)).
Proof.
  intros fault username s. unfold ConfigManager.addAuthor, acceptedName.
  fold (ConfigManager.getAuthors s).
  destruct (ConfigManager.valid
              (ConfigManager.validateUsername (JStr username))) eqn:Hv;
    cbn [negb].
  - repeat split.
    + intros H. elim H. reflexivity.
    + intros _ Hin. apply includes_In in Hin. rewrite Hin. reflexivity.
    + intros _ Hnot.
      destruct (ConfigManager.includes (trim username)
                  (ConfigManager.getAuthors s)) eqn:Hin; [|reflexivity].
      apply includes_In in Hin. contradiction.
  - repeat split; try discriminate.
    intros _. eexists. reflexivity.
Qed.

(** [removeAuthor], case by case. *)
Lemma removeAuthor_run :
  forall fault username s,
    (~ In (trim username) (ConfigManager.getAuthors s) ->
       ConfigManager.removeAuthor URL_protocol fault username s = (Normal tt, s))
    /\ (forall l1 l2,
          ConfigManager.getAuthors s = l1 ++ trim username :: l2 ->
          ~ In (trim username) l1 ->
          ConfigManager.removeAuthor URL_protocol fault username s
          = ConfigManager.save URL_protocol fault None
              (ConfigManager.setAuthors (l1 ++ l2) s)).
Proof.
  intros fault username s. unfold ConfigManager.removeAuthor.
  fold (ConfigManager.getAuthors s). split.
  - intros Hnot. rewrite (Array_indexOf_absent _ _ Hnot). reflexivity.
  - intros l1 l2 Hl Hnot. rewrite Hl.
    rewrite (Array_indexOf_first _ _ _ Hnot).
    destruct (Z.eqb_spec (Z.of_nat (List.length l1)) (-1)) as [H|_]; [lia|].
    rewrite splice1_first. reflexivity.
Qed.

(** *** The bounds *)

Lemma storeWithinBounds_ext :
  forall s s',
    ConfigManager.defaultAuthors s' = ConfigManager.defaultAuthors s ->
    ConfigManager.config s' = ConfigManager.config s ->
    storeWithinBounds URL_protocol s -> storeWithinBounds URL_protocol s'.
Proof.
  intros s s' Hd Hc [Hb Hh]. split.
  - rewrite (getConfig_ext s s' Hd Hc). exact Hb.
  - rewrite Hd. exact Hh.
Qed.

Lemma storeWithinBounds_save_current :
  forall fault s,
    storeWithinBounds URL_protocol s ->
    storeWithinBounds URL_protocol
      (snd (ConfigManager.save URL_protocol fault None s)).
Proof.
  intros fault s H. destruct (save_current fault s) as (Hd & Hc & _).
  exact (storeWithinBounds_ext s _ Hd Hc H).
Qed.

Lemma storeWithinBounds_defaults :
  forall d s,
    Forall acceptedName (ConfigManager.defaultAuthors s) ->
    storeWithinBounds URL_protocol
      (ConfigManager.mkStore (ConfigManager.defaultAuthors s)
         ConfigManager.DEFAULT_CONFIG d).
Proof.
  intros d s H. split; [|exact H].
  unfold withinBounds. cbn. repeat split; try lia; [left; reflexivity|exact H].
Qed.

Lemma storeWithinBounds_setAuthors :
  forall l s,
    Forall acceptedName l ->
    storeWithinBounds URL_protocol s ->
    storeWithinBounds URL_protocol (ConfigManager.setAuthors l s).
Proof.
  intros l s Hl [(Hurl & Hint & Hret & Hauth) Hh]. split.
  - rewrite getConfig_setAuthors. repeat split; try assumption; tauto.
  - rewrite defaultAuthors_setAuthors.
    destruct (ConfigManager.cAuthors (ConfigManager.config s)); assumption.
Qed.

Lemma storeWithinBounds_load :
  forall s,
    storeWithinBounds URL_protocol s ->
    storeWithinBounds URL_protocol (snd (ConfigManager.load URL_protocol s)).
Proof.
  intros s Hs. unfold ConfigManager.load.
  destruct (ConfigManager.file s) as [e|[raw|parsed]] eqn:Hfile; [| exact Hs |].
  - destruct (match errCode e with
              | Some code => String.eqb code "ENOENT"
              | None => false
              end); [|exact Hs].
    apply storeWithinBounds_defaults, Hs.
  - destruct (ConfigManager.valid
                (ConfigManager.validateConfig URL_protocol parsed)) eqn:Hv;
      [|exact Hs].
    cbn [negb snd].
    destruct (validateConfig_sound parsed Hv) as (Hurl & Hint & Hauth & Hret).
    destruct Hs as [_ Hh]. split; [|exact Hh].
    unfold withinBounds, ConfigManager.getConfig, ConfigManager.withConfig,
      ConfigManager.fromParsed, ConfigManager.authorsIn.
    cbn [webhookUrl pollingInterval maxRetries authors ConfigManager.config
         ConfigManager.cWebhookUrl ConfigManager.cPollingInterval
         ConfigManager.cAuthors ConfigManager.cMaxRetries
         ConfigManager.defaultAuthors ConfigManager.DEFAULT_CONFIG].
    repeat split.
    + destruct (json_prop "webhookUrl" parsed) as [v|]; [|left; reflexivity].
      destruct (Hurl v eq_refl) as (url & -> & Hu). right. exact Hu.
    + destruct (json_prop "pollingInterval" parsed) as [v|]; [|lia].
      destruct (Hint v eq_refl) as (n & -> & Hn). lia.
    + destruct (json_prop "pollingInterval" parsed) as [v|]; [|lia].
      destruct (Hint v eq_refl) as (n & -> & Hn). lia.
    + destruct (json_prop "maxRetries" parsed) as [v|]; [|lia].
      destruct (Hret v eq_refl) as (n & -> & Hn). lia.
    + destruct (json_prop "authors" parsed) as [v|]; [|exact Hh].
      destruct (Hauth v eq_refl) as (items & -> & Hi).
      apply Forall_forall. intros a Ha. apply in_map_iff in Ha.
      destruct Ha as (j & <- & Hj). rewrite Forall_forall in Hi.
      destruct (Hi j Hj) as (a & -> & Hacc). exact Hacc.
Qed.

Lemma storeWithinBounds_op :
  forall op s,
    storeWithinBounds URL_protocol s ->
    storeWithinBounds URL_protocol (snd (configOp URL_protocol op s)).
Proof.
  intros op s Hs. destruct op as [d| |fault given|fault u|fault u|fault url|fault n];
    cbn [configOp].
  - apply storeWithinBounds_defaults, Hs.
  - pose proof (storeWithinBounds_load s Hs) as H.
    destruct (ConfigManager.load URL_protocol s) as [[c|e] s']; exact H.
  - destruct given as [c|]; [|apply storeWithinBounds_save_current, Hs].
    unfold ConfigManager.save.
    destruct (ConfigManager.valid
                (ConfigManager.validateConfig URL_protocol
                   (ConfigManager.toJSON s c))) eqn:Hv; [|exact Hs].
    apply validateConfig_toJSON in Hv. destruct Hv as (Hu & Hi & Ha & Hr).
    assert (Hc : storeWithinBounds URL_protocol (ConfigManager.withConfig c s)).
    { destruct Hs as [_ Hh]. split; [|exact Hh].
      unfold withinBounds. cbn. repeat split; try lia; try assumption.
      right. exact Hu. }
    cbn [negb]. destruct fault; exact Hc.
  - destruct (addAuthor_run fault u s) as (Hrej & Hthere & Hnew).
    destruct (ConfigManager.valid (ConfigManager.validateUsername (JStr u)))
      eqn:Hv.
    + destruct (in_dec string_dec (trim u) (ConfigManager.getAuthors s))
        as [Hin|Hnot].
      * rewrite (Hthere Hv Hin). exact Hs.
      * rewrite (Hnew Hv Hnot).
        apply storeWithinBounds_save_current, storeWithinBounds_setAuthors;
          [|exact Hs].
        apply Forall_app. split.
        -- destruct Hs as [(_ & _ & _ & Ha) _]. exact Ha.
        -- constructor; [|constructor]. apply acceptedName_trim, Hv.
    + destruct Hrej as (e & He);
        [unfold acceptedName; rewrite Hv; discriminate|].
      rewrite He. exact Hs.
  - destruct (removeAuthor_run fault u s) as (Habsent & Hthere).
    destruct (in_dec string_dec (trim u) (ConfigManager.getAuthors s))
      as [Hin|Hnot]; [|rewrite (Habsent Hnot); exact Hs].
    destruct (in_split_first _ _ Hin) as (l1 & l2 & Hl & Hfirst).
    rewrite (Hthere l1 l2 Hl Hfirst).
    apply storeWithinBounds_save_current, storeWithinBounds_setAuthors;
      [|exact Hs].
    destruct Hs as [(_ & _ & _ & Ha) _].
    rewrite <- getAuthors_getConfig, Hl in Ha.
    apply Forall_app in Ha. destruct Ha as [H1 H2].
    inversion H2; subst. apply Forall_app. split; assumption.
  - unfold ConfigManager.setWebhookUrl.
    destruct (ConfigManager.valid
                (ConfigManager.validateUrl URL_protocol (JStr url))) eqn:Hv;
      [|exact Hs].
    cbn [negb]. apply storeWithinBounds_save_current.
    destruct Hs as [(_ & Hi & Hr & Ha) Hh]. split; [|exact Hh].
    unfold withinBounds. cbn. repeat split; try assumption; try tauto.
    right. apply acceptedUrl_trim, Hv.
  - unfold ConfigManager.setPollingInterval.
    destruct (ConfigManager.valid
                (ConfigManager.validatePollingInterval (JNum n))) eqn:Hv;
      [|exact Hs].
    cbn [negb]. apply storeWithinBounds_save_current.
    apply validatePollingInterval_valid in Hv.
    destruct Hs as [(Hu & _ & Hr & Ha) Hh]. split; [|exact Hh].
    unfold withinBounds. cbn. repeat split; try assumption; lia.
Qed.

Lemma storeWithinBounds_ops :
  forall ops s,
    storeWithinBounds URL_protocol s ->
    storeWithinBounds URL_protocol (configOps URL_protocol ops s).
Proof.
  induction ops as [|op ops IH]; intros s Hs; [exact Hs|].
  cbn [configOps fold_left]. apply IH, storeWithinBounds_op, Hs.
Qed.

(** X18.  The configuration stays within its bounds.  Take a process
    that has just loaded the module, and any calls of [new
    ConfigManager], [load], [save], [addAuthor], [removeAuthor],
    [setWebhookUrl] and [setPollingInterval], with any arguments, any
    files and any write failures.  What [getConfig] then returns has a
    polling interval from 60 to 3600, a non-negative [maxRetries],
    authors that [validateUsername] each accepts, and a webhook URL that
    is empty or that [validateUrl] accepts. *)
Theorem configuration_stays_within_bounds :
  forall (d : Disk) (ops : list ConfigOp),
    withinBounds URL_protocol
      (ConfigManager.getConfig
         (configOps URL_protocol ops (ConfigManager.initialStore d))).
Proof.
  intros d ops.
  apply (storeWithinBounds_ops ops (ConfigManager.initialStore d)).
  apply (storeWithinBounds_defaults d (ConfigManager.initialStore d)).
  constructor.
Qed.

(** *** The order of the authors *)

Lemma usernameShape_accepted :
  forall a,
    usernameShape a = true ->
    trim a = a /\ acceptedName a /\ TikTokScraper.isValidUsername a = true.
Proof.
  intros a Ha.
  assert (Hid : trim a = a).
  { apply trim_id, scraperShape_chars, usernameShape_scraperShape, Ha. }
  repeat split.
  - exact Hid.
  - unfold acceptedName. rewrite validateUsername_valid, Hid. exact Ha.
  - rewrite isValidUsername_shape. apply usernameShape_scraperShape, Ha.
Qed.

Lemma inOrder_add :
  forall l u,
    acceptedName u -> ~ In (trim u) l -> inOrder l -> inOrder (l ++ [trim u]).
Proof.
  intros l u Hu Hnot [Hnd Hall]. split.
  - apply NoDup_app; [exact Hnd|repeat constructor; intros []|].
    intros x Hx [<-|[]]. contradiction.
  - apply Forall_app. split; [exact Hall|].
    constructor; [|constructor].
    unfold acceptedName in Hu. rewrite validateUsername_valid in Hu. exact Hu.
Qed.

Lemma inOrder_remove :
  forall l1 x l2, inOrder (l1 ++ x :: l2) -> inOrder (l1 ++ l2).
Proof.
  intros l1 x l2 [Hnd Hall]. split.
  - apply NoDup_remove_1 in Hnd. exact Hnd.
  - apply Forall_app in Hall. destruct Hall as [H1 H2].
    inversion H2; subst. apply Forall_app. split; assumption.
Qed.

Lemma authorsInOrder_ext :
  forall s s',
    ConfigManager.defaultAuthors s' = ConfigManager.defaultAuthors s ->
    ConfigManager.config s' = ConfigManager.config s ->
    authorsInOrder s -> authorsInOrder s'.
Proof.
  intros s s' Hd Hc [Ha Hh]. split.
  - rewrite getAuthors_getConfig, (getConfig_ext s s' Hd Hc). exact Ha.
  - rewrite Hd. exact Hh.
Qed.

Lemma authorsInOrder_save_current :
  forall fault s,
    authorsInOrder s ->
    authorsInOrder (snd (ConfigManager.save URL_protocol fault None s)).
Proof.
  intros fault s H. destruct (save_current fault s) as (Hd & Hc & _).
  exact (authorsInOrder_ext s _ Hd Hc H).
Qed.

Lemma authorsInOrder_setAuthors :
  forall l s,
    inOrder l -> authorsInOrder s ->
    authorsInOrder (ConfigManager.setAuthors l s).
Proof.
  intros l s Hl [Ha Hh]. split.
  - rewrite getAuthors_setAuthors. exact Hl.
  - rewrite defaultAuthors_setAuthors.
    destruct (ConfigManager.cAuthors (ConfigManager.config s)); assumption.
Qed.

Lemma authorsInOrder_op :
  forall op s,
    editsOnly op -> authorsInOrder s ->
    authorsInOrder (snd (configOp URL_protocol op s)).
Proof.
  intros op s Hop Hs.
  destruct op as [d| |fault given|fault u|fault u|fault url|fault n];
    cbn [configOp editsOnly] in *.
  - destruct Hs as [_ Hh]. split; exact Hh.
  - destruct Hop.
  - destruct given; [destruct Hop|]. apply authorsInOrder_save_current, Hs.
  - destruct (addAuthor_run fault u s) as (Hrej & Hthere & Hnew).
    destruct (ConfigManager.valid (ConfigManager.validateUsername (JStr u)))
      eqn:Hv.
    + destruct (in_dec string_dec (trim u) (ConfigManager.getAuthors s))
        as [Hin|Hnot].
      * rewrite (Hthere Hv Hin). exact Hs.
      * rewrite (Hnew Hv Hnot).
        apply authorsInOrder_save_current, authorsInOrder_setAuthors;
          [|exact Hs].
        apply inOrder_add; [exact Hv|exact Hnot|apply Hs].
    + destruct Hrej as (e & He);
        [unfold acceptedName; rewrite Hv; discriminate|].
      rewrite He. exact Hs.
  - destruct (removeAuthor_run fault u s) as (Habsent & Hthere).
    destruct (in_dec string_dec (trim u) (ConfigManager.getAuthors s))
      as [Hin|Hnot]; [|rewrite (Habsent Hnot); exact Hs].
    destruct (in_split_first _ _ Hin) as (l1 & l2 & Hl & Hfirst).
    rewrite (Hthere l1 l2 Hl Hfirst).
    apply authorsInOrder_save_current, authorsInOrder_setAuthors; [|exact Hs].
    apply (inOrder_remove l1 (trim u) l2). rewrite <- Hl. apply Hs.
  - unfold ConfigManager.setWebhookUrl.
    destruct (ConfigManager.valid
                (ConfigManager.validateUrl URL_protocol (JStr url)));
      [|exact Hs].
    cbn [negb]. apply authorsInOrder_save_current.
    destruct Hs as [Ha Hh]. split; assumption.
  - unfold ConfigManager.setPollingInterval.
    destruct (ConfigManager.valid
                (ConfigManager.validatePollingInterval (JNum n)));
      [|exact Hs].
    cbn [negb]. apply authorsInOrder_save_current.
    destruct Hs as [Ha Hh]. split; assumption.
Qed.

(** X19.  The authors stay in order under the manager's own edits.
    Start from a store whose authors are in order: no name twice, every
    name of the accepted shape as it stands (the defaults are so, and so
    is a file the manager wrote from such a store).  After any calls of
    [new ConfigManager], [save()], [addAuthor], [removeAuthor],
    [setWebhookUrl] and [setPollingInterval], with any arguments and any
    write failures, the authors are in order again; so every author
    that [getAuthors] lists is its own trimmed text, is accepted by
    [validateUsername] and is taken by the scraper.  ([load] and [save]
    with a configuration bring in the authors of the file or of the
    caller as they stand, see X17.) *)
Theorem edits_keep_authors_in_order :
  forall (ops : list ConfigOp) (s : ConfigManager.Store),
    authorsInOrder s ->
    Forall editsOnly ops ->
    let s' := configOps URL_protocol ops s in
    authorsInOrder s'
    /\ NoDup (ConfigManager.getAuthors s')
    /\ forall a, In a (ConfigManager.getAuthors s') ->
         trim a = a /\ acceptedName a /\ TikTokScraper.isValidUsername a = true.
Proof.
  intros ops s Hs Hops s'. subst s'.
  assert (H : authorsInOrder (configOps URL_protocol ops s)).
  { revert s Hs. induction Hops as [|op ops Hop Hops IH]; intros s Hs;
      [exact Hs|].
    cbn [configOps fold_left]. apply IH, authorsInOrder_op; assumption. }
  split; [exact H|]. destruct H as [[Hnd Hall] _]. split; [exact Hnd|].
  intros a Ha. rewrite Forall_forall in Hall.
  apply usernameShape_accepted, Hall, Ha.
Qed.

(** X20.  Adding and removing an author.  For a name that
    [validateUsername] accepts, [addAuthor] leaves its trimmed text in
    the list, also when the write fails.  When the trimmed text is
    already listed, the call returns without writing; when it is not,
    the call appends it, and [removeAuthor] of the same name then gives
    back the list as it was.  [removeAuthor] takes out one occurrence,
    the first: a list that names an author twice (a file may) still
    names the author after the call. *)
Theorem addAuthor_then_removeAuthor :
  forall (fault1 fault2 : option JsError) (u : string) (s : ConfigManager.Store),
    acceptedName u ->
    let s1 := snd (ConfigManager.addAuthor URL_protocol fault1 u s) in
    let s2 := snd (ConfigManager.removeAuthor URL_protocol fault2 u s1) in
    In (trim u) (ConfigManager.getAuthors s1)
    /\ (In (trim u) (ConfigManager.getAuthors s) ->
        ConfigManager.addAuthor URL_protocol fault1 u s = (Normal tt, s))
    /\ (~ In (trim u) (ConfigManager.getAuthors s) ->
        ConfigManager.getAuthors s1 = ConfigManager.getAuthors s ++ [trim u]
        /\ ConfigManager.getAuthors s2 = ConfigManager.getAuthors s)
    /\ (forall l1 l2,
          ConfigManager.getAuthors s1 = l1 ++ trim u :: l2 ->
          ~ In (trim u) l1 ->
          ConfigManager.getAuthors s2 = l1 ++ l2).
Proof.
  intros fault1 fault2 u s Hu s1 s2.
  destruct (addAuthor_run fault1 u s) as (_ & Hthere & Hnew).
  assert (Hremove : forall l1 l2,
            ConfigManager.getAuthors s1 = l1 ++ trim u :: l2 ->
            ~ In (trim u) l1 ->
            ConfigManager.getAuthors s2 = l1 ++ l2).
  { intros l1 l2 Hl Hfirst. subst s2.
    destruct (removeAuthor_run fault2 u s1) as (_ & Hrun).
    rewrite (Hrun l1 l2 Hl Hfirst).
    rewrite getAuthors_getConfig, getConfig_save_current,
      <- getAuthors_getConfig.
    apply getAuthors_setAuthors. }
  assert (Hadded : ~ In (trim u) (ConfigManager.getAuthors s) ->
            ConfigManager.getAuthors s1 = ConfigManager.getAuthors s ++ [trim u]).
  { intros Hnot. subst s1. rewrite (Hnew Hu Hnot).
    rewrite getAuthors_getConfig, getConfig_save_current,
      <- getAuthors_getConfig.
    apply getAuthors_setAuthors. }
  repeat split.
  - destruct (in_dec string_dec (trim u) (ConfigManager.getAuthors s))
      as [Hin|Hnot].
    + subst s1. rewrite (Hthere Hu Hin). exact Hin.
    + rewrite (Hadded Hnot). apply in_or_app. right. now left.
  - exact (Hthere Hu).
  - exact (Hadded H).
  - rewrite <- (app_nil_r (ConfigManager.getAuthors s)).
    apply Hremove; [|exact H].
    rewrite (Hadded H). reflexivity.
  - exact Hremove.
Qed.

(** *** Files the manager writes *)

Lemma storeWithinBounds_accepts :
  forall s,
    storeWithinBounds URL_protocol s ->
    ConfigManager.cWebhookUrl (ConfigManager.config s) <> EmptyString ->
    ConfigManager.valid
      (ConfigManager.validateConfig URL_protocol
         (ConfigManager.toJSON s (ConfigManager.config s))) = true.
Proof.
  intros s [(Hu & Hi & Hr & Ha) _] Hne.
  apply validateConfig_toJSON.
  split; [destruct Hu as [Hu|Hu]; [contradiction|exact Hu]|].
  split; [exact Hi|]. split; [exact Ha|exact Hr].
Qed.

Lemma storeWithinBounds_rejects :
  forall s,
    storeWithinBounds URL_protocol s ->
    ConfigManager.cWebhookUrl (ConfigManager.config s) = EmptyString ->
    ConfigManager.validateConfig URL_protocol
      (ConfigManager.toJSON s (ConfigManager.config s))
    = ConfigManager.mkValidation false
        ["webhookUrl: URL must be a non-empty string"%string].
Proof.
  intros s [(_ & Hi & Hr & Ha) _] He.
  unfold ConfigManager.validateConfig, ConfigManager.toJSON.
  cbn [truthy ConfigManager.isObject negb orb].
  change (json_prop "webhookUrl" (JObj _))
    with (Some (JStr (ConfigManager.cWebhookUrl (ConfigManager.config s)))).
  change (json_prop "pollingInterval" (JObj _))
    with (Some (JNum (ConfigManager.cPollingInterval (ConfigManager.config s)))).
  change (json_prop "authors" (JObj _))
    with (Some (JArr (map JStr (ConfigManager.authorsIn s (ConfigManager.config s))))).
  change (json_prop "maxRetries" (JObj _))
    with (Some (JNum (ConfigManager.cMaxRetries (ConfigManager.config s)))).
  rewrite He, validateUrl_empty.
  replace (ConfigManager.pushErrors "pollingInterval: " _) with (@nil string)
    by (symmetry; apply pushErrors_nil;
        [apply validatePollingInterval_rejects
        |apply validatePollingInterval_valid, Hi]).
  replace (ConfigManager.authorErrors 0 _) with (@nil string)
    by (symmetry; apply authorErrors_nil, Forall_forall;
        intros j Hj; apply in_map_iff in Hj; destruct Hj as (a & <- & Hin);
        rewrite Forall_forall in Ha; exact (Ha a Hin)).
  cbn in Hr.
  destruct (Z.ltb_spec (ConfigManager.cMaxRetries (ConfigManager.config s)) 0);
    [lia|reflexivity].
Qed.

(** A call other than [new ConfigManager] leaves the file as it is or
    writes the configuration it leaves. *)
Lemma configOp_file :
  forall op s,
    (forall d, op <> CfgNew d) ->
    let s' := snd (configOp URL_protocol op s) in
    ConfigManager.file s' = ConfigManager.file s
    \/ ConfigManager.file s'
       = FileWith (JSONText (ConfigManager.toJSON s' (ConfigManager.config s'))).
Proof.
  assert (Hsave : forall fault s1 s,
            ConfigManager.file s1 = ConfigManager.file s ->
            let s' := snd (ConfigManager.save URL_protocol fault None s1) in
            ConfigManager.file s' = ConfigManager.file s
            \/ ConfigManager.file s'
               = FileWith (JSONText (ConfigManager.toJSON s' (ConfigManager.config s')))).
  { intros fault s1 s Hf. unfold ConfigManager.save.
    destruct fault; cbn; [left; exact Hf|right; reflexivity]. }
  assert (HsetAuthors : forall l s,
            ConfigManager.file (ConfigManager.setAuthors l s) = ConfigManager.file s).
  { intros l s. unfold ConfigManager.setAuthors.
    destruct (ConfigManager.cAuthors (ConfigManager.config s)); reflexivity. }
  intros op s Hop.
  destruct op as [d| |fault given|fault u|fault u|fault url|fault n];
    cbn [configOp].
  - elim (Hop d). reflexivity.
  - left. unfold ConfigManager.load.
    destruct (ConfigManager.file s) as [e|[raw|parsed]] eqn:Hfile; cbn.
    + destruct (match errCode e with
                | Some code => String.eqb code "ENOENT"
                | None => false
                end); cbn; congruence.
    + congruence.
    + destruct (ConfigManager.valid
                  (ConfigManager.validateConfig URL_protocol parsed));
        cbn; congruence.
  - destruct given as [c|]; [|apply Hsave; reflexivity].
    unfold ConfigManager.save.
    destruct (ConfigManager.valid
                (ConfigManager.validateConfig URL_protocol
                   (ConfigManager.toJSON s c))); cbn [negb];
      [|left; reflexivity].
    destruct fault; cbn; [left; reflexivity|right; reflexivity].
  - unfold ConfigManager.addAuthor.
    destruct (ConfigManager.valid
                (ConfigManager.validateUsername (JStr u))); cbn [negb];
      [|left; reflexivity].
    destruct (ConfigManager.includes (trim u)
                (ConfigManager.authorsIn s (ConfigManager.config s)));
      [left; reflexivity|].
    apply Hsave, HsetAuthors.
  - unfold ConfigManager.removeAuthor.
    destruct (Array_indexOf (trim u)
                (ConfigManager.authorsIn s (ConfigManager.config s)) =? -1);
      [left; reflexivity|].
    apply Hsave, HsetAuthors.
  - unfold ConfigManager.setWebhookUrl.
    destruct (ConfigManager.valid
                (ConfigManager.validateUrl URL_protocol (JStr url)));
      cbn [negb]; [|left; reflexivity].
    apply Hsave. reflexivity.
  - unfold ConfigManager.setPollingInterval.
    destruct (ConfigManager.valid
                (ConfigManager.validatePollingInterval (JNum n)));
      cbn [negb]; [|left; reflexivity].
    apply Hsave. reflexivity.
Qed.

(** X21.  A file written while the webhook URL is empty cannot be
    loaded.  Take any configuration a manager can reach, and any content
    of its file (whatever earlier writes, failed ones included, have left
    there).  A call that returns and leaves the webhook URL empty (it is
    empty by default) either has left the file as it is, or has written
    a file on which [load] throws [Invalid config: webhookUrl: URL must
    be a non-empty string], the stored configuration being unchanged by
    that [load]: [save] writes the empty URL, and [validateConfig]
    refuses it in the file.  So [addAuthor] or [setPollingInterval] on
    the defaults, before a webhook URL is set, leaves a file that the
    next start cannot read. *)
Theorem empty_webhookUrl_is_not_loadable :
  forall (d f : Disk) (ops : list ConfigOp) (op : ConfigOp),
    let s := withFile f
               (configOps URL_protocol ops (ConfigManager.initialStore d)) in
    let s' := snd (configOp URL_protocol op s) in
    (forall d', op <> CfgNew d') ->
    fst (configOp URL_protocol op s) = Normal tt ->
    webhookUrl (ConfigManager.getConfig s') = EmptyString ->
    ConfigManager.file s' = ConfigManager.file s
    \/ (ConfigManager.file s'
        = FileWith (JSONText (ConfigManager.toJSON s' (ConfigManager.config s')))
        /\ ConfigManager.load URL_protocol s'
           = (Throw (ConfigManager.Error
                       "Invalid config: webhookUrl: URL must be a non-empty string"),
              s')).
Proof.
  intros d f ops op s s' Hop Hreturns Hurl.
  assert (Hs0 : storeWithinBounds URL_protocol
                  (configOps URL_protocol ops (ConfigManager.initialStore d))).
  { apply storeWithinBounds_ops.
    apply (storeWithinBounds_defaults d (ConfigManager.initialStore d)).
    constructor. }
  assert (Hs : storeWithinBounds URL_protocol s).
  { subst s. destruct (configOps URL_protocol ops _); exact Hs0. }
  assert (Hs' : storeWithinBounds URL_protocol s')
    by apply storeWithinBounds_op, Hs.
  destruct (configOp_file op s Hop) as [Hsame|Hwritten];
    [left; exact Hsame|right].
  fold s' in Hwritten. split; [exact Hwritten|].
  unfold ConfigManager.load. rewrite Hwritten.
  rewrite (storeWithinBounds_rejects s' Hs' Hurl). reflexivity.
Qed.

(** X22.  A saved configuration loads back.  In any state a manager
    can reach in which the webhook URL is not empty, [save()] (when the
    write succeeds) followed by [load()] returns, and [getConfig] gives
    the same webhook URL, polling interval, authors and [maxRetries] as
    before; the file is the one [save] wrote, and the authors are then
    in an array of the configuration's own. *)
Theorem saved_configuration_loads_back :
  forall (d : Disk) (ops : list ConfigOp),
    let s := configOps URL_protocol ops (ConfigManager.initialStore d) in
    webhookUrl (ConfigManager.getConfig s) <> EmptyString ->
    let s1 := snd (ConfigManager.save URL_protocol None None s) in
    let s2 := snd (ConfigManager.load URL_protocol s1) in
    fst (ConfigManager.save URL_protocol None None s) = Normal tt
    /\ fst (ConfigManager.load URL_protocol s1) = Normal (ConfigManager.config s2)
    /\ ConfigManager.getConfig s2 = ConfigManager.getConfig s
    /\ ConfigManager.cAuthors (ConfigManager.config s2)
       = ConfigManager.OwnAuthors (ConfigManager.getAuthors s)
    /\ ConfigManager.file s2 = ConfigManager.file s1
    /\ ConfigManager.defaultAuthors s2 = ConfigManager.defaultAuthors s.
Proof.
  intros d ops s Hurl s1 s2.
  assert (Hs : storeWithinBounds URL_protocol s).
  { apply storeWithinBounds_ops.
    apply (storeWithinBounds_defaults d (ConfigManager.initialStore d)).
    constructor. }
  pose proof (storeWithinBounds_accepts s Hs Hurl) as Hv.
  subst s2 s1. unfold ConfigManager.save, ConfigManager.load.
  cbn [snd fst ConfigManager.file ConfigManager.config
       ConfigManager.defaultAuthors].
  change (ConfigManager.toJSON
            (ConfigManager.mkStore (ConfigManager.defaultAuthors s)
               (ConfigManager.config s) _) (ConfigManager.config s))
    with (ConfigManager.toJSON s (ConfigManager.config s)) in *.
  rewrite Hv. cbn [negb fst snd].
  rewrite fromParsed_toJSON.
  repeat split.
Qed.

(** X23.  The default authors are shared.  A manager that has its
    configuration from the defaults (a new one, or one whose [load]
    found no file) holds the array of [DEFAULT_CONFIG] itself.  When
    [addAuthor] adds a name through such a manager, also when its write
    fails, every manager made afterwards in the process lists that
    name from the start, and so does a manager whose [load] finds no
    file; [addAuthor] of the name on the new manager then returns
    without writing, so the new manager's file never names the
    author. *)
Theorem default_authors_are_shared :
  forall (fault : option JsError) (u : string) (d : Disk)
         (s : ConfigManager.Store),
    ConfigManager.cAuthors (ConfigManager.config s) = ConfigManager.DefaultAuthors ->
    acceptedName u ->
    ~ In (trim u) (ConfigManager.getAuthors s) ->
    let s1 := snd (ConfigManager.addAuthor URL_protocol fault u s) in
    let other := ConfigManager.newManager d s1 in
    ConfigManager.getAuthors other = ConfigManager.getAuthors s ++ [trim u]
    /\ ConfigManager.getAuthors
         (snd (ConfigManager.load URL_protocol
                 (ConfigManager.newManager noFile s1)))
       = ConfigManager.getAuthors s ++ [trim u]
    /\ ConfigManager.addAuthor URL_protocol None u other = (Normal tt, other)
    /\ ConfigManager.file other = d.
Proof.
  intros fault u d s Hdefault Hu Hnot s1 other.
  destruct (addAuthor_run fault u s) as (_ & _ & Hnew).
  assert (Hheap : ConfigManager.defaultAuthors s1
                  = ConfigManager.getAuthors s ++ [trim u]).
  { subst s1. rewrite (Hnew Hu Hnot).
    destruct (save_current fault
                (ConfigManager.setAuthors
                   (ConfigManager.getAuthors s ++ [trim u]) s)) as (Hd & _).
    rewrite Hd, defaultAuthors_setAuthors, Hdefault. reflexivity. }
  assert (Hother : ConfigManager.getAuthors other
                   = ConfigManager.getAuthors s ++ [trim u])
    by exact Hheap.
  repeat split.
  - exact Hother.
  - exact Hheap.
  - destruct (addAuthor_run None u other) as (_ & Hthere & _).
    apply (Hthere Hu). rewrite Hother. apply in_or_app. right. now left.
Qed.

End ConfigFacts.

(** The edits of [editsExample] on the defaults. *)
Lemma edits_keep_authors_in_order_witness :
  authorsInOrder (ConfigManager.initialStore noFile)
  /\ Forall editsOnly editsExample
  /\ ConfigManager.getAuthors
       (configOps protocolOf editsExample (ConfigManager.initialStore noFile))
     = ["bob"; "alice.b"]%string
  /\ NoDup (ConfigManager.getAuthors
              (configOps protocolOf editsExample
                 (ConfigManager.initialStore noFile))).
Proof.
  assert (Hs : authorsInOrder (ConfigManager.initialStore noFile)).
  { split; split; constructor. }
  assert (Hops : Forall editsOnly editsExample).
  { repeat constructor. }
  split; [exact Hs|]. split; [exact Hops|]. split; [reflexivity|].
  exact (proj1 (proj2 (edits_keep_authors_in_order protocolOf editsExample
                         (ConfigManager.initialStore noFile) Hs Hops))).
Defined.

(** A name given with spaces around it, and a write that fails. *)
Lemma addAuthor_then_removeAuthor_witness :
  acceptedName " bob "
  /\ In (trim " bob ")
       (ConfigManager.getAuthors
          (snd (ConfigManager.addAuthor protocolOf (Some ENOENT) " bob "
                  storeFromDefaults))).
Proof.
  assert (Hu : acceptedName " bob ") by reflexivity.
  split; [exact Hu|].
  exact (proj1 (addAuthor_then_removeAuthor protocolOf (Some ENOENT) None
                  " bob " storeFromDefaults Hu)).
Defined.

(** The first command of a new installation adds an author. *)
Lemma empty_webhookUrl_is_not_loadable_witness :
  (forall d', CfgAddAuthor None "bob" <> CfgNew d')
  /\ fst (configOp protocolOf (CfgAddAuthor None "bob")
            (withFile noFile
               (configOps protocolOf [CfgLoad]
                  (ConfigManager.initialStore noFile))))
     = Normal tt
  /\ webhookUrl
       (ConfigManager.getConfig
          (snd (configOp protocolOf (CfgAddAuthor None "bob")
                  (withFile noFile
                     (configOps protocolOf [CfgLoad]
                        (ConfigManager.initialStore noFile))))))
     = EmptyString
  /\ ConfigManager.file
       (snd (configOp protocolOf (CfgAddAuthor None "bob")
               (withFile noFile
                  (configOps protocolOf [CfgLoad]
                     (ConfigManager.initialStore noFile)))))
     <> noFile
  /\ (ConfigManager.file
        (snd (configOp protocolOf (CfgAddAuthor None "bob")
                (withFile noFile
                   (configOps protocolOf [CfgLoad]
                      (ConfigManager.initialStore noFile)))))
      = noFile
      \/ (ConfigManager.file
            (snd (configOp protocolOf (CfgAddAuthor None "bob")
                    (withFile noFile
                       (configOps protocolOf [CfgLoad]
                          (ConfigManager.initialStore noFile)))))
          = FileWith
              (JSONText
                 (JObj [ ("webhookUrl", JStr "");
                         ("pollingInterval", JNum 300);
                         ("authors", JArr [JStr "bob"]);
                         ("maxRetries", JNum 3) ]%string))
          /\ ConfigManager.load protocolOf
               (snd (configOp protocolOf (CfgAddAuthor None "bob")
                       (withFile noFile
                          (configOps protocolOf [CfgLoad]
                             (ConfigManager.initialStore noFile)))))
             = (Throw (ConfigManager.Error
                         "Invalid config: webhookUrl: URL must be a non-empty string"),
                snd (configOp protocolOf (CfgAddAuthor None "bob")
                       (withFile noFile
                          (configOps protocolOf [CfgLoad]
                             (ConfigManager.initialStore noFile))))))).
Proof.
  assert (Hop : forall d', CfgAddAuthor None "bob" <> CfgNew d')
    by (intros d'; discriminate).
  split; [exact Hop|]. split; [reflexivity|]. split; [reflexivity|].
  split; [vm_compute; discriminate|].
  exact (empty_webhookUrl_is_not_loadable protocolOf noFile noFile [CfgLoad]
           (CfgAddAuthor None "bob") Hop eq_refl eq_refl).
Defined.

(** The webhook URL is set first. *)
Lemma saved_configuration_loads_back_witness :
  webhookUrl
    (ConfigManager.getConfig
       (configOps protocolOf setUrlThenAdd (ConfigManager.initialStore noFile)))
  = "https://hooks.example/tiktok"%string
  /\ ConfigManager.getConfig
       (snd (ConfigManager.load protocolOf
               (snd (ConfigManager.save protocolOf None None
                       (configOps protocolOf setUrlThenAdd
                          (ConfigManager.initialStore noFile))))))
     = mkConfig "https://hooks.example/tiktok" 300 ["bob"%string] 3.
Proof.
  assert (Hurl : webhookUrl
                   (ConfigManager.getConfig
                      (configOps protocolOf setUrlThenAdd
                         (ConfigManager.initialStore noFile)))
                 <> EmptyString)
    by (vm_compute; discriminate).
  split; [reflexivity|].
  exact (proj1 (proj2 (proj2
           (saved_configuration_loads_back protocolOf noFile setUrlThenAdd Hurl)))).
Defined.

(** The write of the first manager fails; the second manager is new. *)
Lemma default_authors_are_shared_witness :
  ConfigManager.cAuthors (ConfigManager.config storeFromDefaults)
  = ConfigManager.DefaultAuthors
  /\ acceptedName "bob"
  /\ ~ In (trim "bob") (ConfigManager.getAuthors storeFromDefaults)
  /\ ConfigManager.getAuthors
       (ConfigManager.newManager noFile
          (snd (ConfigManager.addAuthor protocolOf (Some ENOENT) "bob"
                  storeFromDefaults)))
     = ["bob"%string].
Proof.
  assert (Hu : acceptedName "bob") by reflexivity.
  assert (Hnot : ~ In (trim "bob") (ConfigManager.getAuthors storeFromDefaults))
    by (intros H; exact H).
  split; [reflexivity|]. split; [exact Hu|]. split; [exact Hnot|].
  exact (proj1 (default_authors_are_shared protocolOf (Some ENOENT) "bob" noFile
                  storeFromDefaults eq_refl Hu Hnot)).
Defined.

(* ================================================================= *)
(** ** The authors routes *)

Section AuthorsRouteFacts.

Variable URL_protocol : string -> option string.

Lemma file_setAuthors :
  forall l s,
    ConfigManager.file (ConfigManager.setAuthors l s) = ConfigManager.file s.
Proof.
  intros l s. unfold ConfigManager.setAuthors.
  destruct (ConfigManager.cAuthors (ConfigManager.config s)); reflexivity.
Qed.

Lemma acceptedName_not_empty : forall u, acceptedName u -> u <> EmptyString.
Proof. intros u H ->. discriminate H. Qed.

(** [POST /] for a name that [validateUsername] accepts. *)
Lemma post_accepted :
  forall fault u s,
    acceptedName u ->
    AuthorsRoute.addNamed URL_protocol fault (Some (JStr u)) s
    = if ConfigManager.includes (trim u) (ConfigManager.getAuthors s)
      then (AuthorsRoute.Failure 409 AuthorsRoute.AUTHOR_EXISTS
              ("Author '" ++ trim u ++ "' is already being monitored"), s)
      else
        match ConfigManager.save URL_protocol fault None
                (ConfigManager.setAuthors
                   (ConfigManager.getAuthors s ++ [trim u]) s) with
        | (Normal _, s') =>
            (AuthorsRoute.Success 201 (trim u)
               ("Author '" ++ trim u ++ "' added to monitoring list"), s')
        | (Throw error, s') =>
            (AuthorsRoute.Failure 500 AuthorsRoute.INTERNAL_ERROR
               (errMessage error), s')
        end.
Proof.
  intros fault u s Hu. unfold AuthorsRoute.addNamed.
  destruct (String.eqb_spec u "") as [->|_]; [discriminate Hu|].
  unfold acceptedName in Hu. rewrite Hu. cbn [negb].
  destruct (ConfigManager.includes (trim u) (ConfigManager.getAuthors s))
    eqn:Hin; [reflexivity|].
  destruct (addAuthor_run URL_protocol fault (trim u) s) as (_ & _ & Hnew).
  rewrite Hnew.
  - rewrite trim_idempotent. reflexivity.
  - apply acceptedName_trim, Hu.
  - rewrite trim_idempotent. intros H. apply includes_In in H. congruence.
Qed.

Lemma post_refused :
  forall fault username s,
    (forall u, username = Some (JStr u) -> ~ acceptedName u) ->
    exists message,
      AuthorsRoute.addNamed URL_protocol fault username s
      = (AuthorsRoute.Failure 400 AuthorsRoute.INVALID_USERNAME message, s).
Proof.
  intros fault username s Hnot. unfold AuthorsRoute.addNamed.
  destruct username as [[| | |u| |]|]; try (eexists; reflexivity).
  destruct (String.eqb u ""); [eexists; reflexivity|].
  destruct (ConfigManager.valid (ConfigManager.validateUsername (JStr u)))
    eqn:Hv; [|eexists; reflexivity].
  elim (Hnot u eq_refl). exact Hv.
Qed.

Lemma json_eq_null (j : json) : j = JNull \/ j <> JNull.
Proof. destruct j; [now left|right; discriminate..]. Qed.

(** [POST /] on a body that is an object, an array, a string, a number
    or a boolean. *)
Lemma post_body :
  forall fault b s,
    b <> JNull ->
    AuthorsRoute.post URL_protocol fault (Some b) s
    = AuthorsRoute.addNamed URL_protocol fault (json_prop "username" b) s.
Proof. intros fault b s Hb. destruct b; [contradiction|reflexivity..]. Qed.

(** X24.  What [POST /api/v1/authors] answers, and what it leaves.
    The answer is 201 only when the body names a string that
    [validateUsername] accepts, whose trimmed text was not listed, and
    the write succeeded: the trimmed text is then the last of the
    authors, and the file holds the configuration.  It is 400 when the
    body is there and its name is not an accepted string, and 409 when
    the trimmed text is listed; both leave everything as it was.  It is
    500 in two cases.  One is a request without a body ([req.body] is
    [undefined], or [null]): reading the name throws, and nothing is
    changed.  The other is a write that fails: the author is listed in
    memory all the same, so that the same request, sent again, is
    answered 409, whatever the failed write has left of the file. *)
Theorem post_author_outcomes :
  forall (fault : option JsError) (body : option json)
         (s : ConfigManager.Store),
    let r := fst (AuthorsRoute.post URL_protocol fault body s) in
    let s' := snd (AuthorsRoute.post URL_protocol fault body s) in
    let named (u : string) : Prop :=
      exists b, body = Some b /\ json_prop "username" b = Some (JStr u) in
    match r with
    | AuthorsRoute.Success status name _ =>
        status = 201 /\ fault = None
        /\ (exists u, named u /\ acceptedName u /\ name = trim u)
        /\ ~ In name (ConfigManager.getAuthors s)
        /\ ConfigManager.getAuthors s' = ConfigManager.getAuthors s ++ [name]
        /\ ConfigManager.file s'
           = FileWith (JSONText (ConfigManager.toJSON s' (ConfigManager.config s')))
    | AuthorsRoute.Failure status code _ =>
        (status = 400 /\ code = AuthorsRoute.INVALID_USERNAME /\ s' = s
         /\ (exists b, body = Some b /\ b <> JNull)
         /\ forall u, named u -> ~ acceptedName u)
        \/ (status = 409 /\ code = AuthorsRoute.AUTHOR_EXISTS /\ s' = s
            /\ exists u, named u /\ acceptedName u
                         /\ In (trim u) (ConfigManager.getAuthors s))
        \/ (status = 500 /\ code = AuthorsRoute.INTERNAL_ERROR
            /\ (body = None \/ body = Some JNull) /\ s' = s)
        \/ (status = 500 /\ code = AuthorsRoute.INTERNAL_ERROR
            /\ fault <> None
            /\ exists u, named u /\ acceptedName u
                 /\ ~ In (trim u) (ConfigManager.getAuthors s)
                 /\ ConfigManager.getAuthors s'
                    = ConfigManager.getAuthors s ++ [trim u]
                 /\ forall (fault' : option JsError) (left : Disk),
                      fst (AuthorsRoute.post URL_protocol fault' body
                             (withFile left s'))
                      = AuthorsRoute.Failure 409 AuthorsRoute.AUTHOR_EXISTS
                          ("Author '" ++ trim u
                           ++ "' is already being monitored"))
    end.
Proof.
  intros fault body s.
  destruct body as [b|]; [|cbn; right; right; left; repeat split; now left].
  destruct (json_eq_null b) as [->|Hb];
    [cbn; right; right; left; repeat split; now right|].
  rewrite (post_body fault b s Hb).
  set (username := json_prop "username" b).
  assert (Hcases : (forall u, username = Some (JStr u) -> ~ acceptedName u)
                   \/ exists u, username = Some (JStr u) /\ acceptedName u).
  { destruct username as [[| | |u| |]|];
      try (left; intros u Hu; discriminate Hu).
    destruct (ConfigManager.valid (ConfigManager.validateUsername (JStr u)))
      eqn:Hv.
    - right. exists u. split; [reflexivity|exact Hv].
    - left. intros u' Hu'. injection Hu' as <-.
      unfold acceptedName. rewrite Hv. discriminate. }
  destruct Hcases as [Hnot|(u & Hname & Hu)].
  - destruct (post_refused fault username s Hnot) as (message & ->).
    cbn. left. repeat split; [exists b; split; [reflexivity|exact Hb]|].
    intros u (b' & Hb' & Hu'). injection Hb' as <-. now apply Hnot.
  - assert (Hnamed : exists b', Some b = Some b'
                                /\ json_prop "username" b' = Some (JStr u))
      by (exists b; split; [reflexivity|exact Hname]).
    rewrite Hname.
    rewrite (post_accepted fault u s Hu).
    destruct (ConfigManager.includes (trim u) (ConfigManager.getAuthors s))
      eqn:Hin.
    + cbn. right. left. repeat split. exists u.
      split; [exact Hnamed|]. split; [exact Hu|].
      apply includes_In, Hin.
    + assert (Hnotin : ~ In (trim u) (ConfigManager.getAuthors s)).
      { intros H. apply includes_In in H. congruence. }
      set (s1 := ConfigManager.setAuthors
                   (ConfigManager.getAuthors s ++ [trim u]) s).
      assert (Hs1 : ConfigManager.getAuthors s1
                    = ConfigManager.getAuthors s ++ [trim u])
        by apply getAuthors_setAuthors.
      destruct fault as [e|]; unfold ConfigManager.save;
        cbn [fst snd]; fold s1.
      * right. right. right.
        split; [reflexivity|]. split; [reflexivity|].
        split; [discriminate|].
        exists u. split; [exact Hnamed|]. split; [exact Hu|].
        split; [exact Hnotin|]. split; [exact Hs1|].
        intros fault' left.
        rewrite (post_body fault' b _ Hb). fold username. rewrite Hname.
        rewrite (post_accepted fault' u (withFile left s1) Hu).
        replace (ConfigManager.includes (trim u)
                   (ConfigManager.getAuthors (withFile left s1)))
          with true; [reflexivity|].
        symmetry. apply includes_In.
        change (ConfigManager.getAuthors (withFile left s1))
          with (ConfigManager.getAuthors s1).
        rewrite Hs1. apply in_or_app. right. now left.
      * split; [reflexivity|]. split; [reflexivity|].
        split; [exists u; split; [exact Hnamed|]; split; [exact Hu|reflexivity]|].
        split; [exact Hnotin|]. split; [exact Hs1|reflexivity].
Qed.

(** A name with white space around it is never the one that
    [removeAuthor] takes out. *)
Lemma untrimmed_op :
  forall op s a,
    editsInPlace op ->
    trim a <> a ->
    In a (ConfigManager.getAuthors s) ->
    In a (ConfigManager.getAuthors (snd (configOp URL_protocol op s))).
Proof.
  intros op s a Hop Ha Hin.
  assert (Hsave : forall fault s1,
            In a (ConfigManager.getAuthors s1) ->
            In a (ConfigManager.getAuthors
                    (snd (ConfigManager.save URL_protocol fault None s1)))).
  { intros fault s1 H.
    rewrite getAuthors_getConfig, getConfig_save_current,
      <- getAuthors_getConfig. exact H. }
  destruct op as [d| |fault given|fault u|fault u|fault url|fault n];
    cbn [configOp editsInPlace] in *; try contradiction.
  - destruct given; [contradiction|]. apply Hsave, Hin.
  - destruct (addAuthor_run URL_protocol fault u s) as (Hrej & Hthere & Hnew).
    destruct (ConfigManager.valid (ConfigManager.validateUsername (JStr u)))
      eqn:Hv.
    + destruct (in_dec string_dec (trim u) (ConfigManager.getAuthors s))
        as [Hi|Hni].
      * rewrite (Hthere Hv Hi). exact Hin.
      * rewrite (Hnew Hv Hni). apply Hsave.
        rewrite getAuthors_setAuthors. apply in_or_app. now left.
    + destruct Hrej as (e & He);
        [unfold acceptedName; rewrite Hv; discriminate|].
      rewrite He. exact Hin.
  - destruct (removeAuthor_run URL_protocol fault u s) as (Habsent & Hthere).
    destruct (in_dec string_dec (trim u) (ConfigManager.getAuthors s))
      as [Hi|Hni]; [|rewrite (Habsent Hni); exact Hin].
    destruct (in_split_first _ _ Hi) as (l1 & l2 & Hl & Hfirst).
    rewrite (Hthere l1 l2 Hl Hfirst). apply Hsave.
    rewrite getAuthors_setAuthors. rewrite Hl in Hin.
    apply in_app_or in Hin. apply in_or_app.
    destruct Hin as [H|[H|H]]; [now left| |now right].
    elim Ha. rewrite <- H. apply trim_idempotent.
  - unfold ConfigManager.setWebhookUrl.
    destruct (ConfigManager.valid
                (ConfigManager.validateUrl URL_protocol (JStr url)));
      [|exact Hin].
    cbn [negb]. apply Hsave. exact Hin.
  - unfold ConfigManager.setPollingInterval.
    destruct (ConfigManager.valid
                (ConfigManager.validatePollingInterval (JNum n)));
      [|exact Hin].
    cbn [negb]. apply Hsave. exact Hin.
Qed.

(** X25.  An author with white space around the name cannot be taken
    out.  Such a name comes in with a file ([validateConfig] accepts a
    name when its trimmed text is accepted, and [load] stores it as it
    stands).  The scraper refuses it at every poll; and it stays in the
    list whatever [addAuthor], [removeAuthor], [setWebhookUrl],
    [setPollingInterval] and [save()] are called on the manager, and
    through [DELETE /api/v1/authors/:username] for that very name:
    [removeAuthor] looks for the trimmed text of its argument. *)
Theorem untrimmed_author_stays :
  forall (ops : list ConfigOp) (s : ConfigManager.Store) (a : string)
         (fault : option JsError),
    In a (ConfigManager.getAuthors s) ->
    trim a <> a ->
    Forall editsInPlace ops ->
    let s' := configOps URL_protocol ops s in
    In a (ConfigManager.getAuthors s')
    /\ In a (ConfigManager.getAuthors
               (snd (AuthorsRoute.delete URL_protocol fault a s')))
    /\ TikTokScraper.isValidUsername a = false.
Proof.
  intros ops s a fault Hin Ha Hops s'. subst s'.
  assert (Hstay : In a (ConfigManager.getAuthors (configOps URL_protocol ops s))).
  { revert s Hin. induction Hops as [|op ops Hop Hops IH]; intros s Hin;
      [exact Hin|].
    cbn [configOps fold_left]. apply IH, untrimmed_op; assumption. }
  split; [exact Hstay|]. split.
  - unfold AuthorsRoute.delete.
    destruct (ConfigManager.includes a
                (ConfigManager.getAuthors (configOps URL_protocol ops s)));
      cbn [negb]; [|exact Hstay].
    pose proof (untrimmed_op (CfgRemoveAuthor fault a) _ a I Ha Hstay) as H.
    cbn [configOp] in H.
    destruct (ConfigManager.removeAuthor URL_protocol fault a
                (configOps URL_protocol ops s)) as [[u|e] s1]; exact H.
  - destruct (TikTokScraper.isValidUsername a) eqn:Hv; [|reflexivity].
    elim Ha. rewrite isValidUsername_shape in Hv.
    apply trim_id, scraperShape_chars, Hv.
Qed.

End AuthorsRouteFacts.

(* ================================================================= *)
(** ** Starting and stopping the scheduler *)

Lemma oneTimer_start :
  forall p w, oneTimer w -> oneTimer (Control.start p w).
Proof.
  intros p [[r i c] [a m] evs]. unfold oneTimer, Control.start, Control.isRunning.
  cbn. destruct r; cbn; [trivial|].
  intros [-> ->]. exists m. split; reflexivity.
Qed.

Lemma oneTimer_stop : forall w, oneTimer w -> oneTimer (Control.stop w).
Proof.
  intros [[r i c] [a m] evs]. unfold oneTimer, Control.stop, Control.isRunning.
  cbn. destruct r; cbn; [|trivial].
  intros (id & -> & ->). cbn. rewrite Nat.eqb_refl. cbn. split; reflexivity.
Qed.

Lemma oneTimer_setInterval :
  forall n w, oneTimer w -> oneTimer (Control.setInterval n w).
Proof.
  intros n [[r i c] [a m] evs].
  unfold oneTimer, Control.setInterval, Control.isRunning.
  cbn. destruct r; cbn; [|trivial].
  intros (id & -> & ->). cbn. rewrite Nat.eqb_refl. cbn.
  exists m. split; reflexivity.
Qed.

Lemma oneTimer_op : forall op w, oneTimer w -> oneTimer (controlOp op w).
Proof.
  intros op w Hw. destruct op as [p| |n|p|]; cbn [controlOp].
  - apply oneTimer_start, Hw.
  - apply oneTimer_stop, Hw.
  - apply oneTimer_setInterval, Hw.
  - unfold Control.postStart. cbn [snd].
    destruct (Control.isRunning w); cbn [negb];
      [exact Hw|apply oneTimer_start, Hw].
  - unfold Control.postStop. cbn [snd].
    destruct (Control.isRunning w); [apply oneTimer_stop, Hw|exact Hw].
Qed.

Lemma pollsBegun_app :
  forall l1 l2, pollsBegun (l1 ++ l2) = (pollsBegun l1 + pollsBegun l2)%nat.
Proof.
  intros l1 l2. unfold pollsBegun. now rewrite filter_app, length_app.
Qed.

Lemma startsLogged_app :
  forall l1 l2, startsLogged (l1 ++ l2) = (startsLogged l1 + startsLogged l2)%nat.
Proof.
  intros l1 l2. unfold startsLogged. now rewrite filter_app, length_app.
Qed.

Lemma pollsFollowStarts_start :
  forall p w, pollsFollowStarts w -> pollsFollowStarts (Control.start p w).
Proof.
  intros p [[r i c] [a m] evs].
  unfold pollsFollowStarts, Control.start.
  cbn -[pollsBegun startsLogged]. intros H.
  destruct r; cbn -[pollsBegun startsLogged];
    rewrite ?pollsBegun_app, ?startsLogged_app, H; cbn; lia.
Qed.

Lemma pollsFollowStarts_stop :
  forall w, pollsFollowStarts w -> pollsFollowStarts (Control.stop w).
Proof.
  intros [[r i c] [a m] evs].
  unfold pollsFollowStarts, Control.stop, Control.clearTimer.
  cbn -[pollsBegun startsLogged]. intros H.
  destruct r; [destruct i|]; cbn -[pollsBegun startsLogged];
    rewrite ?pollsBegun_app, ?startsLogged_app, H; cbn; lia.
Qed.

Lemma pollsFollowStarts_setInterval :
  forall n w, pollsFollowStarts w -> pollsFollowStarts (Control.setInterval n w).
Proof.
  intros n [[r i c] [a m] evs].
  unfold pollsFollowStarts, Control.setInterval, Control.clearTimer.
  cbn -[pollsBegun startsLogged]. intros H.
  destruct r; [destruct i|]; cbn -[pollsBegun startsLogged];
    rewrite ?pollsBegun_app, ?startsLogged_app, ?H; cbn; lia.
Qed.

Lemma pollsFollowStarts_op :
  forall op w, pollsFollowStarts w -> pollsFollowStarts (controlOp op w).
Proof.
  intros op w Hw. destruct op as [p| |n|p|]; cbn [controlOp].
  - apply pollsFollowStarts_start, Hw.
  - apply pollsFollowStarts_stop, Hw.
  - apply pollsFollowStarts_setInterval, Hw.
  - unfold Control.postStart. cbn [snd].
    destruct (Control.isRunning w); cbn [negb];
      [exact Hw|apply pollsFollowStarts_start, Hw].
  - unfold Control.postStop. cbn [snd].
    destruct (Control.isRunning w); [apply pollsFollowStarts_stop, Hw|exact Hw].
Qed.

(** X26.  The scheduler holds one timer while it runs, and none
    otherwise.  After any calls of [start], [stop] and [setInterval]
    and any requests to the monitor routes, on a new scheduler: when
    [isRunning()] is true, exactly one interval timer is armed, it is
    the one in [intervalId], and its delay is [getInterval() * 1000]
    milliseconds; when it is false, no timer is armed.  A poll cycle is
    begun by these calls only at a [start] that finds the scheduler
    stopped, once ([setInterval] begins none).  And an interval set
    while the scheduler is stopped is forgotten: the next [start] takes
    the interval of the configuration. *)
Theorem scheduler_holds_one_timer :
  forall (ops : list ControlOp),
    let w := controlOps ops Control.initial in
    (if Control.isRunning w
     then exists id,
            Control.intervalId (Control.scheduler w) = Some id
            /\ Control.armed (Control.timers w)
               = [(id, Control.getInterval w * 1000)]
     else Control.intervalId (Control.scheduler w) = None
          /\ Control.armed (Control.timers w) = [])
    /\ pollsBegun (Control.events w) = startsLogged (Control.events w)
    /\ (Control.isRunning w = false ->
        forall seconds pollingInterval,
          Control.getInterval
            (Control.start pollingInterval (Control.setInterval seconds w))
          = pollingInterval).
Proof.
  intros ops w.
  assert (H : oneTimer w /\ pollsFollowStarts w).
  { subst w. generalize Control.initial,
      (conj (conj eq_refl eq_refl : oneTimer Control.initial)
            (eq_refl : pollsFollowStarts Control.initial)).
    induction ops as [|op ops IH]; intros w [H1 H2]; [split; assumption|].
    cbn [controlOps fold_left]. apply IH.
    split; [apply oneTimer_op, H1|apply pollsFollowStarts_op, H2]. }
  destruct H as [H1 H2]. split; [exact H1|]. split; [exact H2|].
  intros Hstopped seconds p.
  destruct w as [[r i c] [a m] evs]. cbn in Hstopped. subst r. reflexivity.
Qed.

(* ================================================================= *)
(** ** The log buffer *)

Section LoggerFacts.

Variable Meta : Type.

Lemma shiftWhileOver_lastN :
  forall l : list (Logger.LogEntry Meta),
    Logger.shiftWhileOver l = lastN 100 l.
Proof.
  unfold lastN. induction l as [|x l IH]; [reflexivity|].
  cbn [Logger.shiftWhileOver].
  destruct (Nat.ltb_spec Logger.MAX_LOG_ENTRIES (List.length (x :: l)))
    as [Hover|Hfits]; unfold Logger.MAX_LOG_ENTRIES in *;
    cbn [List.length] in *.
  - rewrite IH.
    replace (S (List.length l) - 100)%nat with (S (List.length l - 100)) by lia.
    reflexivity.
  - replace (S (List.length l) - 100)%nat with 0%nat by lia. reflexivity.
Qed.

Lemma lastN_length :
  forall (n : nat) (l : list (Logger.LogEntry Meta)),
    (List.length (lastN n l) <= n)%nat.
Proof. intros n l. unfold lastN. rewrite length_skipn. lia. Qed.

Lemma lastN_snoc :
  forall (n : nat) (l : list (Logger.LogEntry Meta)) (e : Logger.LogEntry Meta),
    (1 <= n)%nat ->
    lastN n (lastN n l ++ [e]) = lastN n (l ++ [e]).
Proof.
  intros n l e Hn. unfold lastN.
  rewrite !length_app, length_skipn. cbn [List.length].
  destruct (Nat.le_gt_cases (List.length l) n) as [Hfits|Hover].
  - replace (List.length l - n)%nat with 0%nat by lia.
    rewrite Nat.sub_0_r. reflexivity.
  - replace (List.length l - (List.length l - n) + 1 - n)%nat with 1%nat by lia.
    rewrite !skipn_app, !length_skipn.
    replace (1 - (List.length l - (List.length l - n)))%nat with 0%nat by lia.
    replace (List.length l + 1 - n - List.length l)%nat with 0%nat by lia.
    rewrite skipn_skipn.
    replace (1 + (List.length l - n))%nat with (List.length l + 1 - n)%nat by lia.
    reflexivity.
Qed.

Lemma entries_loggerOps :
  forall (ops : list (LoggerOp Meta)) (s : Logger.t Meta)
         (before : list (Logger.LogEntry Meta)),
    Logger.entries s = lastN 100 before ->
    Logger.entries (loggerOps ops s) = lastN 100 (loggedSince ops before).
Proof.
  induction ops as [|op ops IH]; intros s before Hs; [exact Hs|].
  cbn [loggerOps loggedSince fold_left].
  apply IH.
  destruct op as [now lvl msg m| |listener|listener]; cbn.
  - rewrite shiftWhileOver_lastN, Hs. apply lastN_snoc. lia.
  - reflexivity.
  - unfold Logger.subscribe.
    destruct (existsb (Nat.eqb listener) (Logger.listeners s)); exact Hs.
  - exact Hs.
Qed.

(** X27.  The log buffer holds the last hundred entries.  After any
    calls of [info], [warn], [error], [clear], [subscribe] and
    unsubscribe on a new logger, the buffer holds the last 100 of the
    entries logged since the last [clear], oldest first, so never more
    than 100.  [GET /api/v1/logs] answers 400 for a level that is none
    of [info], [warn] and [error]; otherwise it sends these entries,
    or those of them that have the level asked for: the filter is
    applied to the last 100 entries of all levels. *)
Theorem log_buffer_keeps_the_last_hundred :
  forall (ops : list (LoggerOp Meta)) (levelParam : option string),
    let s := loggerOps ops (Logger.empty Meta) in
    let recent := lastN 100 (loggedSince ops []) in
    Logger.entries s = recent
    /\ (Logger.getCount s <= 100)%nat
    /\ Logger.get levelParam s
       = match levelParam with
         | None => Logger.Ok recent
         | Some text =>
             match Logger.levelOfName text with
             | Some l =>
                 Logger.Ok
                   (filter (fun e => Logger.LogLevel_eqb (Logger.level e) l)
                      recent)
             | None =>
                 Logger.BadRequest Meta
                   "Invalid log level. Must be one of: info, warn, error"
             end
         end.
Proof.
  intros ops levelParam s recent.
  assert (Hs : Logger.entries s = recent).
  { apply entries_loggerOps. reflexivity. }
  split; [exact Hs|]. split.
  - unfold Logger.getCount. rewrite Hs. apply lastN_length.
  - unfold Logger.get, Logger.getEntries. rewrite Hs.
    destruct levelParam as [text|]; [|reflexivity].
    destruct (Logger.levelOfName text); reflexivity.
Qed.

End LoggerFacts.

(** The author of [fileWithSpaces]: loaded, refused by the scraper, and
    still there after the attempts to remove it. *)
Lemma untrimmed_author_stays_witness :
  In " bob "%string (ConfigManager.getAuthors storeWithSpaces)
  /\ trim " bob " <> " bob "%string
  /\ Forall editsInPlace removeThenAdd
  /\ ConfigManager.getAuthors (configOps protocolOf removeThenAdd storeWithSpaces)
     = [" bob "; "amy"]%string
  /\ fst (AuthorsRoute.delete protocolOf None " bob "
            (configOps protocolOf removeThenAdd storeWithSpaces))
     = AuthorsRoute.Success 200 " bob "
         "Author ' bob ' removed from monitoring list"
  /\ In " bob "%string
       (ConfigManager.getAuthors
          (snd (AuthorsRoute.delete protocolOf None " bob "
                  (configOps protocolOf removeThenAdd storeWithSpaces)))).
Proof.
  assert (Hin : In " bob "%string (ConfigManager.getAuthors storeWithSpaces))
    by (left; reflexivity).
  assert (Ha : trim " bob " <> " bob "%string)
    by (vm_compute; discriminate).
  assert (Hops : Forall editsInPlace removeThenAdd)
    by (repeat constructor).
  split; [exact Hin|]. split; [exact Ha|]. split; [exact Hops|].
  split; [reflexivity|]. split; [reflexivity|].
  exact (proj1 (proj2 (untrimmed_author_stays protocolOf removeThenAdd
                         storeWithSpaces " bob " None Hin Ha Hops))).
Defined.

(* ================================================================= *)
(** ** The configuration routes *)

Section ConfigRouteFacts.

Variable URL_protocol : string -> option string.

Lemma setWebhookUrl_run :
  forall fault url s,
    acceptedUrl URL_protocol url ->
    ConfigManager.setWebhookUrl URL_protocol fault url s
    = ConfigManager.save URL_protocol fault None
        (ConfigManager.withConfig
           (ConfigManager.mkConfigObject (trim url)
              (ConfigManager.cPollingInterval (ConfigManager.config s))
              (ConfigManager.cAuthors (ConfigManager.config s))
              (ConfigManager.cMaxRetries (ConfigManager.config s))) s).
Proof.
  intros fault url s Hu. unfold ConfigManager.setWebhookUrl.
  unfold acceptedUrl in Hu. rewrite Hu. reflexivity.
Qed.

Lemma setPollingInterval_run :
  forall fault n s,
    60 <= n <= 3600 ->
    ConfigManager.setPollingInterval URL_protocol fault n s
    = ConfigManager.save URL_protocol fault None
        (ConfigManager.withConfig
           (ConfigManager.mkConfigObject
              (ConfigManager.cWebhookUrl (ConfigManager.config s)) n
              (ConfigManager.cAuthors (ConfigManager.config s))
              (ConfigManager.cMaxRetries (ConfigManager.config s))) s).
Proof.
  intros fault n s Hn. unfold ConfigManager.setPollingInterval.
  apply validatePollingInterval_valid in Hn. rewrite Hn. reflexivity.
Qed.

Lemma applyUpdate_run :
  forall (faultUrl faultInterval : option JsError) (body : json)
         (s : ConfigManager.Store) (r : ConfigRoute.Response)
         (s' : ConfigManager.Store),
    ConfigRoute.applyUpdate URL_protocol faultUrl faultInterval body s = (r, s') ->
    ConfigManager.getAuthors s' = ConfigManager.getAuthors s
    /\ maxRetries (ConfigManager.getConfig s')
       = maxRetries (ConfigManager.getConfig s)
    /\ match r with
       | ConfigRoute.Success url n =>
           url = webhookUrl (ConfigManager.getConfig s')
           /\ n = pollingInterval (ConfigManager.getConfig s')
           /\ match json_prop "webhookUrl" body with
              | Some v =>
                  exists u, v = JStr u /\ acceptedUrl URL_protocol u
                            /\ url = trim u /\ faultUrl = None
              | None => url = webhookUrl (ConfigManager.getConfig s)
              end
           /\ match json_prop "pollingInterval" body with
              | Some v => v = JNum n /\ 60 <= n <= 3600 /\ faultInterval = None
              | None => n = pollingInterval (ConfigManager.getConfig s)
              end
       | ConfigRoute.Failure status code _ =>
           (status = 400 /\ s' = s)
           \/ (status = 500 /\ code = ConfigRoute.INTERNAL_ERROR
               /\ (faultUrl <> None \/ faultInterval <> None))
       end.
Proof.
  intros faultUrl faultInterval body s r s'. unfold ConfigRoute.applyUpdate.
  assert (Hrefused : forall status code message,
            (ConfigRoute.Failure status code message, s) = (r, s') ->
            status = 400 ->
            ConfigManager.getAuthors s' = ConfigManager.getAuthors s
            /\ maxRetries (ConfigManager.getConfig s')
               = maxRetries (ConfigManager.getConfig s)
            /\ match r with
               | ConfigRoute.Success _ _ => False
               | ConfigRoute.Failure status' _ _ => status' = 400 /\ s' = s
               end).
  { intros status code message H ->. injection H as <- <-.
    repeat split. }
  destruct (json_prop "webhookUrl" body) as [v|] eqn:Hurl;
    destruct (json_prop "pollingInterval" body) as [v'|] eqn:Hint;
    cbn [ConfigManager.valid ConfigManager.accepted negb].
  - (* both fields *)
    destruct (ConfigManager.valid (ConfigManager.validateUrl URL_protocol v))
      eqn:Hv; cbn [negb].
    2:{ intros H. destruct (Hrefused _ _ _ H eq_refl) as (H1 & H2 & H3).
        split; [exact H1|]. split; [exact H2|].
        destruct r; [destruct H3|left; exact H3]. }
    destruct (ConfigManager.valid (ConfigManager.validatePollingInterval v'))
      eqn:Hv'; cbn [negb].
    2:{ intros H. destruct (Hrefused _ _ _ H eq_refl) as (H1 & H2 & H3).
        split; [exact H1|]. split; [exact H2|].
        destruct r; [destruct H3|left; exact H3]. }
    clear Hrefused.
    destruct (validateUrl_string URL_protocol v Hv) as (u & -> & Hu).
    destruct (validatePollingInterval_number v' Hv') as (n & -> & Hn).
    cbn [ConfigManager.stringItem ConfigRoute.numberItem].
    rewrite (setWebhookUrl_run faultUrl u s Hu).
    destruct faultUrl as [e|]; unfold ConfigManager.save at 1.
    + intros H. injection H as <- <-.
      split; [reflexivity|]. split; [reflexivity|].
      right. repeat split. left. discriminate.
    + rewrite (setPollingInterval_run faultInterval n _ Hn).
      destruct faultInterval as [e|]; unfold ConfigManager.save;
        intros H; injection H as <- <-;
        (split; [reflexivity|]); (split; [reflexivity|]).
      * right. repeat split. right. discriminate.
      * repeat split; cbn; try lia. exists u. repeat split. exact Hu.
  - (* the webhook URL only *)
    destruct (ConfigManager.valid (ConfigManager.validateUrl URL_protocol v))
      eqn:Hv; cbn [negb].
    2:{ intros H. destruct (Hrefused _ _ _ H eq_refl) as (H1 & H2 & H3).
        split; [exact H1|]. split; [exact H2|].
        destruct r; [destruct H3|left; exact H3]. }
    destruct (validateUrl_string URL_protocol v Hv) as (u & -> & Hu).
    cbn [ConfigManager.stringItem].
    rewrite (setWebhookUrl_run faultUrl u s Hu).
    destruct faultUrl as [e|]; unfold ConfigManager.save;
      intros H; injection H as <- <-;
      (split; [reflexivity|]); (split; [reflexivity|]).
    + right. repeat split. left. discriminate.
    + repeat split. exists u. repeat split. exact Hu.
  - (* the polling interval only *)
    destruct (ConfigManager.valid (ConfigManager.validatePollingInterval v'))
      eqn:Hv'; cbn [negb].
    2:{ intros H. destruct (Hrefused _ _ _ H eq_refl) as (H1 & H2 & H3).
        split; [exact H1|]. split; [exact H2|].
        destruct r; [destruct H3|left; exact H3]. }
    destruct (validatePollingInterval_number v' Hv') as (n & -> & Hn).
    cbn [ConfigRoute.numberItem].
    rewrite (setPollingInterval_run faultInterval n s Hn).
    destruct faultInterval as [e|]; unfold ConfigManager.save;
      intros H; injection H as <- <-;
      (split; [reflexivity|]); (split; [reflexivity|]).
    + right. repeat split. right. discriminate.
    + repeat split; cbn; lia.
  - (* no field *)
    intros H. destruct (Hrefused _ _ _ H eq_refl) as (H1 & H2 & H3).
    split; [exact H1|]. split; [exact H2|].
    destruct r; [destruct H3|left; exact H3].
Qed.

(** X28.  What [PATCH /api/v1/config] answers, and what it leaves.
    Both fields are validated before either is applied: an answer of
    400 (no field given, or a field that its validator refuses) leaves
    the configuration and the file as they were, also when the other
    field was acceptable.  An answer of 200 means that every field
    given was accepted and written, the webhook URL trimmed, and that a
    field not given is as before; the answer carries the two values of
    the configuration.  500 is answered in two cases only: a request
    without a body ([req.body] is [undefined], or [null]), when reading
    the fields throws and nothing is changed, and a write that fails.
    In every case the authors and [maxRetries] are untouched. *)
Theorem patch_config_outcomes :
  forall (faultUrl faultInterval : option JsError) (body : option json)
         (s : ConfigManager.Store),
    let r := fst (ConfigRoute.patch URL_protocol faultUrl faultInterval body s) in
    let s' := snd (ConfigRoute.patch URL_protocol faultUrl faultInterval body s) in
    let field (name : string) : option json :=
      match body with Some update => json_prop name update | None => None end in
    ConfigManager.getAuthors s' = ConfigManager.getAuthors s
    /\ maxRetries (ConfigManager.getConfig s')
       = maxRetries (ConfigManager.getConfig s)
    /\ match r with
       | ConfigRoute.Success url n =>
           (exists update, body = Some update /\ update <> JNull)
           /\ url = webhookUrl (ConfigManager.getConfig s')
           /\ n = pollingInterval (ConfigManager.getConfig s')
           /\ match field "webhookUrl"%string with
              | Some v =>
                  exists u, v = JStr u /\ acceptedUrl URL_protocol u
                            /\ url = trim u /\ faultUrl = None
              | None => url = webhookUrl (ConfigManager.getConfig s)
              end
           /\ match field "pollingInterval"%string with
              | Some v => v = JNum n /\ 60 <= n <= 3600 /\ faultInterval = None
              | None => n = pollingInterval (ConfigManager.getConfig s)
              end
       | ConfigRoute.Failure status code _ =>
           (status = 400 /\ s' = s
            /\ exists update, body = Some update /\ update <> JNull)
           \/ (status = 500 /\ code = ConfigRoute.INTERNAL_ERROR
               /\ (body = None \/ body = Some JNull) /\ s' = s)
           \/ (status = 500 /\ code = ConfigRoute.INTERNAL_ERROR
               /\ (exists update, body = Some update /\ update <> JNull)
               /\ (faultUrl <> None \/ faultInterval <> None))
       end.
Proof.
  intros faultUrl faultInterval body s r s' field. subst r s' field.
  destruct body as [update|];
    [|cbn; split; [reflexivity|]; split; [reflexivity|];
      right; left; repeat split; now left].
  assert (Hnull : update = JNull \/ update <> JNull)
    by (destruct update; [now left|right; discriminate..]).
  destruct Hnull as [->|Hupdate];
    [cbn; split; [reflexivity|]; split; [reflexivity|];
     right; left; repeat split; now right|].
  assert (Hbody : exists update', Some update = Some update' /\ update' <> JNull)
    by (exists update; split; [reflexivity|exact Hupdate]).
  replace (ConfigRoute.patch URL_protocol faultUrl faultInterval (Some update) s)
    with (ConfigRoute.applyUpdate URL_protocol faultUrl faultInterval update s)
    by (destruct update; [contradiction|reflexivity..]).
  destruct (ConfigRoute.applyUpdate URL_protocol faultUrl faultInterval update s)
    as [r s'] eqn:Hpatch.
  cbn [fst snd].
  destruct (applyUpdate_run faultUrl faultInterval update s r s' Hpatch)
    as (Hauthors & Hretries & Hr).
  split; [exact Hauthors|]. split; [exact Hretries|].
  destruct r as [url n|status code message].
  - split; [exact Hbody|]. exact Hr.
  - destruct Hr as [(H400 & Hs)|(H500 & Hcode & Hfault)].
    + left. split; [exact H400|]. split; [exact Hs|exact Hbody].
    + right. right. split; [exact H500|]. split; [exact Hcode|].
      split; [exact Hbody|exact Hfault].
Qed.

End ConfigRouteFacts.
